(** * Token estimation benchmark: a shallow embedding of
      [scripts/token_estimation.py] and the properties of its core.

    The development follows the script top-down:
    - [Py]      : the Python values and exceptions the script manipulates
                  (outcomes of a call, strings and slices);
    - [Text]    : the corpus and [generate_lorem_text_by_chars];
    - [Float]   : Python floats as IEEE 754 binary64 values, on the
                  executable specification of the standard library;
    - [Stats]   : [sorted], [statistics.fmean], [statistics.pstdev] and
                  [summarize_counts];
    - [Counter] : the tokenizers and [get_anthropic_counter];
    - [Runner]  : [run_benchmark].
    The properties come after the definitions, in the same order. *)

From Stdlib Require Import ZArith List Strings.String Strings.Ascii Bool Lia.
From Stdlib Require Import Arith.PeanoNat Floats.SpecFloat QArith Qpower.
From Stdlib Require Import Numbers.DecimalString Qround.
From Stdlib Require Import Sorting.Sorted Sorting.Permutation.
Import ListNotations.

Set Implicit Arguments.

(* ================================================================== *)
(** * Python values, exceptions and outcomes                           *)
(* ================================================================== *)

Module Py.

(** The exceptions that the modelled code can raise. *)
Inductive exn : Type :=
| StatisticsError      (* statistics.fmean / pstdev on no data      *)
| IndexError           (* list index out of range, choice on empty  *)
| ZeroDivisionError    (* float division by zero                    *)
| OverflowError        (* int too large to convert to float         *)
| ValueError           (* cannot convert float NaN to integer       *)
| EncodingError.       (* tiktoken.get_encoding found no encoding   *)

(** Outcome of running a piece of Python code.  [Timeout] is the
    outcome of a loop that was given too little fuel; it is not a
    Python exception. *)
Inductive run (A : Type) : Type :=
| Ret (a : A)
| Raise (e : exn)
| Timeout.

Arguments Ret {A} a.
Arguments Raise {A} e.
Arguments Timeout {A}.

Definition bind {A B} (m : run A) (k : A -> run B) : run B :=
  match m with
  | Ret a => k a
  | Raise e => Raise e
  | Timeout => Timeout
  end.

Definition returns {A} (m : run A) : Prop := exists a, m = Ret a.
Definition raises {A} (m : run A) : Prop := exists e, m = Raise e.

(** The code ran to its end, by a [return] or by an exception. *)
Definition halts {A} (m : run A) : Prop := m <> Timeout.

(** What a caller gets from an outcome that carries a state too. *)
Definition value_of {A St} (m : run (A * St)) : run A :=
  match m with
  | Ret (a, _) => Ret a
  | Raise e => Raise e
  | Timeout => Timeout
  end.

(** [len(s)] *)
Definition len (s : string) : Z := Z.of_nat (String.length s).

(** [s[:k]] : Python clamps the stop index, and counts a negative one
    from the end of the string. *)
Definition slice_to (s : string) (k : Z) : string :=
  let n := len s in
  let stop := if (k <? 0)%Z then Z.max 0 (n + k) else Z.min k n in
  substring 0 (Z.to_nat stop) s.

(** [sep.join(ws)] *)
Definition join (sep : string) (ws : list string) : string :=
  String.concat sep ws.

End Py.

Notation "x <- m ;; k" := (Py.bind m (fun x => k))
  (at level 61, m at next level, right associativity).
Notation "' p <- m ;; k" := (Py.bind m (fun x => let p := x in k))
  (at level 61, p pattern, m at next level, right associativity).

(* ================================================================== *)
(** * The text generator                                               *)
(* ================================================================== *)

Module Text.
Import Py.
Open Scope string_scope.

Definition LOREM_WORDS : list string :=
  [ "lorem"; "ipsum"; "dolor"; "sit"; "amet"; "consectetur"; "adipiscing";
    "elit"; "sed"; "do"; "eiusmod"; "tempor"; "incididunt"; "ut"; "labore";
    "et"; "dolore"; "magna"; "aliqua"; "ut"; "enim"; "ad"; "minim"; "veniam";
    "quis"; "nostrud"; "exercitation"; "ullamco"; "laboris"; "nisi"; "ut";
    "aliquip"; "ex"; "ea"; "commodo"; "consequat"; "duis"; "aute"; "irure";
    "dolor"; "in"; "reprehenderit"; "in"; "voluptate"; "velit"; "esse";
    "cillum"; "dolore"; "eu"; "fugiat"; "nulla"; "pariatur"; "excepteur";
    "sint"; "occaecat"; "cupidatat"; "non"; "proident"; "sunt"; "in"; "culpa";
    "qui"; "officia"; "deserunt"; "mollit"; "anim"; "id"; "est"; "laborum" ].

(** A seeded pseudo-random source: [random.Random(seed)] builds its
    state, and the primitive [_randbelow(n)] returns an integer in
    [0, n) and the advanced state. *)
Class RandomSource (S : Type) : Type := {
  from_seed : Z -> S;
  randbelow : nat -> S -> nat * S;
  randbelow_lt : forall n s, (0 < n)%nat -> (fst (randbelow n s) < n)%nat
}.

(** A linear congruential generator, used to run the model. *)
Definition lcg_next (s : Z) : Z := ((s * 1103515245 + 12345) mod 2147483648)%Z.

#[export, refine] Instance lcg : RandomSource Z := {
  from_seed seed := (seed mod 2147483648)%Z;
  randbelow n s := (Z.to_nat (lcg_next s mod Z.of_nat n), lcg_next s)
}.
Proof.
  intros n s Hn; simpl.
  assert (0 <= lcg_next s mod Z.of_nat n < Z.of_nat n)%Z
    by (apply Z.mod_pos_bound; lia).
  lia.
Defined.

Section Generator.
Context {S : Type} `{RandomSource S}.

(** [rng.choice(seq)]: [seq[rng._randbelow(len(seq))]], [IndexError] on
    an empty sequence. *)
Definition choice (seq : list string) (rng : S) : run (string * S) :=
  match seq with
  | [] => Raise IndexError
  | _ =>
    let (i, rng') := randbelow (List.length seq) rng in
    match nth_error seq i with
    | Some w => Ret (w, rng')
    | None => Raise IndexError
    end
  end.

(** The [while True] loop of [generate_lorem_text_by_chars]; [fuel]
    bounds the number of iterations, [words] is the list built so far.
    The outcome carries the returned text and the advanced source. *)
Fixpoint generate_loop (fuel : nat) (target_chars : Z) (words : list string)
    (rng : S) : run (string * S) :=
  match fuel with
  | O => Timeout
  | Datatypes.S fuel' =>
    '(word, rng') <- choice LOREM_WORDS rng ;;
    let words' := (words ++ [word])%list in
    let text := join " " words' in
    if (target_chars <=? len text)%Z
    then Ret (slice_to text target_chars, rng')
    else generate_loop fuel' target_chars words' rng'
  end.

Definition generate_lorem_text_by_chars (fuel : nat) (target_chars : Z)
    (rng : S) : run (string * S) :=
  generate_loop fuel target_chars [] rng.

(** A sequence of calls on one source, one call per target, each call
    starting from the state the previous one left: the shape of
    [[generate_lorem_text_by_chars(chars, rng) for _ in range(trials)]]. *)
Fixpoint generate_all (fuel : nat) (targets : list Z) (rng : S)
    : run (list string * S) :=
  match targets with
  | [] => Ret ([], rng)
  | t :: ts =>
    '(text, rng1) <- generate_lorem_text_by_chars fuel t rng ;;
    '(texts, rng2) <- generate_all fuel ts rng1 ;;
    Ret (text :: texts, rng2)
  end.

End Generator.

(** Two sources, possibly of different implementations, are
    indistinguishable from related states when they draw the same
    numbers and stay related.  Equality of states of one source is such
    a relation. *)
Definition same_draws {S1 S2 : Type} `{RandomSource S1} `{RandomSource S2}
    (R : S1 -> S2 -> Prop) : Prop :=
  forall n s1 s2, R s1 s2 ->
    fst (randbelow n s1) = fst (randbelow n s2)
    /\ R (snd (randbelow n s1)) (snd (randbelow n s2)).

(** Outcomes that agree on what the caller observes: the same value
    (the same exception, the same timeout), with related sources. *)
Definition same_outcome {A S1 S2 : Type} (R : S1 -> S2 -> Prop)
    (r1 : run (A * S1)) (r2 : run (A * S2)) : Prop :=
  match r1, r2 with
  | Ret (a1, s1), Ret (a2, s2) => a1 = a2 /\ R s1 s2
  | Raise e1, Raise e2 => e1 = e2
  | Timeout, Timeout => True
  | _, _ => False
  end.

End Text.


(* ================================================================== *)
(** * Python floats                                                    *)
(* ================================================================== *)

(** A Python [float] is an IEEE 754 binary64 number.  The operations
    are those of [SpecFloat] at precision 53 and maximal exponent 1024,
    which round to nearest, ties to even; on top of them come the
    exceptions Python raises where IEEE arithmetic would return an
    infinity or a NaN. *)
Module Float.
Import Py.
Open Scope Z_scope.

Definition prec : Z := 53.
Definition emax : Z := 1024.

Definition float : Type := spec_float.

(** [0.0] *)
Definition zero : float := S754_zero false.

(** The literal [0.95]: the double nearest to 95/100. *)
Definition lit_0_95 : float := S754_finite false 8556839292003942 (-53).

(** The literal [1000.0]. *)
Definition lit_1000 : float := S754_finite false 8796093022208000 (-43).

Definition is_zero (x : float) : bool :=
  match x with S754_zero _ => true | _ => false end.

Definition is_finite (x : float) : bool :=
  match x with S754_zero _ | S754_finite _ _ _ => true | _ => false end.

(** [float(z)] and the implicit conversion of an [int] operand:
    correctly rounded, [OverflowError] beyond the largest double. *)
Definition of_int (z : Z) : run float :=
  match binary_normalize prec emax z 0 false with
  | S754_infinity _ => Raise OverflowError
  | f => Ret f
  end.

(** [x * y] *)
Definition mul (x y : float) : float := SFmul prec emax x y.

(** [x / y] on floats: [ZeroDivisionError] on a zero divisor. *)
Definition div (x y : float) : run float :=
  if is_zero y then Raise ZeroDivisionError
  else Ret (SFdiv prec emax x y).

(** [a / b] on ints (true division): the correctly rounded quotient,
    computed on the integers themselves. *)
Definition true_div (a b : Z) : run float :=
  if b =? 0 then Raise ZeroDivisionError
  else
    let negate := xorb (a <? 0) (b <? 0) in
    if a =? 0 then Ret (S754_zero negate)
    else
      let '(mz, ez, lz) :=
        SFdiv_core_binary prec emax (Z.abs a) 0 (Z.abs b) 0 in
      match binary_round_aux prec emax negate mz ez lz with
      | S754_infinity _ => Raise OverflowError
      | f => Ret f
      end.

(** [math.ceil(x)] *)
Definition ceil (x : float) : run Z :=
  match x with
  | S754_zero _ => Ret 0
  | S754_finite s m e =>
    let v := cond_Zopp s (Zpos m) in
    Ret (if 0 <=? e then v * 2 ^ e else - ((- v) / 2 ^ (- e)))
  | S754_infinity _ => Raise OverflowError
  | S754_nan => Raise ValueError
  end.

(** The integer a float stands for when it has no fractional part (the
    floor of its value in general); 0 on infinities and NaN. *)
Definition to_int_floor (x : float) : Z :=
  match x with
  | S754_finite s m e =>
    let v := cond_Zopp s (Zpos m) in
    if 0 <=? e then v * 2 ^ e else v / 2 ^ (- e)
  | _ => 0
  end.

(** [math.fsum(data)] on ints: every item is converted to a float, the
    floats are added without intermediate rounding and the sum is
    rounded once.  (The overflow of an intermediate partial sum, which
    CPython reports on data whose exact sum is representable, is beyond
    this model: it takes items of the order of the largest double.) *)
Fixpoint floats_of_ints (data : list Z) : run (list float) :=
  match data with
  | [] => Ret []
  | z :: data' =>
    x <- of_int z ;;
    xs <- floats_of_ints data' ;;
    Ret (x :: xs)
  end.

Definition fsum (data : list Z) : run float :=
  xs <- floats_of_ints data ;;
  of_int (fold_right Z.add 0 (map to_int_floor xs)).

(** The mantissa [m], whose position between two integers is [l],
    shifted right by [k] bits and rounded to nearest, ties to even. *)
Definition round_shift (m : Z) (l : location) (k : Z) : Z :=
  let mrs := fst (shr (shr_record_of_loc m l) 0 k) in
  round_nearest_even (shr_m mrs) (loc_of_shr_record mrs).

(** The float of sign [s], mantissa [m] and exponent [e], an infinity
    when the exponent is too large. *)
Definition pack (s : bool) (m e : Z) : float :=
  match m with
  | Z0 => S754_zero s
  | Zpos p => if e <=? emax - prec then S754_finite s p e else S754_infinity s
  | Zneg _ => S754_nan
  end.


(** A positive float in normal form (a mantissa of 53 digits) whose
    exponent lies between [lo] and [hi]. *)
Definition pos_normal (lo hi : Z) (x : float) : Prop :=
  exists m e,
    x = S754_finite false m e /\ Zdigits2 (Z.pos m) = 53 /\ lo <= e <= hi.

(** The exact value of a finite float, as a rational. *)
Definition to_Q (x : float) : Q :=
  match x with
  | S754_finite s m e => inject_Z (cond_Zopp s (Zpos m)) * Qpower 2 e
  | _ => 0
  end.

End Float.

(* ================================================================== *)
(** * The statistics summarizer                                        *)
(* ================================================================== *)

Module Stats.
Import Py.
Open Scope Z_scope.

Definition float : Type := Float.float.

Record SampleStats : Type := {
  size_label : string;
  model : string;
  provider : string;
  num_trials : Z;
  mean_tokens : float;
  p50_tokens : float;
  p95_tokens : float;
  stdev_tokens : float;
  mean_tokens_per_1k_chars : float
}.

(** [len(l)] on lists *)
Definition llen {A} (l : list A) : Z := Z.of_nat (List.length l).

(** [sorted(l)] on ints: the ascending rearrangement. *)
Fixpoint insert (x : Z) (l : list Z) : list Z :=
  match l with
  | [] => [x]
  | y :: l' => if x <=? y then x :: l else y :: insert x l'
  end.

Definition sorted (l : list Z) : list Z := fold_right insert [] l.

(** [l[i]]: a negative index counts from the end, [IndexError] out of
    range. *)
Definition getitem (l : list Z) (i : Z) : run Z :=
  let j := if i <? 0 then i + llen l else i in
  if j <? 0 then Raise IndexError
  else match nth_error l (Z.to_nat j) with
       | Some x => Ret x
       | None => Raise IndexError
       end.

(** [statistics.fmean(data)] on a list of ints. *)
Definition fmean (data : list Z) : run float :=
  let n := llen data in
  total <- Float.fsum data ;;
  if n =? 0 then Raise StatisticsError
  else
    n_f <- Float.of_int n ;;
    Float.div total n_f.

(** [n.bit_length()] *)
Definition bit_length (n : Z) : Z :=
  if n =? 0 then 0 else Z.log2 (Z.abs n) + 1.

(** [statistics._integer_sqrt_of_frac_rto(n, m)]: the integer square
    root of [n/m], with the last bit set when it is not exact. *)
Definition integer_sqrt_of_frac_rto (n m : Z) : Z :=
  let a := Z.sqrt (n / m) in
  Z.lor a (if a * a * m =? n then 0 else 1).

(** [statistics._float_sqrt_of_frac(n, m)] *)
Definition float_sqrt_of_frac (n m : Z) : run float :=
  let q := (bit_length n - bit_length m - 109) / 2 in
  if 0 <=? q then
    Float.true_div
      (Z.shiftl (integer_sqrt_of_frac_rto n (Z.shiftl m (2 * q))) q) 1
  else
    Float.true_div
      (integer_sqrt_of_frac_rto (Z.shiftl n (- 2 * q)) m)
      (Z.shiftl 1 (- q)).

Definition sum (l : list Z) : Z := fold_right Z.add 0 l.

Definition sumsq (l : list Z) : Z := sum (map (fun x => x * x) l).

(** The exact population variance of a list of ints, as CPython's
    [statistics._ss] computes it on fractions and [pstdev] divides it:
    [(n * sum(x*x) - sum(x)**2) / n / n], as a numerator and a
    denominator in lowest terms. *)
Definition pvariance_frac (data : list Z) : Z * Z :=
  let n := llen data in
  let sx := sum data in
  let sxx := sumsq data in
  let num := n * sxx - sx * sx in
  let den := n * n in
  let g := Z.gcd num den in
  (num / g, den / g).

(** [statistics.pstdev(data)] on a list of ints (CPython 3.11 and
    later): the correctly rounded square root of the exact population
    variance. *)
Definition pstdev (data : list Z) : run float :=
  if llen data <? 1 then Raise StatisticsError
  else
    let '(num, den) := pvariance_frac data in
    float_sqrt_of_frac num den.

(** The index of the 95th percentile in exact arithmetic:
    [max(0, ceil(0.95 * n) - 1)] on rationals. *)
Definition p95_index_exact (n : Z) : Z :=
  Z.max 0 (Qceiling ((95 # 100) * inject_Z n)%Q - 1).

(** The population variance in exact arithmetic: the mean of the
    squared deviations from the mean, the sum of squares being divided
    by [n] (and not by [n - 1]). *)
Definition mean_exact (data : list Z) : Q :=
  (inject_Z (sum data) / inject_Z (llen data))%Q.

Definition population_variance (data : list Z) : Q :=
  (fold_right Qplus 0
     (map (fun x => (inject_Z x - mean_exact data) ^ 2) data)
   / inject_Z (llen data))%Q.

Definition summarize_counts (size_label provider model : string)
    (counts : list Z) (chars : Z) : run SampleStats :=
  let counts_sorted := sorted counts in
  mean_tokens <- fmean counts ;;
  p50 <- getitem counts_sorted (llen counts_sorted / 2) ;;
  n_f <- Float.of_int (llen counts_sorted) ;;
  c <- Float.ceil (Float.mul Float.lit_0_95 n_f) ;;
  let p95_index := Z.max 0 (c - 1) in
  p95 <- getitem counts_sorted p95_index ;;
  stdev_tokens <-
    (if 1 <? llen counts then pstdev counts else Ret Float.zero) ;;
  chars_f <- Float.of_int chars ;;
  per_1k <- Float.div chars_f Float.lit_1000 ;;
  mean_per_1k_chars <- Float.div mean_tokens per_1k ;;
  p50_f <- Float.of_int p50 ;;
  p95_f <- Float.of_int p95 ;;
  Ret {| size_label := size_label;
         model := model;
         provider := provider;
         num_trials := llen counts;
         mean_tokens := mean_tokens;
         p50_tokens := p50_f;
         p95_tokens := p95_f;
         stdev_tokens := stdev_tokens;
         mean_tokens_per_1k_chars := mean_per_1k_chars |}.

End Stats.

(* ================================================================== *)
(** * Token counters                                                   *)
(* ================================================================== *)

Module Counter.
Import Py.
Open Scope Z_scope.
Open Scope string_scope.

(** The [tiktoken] package, as the script uses it: the encoding of a
    model and the encoding of a name ([None] where [tiktoken] raises),
    and [Encoding.encode], which returns the token ids of a text.
    [encode] is total: the generated texts are made of corpus words and
    spaces, which contain no special token. *)
Class Tiktoken (Enc : Type) : Type := {
  encoding_for_model : string -> option Enc;
  get_encoding : string -> option Enc;
  encode : Enc -> string -> list Z
}.

(** What the process finds at start-up: whether [import anthropic]
    succeeded, and [os.environ.get("ANTHROPIC_API_KEY")]. *)
Record Environment : Type := {
  anthropic_sdk : bool;
  ANTHROPIC_API_KEY : option string
}.

(** Truth value of an [Optional[str]]: [None] and the empty string are false. *)
Definition truthy (k : option string) : bool :=
  match k with
  | Some s => negb (s =? EmptyString)
  | None => false
  end.

(** [a or b] *)
Definition py_or (a b : option string) : option string :=
  if truthy a then a else b.

(** The result of one live attempt, that is of the body of the [try]:
    the converted [resp.input_tokens], or the raising of an
    [Exception] (by the request or by the conversion). *)
Inductive attempt : Type :=
| Counted (input_tokens : Z)
| Failed.

(** The Count Tokens service: a call is made with the key of the
    client, a model and a text; it answers and moves the outside world
    (of type [Net]) to a new state. *)
Class CountTokensAPI (Net : Type) : Type := {
  count_tokens : string -> string -> string -> Net -> attempt * Net
}.

Section Counters.
Context {Enc : Type} `{Tiktoken Enc}.
Context {Net : Type} `{CountTokensAPI Net}.

Definition get_encoding_or_raise (name : string) : run Enc :=
  match get_encoding name with
  | Some enc => Ret enc
  | None => Raise EncodingError
  end.

Definition get_openai_encoder_for_model (model : string) : run Enc :=
  match encoding_for_model model with
  | Some enc => Ret enc
  | None =>
    match get_encoding "o200k_base" with
    | Some enc => Ret enc
    | None => get_encoding_or_raise "cl100k_base"
    end
  end.

Definition count_tokens_openai (model text : string) : run Z :=
  enc <- get_openai_encoder_for_model model ;;
  Ret (Z.of_nat (List.length (encode enc text))).

(** The two closures that [get_anthropic_counter] can return, with what
    they capture. *)
Inductive counter : Type :=
| count_live (client_key : string) (approx_enc : Enc)
| count_approx (approx_enc : Enc).

(** Calling the bound counter on [(model, text)]. *)
Definition call (c : counter) (model text : string) (net : Net) : Z * Net :=
  match c with
  | count_live key approx_enc =>
    match count_tokens key model text net with
    | (Counted input_tokens, net') => (input_tokens, net')
    | (Failed, net') => (Z.of_nat (List.length (encode approx_enc text)), net')
    end
  | count_approx approx_enc =>
    (Z.of_nat (List.length (encode approx_enc text)), net)
  end.

Definition effective_key (env : Environment) (api_key : option string)
    : option string :=
  py_or api_key (ANTHROPIC_API_KEY env).

Definition get_anthropic_counter (env : Environment)
    (api_key : option string) : run counter :=
  let env_key := ANTHROPIC_API_KEY env in
  let effective_key := py_or api_key env_key in
  match anthropic_sdk env && truthy effective_key, effective_key with
  | true, Some key =>
    approx_enc <- get_encoding_or_raise "cl100k_base" ;;
    Ret (count_live key approx_enc)
  | _, _ =>
    approx_enc <- get_encoding_or_raise "cl100k_base" ;;
    Ret (count_approx approx_enc)
  end.

(** [[c(model, t) for t in texts]] *)
Fixpoint call_all (c : counter) (model : string) (texts : list string)
    (net : Net) : list Z * Net :=
  match texts with
  | [] => ([], net)
  | t :: ts =>
    let (n, net1) := call c model t net in
    let (ns, net2) := call_all c model ts net1 in
    (n :: ns, net2)
  end.

(** [[count_tokens_openai(model, t) for t in texts]] *)
Fixpoint count_all_openai (model : string) (texts : list string)
    : run (list Z) :=
  match texts with
  | [] => Ret []
  | t :: ts =>
    n <- count_tokens_openai model t ;;
    ns <- count_all_openai model ts ;;
    Ret (n :: ns)
  end.

End Counters.

(** A toy tokenizer, used to run the model: one token per character,
    one encoding, known under the two base names. *)
#[export] Instance char_tokenizer : Tiktoken unit := {
  encoding_for_model model := if prefix "gpt-4" model then Some tt else None;
  get_encoding name :=
    if (name =? "cl100k_base") || (name =? "o200k_base") then Some tt
    else None;
  encode _ text :=
    map (fun c => Z.of_nat (nat_of_ascii c)) (list_ascii_of_string text)
}.

(** A service that is always down, and one that answers with the
    number of characters plus a fixed overhead; the state of the world
    is the number of calls made so far. *)
Definition api_down : CountTokensAPI nat :=
  {| count_tokens _ _ _ calls := (Failed, Datatypes.S calls) |}.

Definition api_up : CountTokensAPI nat :=
  {| count_tokens _ _ text calls := (Counted (len text + 7), Datatypes.S calls) |}.

End Counter.

(* ================================================================== *)
(** * The benchmark runner                                             *)
(* ================================================================== *)

Module Runner.
Import Py Text Stats Counter.
Open Scope Z_scope.
Open Scope string_scope.

(** [f"{chars} chars"] *)
Definition size_label_of (chars : Z) : string :=
  NilZero.string_of_int (Z.to_int chars) ++ " chars".

(** The (size, provider, model) combination a row stands for. *)
Definition row_key (r : SampleStats) : string * string * string :=
  (size_label r, provider r, model r).

(** The combinations a run is asked for, in the order of the input:
    size by size, the OpenAI models before the Anthropic models. *)
Definition requested (sizes : list Z)
    (openai_models anthropic_models : list string)
    : list (string * string * string) :=
  flat_map
    (fun chars =>
       map (fun m => (size_label_of chars, "openai", m)) openai_models
       ++ map (fun m => (size_label_of chars, "anthropic", m))
              anthropic_models)%list
    sizes.

Section Runner.
Context {S : Type} `{RandomSource S}.
Context {Enc : Type} `{Tiktoken Enc}.
Context {Net : Type} `{CountTokensAPI Net}.

(** The loop over [openai_models] for one size; [results] is the list
    the rows are appended to. *)
Fixpoint openai_rows (size_label : string) (chars : Z) (texts : list string)
    (models : list string) (results : list SampleStats)
    : run (list SampleStats) :=
  match models with
  | [] => Ret results
  | model :: models' =>
    counts <- count_all_openai model texts ;;
    row <- summarize_counts size_label "openai" model counts chars ;;
    openai_rows size_label chars texts models' (results ++ [row])
  end.

(** The loop over [anthropic_models] for one size. *)
Fixpoint anthropic_rows (anthropic_counter : counter (Enc := Enc))
    (size_label : string) (chars : Z) (texts : list string)
    (models : list string) (net : Net) (results : list SampleStats)
    : run (list SampleStats * Net) :=
  match models with
  | [] => Ret (results, net)
  | model :: models' =>
    let (counts, net') := call_all anthropic_counter model texts net in
    row <- summarize_counts size_label "anthropic" model counts chars ;;
    anthropic_rows anthropic_counter size_label chars texts models' net'
      (results ++ [row])
  end.

(** The loop over [sizes]. *)
Fixpoint sizes_loop (fuel : nat) (anthropic_counter : counter (Enc := Enc))
    (trials : Z) (openai_models anthropic_models : list string)
    (sizes : list Z) (rng : S) (net : Net) (results : list SampleStats)
    : run (list SampleStats * Net) :=
  match sizes with
  | [] => Ret (results, net)
  | chars :: sizes' =>
    let size_label := size_label_of chars in
    '(texts, rng') <-
      generate_all fuel (repeat chars (Z.to_nat trials)) rng ;;
    results1 <- openai_rows size_label chars texts openai_models results ;;
    '(results2, net') <-
      anthropic_rows anthropic_counter size_label chars texts
        anthropic_models net results1 ;;
    sizes_loop fuel anthropic_counter trials openai_models anthropic_models
      sizes' rng' net' results2
  end.

(** [run_benchmark]; [fuel] bounds the iterations of each call of the
    text generator, [env] and [net] are the process environment and
    the state of the outside world when the run starts. *)
Definition run_benchmark (fuel : nat) (env : Environment) (net : Net)
    (sizes : list Z) (trials : Z)
    (openai_models anthropic_models : list string)
    (seed : Z) (anthropic_api_key : option string)
    : run (list SampleStats * Net) :=
  let rng : S := from_seed seed in
  let results : list SampleStats := [] in
  anthropic_counter <- get_anthropic_counter env anthropic_api_key ;;
  sizes_loop fuel anthropic_counter trials openai_models anthropic_models
    sizes rng net results.

(** What a run relies on: [tiktoken] knows its base encoding, and a
    text of fewer than [2^52] characters has fewer than [2^53] tokens,
    for the encodings as for the service (a token spans a character at
    least, and the service adds a few tokens of its own). *)
Definition tokenizer_ready : Prop :=
  (exists enc : Enc, get_encoding "cl100k_base" = Some enc)
  /\ (forall (enc : Enc) text,
        len text < 2 ^ 52 ->
        Z.of_nat (List.length (encode enc text)) < 2 ^ 53).

Definition service_sane : Prop :=
  forall key model text (net : Net) n,
    len text < 2 ^ 52 ->
    fst (count_tokens key model text net) = Counted n -> 0 <= n < 2 ^ 53.

(** The service is down: every live attempt fails. *)
Definition service_down : Prop :=
  forall key model text (net : Net),
    fst (count_tokens key model text net) = Failed.

End Runner.

End Runner.

From Stdlib Require DecimalPos.

(* ================================================================== *)
(** * Observations on the generator, the summarizer and the runner     *)
(* ================================================================== *)

(** What one can watch of the code at work: the words a source hands
    out, the rank of a count among the others, the texts a run
    generates and the requests it sends to the service. *)
Module Observe.
Import Py Text Stats Counter.
Open Scope Z_scope.

Section Draws.
Context {S : Type} `{RandomSource S}.

(** The state of a source after [k] calls of [rng.choice(LOREM_WORDS)]. *)
Fixpoint advance (k : nat) (rng : S) : S :=
  match k with
  | O => rng
  | Datatypes.S k' =>
    advance k' (snd (randbelow (List.length LOREM_WORDS) rng))
  end.

(** The words that [k] successive calls of [rng.choice(LOREM_WORDS)]
    return. *)
Fixpoint drawn (k : nat) (rng : S) : list string :=
  match k with
  | O => []
  | Datatypes.S k' =>
    match choice LOREM_WORDS rng with
    | Ret (w, rng') => w :: drawn k' rng'
    | _ => []
    end
  end.

(** The texts a run generates, size by size: [trials] texts for each
    size, all from the one source. *)
Fixpoint trial_texts (fuel : nat) (trials : Z) (sizes : list Z) (rng : S)
    : run (list (list string)) :=
  match sizes with
  | [] => Ret []
  | chars :: sizes' =>
    '(texts, rng') <-
      generate_all fuel (repeat chars (Z.to_nat trials)) rng ;;
    rest <- trial_texts fuel trials sizes' rng' ;;
    Ret (texts :: rest)
  end.

End Draws.

(** A lower-case letter of the Latin alphabet, or a space. *)
Definition lower_or_space (c : ascii) : bool :=
  let n := nat_of_ascii c in
  (n =? 32)%nat || ((97 <=? n)%nat && (n <=? 122)%nat).

Definition is_space (c : ascii) : bool := (nat_of_ascii c =? 32)%nat.

(** No two spaces in a row. *)
Fixpoint single_spaced (s : string) : bool :=
  match s with
  | String a ((String b _) as s') =>
    negb (is_space a && is_space b) && single_spaced s'
  | _ => true
  end.

(** The text does not begin with a space. *)
Definition starts_unspaced (s : string) : bool :=
  match s with
  | String c _ => negb (is_space c)
  | EmptyString => true
  end.

(** How many items of [l] are at most [x], and how many are below. *)
Definition count_le (x : Z) (l : list Z) : Z :=
  llen (filter (fun y => y <=? x) l).

Definition count_lt (x : Z) (l : list Z) : Z :=
  llen (filter (fun y => y <? x) l).

(** [max(l)], for a non-empty list. *)
Definition maximum (l : list Z) : Z :=
  match l with
  | [] => 0
  | x :: l' => fold_right Z.max x l'
  end.

(** The numbers of a row: everything but its labels. *)
Definition numbers (r : SampleStats)
    : Z * float * float * float * float * float :=
  (num_trials r, mean_tokens r, p50_tokens r, p95_tokens r,
   stdev_tokens r, mean_tokens_per_1k_chars r).

(** The rows of one provider, in their order. *)
Definition by_provider (pv : string) (rows : list SampleStats)
    : list SampleStats :=
  filter (fun r => (provider r =? pv)%string) rows.

(** A request to the Count Tokens service: the key of the client, the
    model and the text. *)
Definition request : Type := string * string * string.

(** A service that keeps the log of the requests it receives, on top
    of any service. *)
Definition recording {Net : Type} (api : CountTokensAPI Net)
    : CountTokensAPI (list request * Net) :=
  {| count_tokens key model text world :=
       let (answer, net') :=
         @count_tokens Net api key model text (snd world) in
       (answer, ((fst world ++ [(key, model, text)])%list, net')) |}.

(** The requests a bound counter sends when it is called on each of
    [texts] for [model]: one per text for a live counter, none for the
    approximate one. *)
Definition sent {Enc : Type} (c : counter (Enc := Enc)) (model : string)
    (texts : list string) : list request :=
  match c with
  | count_live key _ => map (fun t => (key, model, t)) texts
  | count_approx _ => []
  end.

(** The requests of a live run, from the texts generated for each
    size: model by model, and text by text for each model. *)
Definition requests_for (key : string) (models : list string)
    (textss : list (list string)) : list request :=
  flat_map
    (fun texts =>
       flat_map (fun m => map (fun t => (key, m, t)) texts) models)
    textss.

End Observe.

(* ================================================================== *)
(** * Reporting: the table and the CSV export                          *)
(* ================================================================== *)

(** The formatting that the two reporting functions rely on:
    [str(int)], the alignment of a field in a width, [str * n], and
    the fixed-point format of a float ([format(x, ".4f")]), which
    CPython rounds correctly (to nearest, ties to even) from the exact
    value of the double. *)
Module Format.
Import Py.
Open Scope Z_scope.

Definition float : Type := Float.float.

(** The characters that the literals of the script escape. *)
Definition LF : ascii := "010"%char.
Definition CR : ascii := "013"%char.
Definition QUOTE : ascii := "034"%char.
Definition COMMA : ascii := ","%char.

Definition str_of_char (c : ascii) : string := String c EmptyString.

(** [str(z)] *)
Definition str_of_int (z : Z) : string :=
  NilZero.string_of_int (Z.to_int z).

(** [s * n] *)
Fixpoint times (s : string) (n : nat) : string :=
  match n with
  | O => EmptyString
  | S n' => (s ++ times s n')%string
  end.

(** [format(s, ">w")] and [format(s, "<w")]: spaces up to the width,
    nothing cut off. *)
Definition align_right (w : nat) (s : string) : string :=
  (times " " (w - String.length s) ++ s)%string.

Definition align_left (w : nat) (s : string) : string :=
  (s ++ times " " (w - String.length s))%string.

(** [a / b] rounded to the nearest integer, ties to even, for
    [0 <= a] and [0 < b]. *)
Definition div_half_even (a b : Z) : Z :=
  let q := a / b in
  let r := a mod b in
  if 2 * r <? b then q
  else if b <? 2 * r then q + 1
  else if Z.even q then q else q + 1.

(** The magnitude of a float in units of [10^-p], rounded. *)
Definition scaled (p : nat) (x : float) : Z :=
  match x with
  | S754_finite _ m e =>
    let num := Z.pos m * 10 ^ Z.of_nat p in
    if 0 <=? e then num * 2 ^ e else div_half_even num (2 ^ (- e))
  | _ => 0
  end.

(** The digits of [n] units of [10^-p]: at least one digit before the
    point, [p] digits after it, and no point when [p] is 0. *)
Definition fixed (p : nat) (n : Z) : string :=
  let ds := str_of_int n in
  let ds := (times "0" (Datatypes.S p - String.length ds) ++ ds)%string in
  let k := (String.length ds - p)%nat in
  match p with
  | O => ds
  | _ => (substring 0 k ds ++ "." ++ substring k p ds)%string
  end.

Definition sign_of (x : float) : bool :=
  match x with
  | S754_zero s | S754_infinity s | S754_finite s _ _ => s
  | S754_nan => false
  end.

(** [format(x, ".pf")] *)
Definition format_f (p : nat) (x : float) : string :=
  match x with
  | S754_nan => "nan"
  | S754_infinity s => if s then "-inf" else "inf"
  | _ => ((if sign_of x then "-" else EmptyString) ++ fixed p (scaled p x))%string
  end.

(** The number that a text in fixed-point notation with [p] decimals
    stands for: an optional minus sign, then digits, with a point
    before the last [p] digits when [p] is not 0. *)
Definition read_fixed (p : nat) (s : string) : option Q :=
  let negative := prefix "-" s in
  let body := if negative then substring 1 (String.length s - 1) s else s in
  let k := (String.length body - p - match p with O => 0 | _ => 1 end)%nat in
  let point :=
    match p with
    | O => true
    | _ => (substring k 1 body =? ".")%string
    end in
  if point then
    match NilEmpty.uint_of_string
            (substring 0 k body ++ substring (String.length body - p) p body)
    with
    | Some d =>
      Some (Qmake ((if negative then -1 else 1) * Z.of_uint d)
                  (Z.to_pos (10 ^ Z.of_nat p)))
    | None => None
    end
  else None.

End Format.

Module Report.
Import Py Stats Format.
Open Scope string_scope.

(** ** [print_results_table] *)

(** [print(s)] on a standard output that holds [out]. *)
Definition print (out s : string) : string :=
  out ++ s ++ str_of_char LF.

Definition header : list string :=
  [ "Size"; "Provider"; "Model"; "Trials"; "MeanTokens"; "P50"; "P95";
    "Stdev"; "MeanTok/1kChars" ].

(** [row_fmt.format(...)] for one record. *)
Definition row_line (r : SampleStats) : string :=
  align_right 10 (size_label r) ++ "  "
  ++ align_right 9 (provider r) ++ "  "
  ++ align_left 30 (model r) ++ "  "
  ++ align_right 6 (str_of_int (num_trials r)) ++ "  "
  ++ align_right 10 (format_f 1 (mean_tokens r)) ++ "  "
  ++ align_right 6 (format_f 0 (p50_tokens r)) ++ "  "
  ++ align_right 6 (format_f 0 (p95_tokens r)) ++ "  "
  ++ align_right 7 (format_f 1 (stdev_tokens r)) ++ "  "
  ++ align_right 14 (format_f 1 (mean_tokens_per_1k_chars r)).

(** The standard output after [print_results_table(results)], from
    what it held before. *)
Definition print_results_table (results : list SampleStats) (out : string)
    : string :=
  let out := print out (str_of_char LF ++ join " " header) in
  let out := print out (times "-" 108) in
  fold_left (fun out r => print out (row_line r)) results out.

(** ** [write_results_csv] *)

(** [csv.writer(f)] with the default dialect: a field is quoted when
    it holds the delimiter, the quote character or a character of the
    line terminator, and its quote characters are doubled; a record
    that is a single empty field is written as two quote characters;
    records end with CR LF. *)
Definition special (c : ascii) : bool :=
  (c =? COMMA)%char || (c =? QUOTE)%char || (c =? CR)%char || (c =? LF)%char.

Fixpoint double_quotes (s : string) : string :=
  match s with
  | EmptyString => EmptyString
  | String c s' =>
    if (c =? QUOTE)%char then String QUOTE (String QUOTE (double_quotes s'))
    else String c (double_quotes s')
  end.

Definition csv_field (s : string) : string :=
  if existsb special (list_ascii_of_string s)
  then str_of_char QUOTE ++ double_quotes s ++ str_of_char QUOTE
  else s.

Definition CRLF : string := String CR (String LF EmptyString).

(** A field that the writer leaves as it is. *)
Definition plain (s : string) : bool :=
  negb (existsb special (list_ascii_of_string s)).

(** How many times a character occurs in a text. *)
Definition occurrences (c : ascii) (s : string) : nat :=
  List.length (filter (Ascii.eqb c) (list_ascii_of_string s)).

Definition writerow (fields : list string) : string :=
  match fields with
  | [EmptyString] => str_of_char QUOTE ++ str_of_char QUOTE ++ CRLF
  | _ => join (str_of_char COMMA) (map csv_field fields) ++ CRLF
  end.

Definition csv_header : list string :=
  [ "size_label"; "provider"; "model"; "num_trials"; "mean_tokens";
    "p50_tokens"; "p95_tokens"; "stdev_tokens";
    "mean_tokens_per_1k_chars" ].

Definition csv_row (r : SampleStats) : list string :=
  [ size_label r; provider r; model r; str_of_int (num_trials r);
    format_f 4 (mean_tokens r); format_f 4 (p50_tokens r);
    format_f 4 (p95_tokens r); format_f 4 (stdev_tokens r);
    format_f 4 (mean_tokens_per_1k_chars r) ].

(** What the writer has written when the loop ends. *)
Definition csv_text (results : list SampleStats) : string :=
  fold_left (fun text r => text ++ writerow (csv_row r)) results
            (writerow csv_header).

(** The files of the process: their contents by path, and the paths
    that [open(path, "w")] refuses (a missing directory, a directory,
    a file without the permission to write, ...). *)
Record FileSystem : Type := {
  contents : string -> option string;
  refused : string -> bool
}.

(** The file system after a file was written in full. *)
Definition store (path text : string) (fs : FileSystem) : FileSystem :=
  {| contents := fun p => if (p =? path)%string then Some text
                          else contents fs p;
     refused := refused fs |}.

(** [write_results_csv(results, csv_path)]: [None] stands for the
    [OSError] of [open]; the writes themselves are taken not to fail,
    so that the file is either not touched or written in full. *)
Definition write_results_csv (results : list SampleStats) (csv_path : string)
    (fs : FileSystem) : option FileSystem :=
  if refused fs csv_path then None
  else Some (store csv_path (csv_text results) fs).

End Report.

(* ================================================================== *)
(** * The command line                                                 *)
(* ================================================================== *)

Module Cli.
Import Py Text Stats Counter Runner Format Report.
Open Scope string_scope.

(** The [argparse.Namespace] that [parse_args] returns. *)
Record Namespace : Type := {
  sizes : list Z;
  trials : Z;
  seed : Z;
  openai_models : list string;
  anthropic_models : list string;
  anthropic_api_key : option string;
  csv : option string
}.

(** What a call of [parse_args(argv)] comes to: the namespace, or the
    [SystemExit] by which [argparse] leaves after it printed its help
    (on the standard output) or its complaint (on the standard error,
    which is not modelled). *)
Inductive parsed : Type :=
| Parsed (args : Namespace)
| Exited (code : Z) (printed : string).

(** [parse_args] itself is [argparse] at work on the command line of
    the process; it is a parameter of the model. *)
Class ArgumentParser : Type := {
  parse_args : option (list string) -> parsed
}.

(** The exceptions that leave [main]. *)
Inductive exn : Type :=
| SystemExit (code : Z)
| OSError
| Benchmark (e : Py.exn).

(** What the process shows and keeps: its standard output and its
    files. *)
Record Process : Type := {
  stdout : string;
  files : FileSystem
}.

Section Main.
Context {S : Type} `{RandomSource S}.
Context {Enc : Type} `{Tiktoken Enc}.
Context {Net : Type} `{CountTokensAPI Net}.
Context `{ArgumentParser}.

(** How a call of [main] ends: by [return] (with the state the
    service is left in), by an exception, or short of fuel in the
    text generator. *)
Inductive outcome : Type :=
| Returned (code : Z) (net : Net)
| Raised (e : exn)
| OutOfFuel.

(** [main(argv)], from the state of the service and of the process
    when it is called; the process is returned as the call leaves
    it, however it ends. *)
Definition main (fuel : nat) (env : Environment)
    (argv : option (list string)) (net : Net) (proc : Process)
    : outcome * Process :=
  match parse_args argv with
  | Exited code printed =>
    (Raised (SystemExit code),
     {| stdout := stdout proc ++ printed; files := files proc |})
  | Parsed args =>
    match run_benchmark (S := S) fuel env net (sizes args) (trials args)
            (openai_models args) (anthropic_models args) (seed args)
            (anthropic_api_key args) with
    | Raise e => (Raised (Benchmark e), proc)
    | Timeout => (OutOfFuel, proc)
    | Ret (results, net') =>
      let out := print_results_table results (stdout proc) in
      match csv args with
      | Some csv_path =>
        if truthy (Some csv_path) then
          match write_results_csv results csv_path (files proc) with
          | None => (Raised OSError, {| stdout := out; files := files proc |})
          | Some fs' =>
            (Returned 0 net',
             {| stdout := print out (str_of_char LF ++ "Wrote CSV to "
                                     ++ csv_path);
                files := fs' |})
          end
        else (Returned 0 net', {| stdout := out; files := files proc |})
      | None => (Returned 0 net', {| stdout := out; files := files proc |})
      end
    end
  end.

End Main.

(** A parser that hands out a given namespace, used to run the
    model. *)
Definition parser_of (args : Namespace) : ArgumentParser :=
  {| parse_args _ := Parsed args |}.

(** An installation of [tiktoken] that knows an encoding for every
    model but cannot load the base encodings, used to run the model. *)
Definition models_only : Tiktoken unit :=
  {| encoding_for_model _ := Some tt;
     get_encoding _ := None;
     encode _ text := map (fun c => Z.of_nat (nat_of_ascii c))
                          (list_ascii_of_string text) |}.

(** A file system with no file, in which one path cannot be opened. *)
Definition empty_but (locked : string) : FileSystem :=
  {| contents := fun _ => None;
     refused := fun p => (p =? locked)%string |}.

End Cli.
(* ================================================================== *)
(** * Properties of the text generator                                 *)
(* ================================================================== *)

Section StringFacts.
Import Py.
Open Scope string_scope.

Lemma length_substring_0 (m : nat) (s : string) :
  String.length (substring 0 m s) = Nat.min m (String.length s).
Proof.
  revert m; induction s as [|c s IH]; intros [|m]; simpl; auto.
Qed.

Lemma length_app (s t : string) :
  String.length (s ++ t) = (String.length s + String.length t)%nat.
Proof. induction s; simpl; auto. Qed.

Lemma str_app_assoc (s t u : string) : (s ++ t) ++ u = s ++ t ++ u.
Proof. induction s; simpl; [reflexivity|f_equal; assumption]. Qed.

Lemma len_nonneg (s : string) : (0 <= len s)%Z.
Proof. unfold len; lia. Qed.

Lemma len_slice_to (s : string) (k : Z) :
  (0 <= k <= len s)%Z -> len (slice_to s k) = k.
Proof.
  intros Hk. unfold slice_to.
  destruct (Z.ltb_spec k 0); [lia|].
  unfold len in *. rewrite length_substring_0. lia.
Qed.

Lemma slice_to_prefix (s : string) (k : Z) :
  (0 <= k)%Z -> slice_to s k = substring 0 (Z.to_nat k) s.
Proof.
  intros Hk. unfold slice_to.
  destruct (Z.ltb_spec k 0); [lia|].
  destruct (Z.le_ge_cases k (len s)).
  - now rewrite Z.min_l.
  - rewrite Z.min_r by assumption.
    assert (Hall : forall m n t, (String.length t <= m)%nat ->
                     (String.length t <= n)%nat ->
                     substring 0 m t = substring 0 n t).
    { intros m n t; revert m n; induction t as [|c t IH];
        intros [|m] [|n]; simpl; intros; try lia; auto.
      f_equal. apply IH; lia. }
    apply Hall; unfold len in *; lia.
Qed.

Lemma substring_0_prefix (m : nat) (s : string) :
  prefix (substring 0 m s) s = true.
Proof.
  revert m; induction s as [|c s IH]; intros [|m]; simpl; auto.
  destruct (ascii_dec c c); [apply IH | congruence].
Qed.

Lemma join_single (sep w : string) : join sep [w] = w.
Proof. reflexivity. Qed.

Lemma join_snoc (sep w : string) (ws : list string) :
  ws <> [] -> join sep (ws ++ [w]) = join sep ws ++ sep ++ w.
Proof.
  induction ws as [|a ws IH]; [congruence|intros _].
  destruct ws as [|b ws].
  - reflexivity.
  - assert (Hne : b :: ws <> []) by discriminate.
    specialize (IH Hne).
    change (join sep ((a :: b :: ws) ++ [w]))
      with (a ++ sep ++ join sep ((b :: ws) ++ [w])).
    rewrite IH.
    change (join sep (a :: b :: ws)) with (a ++ sep ++ join sep (b :: ws)).
    now rewrite !str_app_assoc.
Qed.

(** Appending a word makes the joined text longer by the word, and by
    the separator when the list was not empty. *)
Lemma len_join_snoc (w : string) (ws : list string) :
  len (join " " (ws ++ [w])) =
  (match ws with [] => len w | _ => len (join " " ws) + 1 + len w end)%Z.
Proof.
  destruct ws as [|a ws]; [reflexivity|].
  rewrite join_snoc by discriminate.
  unfold len. rewrite !length_app. simpl String.length. lia.
Qed.

End StringFacts.

Section GeneratorFacts.
Import Py Text.
Open Scope Z_scope.
Context {S : Type} `{RandomSource S}.

(** Every word of the corpus is a non-empty string. *)
Lemma corpus_words_nonempty (w : string) :
  In w LOREM_WORDS -> 1 <= len w.
Proof.
  assert (Hall : forallb (fun w => 1 <=? len w) LOREM_WORDS = true)
    by (vm_compute; reflexivity).
  rewrite forallb_forall in Hall.
  intros Hin. apply Z.leb_le, Hall, Hin.
Qed.

(** A draw from the corpus never fails and yields a corpus word. *)
Lemma choice_corpus (rng : S) :
  exists w, choice LOREM_WORDS rng = Ret (w, snd (randbelow 69 rng))
            /\ In w LOREM_WORDS.
Proof.
  unfold choice.
  change (List.length LOREM_WORDS) with 69%nat.
  assert (Hlt : (fst (randbelow 69 rng) < 69)%nat)
    by (apply randbelow_lt; lia).
  destruct (randbelow 69 rng) as [i rng'] eqn:Hr; cbn [fst snd] in Hlt |- *.
  destruct (nth_error LOREM_WORDS i) as [w|] eqn:Hn.
  - exists w; split; [reflexivity|]. eapply nth_error_In; eassumption.
  - apply nth_error_None in Hn.
    change (List.length LOREM_WORDS) with 69%nat in Hn. lia.
Qed.

(** One more word makes the joined text strictly longer. *)
Lemma join_grows (w : string) (ws : list string) :
  In w LOREM_WORDS ->
  len (join " " ws) < len (join " " (ws ++ [w])).
Proof.
  intros Hin. apply corpus_words_nonempty in Hin.
  rewrite len_join_snoc. destruct ws; [|lia].
  change (len (join " " [])) with 0. lia.
Qed.

Lemma generate_loop_step (fuel : nat) (target : Z) (words : list string)
    (rng : S) :
  generate_loop (Datatypes.S fuel) target words rng =
  ('(word, rng') <- choice LOREM_WORDS rng ;;
   if target <=? len (join " " (words ++ [word]))
   then Ret (slice_to (join " " (words ++ [word])) target, rng')
   else generate_loop fuel target (words ++ [word]) rng').
Proof. reflexivity. Qed.

(** The loop returns as soon as the fuel covers the characters that are
    still missing; what it returns is a slice of a joined text that has
    reached the target. *)
Lemma generate_loop_returns (fuel : nat) :
  forall (target : Z) (words : list string) (rng : S),
    (1 <= fuel)%nat ->
    target - len (join " " words) <= Z.of_nat fuel ->
    exists ws rng',
      generate_loop fuel target words rng
        = Ret (slice_to (join " " (words ++ ws)) target, rng')
      /\ ws <> []
      /\ target <= len (join " " (words ++ ws)).
Proof.
  induction fuel as [|fuel IH]; intros target words rng Hf Hgap; [lia|].
  rewrite generate_loop_step.
  destruct (choice_corpus rng) as (w & -> & Hin). cbn [bind].
  pose proof (join_grows words Hin) as Hgrow.
  destruct (Z.leb_spec target (len (join " " (words ++ [w])))) as [Hle|Hgt].
  - exists [w], (snd (randbelow 69 rng)). repeat split; [discriminate|assumption].
  - destruct (IH target (words ++ [w])%list (snd (randbelow 69 rng)))
      as (ws & rng' & Heq & _ & Hlen); [lia|lia|].
    exists (w :: ws), rng'.
    rewrite <- app_assoc in Heq, Hlen. simpl in Heq, Hlen.
    repeat split; [assumption|discriminate|assumption].
Qed.

(** Fuel beyond what the loop needs does not change its outcome. *)
Lemma generate_loop_fuel_mono (fuel : nat) :
  forall (fuel' : nat) (target : Z) (words : list string) (rng : S) r,
    generate_loop fuel target words rng = Ret r ->
    (fuel <= fuel')%nat ->
    generate_loop fuel' target words rng = Ret r.
Proof.
  induction fuel as [|fuel IH]; intros fuel' target words rng r Hrun Hle;
    [discriminate|].
  destruct fuel' as [|fuel']; [lia|].
  rewrite generate_loop_step in *.
  destruct (choice LOREM_WORDS rng) as [[w rng1]| |]; cbn [bind] in *;
    try discriminate.
  destruct (target <=? len (join " " (words ++ [w]))); [assumption|].
  apply IH; [assumption|lia].
Qed.

(** C1: for every [target_chars >= 1] and every random source,
    [generate_lorem_text_by_chars] returns (with any fuel of at least
    [target_chars] iterations) a string whose length is exactly
    [target_chars]; when the first drawn word already has
    [target_chars] characters or more, the call stops after that draw
    and the result is the prefix of that length of the word, cut
    mid-word if need be. *)
Theorem generate_length_exact (target : Z) (rng : S) :
  1 <= target ->
  exists text rng',
    (forall fuel, (Z.to_nat target <= fuel)%nat ->
       generate_lorem_text_by_chars fuel target rng = Ret (text, rng'))
    /\ len text = target
    /\ (forall w rng1,
          choice LOREM_WORDS rng = Ret (w, rng1) -> target <= len w ->
          text = substring 0 (Z.to_nat target) w
          /\ prefix text w = true /\ rng' = rng1).
Proof.
  intros Hpos.
  destruct (@generate_loop_returns (Z.to_nat target) target [] rng)
    as (ws & rng' & Hrun & Hne & Hlen).
  { lia. }
  { change (len (join " " [])) with 0. lia. }
  simpl app in Hrun, Hlen.
  exists (slice_to (join " " ws) target), rng'. split; [|split].
  - intros fuel Hfuel. unfold generate_lorem_text_by_chars.
    eapply generate_loop_fuel_mono; eassumption.
  - apply len_slice_to. lia.
  - intros w rng1 Hw Hfit.
    assert (Hone : generate_loop (Z.to_nat target) target [] rng
                   = Ret (slice_to w target, rng1)).
    { replace (Z.to_nat target) with (Datatypes.S (Z.to_nat target - 1))
        by lia.
      rewrite generate_loop_step, Hw. cbn [bind app].
      rewrite join_single.
      destruct (Z.leb_spec target (len w)); [reflexivity|lia]. }
    rewrite Hone in Hrun. injection Hrun as Htext Hrng.
    rewrite <- Htext, slice_to_prefix by lia.
    repeat split; [apply substring_0_prefix|congruence].
Qed.

(** C10: [generate_lorem_text_by_chars] terminates for every integer
    [target_chars] and every random source: every corpus word is
    non-empty, so each iteration makes the joined text strictly longer,
    and [max 1 target_chars] iterations are always enough; when
    [target_chars <= 0] the loop returns in its first iteration (no
    iteration is not enough, one is). *)
Theorem generate_terminates (target : Z) (rng : S) :
  (forall w, In w LOREM_WORDS -> 1 <= len w)
  /\ (forall w ws, In w LOREM_WORDS ->
        len (join " " ws) < len (join " " (ws ++ [w])))
  /\ (exists r, forall fuel, (Z.to_nat (Z.max 1 target) <= fuel)%nat ->
        generate_lorem_text_by_chars fuel target rng = Ret r)
  /\ (target <= 0 ->
        generate_lorem_text_by_chars 0 target rng = Timeout
        /\ exists r, generate_lorem_text_by_chars 1 target rng = Ret r).
Proof.
  split; [exact corpus_words_nonempty|].
  split; [intros w ws Hin; apply join_grows, Hin|].
  assert (Hmax : exists r,
             generate_loop (Z.to_nat (Z.max 1 target)) target [] rng = Ret r).
  { destruct (@generate_loop_returns (Z.to_nat (Z.max 1 target)) target []
                rng) as (ws & rng' & Hrun & _); [lia| |eauto].
    change (len (join " " [])) with 0. lia. }
  destruct Hmax as (r & Hr).
  split.
  - exists r. intros fuel Hfuel. unfold generate_lorem_text_by_chars.
    eapply generate_loop_fuel_mono; eassumption.
  - intros Hle. split; [reflexivity|].
    exists r. rewrite Z.max_l in Hr by lia. exact Hr.
Qed.

End GeneratorFacts.

Section Determinism.
Import Py Text.
Open Scope Z_scope.
Context {S1 S2 : Type} {H1 : RandomSource S1} {H2 : RandomSource S2}.
Variable R : S1 -> S2 -> Prop.
Hypothesis HR : same_draws R.

Lemma choice_same (seq : list string) (s1 : S1) (s2 : S2) :
  R s1 s2 -> same_outcome R (choice seq s1) (choice seq s2).
Proof.
  intros Hs. unfold choice. destruct seq as [|a seq]; [reflexivity|].
  destruct (HR (List.length (a :: seq)) Hs) as [Hfst Hsnd].
  destruct (randbelow _ s1) as [i1 s1'], (randbelow _ s2) as [i2 s2'].
  cbn [fst snd] in Hfst, Hsnd. subst i2.
  destruct (nth_error (a :: seq) i1); simpl; auto.
Qed.

Lemma generate_loop_same (fuel : nat) :
  forall (target : Z) (words : list string) (s1 : S1) (s2 : S2),
    R s1 s2 ->
    same_outcome R (generate_loop fuel target words s1)
                   (generate_loop fuel target words s2).
Proof.
  induction fuel as [|fuel IH]; intros target words s1 s2 Hs; [exact I|].
  rewrite !generate_loop_step.
  pose proof (choice_same LOREM_WORDS Hs) as Hc.
  destruct (choice LOREM_WORDS s1) as [[w1 s1']| |],
           (choice LOREM_WORDS s2) as [[w2 s2']| |];
    cbn [same_outcome bind] in *; try contradiction; auto.
  destruct Hc as [-> Hs'].
  destruct (target <=? len (join " " (words ++ [w2]))).
  - cbn [same_outcome]. auto.
  - apply IH, Hs'.
Qed.

Lemma generate_all_same (fuel : nat) (targets : list Z) :
  forall (s1 : S1) (s2 : S2),
    R s1 s2 ->
    same_outcome R (generate_all fuel targets s1)
                   (generate_all fuel targets s2).
Proof.
  induction targets as [|t ts IH]; intros s1 s2 Hs; [simpl; auto|].
  cbn [generate_all].
  pose proof (generate_loop_same fuel t [] Hs) as Hg.
  unfold generate_lorem_text_by_chars.
  destruct (generate_loop fuel t [] s1) as [[x1 s1']| |],
           (generate_loop fuel t [] s2) as [[x2 s2']| |];
    cbn [same_outcome bind] in *; try contradiction; auto.
  destruct Hg as [-> Hs'].
  specialize (IH s1' s2' Hs').
  destruct (generate_all fuel ts s1') as [[xs1 s1'']| |],
           (generate_all fuel ts s2') as [[xs2 s2'']| |];
    cbn [same_outcome bind] in *; try contradiction; auto.
  destruct IH as [-> Hs'']. auto.
Qed.

(** C9: text generation is deterministic.  Let two sources start from
    related states of a relation along which they draw the same numbers
    (two copies of one seeded state in particular); whatever the
    sequence [pre] of calls made before, a call for [target]
    characters made after it returns the same string on both sides, as
    do all the calls before it, and the sources stay related. *)
Theorem generate_deterministic (fuel : nat) (pre : list Z) (target : Z)
    (s1 : S1) (s2 : S2) :
  R s1 s2 ->
  1 <= target ->
  same_outcome R (generate_all fuel (pre ++ [target]) s1)
                 (generate_all fuel (pre ++ [target]) s2).
Proof. intros Hs _. apply generate_all_same, Hs. Qed.

End Determinism.

(* ================================================================== *)
(** * Properties of the float operations                               *)
(* ================================================================== *)

Section Digits.
Open Scope Z_scope.

Lemma digits2_pos_size (p : positive) : digits2_pos p = Pos.size p.
Proof. induction p; simpl; congruence. Qed.

Lemma Zdigits2_log2 (m : Z) : 0 < m -> Zdigits2 m = Z.log2 m + 1.
Proof.
  destruct m as [|p|p]; try lia. intros _. simpl.
  rewrite digits2_pos_size. destruct p; simpl; lia.
Qed.

Lemma Zdigits2_nonneg (m : Z) : 0 <= Zdigits2 m.
Proof. destruct m; simpl; lia. Qed.

Lemma Zdigits2_pos (m : Z) : 0 < m -> 0 < Zdigits2 m.
Proof. destruct m; simpl; lia. Qed.

Lemma Zdigits2_bounds (m : Z) :
  0 < m -> 2 ^ (Zdigits2 m - 1) <= m < 2 ^ Zdigits2 m.
Proof.
  intros Hm. rewrite Zdigits2_log2 by assumption.
  replace (Z.log2 m + 1 - 1) with (Z.log2 m) by lia.
  replace (Z.log2 m + 1) with (Z.succ (Z.log2 m)) by lia.
  apply Z.log2_spec, Hm.
Qed.

Lemma Zdigits2_unique (m d : Z) :
  2 ^ (d - 1) <= m < 2 ^ d -> 0 < d -> Zdigits2 m = d.
Proof.
  intros Hb Hd.
  assert (Hm : 0 < m).
  { assert (0 < 2 ^ (d - 1)) by (apply Z.pow_pos_nonneg; lia). lia. }
  rewrite Zdigits2_log2 by assumption.
  rewrite (Z.log2_unique m (d - 1)); [lia|lia|].
  replace (Z.succ (d - 1)) with d by lia. exact Hb.
Qed.

Lemma Zdigits2_le (m n : Z) : 0 < m -> m <= n -> Zdigits2 m <= Zdigits2 n.
Proof.
  intros Hm Hle. rewrite !Zdigits2_log2 by lia.
  pose proof (Z.log2_le_mono m n Hle). lia.
Qed.

(** A number below [2^d] has at most [d] digits. *)
Lemma Zdigits2_le_of_lt_pow (m d : Z) :
  0 <= d -> 0 <= m < 2 ^ d -> Zdigits2 m <= d.
Proof.
  intros Hd [Hm Hlt].
  destruct (Z.eq_dec m 0) as [->|Hne]; [simpl; lia|].
  rewrite Zdigits2_log2 by lia.
  assert (Z.log2 m < d) by (apply Z.log2_lt_pow2; lia). lia.
Qed.

(** A number that reaches [2^d] has more than [d] digits. *)
Lemma Zdigits2_gt_of_ge_pow (m d : Z) :
  0 <= d -> 2 ^ d <= m -> d < Zdigits2 m.
Proof.
  intros Hd Hle.
  assert (0 < 2 ^ d) by (apply Z.pow_pos_nonneg; lia).
  rewrite Zdigits2_log2 by lia.
  assert (d <= Z.log2 m) by (apply Z.log2_le_pow2; lia). lia.
Qed.

End Digits.

Section Shr.
Open Scope Z_scope.

Lemma iter_pos_nat {A : Type} (f : A -> A) (p : positive) :
  forall x, SpecFloat.iter_pos f p x = Nat.iter (Pos.to_nat p) f x.
Proof.
  induction p as [p IH|p IH|]; intros x; simpl SpecFloat.iter_pos.
  - rewrite !IH, Pos2Nat.inj_xI. simpl Nat.mul.
    rewrite Nat.add_0_r, Nat.iter_succ_r, Nat.iter_add. reflexivity.
  - rewrite !IH, Pos2Nat.inj_xO. simpl Nat.mul.
    rewrite Nat.add_0_r, Nat.iter_add. reflexivity.
  - reflexivity.
Qed.

Lemma shr_1_nonneg (m : Z) (r s : bool) :
  0 <= m ->
  shr_1 {| shr_m := m; shr_r := r; shr_s := s |}
  = {| shr_m := m / 2; shr_r := Z.odd m; shr_s := r || s |}.
Proof.
  intros Hm. rewrite <- Z.div2_div.
  destruct m as [|[p|p|]|p]; try reflexivity; lia.
Qed.

(** [j + 1] one-bit shifts of a non-negative mantissa: the quotient by
    [2^(j+1)], the last bit shifted out, and whether anything was lost
    before it. *)
Lemma shr_iter (j : nat) (m : Z) (r s : bool) :
  0 <= m ->
  Nat.iter (Datatypes.S j) shr_1 {| shr_m := m; shr_r := r; shr_s := s |}
  = {| shr_m := m / 2 ^ (Z.of_nat j + 1);
       shr_r := Z.odd (m / 2 ^ Z.of_nat j);
       shr_s := r || s || negb (m mod 2 ^ Z.of_nat j =? 0) |}.
Proof.
  intros Hm. induction j as [|j IH].
  - unfold Nat.iter; cbn [nat_rect]. rewrite shr_1_nonneg by assumption.
    change (2 ^ (Z.of_nat 0 + 1)) with 2. change (2 ^ Z.of_nat 0) with 1.
    rewrite Z.div_1_r, Z.mod_1_r. simpl. now rewrite orb_false_r.
  - rewrite Nat.iter_succ, IH.
    assert (Hp : 0 < 2 ^ Z.of_nat j) by (apply Z.pow_pos_nonneg; lia).
    rewrite shr_1_nonneg by (apply Z.div_pos; [lia|apply Z.pow_pos_nonneg; lia]).
    replace (Z.of_nat (Datatypes.S j)) with (Z.of_nat j + 1) by lia.
    f_equal.
    + rewrite Z.div_div by lia.
      rewrite (Z.pow_add_r 2 (Z.of_nat j + 1) 1) by lia. reflexivity.
    + rewrite (Z.pow_add_r 2 (Z.of_nat j) 1) by lia.
      change (2 ^ 1) with 2.
      rewrite Z.rem_mul_r by lia.
      pose proof (Z.mod_pos_bound m (2 ^ Z.of_nat j) Hp) as Hrem.
      rewrite Zodd_mod.
      pose proof (Z.mod_pos_bound (m / 2 ^ Z.of_nat j) 2 ltac:(lia)) as Hbit.
      destruct r, s; simpl; auto;
      destruct (Z.eqb_spec ((m / 2 ^ Z.of_nat j) mod 2) 1);
        destruct (Z.eqb_spec (m mod 2 ^ Z.of_nat j) 0);
        destruct (Z.eqb_spec
          (m mod 2 ^ Z.of_nat j + 2 ^ Z.of_nat j * ((m / 2 ^ Z.of_nat j) mod 2)) 0);
        simpl; try reflexivity; nia.
Qed.

End Shr.

Section Rounding.
Import Float.
Open Scope Z_scope.

Lemma shr_max (mrs : shr_record) (e n : Z) :
  shr mrs e n = (fst (shr mrs 0 (Z.max 0 n)), e + Z.max 0 n).
Proof.
  destruct n as [|p|p]; simpl; try (f_equal; lia).
Qed.

Lemma shr_m_spec (m : Z) (l : location) (k : Z) :
  0 <= m -> 0 <= k ->
  shr_m (fst (shr (shr_record_of_loc m l) 0 k)) = m / 2 ^ k.
Proof.
  intros Hm Hk. destruct k as [|p|p]; try lia.
  - simpl. rewrite Z.div_1_r. destruct l as [|[| |]]; reflexivity.
  - unfold shr, fst. rewrite iter_pos_nat.
    destruct (Pos2Nat.is_succ p) as [j Hj]. rewrite Hj.
    assert (Hpj : Z.pos p = Z.of_nat j + 1) by lia.
    destruct l as [|[| |]]; simpl shr_record_of_loc;
      rewrite shr_iter by assumption; simpl shr_m; now rewrite Hpj.
Qed.

Lemma round_nearest_even_crude (m : Z) (l : location) :
  m <= round_nearest_even m l <= m + 1.
Proof.
  destruct l as [|[| |]]; simpl; try lia. destruct (Z.even m); lia.
Qed.

Lemma round_shift_crude (m : Z) (l : location) (k : Z) :
  0 <= m -> 0 <= k ->
  m / 2 ^ k <= round_shift m l k <= m / 2 ^ k + 1.
Proof.
  intros Hm Hk. unfold round_shift.
  pose proof (round_nearest_even_crude
                (shr_m (fst (shr (shr_record_of_loc m l) 0 k)))
                (loc_of_shr_record (fst (shr (shr_record_of_loc m l) 0 k))))
    as Hc.
  rewrite <- (shr_m_spec l Hm Hk). exact Hc.
Qed.

Lemma round_shift_0_exact (m : Z) : round_shift m loc_Exact 0 = m.
Proof. reflexivity. Qed.

(** Shifting an exact mantissa rounds it to a nearest multiple of
    [2^k]. *)
Lemma round_shift_nearest (m k : Z) :
  0 <= m -> 0 <= k ->
  2 * (round_shift m loc_Exact k * 2 ^ k) <= 2 * m + 2 ^ k
  /\ 2 * m <= 2 * (round_shift m loc_Exact k * 2 ^ k) + 2 ^ k.
Proof.
  intros Hm Hk. destruct k as [|p|p]; try lia.
  - rewrite round_shift_0_exact. change (2 ^ 0) with 1. lia.
  - unfold round_shift, shr, fst. rewrite iter_pos_nat.
    destruct (Pos2Nat.is_succ p) as [j Hj]. rewrite Hj.
    assert (Hpj : Z.pos p = Z.of_nat j + 1) by lia. rewrite Hpj.
    simpl shr_record_of_loc. rewrite shr_iter by assumption.
    set (h := 2 ^ Z.of_nat j).
    assert (Hh : 0 < h) by (apply Z.pow_pos_nonneg; lia).
    assert (Hpow : 2 ^ (Z.of_nat j + 1) = h * 2)
      by (unfold h; rewrite Z.pow_add_r by lia; reflexivity).
    rewrite Hpow.
    pose proof (Z.div_mod m h ltac:(lia)) as Hdm.
    pose proof (Z.mod_pos_bound m h Hh) as Hrem.
    pose proof (Z.div_mod (m / h) 2 ltac:(lia)) as Hdm2.
    pose proof (Z.mod_pos_bound (m / h) 2 ltac:(lia)) as Hbit.
    rewrite <- Z.div_div by lia.
    set (q := m / h / 2) in *.
    rewrite Zodd_mod. simpl orb.
    destruct (Z.eqb_spec ((m / h) mod 2) 1) as [Hb|Hb];
      destruct (Z.eqb_spec (m mod h) 0) as [Hr|Hr];
      simpl shr_m; simpl loc_of_shr_record; simpl round_nearest_even;
      try destruct (Z.even q); nia.
Qed.

Lemma pack_not_nan (s : bool) (m e : Z) : 0 <= m -> pack s m e <> S754_nan.
Proof.
  intros Hm. unfold pack.
  destruct m; [discriminate| |lia].
  destruct (e <=? emax - prec); discriminate.
Qed.

(** Rounding in the normal range. *)
Lemma bra_normal (s : bool) (m e : Z) (l : location) :
  0 < m -> -1074 <= Zdigits2 m + e - 53 ->
  binary_round_aux prec emax s m e l =
  let k := Z.max 0 (Zdigits2 m - 53) in
  let m1 := round_shift m l k in
  if Zdigits2 m1 <=? 53 then pack s m1 (e + k)
  else pack s (m1 / 2) (e + k + 1).
Proof.
  intros Hm Hnorm.
  set (d := Zdigits2 m) in *.
  pose proof (Zdigits2_bounds Hm) as Hd. fold d in Hd.
  pose proof (Zdigits2_pos Hm) as Hdpos. fold d in Hdpos.
  cbv zeta. set (k := Z.max 0 (d - 53)).
  assert (Hk : 0 <= k < d) by lia.
  pose proof (round_shift_crude l (Z.lt_le_incl _ _ Hm) (proj1 Hk)) as Hm1.
  set (m1 := round_shift m l k) in *.
  assert (Hpk : 0 < 2 ^ k) by (apply Z.pow_pos_nonneg; lia).
  assert (Hq : 2 ^ (d - 1 - k) <= m / 2 ^ k < 2 ^ (d - k)).
  { split.
    - apply Z.div_le_lower_bound; [lia|].
      rewrite <- Z.pow_add_r by lia.
      replace (k + (d - 1 - k)) with (d - 1) by lia. lia.
    - apply Z.div_lt_upper_bound; [lia|].
      rewrite <- Z.pow_add_r by lia.
      replace (k + (d - k)) with d by lia. lia. }
  assert (Hdm1 : d - k <= Zdigits2 m1 <= 54).
  { split.
    - assert (d - 1 - k < Zdigits2 m1); [|lia].
      apply Zdigits2_gt_of_ge_pow; lia.
    - assert (Hle : m1 <= 2 ^ 53).
      { assert (2 ^ (d - k) <= 2 ^ 53)
          by (apply Z.pow_le_mono_r; lia). lia. }
      assert (0 < m1).
      { assert (0 < 2 ^ (d - 1 - k)) by (apply Z.pow_pos_nonneg; lia). lia. }
      transitivity (Zdigits2 (2 ^ 53)); [apply Zdigits2_le; lia|].
      vm_compute; discriminate. }
  unfold binary_round_aux, shr_fexp.
  replace (fexp prec emax (Zdigits2 m + e) - e) with (d - 53)
    by (unfold fexp, emin, prec, emax; fold d; lia).
  rewrite shr_max. fold k.
  change (round_nearest_even
            (shr_m (fst (shr (shr_record_of_loc m l) 0 k)))
            (loc_of_shr_record (fst (shr (shr_record_of_loc m l) 0 k))))
    with m1.
  replace (fexp prec emax (Zdigits2 m1 + (e + k)) - (e + k))
    with (Zdigits2 m1 - 53)
    by (unfold fexp, emin, prec, emax; lia).
  rewrite shr_max.
  destruct (Z.leb_spec (Zdigits2 m1) 53) as [Hle|Hgt].
  - rewrite Z.max_l by lia. simpl shr. cbn [fst shr_m].
    unfold pack. rewrite Z.add_0_r. reflexivity.
  - replace (Z.max 0 (Zdigits2 m1 - 53)) with 1 by lia.
    rewrite shr_m_spec by lia. change (2 ^ 1) with 2.
    unfold pack. reflexivity.
Qed.

End Rounding.

Section Conversions.
Import Py Float.
Open Scope Z_scope.

Lemma pos_iter_xO (m d : positive) :
  Z.pos (Pos.iter xO m d) = Z.pos m * 2 ^ Z.pos d.
Proof.
  induction d as [|d IH] using Pos.peano_ind.
  - simpl. lia.
  - rewrite Pos.iter_succ, Pos2Z.inj_xO, IH, Pos2Z.inj_succ.
    rewrite Z.pow_succ_r by lia. lia.
Qed.

(** Aligning a mantissa on a smaller exponent multiplies it by the
    power of two between the exponents. *)
Lemma shl_align_spec (m : positive) (e e' : Z) :
  Z.pos (fst (shl_align m e e')) = Z.pos m * 2 ^ Z.max 0 (e - e')
  /\ snd (shl_align m e e') = Z.min e e'.
Proof.
  unfold shl_align.
  destruct (e' - e) as [|d|d] eqn:Hd; cbn [fst snd].
  - rewrite Z.max_l by lia. change (2 ^ 0) with 1. lia.
  - rewrite Z.max_l by lia. change (2 ^ 0) with 1. lia.
  - rewrite pos_iter_xO. replace (Z.max 0 (e - e')) with (Z.pos d) by lia.
    lia.
Qed.

Lemma pack_pos (s : bool) (m e : Z) :
  0 < m -> e <= 971 -> pack s m e = S754_finite s (Z.to_pos m) e.
Proof.
  intros Hm He. unfold pack. destruct m; try lia.
  destruct (Z.leb_spec e (emax - prec)) as [_|H]; [reflexivity|].
  unfold emax, prec in H. lia.
Qed.

(** Rounding a mantissa of at least 53 digits gives a float in normal
    form, with a mantissa of 53 digits, whose exponent is the one the
    digits call for, or the next one when rounding carries. *)
Lemma bra_canonical (s : bool) (m e : Z) (l : location) :
  0 < m -> 53 <= Zdigits2 m ->
  -1074 <= Zdigits2 m + e - 53 -> Zdigits2 m + e <= 1023 ->
  exists m' e',
    binary_round_aux prec emax s m e l = S754_finite s m' e'
    /\ Zdigits2 (Z.pos m') = 53
    /\ (e' = e + Zdigits2 m - 53 \/ e' = e + Zdigits2 m - 52)
    /\ Z.pos m' * 2 ^ (e' - e) <= m + 2 ^ (e' - e)
    /\ m < (Z.pos m' + 1) * 2 ^ (e' - e).
Proof.
  intros Hm Hd Hnorm Hmax.
  rewrite bra_normal by assumption. cbv zeta.
  set (d := Zdigits2 m) in *.
  pose proof (Zdigits2_bounds Hm) as Hb. fold d in Hb.
  replace (Z.max 0 (d - 53)) with (d - 53) by lia.
  set (k := d - 53).
  pose proof (round_shift_crude l (Z.lt_le_incl _ _ Hm) (k := k) ltac:(lia))
    as Hm1.
  set (m1 := round_shift m l k) in *.
  assert (Hpk : 0 < 2 ^ k) by (apply Z.pow_pos_nonneg; lia).
  assert (Hq : 2 ^ 52 <= m / 2 ^ k < 2 ^ 53).
  { split.
    - apply Z.div_le_lower_bound; [lia|].
      rewrite <- Z.pow_add_r by lia.
      replace (k + 52) with (d - 1) by lia. lia.
    - apply Z.div_lt_upper_bound; [lia|].
      rewrite <- Z.pow_add_r by lia.
      replace (k + 53) with d by lia. lia. }
  pose proof (Z.div_mod m (2 ^ k) ltac:(lia)) as Hdm.
  pose proof (Z.mod_pos_bound m (2 ^ k) Hpk) as Hrem.
  destruct (Z.leb_spec (Zdigits2 m1) 53) as [Hle|Hgt].
  - rewrite pack_pos by lia.
    exists (Z.to_pos m1), (e + k). rewrite Z2Pos.id by lia.
    replace (e + k - e) with k by lia.
    repeat split; [|lia|nia|nia].
    apply Zdigits2_unique; [|lia].
    split; [lia|].
    pose proof (Zdigits2_gt_of_ge_pow (m := m1) (d := 53) ltac:(lia)).
    lia.
  - assert (Hm1eq : m1 = 2 ^ 53).
    { pose proof (Zdigits2_le_of_lt_pow (m := m1) (d := 53) ltac:(lia)).
      lia. }
    rewrite Hm1eq. change (2 ^ 53 / 2) with (2 ^ 52).
    rewrite pack_pos by lia.
    exists (Z.to_pos (2 ^ 52)), (e + k + 1).
    replace (e + k + 1 - e) with (k + 1) by lia.
    rewrite Z.pow_add_r by lia. change (2 ^ 1) with 2.
    repeat split; [lia| |].
    + change (Z.pos (Z.to_pos (2 ^ 52))) with (2 ^ 52). nia.
    + change (Z.pos (Z.to_pos (2 ^ 52))) with (2 ^ 52). nia.
Qed.


(** [float(z)] on a positive int below [2^1023]: a positive float in
    normal form; below [2^53] the conversion is exact. *)
Lemma of_int_pos (z : Z) :
  0 < z -> Zdigits2 z <= 1023 ->
  exists m e,
    of_int z = Ret (S754_finite false m e)
    /\ Zdigits2 (Z.pos m) = 53
    /\ (e = Zdigits2 z - 53 \/ e = Zdigits2 z - 52)
    /\ (z < 2 ^ 53 ->
        e = Zdigits2 z - 53 /\ Z.pos m = z * 2 ^ (53 - Zdigits2 z)).
Proof.
  intros Hz Hd.
  destruct z as [|p|p]; try lia.
  unfold of_int, binary_normalize, binary_round.
  set (d := Zdigits2 (Z.pos p)) in *.
  change (Z.pos (digits2_pos p)) with d.
  pose proof (Zdigits2_bounds Hz) as Hb. fold d in Hb.
  pose proof (Zdigits2_pos Hz) as Hdpos. fold d in Hdpos.
  replace (fexp prec emax (d + 0)) with (d - 53)
    by (unfold fexp, emin, prec, emax; lia).
  destruct (shl_align_spec p 0 (d - 53)) as [Hmz Hez].
  destruct (shl_align p 0 (d - 53)) as [mz ez]. cbn [fst snd] in Hmz, Hez.
  destruct (Z.le_gt_cases d 53) as [Hsmall|Hbig].
  - (* exact *)
    replace (Z.max 0 (0 - (d - 53))) with (53 - d) in Hmz by lia.
    rewrite Z.min_r in Hez by lia. subst ez.
    assert (Hpow : 2 ^ (d - 1) * 2 ^ (53 - d) = 2 ^ 52
                   /\ 2 ^ d * 2 ^ (53 - d) = 2 ^ 53).
    { rewrite <- !Z.pow_add_r by lia. split; f_equal; lia. }
    assert (Hc : 0 < 2 ^ (53 - d)) by (apply Z.pow_pos_nonneg; lia).
    assert (Hdmz : Zdigits2 (Z.pos mz) = 53).
    { apply Zdigits2_unique; [|lia]. rewrite Hmz.
      change (2 ^ (53 - 1)) with (2 ^ 52). nia. }
    rewrite bra_normal by lia. cbv zeta. rewrite Hdmz.
    change (Z.max 0 (53 - 53)) with 0.
    rewrite round_shift_0_exact, Hdmz. change (53 <=? 53) with true.
    cbv iota. rewrite pack_pos by lia. rewrite Z.add_0_r. simpl Z.to_pos.
    exists mz, (d - 53). repeat split; auto.
  - rewrite Z.max_l in Hmz by lia. change (2 ^ 0) with 1 in Hmz.
    rewrite Z.min_l in Hez by lia. subst ez.
    assert (Hmz' : Z.pos mz = Z.pos p) by lia. rewrite Hmz'.
    destruct (@bra_canonical false (Z.pos p) 0 loc_Exact)
      as (m' & e' & -> & Hdm' & He' & _); fold d; try lia.
    exists m', e'. split; [reflexivity|]. split; [assumption|].
    split; [lia|].
    intros Hlt.
    assert (d <= 53) by (apply Zdigits2_le_of_lt_pow; lia). lia.
Qed.

Lemma of_int_0 : of_int 0 = Ret zero.
Proof. reflexivity. Qed.

(** A float made from an int below [2^53] stands for that int. *)
Lemma to_int_floor_of_int (z : Z) :
  0 <= z < 2 ^ 53 ->
  exists x, of_int z = Ret x /\ to_int_floor x = z /\ is_finite x = true.
Proof.
  intros [Hz Hlt].
  destruct (Z.eq_dec z 0) as [->|Hne];
    [exists zero; repeat split; reflexivity|].
  assert (Hd : Zdigits2 z <= 53) by (apply Zdigits2_le_of_lt_pow; lia).
  destruct (@of_int_pos z) as (m & e & -> & _ & _ & Hex); try lia.
  destruct (Hex Hlt) as [-> Hm].
  eexists; split; [reflexivity|]. split; [|reflexivity].
  unfold to_int_floor, cond_Zopp. rewrite Hm.
  assert (Hc : 0 < 2 ^ (53 - Zdigits2 z)) by (apply Z.pow_pos_nonneg; lia).
  destruct (Z.leb_spec 0 (Zdigits2 z - 53)).
  - replace (Zdigits2 z - 53) with 0 by lia.
    replace (53 - Zdigits2 z) with 0 by lia. change (2 ^ 0) with 1. lia.
  - replace (- (Zdigits2 z - 53)) with (53 - Zdigits2 z) by lia.
    apply Z.div_mul. lia.
Qed.

End Conversions.

Section Percentile.
Import Py Float.
Open Scope Z_scope.

Lemma neg_div_ceil (a t q : Z) :
  0 < t -> (q - 1) * t < a <= q * t -> - ((- a) / t) = q.
Proof.
  intros Ht Ha.
  rewrite <- (Z.div_unique (- a) t (- q) (q * t - a)); lia.
Qed.

(** [math.ceil(0.95 * n)] is the ceiling of [19 n / 20] for every
    length [n] below [2^48]: the rounding of the literal and the
    rounding of the product do not reach the next integer. *)
Lemma ceil_095_exact (n : Z) :
  1 <= n < 2 ^ 48 ->
  exists x, of_int n = Ret x
            /\ ceil (mul lit_0_95 x) = Ret ((19 * n + 19) / 20).
Proof.
  intros [Hn1 Hn2].
  assert (Hd48 : Zdigits2 n <= 48) by (apply Zdigits2_le_of_lt_pow; lia).
  pose proof (@Zdigits2_pos n ltac:(lia)) as Hdpos.
  destruct (@of_int_pos n) as (mn & e & Hx & Hdmn & _ & Hex); try lia.
  destruct Hex as [-> HY]; [lia|].
  exists (S754_finite false mn (Zdigits2 n - 53)). split; [exact Hx|].
  set (d := Zdigits2 n) in *.
  unfold mul, lit_0_95, SFmul. cbn [xorb].
  rewrite Pos2Z.inj_mul.
  set (Y := Z.pos mn) in *.
  set (M := Z.pos 8556839292003942).
  pose proof (@Zdigits2_bounds Y ltac:(unfold Y; lia)) as HYb.
  rewrite Hdmn in HYb. change (2 ^ (53 - 1)) with (2 ^ 52) in HYb.
  set (c := 2 ^ (53 - d)) in *.
  assert (Hc : 32 <= c).
  { change 32 with (2 ^ 5). apply Z.pow_le_mono_r; lia. }
  set (P := M * Y).
  assert (HP : 2 ^ 104 <= P < 2 ^ 106) by (unfold P, M; lia).
  assert (HdP : 105 <= Zdigits2 P <= 106).
  { split.
    - pose proof (@Zdigits2_gt_of_ge_pow P 104 ltac:(lia) ltac:(lia)). lia.
    - apply Zdigits2_le_of_lt_pow; lia. }
  rewrite bra_normal by lia. cbv zeta.
  replace (Z.max 0 (Zdigits2 P - 53)) with (Zdigits2 P - 53) by lia.
  set (k := Zdigits2 P - 53).
  destruct (@round_shift_nearest P k ltac:(lia) ltac:(lia)) as [Hup Hlo].
  set (m1 := round_shift P loc_Exact k) in *.
  set (T := 106 - d - k).
  assert (HT : 5 <= T) by (unfold T, k; lia).
  set (K := 2 ^ k) in *. set (TT := 2 ^ T).
  assert (HK : 0 < K <= 2 ^ 53).
  { split; [apply Z.pow_pos_nonneg; lia|].
    apply Z.pow_le_mono_r; unfold k; lia. }
  assert (HTT : 0 < TT) by (apply Z.pow_pos_nonneg; lia).
  assert (HW : TT * K = 2 ^ 53 * c).
  { unfold TT, K, c. rewrite <- !Z.pow_add_r by lia. f_equal.
    unfold T. lia. }
  set (q := (19 * n + 19) / 20).
  assert (Hq : 20 * q <= 19 * n + 19 < 20 * q + 20).
  { pose proof (Z.div_mod (19 * n + 19) 20 ltac:(lia)).
    pose proof (Z.mod_pos_bound (19 * n + 19) 20 ltac:(lia)).
    unfold q. lia. }
  assert (HM : 20 * M = 19 * 2 ^ 53 - 8) by reflexivity.
  (* the rounded mantissa lies in the last unit below [q] *)
  assert (Hm1 : (q - 1) * TT < m1 <= q * TT).
  { assert (HqY : 19 * Y <= 20 * (q * c) /\ 20 * ((q - 1) * c) <= 19 * Y - c)
      by (rewrite HY; nia).
    assert (HP20 : 20 * P = 19 * 2 ^ 53 * Y - 8 * Y) by (unfold P; nia).
    assert (HqW : q * TT * K = 2 ^ 53 * (q * c)) by nia.
    assert (HqW' : (q - 1) * TT * K = 2 ^ 53 * ((q - 1) * c)) by nia.
    split.
    - assert ((q - 1) * TT * K < m1 * K) by lia. nia.
    - assert (m1 * K < q * TT * K + K) by lia. nia. }
  assert (Hm1pos : 0 < m1) by nia.
  destruct (Z.leb_spec (Zdigits2 m1) 53) as [Hle|Hgt].
  - rewrite pack_pos by (unfold k; lia).
    unfold ceil, cond_Zopp. rewrite Z2Pos.id by lia.
    destruct (Z.leb_spec 0 (d - 106 + k)) as [H0|H0]; [unfold T in HT; lia|].
    replace (- (-53 + (d - 53) + k)) with T by (unfold T; lia).
    replace (-53 + (d - 53) + k) with (- T) by (unfold T; lia).
    destruct (Z.leb_spec 0 (- T)); [lia|].
    fold TT. f_equal. apply neg_div_ceil; assumption.
  - assert (Hm1eq : m1 = 2 ^ 53).
    { pose proof (@round_shift_crude P loc_Exact k ltac:(lia) ltac:(lia))
        as Hcr. fold m1 in Hcr. fold K in Hcr.
      assert (P / K < 2 ^ 53).
      { apply Z.div_lt_upper_bound; [lia|].
        pose proof (@Zdigits2_bounds P ltac:(lia)) as HPb.
        replace (Zdigits2 P) with (k + 53) in HPb by (unfold k; lia).
        rewrite Z.pow_add_r in HPb by lia. fold K in HPb. lia. }
      pose proof (@Zdigits2_le_of_lt_pow m1 53 ltac:(lia)). lia. }
    rewrite Hm1eq in *. change (2 ^ 53 / 2) with (2 ^ 52).
    rewrite pack_pos by (unfold k; lia).
    unfold ceil, cond_Zopp. change (Z.pos (Z.to_pos (2 ^ 52))) with (2 ^ 52).
    replace (-53 + (d - 53) + k + 1) with (- (T - 1)) by (unfold T; lia).
    destruct (Z.leb_spec 0 (- (T - 1))); [lia|].
    rewrite Z.opp_involutive.
    assert (HTT2 : TT = 2 * 2 ^ (T - 1)).
    { unfold TT. replace T with (1 + (T - 1)) at 1 by lia.
      rewrite Z.pow_add_r by lia. reflexivity. }
    assert (0 < 2 ^ (T - 1)) by (apply Z.pow_pos_nonneg; lia).
    f_equal. apply neg_div_ceil; [assumption|]. lia.
Qed.

End Percentile.

Section Division.
Import Py Float.
Open Scope Z_scope.



(** The quotient of two mantissas of 53 digits that division rounds. *)
Lemma SFdiv_core_normal (m1 m2 : positive) (e1 e2 : Z) :
  Zdigits2 (Z.pos m1) = 53 -> Zdigits2 (Z.pos m2) = 53 ->
  -1021 <= e1 - e2 ->
  SFdiv_core_binary prec emax (Z.pos m1) e1 (Z.pos m2) e2
  = (Z.pos m1 * 2 ^ 53 / Z.pos m2, e1 - e2 - 53,
     new_location (Z.pos m2) ((Z.pos m1 * 2 ^ 53) mod Z.pos m2)).
Proof.
  intros H1 H2 He. unfold SFdiv_core_binary. rewrite H1, H2.
  replace (Z.min (fexp prec emax (53 + e1 - (53 + e2))) (e1 - e2))
    with (e1 - e2 - 53)
    by (unfold fexp, emin, prec, emax; lia).
  replace (e1 - e2 - (e1 - e2 - 53)) with 53 by lia.
  rewrite Z.shiftl_mul_pow2 by lia.
  unfold Z.div, Z.modulo.
  destruct (Z.div_eucl (Z.pos m1 * 2 ^ 53) (Z.pos m2)); reflexivity.
Qed.

Lemma quotient_digits (m1 m2 : Z) :
  2 ^ 52 <= m1 < 2 ^ 53 -> 2 ^ 52 <= m2 < 2 ^ 53 ->
  2 ^ 52 <= m1 * 2 ^ 53 / m2 < 2 ^ 54.
Proof.
  intros H1 H2. split.
  - apply Z.div_le_lower_bound; [lia|]. nia.
  - apply Z.div_lt_upper_bound; [lia|]. nia.
Qed.

Lemma normal_mantissa (m : positive) :
  Zdigits2 (Z.pos m) = 53 -> 2 ^ 52 <= Z.pos m < 2 ^ 53.
Proof.
  intros Hd. pose proof (@Zdigits2_bounds (Z.pos m) ltac:(lia)) as Hb.
  rewrite Hd in Hb. exact Hb.
Qed.

(** The quotient of two positive normal floats is a positive normal
    float. *)
Lemma div_pos_normal (lo1 hi1 lo2 hi2 : Z) (x y : float) :
  pos_normal lo1 hi1 x -> pos_normal lo2 hi2 y ->
  -1021 <= lo1 - hi2 -> hi1 - lo2 <= 1022 ->
  pos_normal (lo1 - hi2 - 53) (hi1 - lo2 - 51) (SFdiv prec emax x y).
Proof.
  intros (m1 & e1 & -> & Hd1 & He1) (m2 & e2 & -> & Hd2 & He2) Hlo Hhi.
  unfold SFdiv. rewrite SFdiv_core_normal by (assumption || lia).
  cbn [xorb].
  pose proof (quotient_digits (normal_mantissa Hd1) (normal_mantissa Hd2))
    as Hq.
  set (q := Z.pos m1 * 2 ^ 53 / Z.pos m2) in *.
  assert (Hdq : 53 <= Zdigits2 q <= 54).
  { split.
    - pose proof (@Zdigits2_gt_of_ge_pow q 52 ltac:(lia) ltac:(lia)). lia.
    - apply Zdigits2_le_of_lt_pow; lia. }
  destruct (@bra_canonical false q (e1 - e2 - 53)
              (new_location (Z.pos m2) ((Z.pos m1 * 2 ^ 53) mod Z.pos m2)))
    as (m' & e' & -> & Hdm' & He' & _); try lia.
  exists m', e'. split; [reflexivity|]. split; [assumption|lia].
Qed.


End Division.

Section TrueDivision.
Import Py Float.
Open Scope Z_scope.

(** Rounding a non-negative mantissa never yields a NaN, and keeps the
    sign it is given. *)
Lemma bra_pack (s : bool) (m e : Z) (l : location) :
  0 <= m ->
  exists m2 e2, 0 <= m2 /\ binary_round_aux prec emax s m e l = pack s m2 e2.
Proof.
  intros Hm. unfold binary_round_aux, shr_fexp.
  rewrite shr_max.
  set (k1 := Z.max 0 (fexp prec emax (Zdigits2 m + e) - e)).
  pose proof (@shr_m_spec m l k1 Hm ltac:(lia)) as H1.
  pose proof (round_nearest_even_crude
                (shr_m (fst (shr (shr_record_of_loc m l) 0 k1)))
                (loc_of_shr_record (fst (shr (shr_record_of_loc m l) 0 k1))))
    as Hc.
  set (m1 := round_nearest_even _ _) in *.
  assert (Hm1 : 0 <= m1).
  { assert (0 <= m / 2 ^ k1)
      by (apply Z.div_pos; [lia|apply Z.pow_pos_nonneg; lia]).
    lia. }
  rewrite shr_max.
  set (k2 := Z.max 0 _).
  pose proof (@shr_m_spec m1 loc_Exact k2 Hm1 ltac:(lia)) as H2.
  rewrite H2.
  exists (m1 / 2 ^ k2), (e + k1 + k2). split; [|reflexivity].
  apply Z.div_pos; [lia|apply Z.pow_pos_nonneg; lia].
Qed.

Lemma pack_nonneg (m e : Z) (x : float) :
  0 <= m -> pack false m e = x -> x <> S754_infinity false ->
  SFleb (S754_zero false) x = true /\ is_finite x = true.
Proof.
  intros Hm <- Hinf. unfold pack in *.
  destruct m as [|p|p]; try lia; [split; reflexivity|].
  destruct (e <=? emax - prec); [split; reflexivity|congruence].
Qed.

(** True division of a non-negative int by a positive one, when it
    returns, gives a finite float that is not below [0.0]. *)
Lemma true_div_nonneg (a b : Z) (x : float) :
  0 <= a -> 0 < b -> true_div a b = Ret x ->
  SFleb (S754_zero false) x = true /\ is_finite x = true.
Proof.
  intros Ha Hb. unfold true_div.
  destruct (Z.eqb_spec b 0); [lia|].
  destruct (Z.ltb_spec a 0); [lia|]. destruct (Z.ltb_spec b 0); [lia|].
  cbn [xorb].
  destruct (Z.eqb_spec a 0); [intros [= <-]; split; reflexivity|].
  destruct (SFdiv_core_binary prec emax (Z.abs a) 0 (Z.abs b) 0)
    as [[mz ez] lz] eqn:Hcore.
  assert (Hmz : 0 <= mz).
  { unfold SFdiv_core_binary in Hcore.
    rewrite !Z.abs_eq in Hcore by lia.
    set (s := 0 - 0 - _) in Hcore.
    set (m' := match s with Z.pos _ => Z.shiftl a s | 0 => a | _ => 0 end)
      in Hcore.
    assert (0 <= m').
    { unfold m'. destruct s; try lia. apply Z.shiftl_nonneg. lia. }
    pose proof (Z_div_mod m' b ltac:(lia)) as Hdm.
    destruct (Z.div_eucl m' b) as [q r]. injection Hcore as <- _ _.
    nia. }
  destruct (bra_pack false ez lz Hmz) as (m2 & e2 & Hm2 & ->).
  intros Hx.
  assert (Hp : pack false m2 e2 = x /\ x <> S754_infinity false).
  { destruct (pack false m2 e2) as [s0|s0| |s0 m0 e0];
      inversion Hx; subst; split; congruence. }
  destruct Hp. eapply pack_nonneg; eauto.
Qed.

(** True division of ints of moderate size returns. *)
Lemma true_div_returns (a b : Z) :
  0 <= a -> 0 < b -> Zdigits2 a <= 1000 -> Zdigits2 b <= 1000 ->
  exists x, true_div a b = Ret x.
Proof.
  intros Ha Hb Hda Hdb. unfold true_div.
  destruct (Z.eqb_spec b 0); [lia|].
  destruct (Z.ltb_spec a 0); [lia|]. destruct (Z.ltb_spec b 0); [lia|].
  cbn [xorb].
  destruct (Z.eqb_spec a 0); [eauto|].
  rewrite !Z.abs_eq by lia.
  unfold SFdiv_core_binary.
  set (d1 := Zdigits2 a) in *. set (d2 := Zdigits2 b) in *.
  pose proof (@Zdigits2_bounds a ltac:(lia)) as Hba. fold d1 in Hba.
  pose proof (@Zdigits2_bounds b ltac:(lia)) as Hbb. fold d2 in Hbb.
  pose proof (@Zdigits2_pos a ltac:(lia)) as Hd1. fold d1 in Hd1.
  pose proof (@Zdigits2_pos b ltac:(lia)) as Hd2. fold d2 in Hd2.
  set (e' := Z.min (fexp prec emax (d1 + 0 - (d2 + 0))) (0 - 0)).
  assert (He' : e' = Z.min (d1 - d2 - 53) 0)
    by (unfold e', fexp, emin, prec, emax; lia).
  set (s := 0 - 0 - e').
  assert (Hse : s = - e') by (unfold s; lia).
  assert (Hs : 0 <= s) by lia.
  clearbody s.
  set (m' := match s with Z.pos _ => Z.shiftl a s | 0 => a | _ => 0 end).
  assert (Hm' : m' = a * 2 ^ s).
  { unfold m'. destruct s as [|p|p];
      [change (2 ^ 0) with 1; lia|apply Z.shiftl_mul_pow2; lia|lia]. }
  pose proof (Z_div_mod m' b ltac:(lia)) as Hdm.
  destruct (Z.div_eucl m' b) as [q r].
  assert (Hps : 0 < 2 ^ s) by (apply Z.pow_pos_nonneg; lia).
  assert (Hlow : 2 ^ (d1 - 1 + s - d2) <= q).
  { assert (Hx : 2 ^ (d1 - 1 + s - d2) * 2 ^ d2 = 2 ^ (d1 - 1) * 2 ^ s).
    { rewrite <- !Z.pow_add_r by lia. f_equal. lia. }
    assert (0 < 2 ^ (d1 - 1 + s - d2)) by (apply Z.pow_pos_nonneg; lia).
    nia. }
  assert (Hupp : q < 2 ^ (d1 + s - d2 + 1)).
  { assert (Hx : 2 ^ (d1 + s - d2 + 1) * 2 ^ (d2 - 1) = 2 ^ d1 * 2 ^ s).
    { rewrite <- !Z.pow_add_r by lia. f_equal. lia. }
    assert (0 < 2 ^ (d1 + s - d2 + 1)) by (apply Z.pow_pos_nonneg; lia).
    nia. }
  assert (Hq0 : 0 < q).
  { assert (0 < 2 ^ (d1 - 1 + s - d2)) by (apply Z.pow_pos_nonneg; lia).
    lia. }
  assert (Hdq : 53 <= Zdigits2 q <= d1 + s - d2 + 1).
  { split.
    - pose proof (@Zdigits2_gt_of_ge_pow q (d1 - 1 + s - d2) ltac:(lia)
                    ltac:(lia)). lia.
    - apply Zdigits2_le_of_lt_pow; lia. }
  destruct (@bra_canonical false q e' (new_location b r))
    as (m2 & e2 & -> & _); try lia.
  eauto.
Qed.

End TrueDivision.

Section Doubling.
Import Py Float.
Open Scope Z_scope.





End Doubling.

(* ================================================================== *)
(** * Rounding to nearest, in general                                  *)
(* ================================================================== *)

Section NearestRounding.
Import Py Float.
Open Scope Z_scope.

(** Where a remainder [r] lies between two multiples of [d]. *)
Lemma new_location_cases (d r : Z) :
  0 < d -> 0 <= r < d ->
  (r = 0 /\ new_location d r = loc_Exact)
  \/ (0 < r /\ 2 * r < d /\ new_location d r = loc_Inexact Lt)
  \/ (0 < r /\ 2 * r = d /\ new_location d r = loc_Inexact Eq)
  \/ (0 < r /\ d < 2 * r /\ new_location d r = loc_Inexact Gt).
Proof.
  intros Hd Hr.
  unfold new_location, new_location_even, new_location_odd.
  destruct (Z.eqb_spec r 0) as [->|Hr0].
  - left. split; [reflexivity|]. destruct (Z.even d); reflexivity.
  - right.
    assert (Hz : (r =? 0) = false) by (apply Z.eqb_neq; exact Hr0).
    destruct (Z.even d) eqn:Hev; cbv beta; rewrite !Hz.
    + destruct (Z.compare_spec (2 * r) d) as [E|L|G].
      * right. left. repeat split; auto; lia.
      * left. repeat split; auto; lia.
      * right. right. repeat split; auto; lia.
    + assert (Hodd : 2 * r <> d).
      { intros E. rewrite <- E in Hev. rewrite Z.even_mul in Hev.
        discriminate. }
      destruct (Z.compare_spec (2 * r + 1) d) as [E|L|G].
      * left. repeat split; auto; lia.
      * left. repeat split; auto; lia.
      * right. right. repeat split; auto; lia.
Qed.

(** The quotient [M / d] with the position of the remainder, shifted
    by [k] bits and rounded: a nearest multiple of [2^k] to the exact
    quotient. *)
Lemma round_shift_located (M d k : Z) :
  0 <= M -> 0 < d -> 0 <= k ->
  let n := round_shift (M / d) (new_location d (M mod d)) k in
  - (2 ^ k * d) <= 2 * (n * 2 ^ k * d - M) <= 2 ^ k * d.
Proof.
  intros HM Hd Hk.
  pose proof (Z.div_mod M d ltac:(lia)) as Hdm.
  pose proof (Z.mod_pos_bound M d Hd) as Hr.
  assert (Hq : 0 <= M / d) by (apply Z.div_pos; lia).
  pose proof (new_location_cases Hd Hr) as Hloc.
  set (q := M / d) in *. set (r := M mod d) in *.
  cbv zeta. destruct k as [|p|p]; [| |lia].
  - change (2 ^ 0) with 1.
    assert (Hrs : forall l, round_shift q l 0 = round_nearest_even q l)
      by (intros [|[| |]]; reflexivity).
    rewrite Hrs.
    destruct Hloc as [[H0 ->]|[(Hp & Hc & ->)|[(Hp & Hc & ->)|(Hp & Hc & ->)]]];
      cbn [round_nearest_even]; try nia.
    destruct (Z.even q); nia.
  - destruct (Pos2Nat.is_succ p) as [j Hj].
    assert (Hpj : Z.pos p = Z.of_nat j + 1) by lia.
    set (h := 2 ^ Z.of_nat j).
    assert (Hh : 0 < h) by (apply Z.pow_pos_nonneg; lia).
    assert (Hpow' : 2 ^ (Z.of_nat j + 1) = h * 2)
      by (unfold h; rewrite Z.pow_add_r by lia; reflexivity).
    assert (Hpow : 2 ^ Z.pos p = h * 2) by (rewrite Hpj; exact Hpow').
    rewrite Hpow.
    pose proof (Z.div_mod q h ltac:(lia)) as Hdq.
    pose proof (Z.mod_pos_bound q h Hh) as Hrem.
    pose proof (Z.div_mod (q / h) 2 ltac:(lia)) as Hdq2.
    pose proof (Z.mod_pos_bound (q / h) 2 ltac:(lia)) as Hbit.
    assert (Hrs : forall l,
              round_shift q l (Z.pos p)
              = round_nearest_even (q / h / 2)
                  (loc_of_shr_record
                     {| shr_m := q / h / 2;
                        shr_r := Z.odd (q / h);
                        shr_s := match l with
                                 | loc_Exact => false
                                 | _ => true
                                 end || negb (q mod h =? 0) |})).
    { intros l. unfold round_shift, shr, fst. rewrite iter_pos_nat, Hj.
      destruct l as [|[| |]]; cbn [shr_record_of_loc];
        rewrite shr_iter by assumption; fold h;
        rewrite Hpow', <- Z.div_div by lia; cbn [shr_m orb]; reflexivity. }
    rewrite Hrs. clear Hrs.
    set (t := q mod h) in *. set (u := q / h) in *.
    set (w := u / 2) in *. rewrite Zodd_mod.
    assert (Ht : t * d <= (h - 1) * d) by nia.
    assert (Hq' : q = w * (h * 2) + (u mod 2) * h + t) by lia.
    assert (HM' : M = w * (h * 2) * d + (u mod 2) * h * d + t * d + r) by nia.
    destruct (Z.eqb_spec (u mod 2) 1) as [Hb|Hb];
      [replace (u mod 2) with 1 in HM' by lia
      |replace (u mod 2) with 0 in HM' by lia];
      destruct (Z.eqb_spec t 0) as [Ht0|Ht0];
      destruct Hloc as [[H0 ->]|[(Hp & Hc & ->)|[(Hp & Hc & ->)|(Hp & Hc & ->)]]];
      cbn [orb negb loc_of_shr_record round_nearest_even];
      try (destruct (Z.even w)); nia.
Qed.

(** The quotient and the remainder that the division of two ints
    hands to the rounding. *)
Lemma SFdiv_core_ints (a b : Z) :
  0 < a -> 0 < b -> -1021 <= Zdigits2 a - Zdigits2 b ->
  let s := Z.max 0 (Zdigits2 b + 53 - Zdigits2 a) in
  SFdiv_core_binary prec emax a 0 b 0
  = (a * 2 ^ s / b, - s, new_location b ((a * 2 ^ s) mod b)).
Proof.
  intros Ha Hb Hd. cbv zeta. unfold SFdiv_core_binary.
  set (s := Z.max 0 (Zdigits2 b + 53 - Zdigits2 a)).
  replace (Z.min (fexp prec emax (Zdigits2 a + 0 - (Zdigits2 b + 0))) (0 - 0))
    with (- s) by (unfold fexp, emin, prec, emax, s; lia).
  replace (0 - 0 - - s) with s by lia.
  assert (Hs : 0 <= s) by (unfold s; lia).
  assert (Hm : match s with
               | 0 => a
               | Z.pos _ => Z.shiftl a s
               | Z.neg _ => 0
               end = a * 2 ^ s).
  { destruct s as [|p|p]; [change (2 ^ 0) with 1; lia| |lia].
    now rewrite Z.shiftl_mul_pow2 by lia. }
  rewrite Hm. unfold Z.div, Z.modulo.
  destruct (Z.div_eucl (a * 2 ^ s) b); reflexivity.
Qed.

(** True division of two positive ints whose quotient is in the normal
    range: the mantissa [n] of the result, on the grid [2^(k-s)], is
    within half a unit of the exact quotient. *)
Lemma true_div_nearest (a b : Z) :
  0 < a -> 0 < b -> -1021 <= Zdigits2 a - Zdigits2 b <= 1021 ->
  exists n s k,
    0 <= s /\ 0 <= k
    /\ 2 ^ 52 <= n <= 2 ^ 53
    /\ - (2 ^ k * b) <= 2 * (n * 2 ^ k * b - a * 2 ^ s) <= 2 ^ k * b
    /\ true_div a b
       = Ret (if n <? 2 ^ 53
              then S754_finite false (Z.to_pos n) (k - s)
              else S754_finite false (Z.to_pos (2 ^ 52)) (k - s + 1)).
Proof.
  intros Ha Hb Hd. unfold true_div.
  destruct (Z.eqb_spec b 0) as [|_]; [lia|].
  destruct (Z.ltb_spec a 0) as [|_]; [lia|].
  destruct (Z.ltb_spec b 0) as [|_]; [lia|].
  cbn [xorb]. destruct (Z.eqb_spec a 0) as [|_]; [lia|].
  rewrite !Z.abs_eq by lia.
  rewrite SFdiv_core_ints by lia. cbv zeta.
  set (da := Zdigits2 a) in *. set (db := Zdigits2 b) in *.
  pose proof (@Zdigits2_bounds a Ha) as Hba. fold da in Hba.
  pose proof (@Zdigits2_bounds b Hb) as Hbb. fold db in Hbb.
  pose proof (@Zdigits2_pos a Ha) as Hda. fold da in Hda.
  pose proof (@Zdigits2_pos b Hb) as Hdb. fold db in Hdb.
  set (s := Z.max 0 (db + 53 - da)).
  assert (Hs : 0 <= s) by (unfold s; lia).
  assert (Hs' : db + 53 - da <= s /\ (s = 0 \/ s = db + 53 - da))
    by (unfold s; lia).
  assert (Hps : 0 < 2 ^ s) by (apply Z.pow_pos_nonneg; lia).
  set (M := a * 2 ^ s).
  assert (HM : 2 ^ (da + s - 1) <= M < 2 ^ (da + s)).
  { unfold M. replace (da + s - 1) with (da - 1 + s) by lia.
    rewrite !Z.pow_add_r by lia. nia. }
  set (q := M / b).
  assert (Hq52 : 2 ^ 52 <= q).
  { apply Z.div_le_lower_bound; [lia|].
    apply Z.le_trans with (2 ^ (da + s - 1)); [|lia].
    apply Z.le_trans with (2 ^ (db + 52)).
    - rewrite Z.pow_add_r by lia. nia.
    - apply Z.pow_le_mono_r; lia. }
  assert (Hqhi : q < 2 ^ (da + s - db + 1)).
  { apply Z.div_lt_upper_bound; [lia|].
    apply Z.lt_le_trans with (2 ^ (da + s)); [lia|].
    assert (E : 2 ^ (da + s) = 2 ^ (db - 1) * 2 ^ (da + s - db + 1)).
    { rewrite <- Z.pow_add_r by (lia). f_equal. lia. }
    rewrite E. apply Z.mul_le_mono_nonneg_r; [|lia].
    apply Z.pow_nonneg. lia. }
  set (dq := Zdigits2 q).
  assert (Hdq : 53 <= dq <= da + s - db + 1).
  { split.
    - pose proof (@Zdigits2_gt_of_ge_pow q 52 ltac:(lia) Hq52). unfold dq. lia.
    - apply Zdigits2_le_of_lt_pow; lia. }
  pose proof (@Zdigits2_bounds q ltac:(lia)) as Hbq. fold dq in Hbq.
  rewrite bra_normal by (fold dq; lia). cbv zeta. fold dq.
  set (k := Z.max 0 (dq - 53)).
  assert (Hk : k = dq - 53) by (unfold k; lia).
  assert (Hpk : 0 < 2 ^ k) by (apply Z.pow_pos_nonneg; lia).
  pose proof (@round_shift_located M b k ltac:(unfold M; lia) Hb ltac:(lia))
    as Hnear.
  cbv zeta in Hnear. fold q in Hnear.
  set (l := new_location b (M mod b)) in *.
  pose proof (@round_shift_crude q l k ltac:(lia) ltac:(lia)) as Hcr.
  set (n := round_shift q l k) in *.
  assert (Hqk : 2 ^ 52 <= q / 2 ^ k < 2 ^ 53).
  { split.
    - apply Z.div_le_lower_bound; [lia|].
      rewrite <- Z.pow_add_r by lia.
      replace (k + 52) with (dq - 1) by lia. lia.
    - apply Z.div_lt_upper_bound; [lia|].
      rewrite <- Z.pow_add_r by lia.
      replace (k + 53) with dq by lia. lia. }
  assert (Hn : 2 ^ 52 <= n <= 2 ^ 53) by lia.
  exists n, s, k. split; [exact Hs|]. split; [lia|]. split; [exact Hn|].
  split; [exact Hnear|].
  replace (- s + k) with (k - s) by lia.
  destruct (Z.ltb_spec n (2 ^ 53)) as [Hlt|Hge].
  - assert (Hdn : Zdigits2 n = 53)
      by (apply Zdigits2_unique; [change (53 - 1) with 52; lia|lia]).
    rewrite Hdn. change (53 <=? 53) with true. cbv iota.
    rewrite pack_pos by (lia). reflexivity.
  - assert (E : n = 2 ^ 53) by lia. rewrite E.
    change (Zdigits2 (2 ^ 53) <=? 53) with false. cbv iota.
    change (2 ^ 53 / 2) with (2 ^ 52).
    rewrite pack_pos by (lia). reflexivity.
Qed.

End NearestRounding.

(* ================================================================== *)
(** * Properties of the statistics summarizer                          *)
(* ================================================================== *)

Section Sorting.
Import Py Stats.
Open Scope Z_scope.

Lemma insert_perm (x : Z) (l : list Z) : Permutation (x :: l) (insert x l).
Proof.
  induction l as [|y l IH]; simpl; [reflexivity|].
  destruct (x <=? y); [reflexivity|].
  rewrite perm_swap. now apply perm_skip.
Qed.

Lemma sorted_perm (l : list Z) : Permutation l (sorted l).
Proof.
  induction l as [|x l IH]; simpl; [reflexivity|].
  rewrite <- insert_perm. now apply perm_skip.
Qed.

Lemma insert_Sorted (x : Z) (l : list Z) :
  Sorted Z.le l -> Sorted Z.le (insert x l).
Proof.
  induction 1 as [|y l Hs IH Hhd]; simpl; [repeat constructor|].
  destruct (Z.leb_spec x y).
  - repeat constructor; assumption.
  - constructor; [assumption|].
    destruct l as [|z l]; simpl in *.
    + constructor. lia.
    + destruct (x <=? z); constructor; [lia|]. now inversion Hhd.
Qed.

Lemma sorted_Sorted (l : list Z) : Sorted Z.le (sorted l).
Proof.
  induction l as [|x l IH]; simpl; [constructor|].
  now apply insert_Sorted.
Qed.

Lemma llen_sorted (l : list Z) : llen (sorted l) = llen l.
Proof.
  unfold llen. now rewrite (Permutation_length (sorted_perm l)).
Qed.

Lemma getitem_in_range (l : list Z) (i : Z) :
  0 <= i < llen l ->
  exists x, getitem l i = Ret x /\ nth_error l (Z.to_nat i) = Some x /\ In x l.
Proof.
  intros Hi. unfold getitem, llen in *.
  destruct (Z.ltb_spec i 0); [lia|]. destruct (Z.ltb_spec i 0); [lia|].
  destruct (nth_error l (Z.to_nat i)) as [x|] eqn:Hn.
  - exists x. repeat split. eapply nth_error_In; eassumption.
  - apply nth_error_None in Hn. lia.
Qed.

Lemma In_sorted (x : Z) (l : list Z) : In x (sorted l) -> In x l.
Proof. apply Permutation_in. symmetry. apply sorted_perm. Qed.

(** The ceiling of [0.95 n] in exact arithmetic. *)
Lemma Qceiling_095 (n : Z) :
  Qceiling ((95 # 100) * inject_Z n) = (19 * n + 19) / 20.
Proof.
  unfold Qceiling, Qfloor, Qopp, Qmult, inject_Z. cbn [Qnum Qden].
  change (Z.pos (100 * 1)) with 100.
  pose proof (Z.div_mod (- (95 * n)) 100 ltac:(lia)).
  pose proof (Z.mod_pos_bound (- (95 * n)) 100 ltac:(lia)).
  pose proof (Z.div_mod (19 * n + 19) 20 ltac:(lia)).
  pose proof (Z.mod_pos_bound (19 * n + 19) 20 ltac:(lia)).
  lia.
Qed.

Lemma p95_index_exact_range (n : Z) :
  1 <= n -> 0 <= p95_index_exact n < n
            /\ p95_index_exact n = (19 * n + 19) / 20 - 1.
Proof.
  intros Hn. unfold p95_index_exact. rewrite Qceiling_095.
  pose proof (Z.div_mod (19 * n + 19) 20 ltac:(lia)).
  pose proof (Z.mod_pos_bound (19 * n + 19) 20 ltac:(lia)).
  lia.
Qed.

End Sorting.

Section Mean.
Import Py Float Stats.
Open Scope Z_scope.

Lemma pos_normal_weaken (lo hi lo' hi' : Z) (x : float) :
  pos_normal lo hi x -> lo' <= lo -> hi <= hi' -> pos_normal lo' hi' x.
Proof.
  intros (m & e & -> & Hd & He) Hlo Hhi. exists m, e.
  repeat split; auto; lia.
Qed.

Lemma pos_normal_not_zero (lo hi : Z) (x : float) :
  pos_normal lo hi x -> is_zero x = false.
Proof. intros (m & e & -> & _). reflexivity. Qed.

(** [float(z)] on a non-negative int of at most [d] digits. *)
Lemma of_int_nonneg (z d : Z) :
  0 <= z < 2 ^ d -> 0 <= d <= 1023 ->
  exists x, of_int z = Ret x
            /\ (z = 0 /\ x = zero \/ 0 < z /\ pos_normal (-52) (d - 52) x).
Proof.
  intros [Hz Hlt] Hd.
  destruct (Z.eq_dec z 0) as [->|Hne]; [exists zero; auto|].
  assert (Hdz : Zdigits2 z <= d) by (apply Zdigits2_le_of_lt_pow; lia).
  pose proof (@Zdigits2_pos z ltac:(lia)) as Hdpos.
  destruct (@of_int_pos z) as (m & e & Hx & Hdm & He & _); try lia.
  exists (S754_finite false m e). split; [assumption|right].
  split; [lia|]. exists m, e. repeat split; auto; lia.
Qed.

Lemma sum_bounds (data : list Z) (b : Z) :
  Forall (fun x => 0 <= x < b) data ->
  0 <= sum data <= llen data * b.
Proof.
  unfold llen, sum. induction 1 as [|x l Hx _ IH];
    cbn [fold_right List.length]; [lia|].
  rewrite Nat2Z.inj_succ. nia.
Qed.

Lemma sum_zero (data : list Z) :
  Forall (fun x => 0 <= x) data -> sum data = 0 -> Forall (fun x => x = 0) data.
Proof.
  induction 1 as [|x l Hx Hl IH]; simpl; intros Hs; constructor.
  - assert (0 <= sum l); [|lia].
    clear -Hl. induction Hl; simpl; lia.
  - apply IH.
    assert (0 <= sum l); [|lia].
    clear -Hl. induction Hl; simpl; lia.
Qed.

Lemma floats_of_ints_exact (data : list Z) :
  Forall (fun x => 0 <= x < 2 ^ 53) data ->
  exists xs, floats_of_ints data = Ret xs /\ map to_int_floor xs = data.
Proof.
  induction 1 as [|z l Hz _ (xs & Hxs & Hmap)]; simpl.
  - exists []. auto.
  - destruct (to_int_floor_of_int Hz) as (x & -> & Hfl & _). cbn [bind].
    rewrite Hxs. cbn [bind]. exists (x :: xs). simpl. now rewrite Hfl, Hmap.
Qed.

(** On ints that convert exactly, [math.fsum] is the conversion of
    their sum. *)
Lemma fsum_exact (data : list Z) :
  Forall (fun x => 0 <= x < 2 ^ 53) data ->
  fsum data = of_int (sum data).
Proof.
  intros Hall. unfold fsum.
  destruct (floats_of_ints_exact Hall) as (xs & -> & Hmap).
  cbn [bind]. now rewrite Hmap.
Qed.

Lemma llen_pos {A : Type} (l : list A) : l <> [] -> 1 <= llen l.
Proof. destruct l; [congruence|]. unfold llen. simpl. lia. Qed.

Lemma pow_split (a b : Z) : 0 <= a -> 0 <= b -> 2 ^ (a + b) = 2 ^ a * 2 ^ b.
Proof. intros. apply Z.pow_add_r; assumption. Qed.

(** [statistics.fmean] on a non-empty list of moderate ints: the
    rounded quotient of the converted sum by the converted length. *)
Lemma fmean_returns (data : list Z) :
  data <> [] -> llen data < 2 ^ 48 ->
  Forall (fun x => 0 <= x < 2 ^ 53) data ->
  exists total n_f,
    of_int (sum data) = Ret total
    /\ of_int (llen data) = Ret n_f
    /\ pos_normal (-52) (-4) n_f
    /\ fmean data = Ret (SFdiv prec emax total n_f)
    /\ (sum data = 0 /\ total = zero
        \/ 0 < sum data /\ pos_normal (-52) 49 total).
Proof.
  intros Hne Hlen Hall.
  pose proof (llen_pos Hne) as Hn.
  pose proof (sum_bounds Hall) as Hsum.
  assert (HS : 0 <= sum data < 2 ^ 101).
  { change (2 ^ 101) with (2 ^ 48 * 2 ^ 53). nia. }
  assert (HN : 0 <= llen data < 2 ^ 48) by lia.
  destruct (of_int_nonneg HS (d := 101)) as (total & Htotal & Hcase); [lia|].
  destruct (of_int_nonneg HN (d := 48))
    as (n_f & Hnf & [[H0 _]|[_ Hnorm]]); [lia|lia|].
  assert (Hnorm' : pos_normal (-52) (-4) n_f).
  { eapply pos_normal_weaken; [exact Hnorm|lia|lia]. }
  exists total, n_f. repeat split; auto.
  unfold fmean. rewrite fsum_exact, Htotal by assumption. cbn [bind].
  destruct (Z.eqb_spec (llen data) 0); [lia|].
  rewrite Hnf. cbn [bind]. unfold div.
  now rewrite (pos_normal_not_zero Hnorm').
Qed.

End Mean.

Section Variance.
Import Py Float Stats.
Open Scope Z_scope.

Lemma sum_sq_dev (a b : Z) (data : list Z) :
  sum (map (fun x => (a * x - b) * (a * x - b)) data)
  = a * a * sumsq data - 2 * a * b * sum data + llen data * (b * b).
Proof.
  unfold sumsq, sum, llen. induction data as [|x l IH];
    cbn [map fold_right List.length]; [lia|].
  rewrite Nat2Z.inj_succ, IH. ring.
Qed.

Lemma sum_squares_nonneg (f : Z -> Z) (data : list Z) :
  0 <= sum (map (fun x => f x * f x) data).
Proof.
  unfold sum. induction data as [|x l IH]; cbn [map fold_right]; [lia|].
  pose proof (Z.square_nonneg (f x)). lia.
Qed.

(** The numerator of the variance is not negative. *)
Lemma variance_numerator_nonneg (data : list Z) :
  0 <= llen data * sumsq data - sum data * sum data.
Proof.
  pose proof (sum_sq_dev (llen data) (sum data) data) as Hid.
  pose proof (sum_squares_nonneg (fun x => llen data * x - sum data) data)
    as Hnn. cbv beta in Hnn. rewrite Hid in Hnn.
  assert (Hn : 0 <= llen data) by (unfold llen; lia).
  destruct (Z.eq_dec (llen data) 0) as [H0|H0].
  - destruct data; [simpl; lia|]. unfold llen in H0. simpl in H0. lia.
  - nia.
Qed.

Lemma pvariance_frac_spec (data : list Z) :
  data <> [] ->
  let '(num, den) := pvariance_frac data in
  0 <= num /\ 0 < den
  /\ num * (llen data * llen data)
     = (llen data * sumsq data - sum data * sum data) * den
  /\ num <= llen data * sumsq data - sum data * sum data
  /\ den <= llen data * llen data.
Proof.
  intros Hne. unfold pvariance_frac. fold (sumsq data).
  pose proof (llen_pos Hne) as Hn.
  pose proof (variance_numerator_nonneg data) as Hnum.
  set (num := llen data * sumsq data - sum data * sum data) in *.
  set (den := llen data * llen data).
  assert (Hden : 0 < den) by (unfold den; nia).
  pose proof (Z.gcd_nonneg num den) as Hg0.
  assert (Hg : 0 < Z.gcd num den).
  { destruct (Z.eq_dec (Z.gcd num den) 0) as [H0|H0]; [|lia].
    apply Z.gcd_eq_0_r in H0. lia. }
  destruct (Z.gcd_divide_l num den) as [a Ha].
  destruct (Z.gcd_divide_r num den) as [b Hb].
  set (g := Z.gcd num den) in *.
  assert (Hqa : num / g = a) by (rewrite Ha at 1; apply Z.div_mul; lia).
  assert (Hqb : den / g = b) by (rewrite Hb at 1; apply Z.div_mul; lia).
  rewrite Hqa, Hqb.
  repeat split; nia.
Qed.

Lemma Qsum_sq_dev (mu : Q) (data : list Z) :
  (fold_right Qplus 0 (map (fun x => (inject_Z x - mu) ^ 2) data)
   == inject_Z (sumsq data) - 2 * mu * inject_Z (sum data)
      + inject_Z (llen data) * mu * mu)%Q.
Proof.
  unfold sumsq, sum, llen. induction data as [|x l IH];
    cbn [map fold_right List.length].
  - simpl. ring.
  - rewrite IH, Nat2Z.inj_succ. unfold Z.succ.
    rewrite !inject_Z_plus, inject_Z_mult. simpl Qpower. ring.
Qed.

(** The fraction whose root [pstdev] takes is the population variance:
    the sum of the squared deviations from the mean, divided by [n]. *)
Lemma pvariance_frac_exact (data : list Z) :
  data <> [] ->
  (inject_Z (fst (pvariance_frac data)) / inject_Z (snd (pvariance_frac data))
   == population_variance data)%Q.
Proof.
  intros Hne. pose proof (pvariance_frac_spec Hne) as Hspec.
  destruct (pvariance_frac data) as [num den]. cbn [fst snd].
  destruct Hspec as (Hnum & Hden & Heq & _).
  pose proof (llen_pos Hne) as Hn.
  unfold population_variance. rewrite Qsum_sq_dev. unfold mean_exact.
  assert (Hn' : ~ (inject_Z (llen data) == 0)%Q).
  { intros H. apply (eq_sym) in H. unfold Qeq in H. simpl in H. lia. }
  assert (Hd' : ~ (inject_Z den == 0)%Q).
  { intros H. unfold Qeq in H. simpl in H. lia. }
  assert (HeqQ : (inject_Z num * (inject_Z (llen data) * inject_Z (llen data))
                  == (inject_Z (llen data) * inject_Z (sumsq data)
                      - inject_Z (sum data) * inject_Z (sum data))
                     * inject_Z den)%Q).
  { unfold Qminus.
    rewrite <- !inject_Z_mult, <- inject_Z_opp, <- inject_Z_plus,
      <- inject_Z_mult.
    apply inject_Z_injective. lia. }
  clear Heq.
  set (N := inject_Z (llen data)) in *. set (D := inject_Z den) in *.
  set (A := inject_Z num) in *. set (X := inject_Z (sumsq data)) in *.
  set (S := inject_Z (sum data)) in *.
  assert (HA : (A == (N * X - S * S) * D / (N * N))%Q).
  { rewrite <- HeqQ. field. exact Hn'. }
  rewrite HA. field. split; assumption.
Qed.

End Variance.

Section StandardDeviation.
Import Py Float Stats.
Open Scope Z_scope.

Lemma bit_length_digits (n : Z) : 0 <= n -> bit_length n = Zdigits2 n.
Proof.
  intros Hn. unfold bit_length.
  destruct (Z.eqb_spec n 0) as [->|Hne]; [reflexivity|].
  rewrite Z.abs_eq, Zdigits2_log2 by lia. reflexivity.
Qed.

Lemma lor_bit_bounds (a : Z) (b : bool) :
  0 <= a -> a <= Z.lor a (if b then 0 else 1) <= a + 1.
Proof.
  intros Ha. destruct b; [rewrite Z.lor_0_r; lia|].
  destruct a as [|p|p]; try lia; [simpl; lia|].
  destruct p; simpl; lia.
Qed.

Lemma rto_bounds (n m : Z) :
  0 <= n -> 0 < m -> 0 <= integer_sqrt_of_frac_rto n m <= n + 1.
Proof.
  intros Hn Hm. unfold integer_sqrt_of_frac_rto.
  pose proof (Z.sqrt_nonneg (n / m)) as Hs.
  assert (Hq : 0 <= n / m <= n).
  { split; [apply Z.div_pos; lia|].
    apply Z.div_le_upper_bound; [lia|]. nia. }
  pose proof (Z.sqrt_le_lin (n / m) (proj1 Hq)) as Hlin.
  pose proof (lor_bit_bounds
                (Z.sqrt (n / m) * Z.sqrt (n / m) * m =? n) Hs) as Hl.
  lia.
Qed.

(** The two ints that [_float_sqrt_of_frac] divides. *)
Lemma float_sqrt_of_frac_operands (n m : Z) :
  0 <= n -> 0 < m ->
  exists a b, float_sqrt_of_frac n m = true_div a b /\ 0 <= a /\ 0 < b
    /\ (n < 2 ^ 300 -> m < 2 ^ 300 -> a < 2 ^ 1000 /\ b < 2 ^ 1000).
Proof.
  intros Hn Hm. unfold float_sqrt_of_frac.
  rewrite (bit_length_digits Hn), (@bit_length_digits m) by lia.
  set (q := (Zdigits2 n - Zdigits2 m - 109) / 2).
  destruct (Z.leb_spec 0 q) as [Hq|Hq].
  - eexists _, 1. split; [reflexivity|].
    rewrite !Z.shiftl_mul_pow2 by lia.
    assert (Hpq : 0 < 2 ^ q) by (apply Z.pow_pos_nonneg; lia).
    assert (Hp2q : 0 < 2 ^ (2 * q)) by (apply Z.pow_pos_nonneg; lia).
    pose proof (@rto_bounds n (m * 2 ^ (2 * q)) Hn ltac:(nia)) as Hr.
    split; [nia|]. split; [lia|].
    intros Hn300 Hm300.
    assert (Zdigits2 n <= 300) by (apply Zdigits2_le_of_lt_pow; lia).
    pose proof (@Zdigits2_pos m Hm).
    assert (q <= 95).
    { unfold q. apply Z.div_le_upper_bound; lia. }
    assert (2 ^ q <= 2 ^ 95) by (apply Z.pow_le_mono_r; lia).
    split; [|reflexivity].
    apply Z.le_lt_trans with (2 ^ 300 * 2 ^ 95); [|reflexivity].
    apply Z.mul_le_mono_nonneg; lia.
  - eexists _, _. split; [reflexivity|].
    rewrite !Z.shiftl_mul_pow2 by lia.
    assert (Hp2q : 0 < 2 ^ (- 2 * q)) by (apply Z.pow_pos_nonneg; lia).
    assert (Hpq : 0 < 2 ^ (- q)) by (apply Z.pow_pos_nonneg; lia).
    pose proof (@rto_bounds (n * 2 ^ (- 2 * q)) m ltac:(nia) Hm) as Hr.
    split; [lia|]. split; [lia|].
    intros Hn300 Hm300.
    assert (Zdigits2 m <= 300) by (apply Zdigits2_le_of_lt_pow; lia).
    pose proof (Zdigits2_nonneg n).
    assert (-205 <= q).
    { unfold q. apply Z.div_le_lower_bound; lia. }
    assert (2 ^ (- 2 * q) <= 2 ^ 410) by (apply Z.pow_le_mono_r; lia).
    assert (2 ^ (- q) <= 2 ^ 205) by (apply Z.pow_le_mono_r; lia).
    split.
    + apply Z.le_lt_trans with (2 ^ 300 * 2 ^ 410 + 1); [|reflexivity].
      assert (n * 2 ^ (- 2 * q) <= 2 ^ 300 * 2 ^ 410)
        by (apply Z.mul_le_mono_nonneg; lia).
      lia.
    + apply Z.le_lt_trans with (2 ^ 205); [lia|reflexivity].
Qed.

(** The rounded square root of a non-negative fraction is a finite
    float that is not below [0.0]. *)
Lemma float_sqrt_of_frac_nonneg (n m : Z) (x : float) :
  0 <= n -> 0 < m -> float_sqrt_of_frac n m = Ret x ->
  SFleb (S754_zero false) x = true /\ is_finite x = true.
Proof.
  intros Hn Hm Hx.
  destruct (float_sqrt_of_frac_operands Hn Hm) as (a & b & Heq & Ha & Hb & _).
  rewrite Heq in Hx. eapply true_div_nonneg; eassumption.
Qed.

Lemma float_sqrt_of_frac_returns (n m : Z) :
  0 <= n < 2 ^ 300 -> 0 < m < 2 ^ 300 ->
  exists x, float_sqrt_of_frac n m = Ret x.
Proof.
  intros [Hn Hn'] [Hm Hm'].
  destruct (float_sqrt_of_frac_operands Hn Hm)
    as (a & b & -> & Ha & Hb & Hbound).
  destruct (Hbound Hn' Hm') as [Ha' Hb'].
  apply true_div_returns; try assumption;
    apply Zdigits2_le_of_lt_pow; lia.
Qed.

Lemma float_sqrt_of_frac_zero : float_sqrt_of_frac 0 1 = Ret zero.
Proof. reflexivity. Qed.


Lemma sumsq_bounds (data : list Z) :
  Forall (fun x => 0 <= x < 2 ^ 53) data ->
  0 <= sumsq data <= llen data * 2 ^ 106.
Proof.
  unfold llen, sumsq, sum. induction 1 as [|x l Hx _ IH];
    cbn [map fold_right List.length]; [lia|].
  rewrite Nat2Z.inj_succ. change (2 ^ 106) with (2 ^ 53 * 2 ^ 53). nia.
Qed.

Lemma pstdev_unfold (data : list Z) :
  data <> [] ->
  pstdev data
  = float_sqrt_of_frac (fst (pvariance_frac data)) (snd (pvariance_frac data)).
Proof.
  intros Hne. pose proof (llen_pos Hne). unfold pstdev.
  destruct (Z.ltb_spec (llen data) 1); [lia|].
  now destruct (pvariance_frac data).
Qed.

(** [statistics.pstdev], when it returns, returns a finite float that
    is not below [0.0]. *)
Lemma pstdev_nonneg (data : list Z) (x : float) :
  data <> [] -> pstdev data = Ret x ->
  SFleb (S754_zero false) x = true /\ is_finite x = true.
Proof.
  intros Hne. rewrite pstdev_unfold by assumption.
  pose proof (pvariance_frac_spec Hne) as Hspec.
  destruct (pvariance_frac data) as [num den].
  destruct Hspec as (Hnum & Hden & _). cbn [fst snd].
  now apply float_sqrt_of_frac_nonneg.
Qed.

(** [statistics.pstdev] returns on a non-empty list of moderate ints. *)
Lemma pstdev_returns (data : list Z) :
  data <> [] -> llen data < 2 ^ 48 ->
  Forall (fun x => 0 <= x < 2 ^ 53) data ->
  exists x, pstdev data = Ret x.
Proof.
  intros Hne Hlen Hall. rewrite pstdev_unfold by assumption.
  pose proof (pvariance_frac_spec Hne) as Hspec.
  destruct (pvariance_frac data) as [num den].
  destruct Hspec as (Hnum & Hden & _ & Hnum' & Hden'). cbn [fst snd].
  pose proof (llen_pos Hne) as Hn.
  pose proof (sumsq_bounds Hall) as Hsq.
  apply float_sqrt_of_frac_returns.
  - split; [assumption|].
    apply Z.le_lt_trans with (2 ^ 48 * (2 ^ 48 * 2 ^ 106)); [|reflexivity].
    assert (llen data * sumsq data <= 2 ^ 48 * (2 ^ 48 * 2 ^ 106)).
    { apply Z.mul_le_mono_nonneg; lia. }
    pose proof (Z.square_nonneg (sum data)). lia.
  - split; [assumption|].
    apply Z.le_lt_trans with (2 ^ 48 * 2 ^ 48); [|reflexivity].
    assert (llen data * llen data <= 2 ^ 48 * 2 ^ 48)
      by (apply Z.mul_le_mono_nonneg; lia).
    lia.
Qed.

Lemma all_equal_sums (x : Z) (data : list Z) :
  Forall (fun y => y = x) data ->
  sum data = llen data * x /\ sumsq data = llen data * (x * x).
Proof.
  unfold llen, sumsq, sum. induction 1 as [|y l -> _ [IH1 IH2]];
    cbn [map fold_right List.length]; [lia|].
  rewrite Nat2Z.inj_succ. lia.
Qed.

(** The standard deviation of equal values is [0.0]. *)
Lemma pstdev_all_equal (x : Z) (data : list Z) :
  data <> [] -> Forall (fun y => y = x) data -> pstdev data = Ret zero.
Proof.
  intros Hne Hall. rewrite pstdev_unfold by assumption.
  pose proof (llen_pos Hne) as Hn.
  destruct (all_equal_sums Hall) as [Hs Hsq].
  unfold pvariance_frac. rewrite Hs, Hsq.
  replace (llen data * (llen data * (x * x))
           - llen data * x * (llen data * x)) with 0 by ring.
  rewrite Z.gcd_0_l, Z.abs_eq by nia.
  rewrite Z.div_0_l, Z.div_same by nia. reflexivity.
Qed.

End StandardDeviation.

Section Summarize.
Import Py Float Stats.
Open Scope Z_scope.

Lemma lit_1000_normal : pos_normal (-43) (-43) lit_1000.
Proof.
  exists 8796093022208000%positive, (-43). repeat split; try lia.
Qed.

Lemma bind_ret_inv {A B : Type} (m : run A) (k : A -> run B) (b : B) :
  (x <- m ;; k x) = Ret b -> exists a, m = Ret a /\ k a = Ret b.
Proof. destruct m; simpl; try discriminate. eauto. Qed.

Lemma forall_in_sorted (P : Z -> Prop) (l : list Z) :
  Forall P l -> Forall P (sorted l).
Proof.
  intros H. eapply Permutation_Forall; [apply sorted_perm|assumption].
Qed.

(** The record [summarize_counts] returns on a non-empty list of
    moderate counts and a positive size, field by field. *)
Lemma summarize_counts_spec (sl pv md : string) (counts : list Z)
    (chars : Z) :
  counts <> [] -> llen counts < 2 ^ 48 ->
  Forall (fun x => 0 <= x < 2 ^ 53) counts ->
  1 <= chars < 2 ^ 53 ->
  exists total n_f x50 x95 f50 f95 sd chars_f,
    of_int (sum counts) = Ret total
    /\ of_int (llen counts) = Ret n_f
    /\ pos_normal (-52) (-4) n_f
    /\ (sum counts = 0 /\ total = zero
        \/ 0 < sum counts /\ pos_normal (-52) 49 total)
    /\ getitem (sorted counts) (llen counts / 2) = Ret x50
    /\ getitem (sorted counts) (p95_index_exact (llen counts)) = Ret x95
    /\ of_int x50 = Ret f50 /\ of_int x95 = Ret f95
    /\ (if 1 <? llen counts then pstdev counts else Ret zero) = Ret sd
    /\ of_int chars = Ret chars_f
    /\ pos_normal (-62) (-7) (SFdiv prec emax chars_f lit_1000)
    /\ summarize_counts sl pv md counts chars
       = Ret {| size_label := sl; model := md; provider := pv;
                num_trials := llen counts;
                mean_tokens := SFdiv prec emax total n_f;
                p50_tokens := f50; p95_tokens := f95;
                stdev_tokens := sd;
                mean_tokens_per_1k_chars :=
                  SFdiv prec emax (SFdiv prec emax total n_f)
                        (SFdiv prec emax chars_f lit_1000) |}.
Proof.
  intros Hne Hlen Hall Hchars.
  pose proof (llen_pos Hne) as Hn.
  destruct (fmean_returns Hne Hlen Hall)
    as (total & n_f & Htotal & Hnf & Hnorm & Hmean & Hcase).
  (* the two percentiles *)
  assert (Hi50 : 0 <= llen counts / 2 < llen (sorted counts)).
  { rewrite llen_sorted.
    pose proof (Z.div_mod (llen counts) 2 ltac:(lia)).
    pose proof (Z.mod_pos_bound (llen counts) 2 ltac:(lia)). lia. }
  destruct (getitem_in_range _ Hi50) as (x50 & Hx50 & _ & Hin50).
  destruct (p95_index_exact_range Hn) as [Hi95 Hi95eq].
  assert (Hi95' : 0 <= p95_index_exact (llen counts) < llen (sorted counts))
    by (rewrite llen_sorted; exact Hi95).
  destruct (getitem_in_range _ Hi95') as (x95 & Hx95 & _ & Hin95).
  destruct (@ceil_095_exact (llen counts) ltac:(lia)) as (n_f' & Hnf' & Hceil).
  rewrite Hnf in Hnf'. injection Hnf' as <-.
  pose proof (forall_in_sorted Hall) as Hall'.
  rewrite Forall_forall in Hall'.
  destruct (to_int_floor_of_int (Hall' _ Hin50)) as (f50 & Hf50 & _).
  destruct (to_int_floor_of_int (Hall' _ Hin95)) as (f95 & Hf95 & _).
  (* the standard deviation *)
  assert (Hsd : exists sd,
             (if 1 <? llen counts then pstdev counts else Ret zero) = Ret sd).
  { destruct (1 <? llen counts); [|eauto].
    apply pstdev_returns; assumption. }
  destruct Hsd as (sd & Hsd).
  (* the size, per thousand characters *)
  assert (HC : 0 <= chars < 2 ^ 53) by lia.
  destruct (of_int_nonneg HC (d := 53))
    as (chars_f & Hcf & [[H0 _]|[_ Hcnorm]]); [lia|lia|].
  pose proof (div_pos_normal Hcnorm lit_1000_normal ltac:(lia) ltac:(lia))
    as Hk.
  assert (Hk' : pos_normal (-62) (-7) (SFdiv prec emax chars_f lit_1000)).
  { eapply pos_normal_weaken; [exact Hk|lia|lia]. }
  exists total, n_f, x50, x95, f50, f95, sd, chars_f.
  repeat (split; [assumption|]).
  unfold summarize_counts.
  rewrite Hmean. cbn [bind]. rewrite llen_sorted, Hx50. cbn [bind].
  rewrite Hnf. cbn [bind]. rewrite Hceil. cbn [bind].
  replace (Z.max 0 ((19 * llen counts + 19) / 20 - 1))
    with (p95_index_exact (llen counts)) by lia.
  rewrite Hx95. cbn [bind]. rewrite Hsd. cbn [bind].
  rewrite Hcf. cbn [bind].
  unfold div at 1. cbn [is_zero lit_1000 bind].
  unfold div. rewrite (pos_normal_not_zero Hk'). cbn [bind].
  rewrite Hf50, Hf95. reflexivity.
Qed.


(** What a call of [summarize_counts] that returns went through. *)
Lemma summarize_counts_inv (sl pv md : string) (counts : list Z) (chars : Z)
    (r : SampleStats) :
  summarize_counts sl pv md counts chars = Ret r ->
  exists mean x50 n_f c x95 sd chars_f per_1k per f50 f95,
    fmean counts = Ret mean
    /\ getitem (sorted counts) (llen (sorted counts) / 2) = Ret x50
    /\ of_int (llen (sorted counts)) = Ret n_f
    /\ ceil (mul lit_0_95 n_f) = Ret c
    /\ getitem (sorted counts) (Z.max 0 (c - 1)) = Ret x95
    /\ (if 1 <? llen counts then pstdev counts else Ret zero) = Ret sd
    /\ of_int chars = Ret chars_f
    /\ div chars_f lit_1000 = Ret per_1k
    /\ div mean per_1k = Ret per
    /\ of_int x50 = Ret f50 /\ of_int x95 = Ret f95
    /\ r = {| size_label := sl; model := md; provider := pv;
              num_trials := llen counts; mean_tokens := mean;
              p50_tokens := f50; p95_tokens := f95; stdev_tokens := sd;
              mean_tokens_per_1k_chars := per |}.
Proof.
  unfold summarize_counts. intros Hrun.
  apply bind_ret_inv in Hrun as (mean & Hmean & Hrun).
  apply bind_ret_inv in Hrun as (x50 & Hx50 & Hrun).
  apply bind_ret_inv in Hrun as (n_f & Hnf & Hrun).
  apply bind_ret_inv in Hrun as (c & Hc & Hrun).
  apply bind_ret_inv in Hrun as (x95 & Hx95 & Hrun).
  apply bind_ret_inv in Hrun as (sd & Hsd & Hrun).
  apply bind_ret_inv in Hrun as (chars_f & Hcf & Hrun).
  apply bind_ret_inv in Hrun as (per_1k & Hk & Hrun).
  apply bind_ret_inv in Hrun as (per & Hper & Hrun).
  apply bind_ret_inv in Hrun as (f50 & Hf50 & Hrun).
  apply bind_ret_inv in Hrun as (f95 & Hf95 & Hrun).
  injection Hrun as <-.
  exists mean, x50, n_f, c, x95, sd, chars_f, per_1k, per, f50, f95.
  repeat (split; [assumption|]). reflexivity.
Qed.

(** In an ascending list, the element after another is not smaller. *)
Lemma Sorted_adjacent (l : list Z) :
  Sorted Z.le l ->
  forall i a b, nth_error l i = Some a ->
                nth_error l (Datatypes.S i) = Some b -> a <= b.
Proof.
  induction 1 as [|x l Hs IH Hhd]; intros i a b Ha Hb.
  - destruct i; discriminate.
  - destruct i as [|i]; simpl in Ha, Hb.
    + injection Ha as <-. destruct l as [|y l]; [discriminate|].
      injection Hb as <-. now inversion Hhd.
    + eapply IH; eassumption.
Qed.


End Summarize.

(* ================================================================== *)
(** * The square root of a fraction, rounded once                      *)
(* ================================================================== *)

Section SquareRoot.
Import Py Float Stats.
Open Scope Z_scope.

Lemma lor_1_odd (a : Z) : Z.odd (Z.lor a 1) = true.
Proof.
  rewrite <- Z.bit0_odd, Z.lor_spec. apply orb_true_r.
Qed.

Lemma Zdigits2_mul_pow2 (c t : Z) :
  0 < c -> 0 <= t -> Zdigits2 (c * 2 ^ t) = Zdigits2 c + t.
Proof.
  intros Hc Ht. pose proof (Zdigits2_bounds Hc) as Hb.
  pose proof (Zdigits2_pos Hc) as Hd.
  assert (Hp : 0 < 2 ^ t) by (apply Z.pow_pos_nonneg; lia).
  apply Zdigits2_unique; [|lia].
  replace (Zdigits2 c + t - 1) with (Zdigits2 c - 1 + t) by lia.
  rewrite !Z.pow_add_r by lia. nia.
Qed.

(** The integer square root of a fraction, rounded to odd: the floor
    [a] of the root, kept when the root is exact and made odd when it
    is not. *)
Lemma rto_spec (n m : Z) :
  0 <= n -> 0 < m ->
  let a := Z.sqrt (n / m) in
  let A := integer_sqrt_of_frac_rto n m in
  0 <= a
  /\ a * a * m <= n < (a + 1) * (a + 1) * m
  /\ ((a * a * m = n /\ A = a)
      \/ (a * a * m < n /\ Z.odd A = true /\ a <= A <= a + 1)).
Proof.
  intros Hn Hm. cbv zeta. unfold integer_sqrt_of_frac_rto.
  assert (Hy : 0 <= n / m) by (apply Z.div_pos; lia).
  pose proof (Z.sqrt_spec (n / m) Hy) as Hs.
  pose proof (Z.sqrt_nonneg (n / m)) as Ha.
  pose proof (Z.div_mod n m ltac:(lia)) as Hdm.
  pose proof (Z.mod_pos_bound n m Hm) as Hr.
  set (y := n / m) in *. set (a := Z.sqrt y) in *.
  cbv zeta in Hs. replace (Z.succ a) with (a + 1) in Hs by lia.
  assert (Hlo : a * a * m <= n).
  { assert (a * a * m <= y * m) by (apply Z.mul_le_mono_nonneg_r; lia).
    lia. }
  assert (Hhi : n < (a + 1) * (a + 1) * m).
  { assert ((y + 1) * m <= (a + 1) * (a + 1) * m)
      by (apply Z.mul_le_mono_nonneg_r; lia).
    lia. }
  split; [exact Ha|]. split; [split; assumption|].
  destruct (Z.eqb_spec (a * a * m) n) as [E|E].
  - left. split; [exact E|]. apply Z.lor_0_r.
  - right. split; [lia|]. split; [apply lor_1_odd|].
    apply (@lor_bit_bounds a false Ha).
Qed.

(** A mantissa within half a unit of a root rounded to odd, at least
    two bits above it, is within half a unit of the root itself. *)
Lemma sqrt_nearest_core (N M a A mant T : Z) :
  0 < M -> 0 <= a ->
  a * a * M <= N < (a + 1) * (a + 1) * M ->
  (a * a * M = N /\ A = a)
  \/ (a * a * M < N /\ Z.odd A = true /\ a <= A <= a + 1) ->
  2 <= T -> 0 < mant ->
  - 2 ^ T <= 2 * (mant * 2 ^ T - A) <= 2 ^ T ->
  let H := 2 ^ (T - 1) in
  ((2 * mant - 1) * H) * ((2 * mant - 1) * H) * M <= N
  /\ N <= ((2 * mant + 1) * H) * ((2 * mant + 1) * H) * M.
Proof.
  intros HM Ha Hbounds Hcases HT Hmant Hnear. cbv zeta.
  set (H' := 2 ^ (T - 2)).
  assert (HH' : 0 < H') by (apply Z.pow_pos_nonneg; lia).
  assert (EH : 2 ^ (T - 1) = 2 * H').
  { unfold H'. replace (T - 1) with (1 + (T - 2)) by lia.
    rewrite Z.pow_add_r by lia. reflexivity. }
  assert (ET : 2 ^ T = 4 * H').
  { unfold H'. replace T with (2 + (T - 2)) at 1 by lia.
    rewrite Z.pow_add_r by lia. reflexivity. }
  rewrite EH. rewrite ET in Hnear.
  set (L := (2 * mant - 1) * (2 * H')).
  set (U := (2 * mant + 1) * (2 * H')).
  assert (HL : 0 <= L) by (unfold L; nia).
  assert (Hrange : L <= a /\ a + 1 <= U \/ (a * a * M = N /\ L <= a <= U)).
  { destruct Hcases as [[E ->]|(Hlt & Hodd & HA)].
    - right. split; [exact E|]. unfold L, U. nia.
    - left. rewrite Zodd_mod in Hodd. apply Z.eqb_eq in Hodd.
      pose proof (Z.div_mod A 2 ltac:(lia)) as HdA.
      unfold L, U. nia. }
  destruct Hrange as [[H1 H2]|[E [H1 H2]]].
  - assert (L * L <= a * a) by nia.
    assert ((a + 1) * (a + 1) <= U * U) by nia.
    split; nia.
  - assert (L * L <= a * a) by nia.
    assert (a * a <= U * U) by nia.
    split; nia.
Qed.

(** The rounded quotient on its grid against an operand of 55 bits or
    more: the float in normal form, at least two bits above the
    operand. *)
Lemma grid_normalize (A n1 X Y : Z) :
  2 ^ 54 <= A -> 2 ^ 52 <= n1 <= 2 ^ 53 -> 0 <= X -> 0 <= Y ->
  - 2 ^ X <= 2 * (n1 * 2 ^ X - A * 2 ^ Y) <= 2 ^ X ->
  exists mant T,
    2 <= T /\ 2 ^ 52 <= mant < 2 ^ 53
    /\ - 2 ^ T <= 2 * (mant * 2 ^ T - A) <= 2 ^ T
    /\ ((n1 < 2 ^ 53 /\ mant = n1 /\ T = X - Y)
        \/ (n1 = 2 ^ 53 /\ mant = 2 ^ 52 /\ T = X - Y + 1)).
Proof.
  intros HA Hn HX HY Hnear.
  assert (HpY : 0 < 2 ^ Y) by (apply Z.pow_pos_nonneg; lia).
  assert (HpX : 0 < 2 ^ X) by (apply Z.pow_pos_nonneg; lia).
  assert (HXY : Y < X).
  { destruct (Z.lt_ge_cases Y X) as [|Hle]; [assumption|exfalso].
    assert (E : 2 ^ Y = 2 ^ X * 2 ^ (Y - X)).
    { rewrite <- Z.pow_add_r by lia. f_equal. lia. }
    assert (0 < 2 ^ (Y - X)) by (apply Z.pow_pos_nonneg; lia).
    rewrite E in Hnear.
    assert (2 * A * 2 ^ (Y - X) <= 2 * n1 + 1) by nia.
    change (2 ^ 54) with 18014398509481984 in HA.
    change (2 ^ 53) with 9007199254740992 in Hn.
    nia. }
  set (T0 := X - Y).
  assert (E : 2 ^ X = 2 ^ T0 * 2 ^ Y).
  { rewrite <- Z.pow_add_r by (unfold T0; lia). f_equal. unfold T0. lia. }
  assert (HpT : 2 <= 2 ^ T0).
  { change 2 with (2 ^ 1) at 1. apply Z.pow_le_mono_r; unfold T0; lia. }
  rewrite E in Hnear.
  assert (Hnear0 : - 2 ^ T0 <= 2 * (n1 * 2 ^ T0 - A) <= 2 ^ T0) by nia.
  clear Hnear E.
  change (2 ^ 54) with 18014398509481984 in HA.
  change (2 ^ 53) with 9007199254740992 in *.
  change (2 ^ 52) with 4503599627370496 in *.
  destruct (Z.lt_ge_cases n1 9007199254740992) as [Hlt|Hge].
  - exists n1, T0. split.
    + destruct (Z.lt_ge_cases T0 2) as [H1|]; [exfalso|assumption].
      assert (T0 = 1) by (unfold T0 in *; lia).
      replace (2 ^ T0) with 2 in Hnear0 by (now subst T0; rewrite H).
      lia.
    + split; [lia|]. split; [exact Hnear0|]. left. auto.
  - assert (En : n1 = 9007199254740992) by lia.
    exists 4503599627370496, (T0 + 1). split; [unfold T0; lia|].
    split; [lia|].
    assert (E1 : 2 ^ (T0 + 1) = 2 * 2 ^ T0).
    { rewrite Z.pow_add_r by (unfold T0; lia). change (2 ^ 1) with 2. lia. }
    rewrite E1. split; [lia|]. right. auto.
Qed.

(** The operand that [_float_sqrt_of_frac] rounds has 55 or 56 bits. *)
Lemma sqrt_operand_size (N M w : Z) :
  0 < N -> 0 < M -> Zdigits2 N - Zdigits2 M = w -> w = 109 \/ w = 110 ->
  2 ^ 54 <= integer_sqrt_of_frac_rto N M < 2 ^ 56.
Proof.
  intros HN HM Hw Hcases.
  pose proof (Zdigits2_bounds HN) as HbN.
  pose proof (Zdigits2_bounds HM) as HbM.
  pose proof (Zdigits2_pos HM) as HdM.
  set (dN := Zdigits2 N) in *. set (dM := Zdigits2 M) in *.
  assert (Hy : 2 ^ 108 <= N / M < 2 ^ 111).
  { split.
    - apply Z.div_le_lower_bound; [lia|].
      apply Z.le_trans with (2 ^ (dN - 1)); [|lia].
      apply Z.le_trans with (2 ^ dM * 2 ^ 108);
        [apply Z.mul_le_mono_nonneg_r; lia|].
      rewrite <- Z.pow_add_r by lia. apply Z.pow_le_mono_r; lia.
    - apply Z.div_lt_upper_bound; [lia|].
      apply Z.lt_le_trans with (2 ^ dN); [lia|].
      apply Z.le_trans with (2 ^ (dM - 1) * 2 ^ 111);
        [|apply Z.mul_le_mono_nonneg_r; lia].
      rewrite <- Z.pow_add_r by lia. apply Z.pow_le_mono_r; lia. }
  destruct (@rto_spec N M ltac:(lia) HM) as (Ha & _ & Hc).
  set (a := Z.sqrt (N / M)) in *.
  assert (Ha54 : 2 ^ 54 <= a).
  { unfold a. rewrite <- (Z.sqrt_square (2 ^ 54)) by lia.
    apply Z.sqrt_le_mono. change (2 ^ 54 * 2 ^ 54) with (2 ^ 108). lia. }
  assert (Ha56 : a < 2 ^ 56).
  { unfold a. apply Z.sqrt_lt_square; [lia|lia|].
    change (2 ^ 56 * 2 ^ 56) with (2 ^ 112).
    apply Z.lt_trans with (2 ^ 111); [lia|reflexivity]. }
  destruct Hc as [[_ ->]|(_ & Hodd & HA)]; [lia|].
  split; [lia|].
  destruct (Z.eq_dec (integer_sqrt_of_frac_rto N M) (2 ^ 56)) as [E|E];
    [|lia].
  rewrite E in Hodd. discriminate Hodd.
Qed.

(** [_float_sqrt_of_frac(n, m)] is a nearest double to the square root
    of [n/m]: the squares of the two midpoints around it, [mant - 1/2]
    and [mant + 1/2] in units of the last place [2^e], enclose [n/m].
    The exponent is split as [e - 1 = u - v] to keep to integers. *)
Lemma float_sqrt_of_frac_nearest (n m : Z) :
  0 < n < 2 ^ 300 -> 0 < m < 2 ^ 300 ->
  exists mant e u v,
    float_sqrt_of_frac n m = Ret (S754_finite false mant e)
    /\ Zdigits2 (Z.pos mant) = 53
    /\ 0 <= u /\ 0 <= v /\ e - 1 = u - v
    /\ (2 * Z.pos mant - 1) * 2 ^ u * ((2 * Z.pos mant - 1) * 2 ^ u) * m
       <= n * (2 ^ v * 2 ^ v)
    /\ n * (2 ^ v * 2 ^ v)
       <= (2 * Z.pos mant + 1) * 2 ^ u * ((2 * Z.pos mant + 1) * 2 ^ u) * m.
Proof.
  intros [Hn Hn'] [Hm Hm']. unfold float_sqrt_of_frac.
  rewrite (@bit_length_digits n), (@bit_length_digits m) by lia.
  pose proof (Zdigits2_pos Hn) as Hdn. pose proof (Zdigits2_pos Hm) as Hdm.
  assert (Hdn' : Zdigits2 n <= 300) by (apply Zdigits2_le_of_lt_pow; lia).
  assert (Hdm' : Zdigits2 m <= 300) by (apply Zdigits2_le_of_lt_pow; lia).
  set (dn := Zdigits2 n) in *. set (dm := Zdigits2 m) in *.
  pose proof (Z.div_mod (dn - dm - 109) 2 ltac:(lia)) as Hdiv.
  pose proof (Z.mod_pos_bound (dn - dm - 109) 2 ltac:(lia)) as Hbit.
  set (q := (dn - dm - 109) / 2) in *.
  assert (Hw : dn - dm - 2 * q = 109 \/ dn - dm - 2 * q = 110) by lia.
  assert (Hq : -205 <= q <= 95) by lia.
  destruct (Z.leb_spec 0 q) as [Hq0|Hq0].
  - (* the denominator is scaled *)
    rewrite !Z.shiftl_mul_pow2 by lia.
    assert (Hpq : 0 < 2 ^ q) by (apply Z.pow_pos_nonneg; lia).
    assert (E2q : 2 ^ (2 * q) = 2 ^ q * 2 ^ q).
    { rewrite <- Z.pow_add_r by lia. f_equal. lia. }
    set (M' := m * 2 ^ (2 * q)).
    assert (HM' : 0 < M') by (unfold M'; nia).
    assert (HdM' : Zdigits2 M' = dm + 2 * q)
      by (unfold M'; rewrite Zdigits2_mul_pow2 by lia; reflexivity).
    pose proof (@sqrt_operand_size n M' (dn - dm - 2 * q) Hn HM'
                  ltac:(fold dn; lia) Hw) as HA.
    destruct (@rto_spec n M' ltac:(lia) HM') as (Ha & Hbounds & Hcases).
    set (a := Z.sqrt (n / M')) in *.
    set (A := integer_sqrt_of_frac_rto n M') in *.
    assert (HdA : 55 <= Zdigits2 A <= 56).
    { split.
      - pose proof (@Zdigits2_gt_of_ge_pow A 54 ltac:(lia) ltac:(lia)). lia.
      - apply Zdigits2_le_of_lt_pow; lia. }
    assert (HdAq : Zdigits2 (A * 2 ^ q) = Zdigits2 A + q)
      by (apply Zdigits2_mul_pow2; lia).
    destruct (@true_div_nearest (A * 2 ^ q) 1 ltac:(nia) ltac:(lia)
                ltac:(rewrite HdAq; change (Zdigits2 1) with 1; lia))
      as (n1 & s & k & Hs & Hk & Hn1 & Hnear & ->).
    assert (Hnear' : - 2 ^ k <= 2 * (n1 * 2 ^ k - A * 2 ^ (q + s)) <= 2 ^ k).
    { rewrite Z.pow_add_r by lia. lia. }
    destruct (@grid_normalize A n1 k (q + s) ltac:(lia) Hn1 Hk ltac:(lia)
                Hnear')
      as (mant & T & HT & Hmant & HnearT & Hcase).
    destruct (@sqrt_nearest_core n M' a A mant T HM' Ha Hbounds Hcases HT
                ltac:(lia) HnearT) as [Hlo Hhi].
    assert (HpT : 0 < 2 ^ (T - 1)) by (apply Z.pow_pos_nonneg; lia).
    assert (Eu : 2 ^ (T - 1 + q) = 2 ^ (T - 1) * 2 ^ q)
      by (rewrite Z.pow_add_r by lia; reflexivity).
    exists (Z.to_pos mant), (T + q), (T - 1 + q), 0.
    rewrite Z2Pos.id by lia.
    split; [|split; [|split; [lia|split; [lia|split; [lia|]]]]].
    + destruct Hcase as [(Hlt & -> & ET)|(En & -> & ET)].
      * destruct (Z.ltb_spec n1 (2 ^ 53)); [|lia].
        do 2 f_equal. lia.
      * destruct (Z.ltb_spec n1 (2 ^ 53)); [lia|].
        do 2 f_equal. lia.
    + apply Zdigits2_unique; [change (53 - 1) with 52; lia|lia].
    + rewrite Eu. change (2 ^ 0) with 1. unfold M' in Hlo, Hhi.
      rewrite E2q in Hlo, Hhi.
      set (H := 2 ^ (T - 1)) in *. set (P := 2 ^ q) in *.
      split.
      * replace ((2 * mant - 1) * (H * P) * ((2 * mant - 1) * (H * P)) * m)
          with ((2 * mant - 1) * H * ((2 * mant - 1) * H) * (m * (P * P)))
          by ring.
        lia.
      * replace ((2 * mant + 1) * (H * P) * ((2 * mant + 1) * (H * P)) * m)
          with ((2 * mant + 1) * H * ((2 * mant + 1) * H) * (m * (P * P)))
          by ring.
        lia.
  - (* the numerator is scaled *)
    rewrite !Z.shiftl_mul_pow2 by lia.
    set (kk := - q). replace (-2 * q) with (2 * kk) by (unfold kk; lia).
    assert (Hkk : 0 < kk) by (unfold kk; lia).
    assert (Hpk : 0 < 2 ^ kk) by (apply Z.pow_pos_nonneg; lia).
    assert (E2k : 2 ^ (2 * kk) = 2 ^ kk * 2 ^ kk).
    { rewrite <- Z.pow_add_r by lia. f_equal. lia. }
    set (N' := n * 2 ^ (2 * kk)).
    assert (HN' : 0 < N') by (unfold N'; nia).
    assert (HdN' : Zdigits2 N' = dn + 2 * kk)
      by (unfold N'; rewrite Zdigits2_mul_pow2 by lia; reflexivity).
    pose proof (@sqrt_operand_size N' m (dn - dm - 2 * q) HN' Hm
                  ltac:(fold dm; unfold kk in *; lia) Hw) as HA.
    destruct (@rto_spec N' m ltac:(lia) Hm) as (Ha & Hbounds & Hcases).
    set (a := Z.sqrt (N' / m)) in *.
    set (A := integer_sqrt_of_frac_rto N' m) in *.
    assert (HdA : 55 <= Zdigits2 A <= 56).
    { split.
      - pose proof (@Zdigits2_gt_of_ge_pow A 54 ltac:(lia) ltac:(lia)). lia.
      - apply Zdigits2_le_of_lt_pow; lia. }
    assert (Hdb : Zdigits2 (1 * 2 ^ kk) = 1 + kk)
      by (rewrite Zdigits2_mul_pow2 by lia; reflexivity).
    destruct (@true_div_nearest A (1 * 2 ^ kk) ltac:(lia) ltac:(lia)
                ltac:(rewrite Hdb; unfold kk in *; lia))
      as (n1 & s & k & Hs & Hk & Hn1 & Hnear & ->).
    assert (Hnear' : - 2 ^ (k + kk)
                     <= 2 * (n1 * 2 ^ (k + kk) - A * 2 ^ s) <= 2 ^ (k + kk)).
    { rewrite Z.pow_add_r by lia. lia. }
    destruct (@grid_normalize A n1 (k + kk) s ltac:(lia) Hn1 ltac:(lia) Hs
                Hnear')
      as (mant & T & HT & Hmant & HnearT & Hcase).
    destruct (@sqrt_nearest_core N' m a A mant T Hm Ha Hbounds Hcases HT
                ltac:(lia) HnearT) as [Hlo Hhi].
    exists (Z.to_pos mant), (T - kk), (T - 1), kk.
    rewrite Z2Pos.id by lia.
    split; [|split; [|split; [lia|split; [lia|split; [lia|]]]]].
    + destruct Hcase as [(Hlt & -> & ET)|(En & -> & ET)].
      * destruct (Z.ltb_spec n1 (2 ^ 53)); [|lia].
        do 2 f_equal. lia.
      * destruct (Z.ltb_spec n1 (2 ^ 53)); [lia|].
        do 2 f_equal. lia.
    + apply Zdigits2_unique; [change (53 - 1) with 52; lia|lia].
    + unfold N' in Hlo, Hhi. rewrite E2k in Hlo, Hhi. split; lia.
Qed.

Lemma float_sqrt_of_frac_0 (m : Z) : 0 < m -> float_sqrt_of_frac 0 m = Ret zero.
Proof.
  intros Hm. unfold float_sqrt_of_frac.
  rewrite (@bit_length_digits m) by lia.
  pose proof (Zdigits2_pos Hm) as Hd.
  change (bit_length 0) with 0.
  set (q := (0 - Zdigits2 m - 109) / 2).
  assert (Hq : q < 0) by (apply Z.div_lt_upper_bound; lia).
  destruct (Z.leb_spec 0 q) as [|_]; [lia|].
  rewrite !Z.shiftl_mul_pow2 by lia.
  assert (Hp : 0 < 2 ^ (- q)) by (apply Z.pow_pos_nonneg; lia).
  assert (E : integer_sqrt_of_frac_rto (0 * 2 ^ (-2 * q)) m = 0).
  { unfold integer_sqrt_of_frac_rto.
    rewrite Z.mul_0_l, Z.div_0_l by lia. reflexivity. }
  rewrite E, Z.mul_1_l. set (b := 2 ^ (- q)) in *. unfold true_div.
  destruct (Z.eqb_spec b 0) as [|_]; [lia|].
  destruct (Z.ltb_spec b 0) as [|_]; [lia|].
  reflexivity.
Qed.

Lemma midpoint_below (p : Z) :
  (inject_Z p - (1 # 2) == inject_Z (2 * p - 1) * (1 # 2))%Q.
Proof.
  unfold Qeq, Qminus, Qplus, Qopp, Qmult, inject_Z. cbn [Qnum Qden]. lia.
Qed.

Lemma midpoint_above (p : Z) :
  (inject_Z p + (1 # 2) == inject_Z (2 * p + 1) * (1 # 2))%Q.
Proof.
  unfold Qeq, Qminus, Qplus, Qopp, Qmult, inject_Z. cbn [Qnum Qden]. lia.
Qed.

Lemma inject_Z_pos (z : Z) : 0 < z -> (0 < inject_Z z)%Q.
Proof. intros Hz. unfold Qlt. simpl. lia. Qed.

(** The square of a midpoint [c/2] in units of [2^e], against a
    fraction, on integers. *)
Lemma midpoint_square_le (c e u v n m : Z) :
  0 < m -> 0 <= u -> 0 <= v -> e - 1 = u - v ->
  c * 2 ^ u * (c * 2 ^ u) * m <= n * (2 ^ v * 2 ^ v) ->
  ((inject_Z c * (1 # 2) * Qpower 2 e) ^ 2 <= inject_Z n / inject_Z m)%Q.
Proof.
  intros Hm Hu Hv He Hle.
  assert (HpR : 0 < 2 ^ v) by (apply Z.pow_pos_nonneg; lia).
  assert (E : (inject_Z c * (1 # 2) * Qpower 2 e
               == inject_Z (c * 2 ^ u) / inject_Z (2 ^ v))%Q).
  { replace e with (1 + u + - v) by lia.
    rewrite !Qpower_plus by discriminate. rewrite Qpower_opp.
    rewrite inject_Z_mult, !Zpower_Qpower by lia.
    change (Qpower 2 1) with 2%Q. change (inject_Z 2) with 2%Q.
    field. change (Qpower 2 v) with (Qpower (inject_Z 2) v).
    rewrite <- Zpower_Qpower by lia.
    intros H. unfold Qeq in H. simpl in H. lia. }
  rewrite E. clear E.
  set (P := c * 2 ^ u) in *. set (R := 2 ^ v) in *.
  assert (HR : ~ (inject_Z R == 0)%Q).
  { intros H. unfold Qeq in H. simpl in H. lia. }
  pose proof (inject_Z_pos Hm) as Hm'.
  apply Qle_shift_div_l; [exact Hm'|].
  setoid_replace ((inject_Z P / inject_Z R) ^ 2 * inject_Z m)%Q
    with (inject_Z (P * P * m) / inject_Z (R * R))%Q
    by (rewrite !inject_Z_mult; field; exact HR).
  apply Qle_shift_div_r.
  - apply inject_Z_pos. nia.
  - rewrite <- inject_Z_mult, <- Zle_Qle. exact Hle.
Qed.

Lemma midpoint_square_ge (c e u v n m : Z) :
  0 < m -> 0 <= u -> 0 <= v -> e - 1 = u - v ->
  n * (2 ^ v * 2 ^ v) <= c * 2 ^ u * (c * 2 ^ u) * m ->
  (inject_Z n / inject_Z m <= (inject_Z c * (1 # 2) * Qpower 2 e) ^ 2)%Q.
Proof.
  intros Hm Hu Hv He Hle.
  assert (HpR : 0 < 2 ^ v) by (apply Z.pow_pos_nonneg; lia).
  assert (E : (inject_Z c * (1 # 2) * Qpower 2 e
               == inject_Z (c * 2 ^ u) / inject_Z (2 ^ v))%Q).
  { replace e with (1 + u + - v) by lia.
    rewrite !Qpower_plus by discriminate. rewrite Qpower_opp.
    rewrite inject_Z_mult, !Zpower_Qpower by lia.
    change (Qpower 2 1) with 2%Q. change (inject_Z 2) with 2%Q.
    field. change (Qpower 2 v) with (Qpower (inject_Z 2) v).
    rewrite <- Zpower_Qpower by lia.
    intros H. unfold Qeq in H. simpl in H. lia. }
  rewrite E. clear E.
  set (P := c * 2 ^ u) in *. set (R := 2 ^ v) in *.
  assert (HR : ~ (inject_Z R == 0)%Q).
  { intros H. unfold Qeq in H. simpl in H. lia. }
  pose proof (inject_Z_pos Hm) as Hm'.
  apply Qle_shift_div_r; [exact Hm'|].
  setoid_replace ((inject_Z P / inject_Z R) ^ 2 * inject_Z m)%Q
    with (inject_Z (P * P * m) / inject_Z (R * R))%Q
    by (rewrite !inject_Z_mult; field; exact HR).
  apply Qle_shift_div_l.
  - apply inject_Z_pos. nia.
  - rewrite <- inject_Z_mult, <- Zle_Qle. exact Hle.
Qed.

(** [statistics.pstdev] returns a nearest double to the square root
    of the population variance: [0.0] when the variance is zero, and
    otherwise a positive double in normal form, of mantissa [mant] and
    exponent [e], such that the root lies between the two midpoints
    [(mant - 1/2) * 2^e] and [(mant + 1/2) * 2^e] around it (stated on
    the squares, the root being irrational in general). *)
Lemma pstdev_nearest (data : list Z) (x : float) :
  data <> [] -> llen data < 2 ^ 48 ->
  Forall (fun y => 0 <= y < 2 ^ 53) data ->
  pstdev data = Ret x ->
  ((population_variance data == 0)%Q -> x = zero)
  /\ ((0 < population_variance data)%Q ->
      exists mant e,
        x = S754_finite false mant e
        /\ Zdigits2 (Z.pos mant) = 53
        /\ (((inject_Z (Z.pos mant) - (1 # 2)) * Qpower 2 e) ^ 2
            <= population_variance data)%Q
        /\ (population_variance data
            <= ((inject_Z (Z.pos mant) + (1 # 2)) * Qpower 2 e) ^ 2)%Q).
Proof.
  intros Hne Hlen Hall Hx.
  rewrite pstdev_unfold in Hx by assumption.
  pose proof (pvariance_frac_exact Hne) as Hexact.
  pose proof (pvariance_frac_spec Hne) as Hspec.
  destruct (pvariance_frac data) as [num den]. cbn [fst snd] in *.
  destruct Hspec as (Hnum & Hden & _ & Hnum' & Hden').
  pose proof (llen_pos Hne) as Hn.
  pose proof (sumsq_bounds Hall) as Hsq.
  assert (Hnum300 : num < 2 ^ 300).
  { apply Z.le_lt_trans with (2 ^ 48 * (2 ^ 48 * 2 ^ 106)); [|reflexivity].
    assert (llen data * sumsq data <= 2 ^ 48 * (2 ^ 48 * 2 ^ 106)).
    { apply Z.mul_le_mono_nonneg; lia. }
    pose proof (Z.square_nonneg (sum data)). lia. }
  assert (Hden300 : den < 2 ^ 300).
  { apply Z.le_lt_trans with (2 ^ 48 * 2 ^ 48); [|reflexivity].
    assert (llen data * llen data <= 2 ^ 48 * 2 ^ 48)
      by (apply Z.mul_le_mono_nonneg; lia).
    lia. }
  pose proof (inject_Z_pos Hden) as HdenQ.
  assert (Hzero : num = 0 -> (population_variance data == 0)%Q).
  { intros ->. rewrite <- Hexact. unfold Qdiv. apply Qmult_0_l. }
  assert (Hpos : 0 < num -> (0 < population_variance data)%Q).
  { intros Hp. rewrite <- Hexact. apply Qlt_shift_div_l; [exact HdenQ|].
    rewrite Qmult_0_l. apply inject_Z_pos. exact Hp. }
  split.
  - intros HV. destruct (Z.eq_dec num 0) as [E|E].
    + rewrite E, float_sqrt_of_frac_0 in Hx by assumption. congruence.
    + exfalso. pose proof (Hpos ltac:(lia)) as Hp. rewrite HV in Hp.
      discriminate Hp.
  - intros HV. assert (Hnum0 : 0 < num).
    { destruct (Z.eq_dec num 0) as [E|E]; [|lia].
      rewrite (Hzero E) in HV. discriminate HV. }
    destruct (@float_sqrt_of_frac_nearest num den ltac:(lia) ltac:(lia))
      as (mant & e & u & v & Hres & Hd & Hu & Hv & He & Hlo & Hhi).
    rewrite Hres in Hx. exists mant, e.
    split; [congruence|]. split; [exact Hd|].
    rewrite <- Hexact. split.
    + rewrite midpoint_below.
      now apply (@midpoint_square_le _ e u v).
    + rewrite midpoint_above.
      now apply (@midpoint_square_ge _ e u v).
Qed.

End SquareRoot.

Section SummarizerProperties.
Import Py Float Stats.
Open Scope Z_scope.

(** C2: for every non-empty list [counts] of length [n] (below [2^48],
    far beyond what memory holds) on which [summarize_counts] returns,
    the field [p50_tokens] is the float of the element at index
    [floor(n/2)] of the ascending rearrangement of [counts], and
    [p95_tokens] the float of the element at index
    [max(0, ceil(0.95 n) - 1)], the ceiling being the exact one; for an
    even [n = 2k] the median is the upper one of the two middle
    elements (index [k], not below the element at index [k-1]); for
    [[10; 20; 30; 40]] the two indices are 2 and 3, the elements 30 and
    40. *)
Theorem percentiles_by_index (sl pv md : string) (counts : list Z)
    (chars : Z) (r : SampleStats) :
  counts <> [] -> llen counts < 2 ^ 48 ->
  summarize_counts sl pv md counts chars = Ret r ->
  let n := llen counts in
  let ascending := sorted counts in
  Sorted Z.le ascending /\ Permutation counts ascending
  /\ (exists x50, getitem ascending (n / 2) = Ret x50
                  /\ of_int x50 = Ret (p50_tokens r))
  /\ (exists x95,
        getitem ascending
          (Z.max 0 (Qceiling ((95 # 100) * inject_Z n) - 1)) = Ret x95
        /\ of_int x95 = Ret (p95_tokens r))
  /\ (forall k, n = 2 * k ->
        exists lower upper,
          getitem ascending (k - 1) = Ret lower
          /\ getitem ascending k = Ret upper
          /\ lower <= upper /\ of_int upper = Ret (p50_tokens r))
  /\ (counts = [10; 20; 30; 40] ->
        n / 2 = 2
        /\ Z.max 0 (Qceiling ((95 # 100) * inject_Z n) - 1) = 3
        /\ of_int 30 = Ret (p50_tokens r)
        /\ of_int 40 = Ret (p95_tokens r)).
Proof.
  intros Hne Hlen Hrun n ascending.
  pose proof (llen_pos Hne) as Hn. fold n in Hn, Hlen.
  destruct (summarize_counts_inv _ _ _ _ _ Hrun)
    as (mean & x50 & n_f & c & x95 & sd & chars_f & per_1k & per & f50 & f95
        & _ & Hx50 & Hnf & Hc & Hx95 & _ & _ & _ & _ & Hf50 & Hf95 & ->).
  rewrite llen_sorted in Hx50, Hnf. fold n ascending in Hx50, Hnf, Hx95.
  destruct (@ceil_095_exact n ltac:(lia)) as (n_f' & Hnf' & Hceil).
  assert (n_f' = n_f) by congruence. subst n_f'.
  assert (Hceq : c = (19 * n + 19) / 20) by congruence. subst c.
  fold (p95_index_exact n).
  destruct (p95_index_exact_range Hn) as [Hi95 Hi95eq].
  replace (Z.max 0 ((19 * n + 19) / 20 - 1)) with (p95_index_exact n)
    in Hx95 by lia.
  cbn [p50_tokens p95_tokens].
  split; [apply sorted_Sorted|]. split; [apply sorted_perm|].
  split; [eauto|]. split; [eauto|]. split.
  - intros k Hk.
    assert (Hk2 : n / 2 = k) by (subst n; rewrite Hk, Z.mul_comm;
                                  apply Z.div_mul; lia).
    rewrite Hk2 in Hx50.
    assert (Hlo : 0 <= k - 1 < llen ascending)
      by (unfold ascending; rewrite llen_sorted; fold n; lia).
    destruct (getitem_in_range _ Hlo) as (lower & Hlower & Hnl & _).
    exists lower, x50. repeat split; auto.
    assert (Hup : 0 <= k < llen ascending)
      by (unfold ascending; rewrite llen_sorted; fold n; lia).
    destruct (getitem_in_range _ Hup) as (upper & Hupper & Hnu & _).
    rewrite Hx50 in Hupper. injection Hupper as <-.
    apply (Sorted_adjacent (sorted_Sorted counts) (Z.to_nat (k - 1)));
      [exact Hnl|].
    replace (Datatypes.S (Z.to_nat (k - 1))) with (Z.to_nat k) by lia.
    exact Hnu.
  - intros Heq. subst ascending n. rewrite Heq in *.
    vm_compute in Hx50, Hx95.
    injection Hx50 as <-. injection Hx95 as <-.
    repeat split; auto.
Qed.


(** C3: for every non-empty list of non-negative counts (each below
    [2^53], fewer than [2^48] of them) and every size from 1 to
    [2^53], [summarize_counts] returns a record whose [stdev_tokens] is
    what [statistics.pstdev] returns on [counts], that is the rounded
    square root of the exact population variance (the sum of the
    squared deviations from the mean divided by [n], not by [n - 1]);
    it is a finite float that is not below [0.0], and it is [0.0] when
    [counts] has one element or equal elements.  The value is pinned
    to the variance: it is [0.0] when the variance is zero, and
    otherwise a double in normal form, of mantissa [mant] and exponent
    [e], that is nearest to the root: the variance lies between the
    squares of the two midpoints [(mant - 1/2) * 2^e] and
    [(mant + 1/2) * 2^e] around it, so the root is within half a unit
    in the last place of [stdev_tokens]. *)
Theorem stdev_is_population_stdev (sl pv md : string) (counts : list Z)
    (chars : Z) :
  counts <> [] -> llen counts < 2 ^ 48 ->
  Forall (fun x => 0 <= x < 2 ^ 53) counts ->
  1 <= chars < 2 ^ 53 ->
  exists r,
    summarize_counts sl pv md counts chars = Ret r
    /\ pstdev counts = Ret (stdev_tokens r)
    /\ float_sqrt_of_frac (fst (pvariance_frac counts))
                          (snd (pvariance_frac counts))
       = Ret (stdev_tokens r)
    /\ (inject_Z (fst (pvariance_frac counts))
        / inject_Z (snd (pvariance_frac counts))
        == population_variance counts)%Q
    /\ SFleb zero (stdev_tokens r) = true
    /\ is_finite (stdev_tokens r) = true
    /\ (llen counts = 1 -> stdev_tokens r = zero)
    /\ (forall x, Forall (fun y => y = x) counts -> stdev_tokens r = zero)
    /\ ((population_variance counts == 0)%Q -> stdev_tokens r = zero)
    /\ ((0 < population_variance counts)%Q ->
        exists mant e,
          stdev_tokens r = S754_finite false mant e
          /\ Zdigits2 (Z.pos mant) = 53
          /\ (((inject_Z (Z.pos mant) - (1 # 2)) * Qpower 2 e) ^ 2
              <= population_variance counts)%Q
          /\ (population_variance counts
              <= ((inject_Z (Z.pos mant) + (1 # 2)) * Qpower 2 e) ^ 2)%Q).
Proof.
  intros Hne Hlen Hall Hchars.
  destruct (summarize_counts_spec sl pv md Hne Hlen Hall Hchars)
    as (total & n_f & x50 & x95 & f50 & f95 & sd & chars_f
        & _ & _ & _ & _ & _ & _ & _ & _ & Hsd & _ & _ & Hrun).
  eexists. split; [exact Hrun|]. cbn [stdev_tokens].
  assert (Hp : pstdev counts = Ret sd).
  { destruct (Z.ltb_spec 1 (llen counts)) as [Hgt|Hle]; [exact Hsd|].
    injection Hsd as <-.
    destruct counts as [|x [|y l]]; [congruence| |].
    - apply (@pstdev_all_equal x); [discriminate|repeat constructor].
    - unfold llen in Hle. simpl in Hle. lia. }
  destruct (pstdev_nonneg Hne Hp) as [Hnn Hfin].
  split; [exact Hp|].
  split; [rewrite <- pstdev_unfold by assumption; exact Hp|].
  split; [apply pvariance_frac_exact; assumption|].
  split; [exact Hnn|]. split; [exact Hfin|].
  split; [|split; [|exact (pstdev_nearest Hne Hlen Hall Hp)]].
  - intros H1. destruct (Z.ltb_spec 1 (llen counts)); [lia|]. congruence.
  - intros x Hx. pose proof (pstdev_all_equal Hne Hx). congruence.
Qed.


End SummarizerProperties.

(** ** The model on values computed by CPython *)

Section CPythonValues.
Import Py Text Float Stats.
Open Scope Z_scope.

(** [0.95] is the quotient [95 / 100] rounded to nearest. *)
Example lit_0_95_nearest :
  SFdiv prec emax (S754_finite false 95 0) (S754_finite false 100 0)
  = lit_0_95.
Proof. reflexivity. Qed.

Example lit_1000_exact : of_int 1000 = Ret lit_1000.
Proof. reflexivity. Qed.

(** [statistics.fmean([10, 20, 30, 41])] is [25.25]. *)
Example fmean_25_25 :
  fmean [10; 20; 30; 41] = Ret (S754_finite false 7107243161944064 (-48)).
Proof. reflexivity. Qed.

(** [statistics.pstdev([10, 20, 30, 40])] is [11.180339887498949]. *)
Example pstdev_11_18 :
  pstdev [10; 20; 30; 40] = Ret (S754_finite false 6293971818901970 (-49)).
Proof. vm_compute. reflexivity. Qed.

(** [statistics.pstdev([1, 2, 4, 7, 11])] is [3.6331804249169903]. *)
Example pstdev_3_63 :
  pstdev [1; 2; 4; 7; 11] = Ret (S754_finite false 8181195003912968 (-51)).
Proof. vm_compute. reflexivity. Qed.

(** [math.ceil(0.95 * 20)] is 19: the product rounds to [19.0]. *)
Example ceil_095_of_20 :
  (n_f <- of_int 20 ;; ceil (mul lit_0_95 n_f)) = Ret 19.
Proof. reflexivity. Qed.

(** Beyond [2^49] the rounded product can fall on the integer below
    the exact one: at [n = 2^49 + 7] the exact ceiling of [0.95 n] is
    534802455750254. *)
Example ceil_095_beyond_2_49 :
  (n_f <- of_int (2 ^ 49 + 7) ;; ceil (mul lit_0_95 n_f))
  = Ret 534802455750253
  /\ Qceiling ((95 # 100) * inject_Z (2 ^ 49 + 7)) = 534802455750254.
Proof. split; vm_compute; reflexivity. Qed.

(** Three calls on the generator seeded with 17. *)
Example generate_three :
  generate_all (S := Z) 10 [3; 12; 5] 17
  = Ret (["tem"; "do ut non no"; "labor"]%string, 1405154323).
Proof. vm_compute. reflexivity. Qed.

(** One row, field by field: 252.5 tokens per thousand characters. *)
Example summarize_four :
  summarize_counts "100 chars" "openai" "gpt-4o" [10; 20; 30; 41] 100
  = Ret {| size_label := "100 chars"; model := "gpt-4o";
           provider := "openai"; num_trials := 4;
           mean_tokens := S754_finite false 7107243161944064 (-48);
           p50_tokens := S754_finite false 8444249301319680 (-48);
           p95_tokens := S754_finite false 5770237022568448 (-47);
           stdev_tokens := S754_finite false 6484623910023294 (-49);
           mean_tokens_per_1k_chars :=
             S754_finite false 8884053952430080 (-45) |}.
Proof. vm_compute. reflexivity. Qed.

End CPythonValues.

(* ================================================================== *)
(** * Properties of the token counters                                 *)
(* ================================================================== *)

Section CounterFacts.
Import Py Counter.
Open Scope Z_scope.
Open Scope string_scope.
Context {Enc : Type} `{Tiktoken Enc}.
Context {Net : Type} `{CountTokensAPI Net}.

(** The approximate count of a text: the number of its tokens in the
    encoding [approx_enc]. *)
Lemma call_approx (approx_enc : Enc) (model text : string) (net : Net) :
  call (count_approx approx_enc) model text net
  = (Z.of_nat (List.length (encode approx_enc text)), net).
Proof. reflexivity. Qed.

Lemma call_all_approx (approx_enc : Enc) (model : string)
    (texts : list string) (net : Net) :
  call_all (count_approx approx_enc) model texts net
  = (map (fun t => Z.of_nat (List.length (encode approx_enc t))) texts, net).
Proof.
  induction texts as [|t ts IH]; cbn [call_all map]; [reflexivity|].
  rewrite call_approx, IH. reflexivity.
Qed.

(** When every live attempt fails, the live counter counts what the
    approximate counter counts. *)
Lemma call_all_live_down (key : string) (approx_enc : Enc) (model : string)
    (texts : list string) :
  (forall k m t n, fst (count_tokens k m t n) = Failed) ->
  forall net,
    fst (call_all (count_live key approx_enc) model texts net)
    = map (fun t => Z.of_nat (List.length (encode approx_enc t))) texts.
Proof.
  intros Hdown. induction texts as [|t ts IH]; intros net;
    cbn [call_all map]; [reflexivity|].
  cbn [call]. specialize (Hdown key model t net).
  destruct (count_tokens key model t net) as [[n|] net1];
    cbn [fst] in Hdown; [discriminate|].
  specialize (IH net1).
  destruct (call_all (count_live key approx_enc) model ts net1) as [ns net2].
  cbn [fst] in *. now rewrite IH.
Qed.

(** What [get_anthropic_counter] binds, and when. *)
Lemma get_anthropic_counter_spec (env : Environment)
    (api_key : option string) (c : counter) :
  get_anthropic_counter env api_key = Ret c ->
  exists approx_enc,
    get_encoding "cl100k_base" = Some approx_enc
    /\ ((exists key, anthropic_sdk env = true
                     /\ truthy (effective_key env api_key) = true
                     /\ effective_key env api_key = Some key
                     /\ c = count_live key approx_enc)
        \/ ((anthropic_sdk env = false
             \/ truthy (effective_key env api_key) = false)
            /\ c = count_approx approx_enc)).
Proof.
  unfold get_anthropic_counter, effective_key, get_encoding_or_raise.
  destruct (anthropic_sdk env); cbn [andb];
    destruct (truthy (py_or api_key (ANTHROPIC_API_KEY env))) eqn:Ht;
    destruct (py_or api_key (ANTHROPIC_API_KEY env)) as [key|] eqn:Hk;
    try discriminate Ht;
    destruct (get_encoding "cl100k_base") as [enc|]; cbn [bind];
    try discriminate; intros [= <-]; exists enc; split; try reflexivity;
    solve [left; exists key; auto | right; auto].
Qed.

(** C7: the credential is the explicit argument when it is present (a
    non-empty string), the value of [ANTHROPIC_API_KEY] otherwise; a
    live counter is bound only with the SDK and such a credential, and
    its client holds that credential; when neither the argument nor the
    variable is present, the approximate counter is bound and no call
    of the service is ever made (the outside world is left as it
    was). *)
Theorem credential_precedence (env : Environment)
    (api_key : option string) :
  (truthy api_key = true -> effective_key env api_key = api_key)
  /\ (truthy api_key = false ->
      effective_key env api_key = ANTHROPIC_API_KEY env)
  /\ (forall c, get_anthropic_counter env api_key = Ret c ->
        match c with
        | count_live key _ =>
            anthropic_sdk env = true
            /\ effective_key env api_key = Some key /\ key <> EmptyString
        | count_approx _ =>
            anthropic_sdk env = false
            \/ truthy (effective_key env api_key) = false
        end)
  /\ (truthy api_key = false -> truthy (ANTHROPIC_API_KEY env) = false ->
      forall c, get_anthropic_counter env api_key = Ret c ->
        (exists approx_enc, c = count_approx approx_enc)
        /\ forall model texts net, snd (call_all c model texts net) = net).
Proof.
  split; [|split; [|split]].
  - intros Ht. unfold effective_key, py_or. now rewrite Ht.
  - intros Ht. unfold effective_key, py_or. now rewrite Ht.
  - intros c Hc.
    destruct (get_anthropic_counter_spec _ _ Hc)
      as (enc & _ & [(key & Hsdk & Ht & Hk & ->)|[Hoff ->]]).
    + repeat split; auto. intros ->. rewrite Hk in Ht. discriminate.
    + exact Hoff.
  - intros Ha He c Hc.
    assert (Hn : truthy (effective_key env api_key) = false)
      by (unfold effective_key, py_or; now rewrite Ha).
    destruct (get_anthropic_counter_spec _ _ Hc)
      as (enc & _ & [(key & _ & Ht & _)|[_ ->]]); [congruence|].
    split; [eauto|]. intros model texts net.
    now rewrite call_all_approx.
Qed.

End CounterFacts.

(* ================================================================== *)
(** * Properties of the benchmark runner                               *)
(* ================================================================== *)

Section RunnerFacts.
Import Py Text Float Stats Counter Runner.
Open Scope Z_scope.
Open Scope string_scope.
Context {S : Type} `{RandomSource S}.
Context {Enc : Type} `{Tiktoken Enc}.
Context {Net : Type} `{CountTokensAPI Net}.

Lemma summarize_counts_key (sl pv md : string) (counts : list Z) (chars : Z)
    (r : SampleStats) :
  summarize_counts sl pv md counts chars = Ret r ->
  row_key r = (sl, pv, md) /\ num_trials r = llen counts.
Proof.
  intros Hrun.
  destruct (summarize_counts_inv _ _ _ _ _ Hrun)
    as (mean & x50 & n_f & c & x95 & sd & chars_f & per_1k & per & f50 & f95
        & _ & _ & _ & _ & _ & _ & _ & _ & _ & _ & _ & ->).
  split; reflexivity.
Qed.

Lemma count_all_openai_length (model : string) (texts : list string)
    (counts : list Z) :
  count_all_openai model texts = Ret counts ->
  List.length counts = List.length texts.
Proof.
  revert counts. induction texts as [|t ts IH]; intros counts;
    cbn [count_all_openai].
  - now intros [= <-].
  - intros Hrun.
    apply bind_ret_inv in Hrun as (n & _ & Hrun).
    apply bind_ret_inv in Hrun as (ns & Hns & Hrun).
    injection Hrun as <-. simpl. now rewrite (IH _ Hns).
Qed.

Lemma call_all_length (c : counter) (model : string) (texts : list string)
    (net : Net) :
  List.length (fst (call_all c model texts net)) = List.length texts.
Proof.
  revert net. induction texts as [|t ts IH]; intros net;
    cbn [call_all]; [reflexivity|].
  destruct (call c model t net) as [n net1].
  specialize (IH net1).
  destruct (call_all c model ts net1) as [ns net2].
  simpl in *. now rewrite IH.
Qed.

(** The rows the loop over the OpenAI models appends. *)
Lemma openai_rows_keys (sl : string) (chars : Z) (texts : list string)
    (models : list string) :
  forall results results',
    openai_rows sl chars texts models results = Ret results' ->
    exists rows,
      results' = (results ++ rows)%list
      /\ map row_key rows = map (fun m => (sl, "openai", m)) models
      /\ Forall (fun r => num_trials r = llen texts) rows.
Proof.
  induction models as [|m ms IH]; intros results results';
    cbn [openai_rows].
  - intros [= <-]. exists []. rewrite app_nil_r. auto.
  - intros Hrun.
    apply bind_ret_inv in Hrun as (counts & Hcounts & Hrun).
    apply bind_ret_inv in Hrun as (row & Hrow & Hrun).
    destruct (IH _ _ Hrun) as (rows & -> & Hkeys & Hall).
    destruct (summarize_counts_key _ _ _ _ _ Hrow) as [Hkey Hn].
    exists (row :: rows). rewrite <- app_assoc. split; [reflexivity|].
    split; [simpl; now rewrite Hkey, Hkeys|].
    constructor; [|assumption].
    rewrite Hn. unfold llen.
    now rewrite (count_all_openai_length _ _ Hcounts).
Qed.

(** The rows the loop over the Anthropic models appends. *)
Lemma anthropic_rows_keys (c : counter) (sl : string) (chars : Z)
    (texts : list string) (models : list string) :
  forall net results results' net',
    anthropic_rows c sl chars texts models net results
      = Ret (results', net') ->
    exists rows,
      results' = (results ++ rows)%list
      /\ map row_key rows = map (fun m => (sl, "anthropic", m)) models
      /\ Forall (fun r => num_trials r = llen texts) rows.
Proof.
  induction models as [|m ms IH]; intros net results results' net';
    cbn [anthropic_rows].
  - intros [= <- <-]. exists []. rewrite app_nil_r. auto.
  - pose proof (call_all_length c m texts net) as Hlen.
    destruct (call_all c m texts net) as [counts net1]. cbn [fst] in Hlen.
    intros Hrun.
    apply bind_ret_inv in Hrun as (row & Hrow & Hrun).
    destruct (IH _ _ _ _ Hrun) as (rows & -> & Hkeys & Hall).
    destruct (summarize_counts_key _ _ _ _ _ Hrow) as [Hkey Hn].
    exists (row :: rows). rewrite <- app_assoc. split; [reflexivity|].
    split; [simpl; now rewrite Hkey, Hkeys|].
    constructor; [|assumption].
    rewrite Hn. unfold llen. now rewrite Hlen.
Qed.

Lemma generate_all_length (fuel : nat) (targets : list Z) :
  forall (rng rng' : S) (texts : list string),
    generate_all fuel targets rng = Ret (texts, rng') ->
    List.length texts = List.length targets.
Proof.
  induction targets as [|t ts IH]; intros rng rng' texts;
    cbn [generate_all].
  - now intros [= <- _].
  - intros Hrun.
    apply bind_ret_inv in Hrun as ([x rng1] & _ & Hrun).
    apply bind_ret_inv in Hrun as ([xs rng2] & Hxs & Hrun).
    injection Hrun as <- _. simpl. now rewrite (IH _ _ _ Hxs).
Qed.

(** The rows of the loop over the sizes: one per requested
    combination, in the order of the input. *)
Lemma sizes_loop_keys (fuel : nat) (c : counter) (trials : Z)
    (oms ams : list string) (sizes : list Z) :
  forall rng net results results' net',
    sizes_loop fuel c trials oms ams sizes rng net results
      = Ret (results', net') ->
    exists rows,
      results' = (results ++ rows)%list
      /\ map row_key rows = requested sizes oms ams
      /\ Forall (fun r => num_trials r = Z.max 0 trials) rows.
Proof.
  induction sizes as [|chars sizes IH];
    intros rng net results results' net'; cbn [sizes_loop].
  - intros [= <- <-]. exists []. rewrite app_nil_r. auto.
  - intros Hrun.
    apply bind_ret_inv in Hrun as ([texts rng1] & Htexts & Hrun).
    apply bind_ret_inv in Hrun as (results1 & Ho & Hrun).
    apply bind_ret_inv in Hrun as ([results2 net2] & Ha & Hrun).
    destruct (openai_rows_keys _ _ _ _ _ Ho) as (rows1 & -> & Hk1 & Hn1).
    destruct (anthropic_rows_keys _ _ _ _ _ _ _ Ha)
      as (rows2 & -> & Hk2 & Hn2).
    destruct (IH _ _ _ _ _ Hrun) as (rows3 & -> & Hk3 & Hn3).
    exists (rows1 ++ rows2 ++ rows3)%list.
    rewrite <- !app_assoc. split; [reflexivity|].
    assert (Hlen : llen texts = Z.max 0 trials).
    { unfold llen. rewrite (generate_all_length _ _ _ Htexts), repeat_length.
      lia. }
    rewrite Hlen in Hn1, Hn2.
    split.
    + cbn [requested flat_map]. rewrite !map_app, Hk1, Hk2, Hk3.
      now rewrite <- app_assoc.
    + repeat (apply Forall_app; split); assumption.
Qed.


(** ** A run on valid input returns *)

Lemma get_openai_encoder_returns (model : string) :
  tokenizer_ready ->
  exists enc, get_openai_encoder_for_model model = Ret enc.
Proof.
  intros [[enc0 Hbase] _]. unfold get_openai_encoder_for_model.
  destruct (encoding_for_model model); [eauto|].
  destruct (get_encoding "o200k_base"); [eauto|].
  unfold get_encoding_or_raise. rewrite Hbase. eauto.
Qed.

Lemma count_all_openai_returns (model : string) (texts : list string) :
  tokenizer_ready ->
  Forall (fun t => len t < 2 ^ 52) texts ->
  exists counts,
    count_all_openai model texts = Ret counts
    /\ Forall (fun x => 0 <= x < 2 ^ 53) counts.
Proof.
  intros Hready.
  induction 1 as [|t ts Ht _ (counts & Hcounts & Hall)];
    cbn [count_all_openai]; [eauto|].
  unfold count_tokens_openai.
  destruct (get_openai_encoder_returns model Hready) as (enc & ->).
  cbn [bind]. rewrite Hcounts. cbn [bind].
  eexists. split; [reflexivity|]. constructor; [|assumption].
  split; [lia|apply Hready, Ht].
Qed.

Lemma call_bounds (c : counter) (model text : string) (net : Net) :
  tokenizer_ready -> service_sane -> len text < 2 ^ 52 ->
  0 <= fst (call c model text net) < 2 ^ 53.
Proof.
  intros [_ Henc] Hsane Ht. destruct c as [key enc|enc]; cbn [call].
  - pose proof (Hsane key model text net) as Hs.
    destruct (count_tokens key model text net) as [[n|] net1];
      cbn [fst] in *; [auto|].
    split; [lia|apply Henc, Ht].
  - cbn [fst]. split; [lia|apply Henc, Ht].
Qed.

Lemma call_all_bounds (c : counter) (model : string) (texts : list string) :
  tokenizer_ready -> service_sane ->
  Forall (fun t => len t < 2 ^ 52) texts ->
  forall net,
    Forall (fun x => 0 <= x < 2 ^ 53) (fst (call_all c model texts net)).
Proof.
  intros Hready Hsane. induction 1 as [|t ts Ht _ IH]; intros net;
    cbn [call_all]; [constructor|].
  pose proof (call_bounds c model t net Hready Hsane Ht) as Hb.
  destruct (call c model t net) as [n net1]. specialize (IH net1).
  destruct (call_all c model ts net1) as [ns net2].
  cbn [fst] in *. constructor; assumption.
Qed.

Lemma generate_all_returns (fuel : nat) (targets : list Z) :
  Forall (fun t => (Z.to_nat (Z.max 1 t) <= fuel)%nat) targets ->
  forall rng : S,
    exists texts rng', generate_all fuel targets rng = Ret (texts, rng').
Proof.
  induction 1 as [|t ts Ht _ IH]; intros rng; cbn [generate_all]; [eauto|].
  destruct (@generate_loop_returns _ _ (Z.to_nat (Z.max 1 t)) t [] rng)
    as (ws & rng1 & Hrun & _); [lia| |].
  { change (len (join " " [])) with 0. lia. }
  unfold generate_lorem_text_by_chars.
  eapply generate_loop_fuel_mono in Hrun; [|exact Ht].
  rewrite Hrun. cbn [bind].
  destruct (IH rng1) as (texts & rng2 & ->). cbn [bind]. eauto.
Qed.

(** A text the generator returns has the length it was asked for. *)
Lemma generate_loop_len (fuel : nat) :
  forall (target : Z) (words : list string) (rng rng' : S) (text : string),
    generate_loop fuel target words rng = Ret (text, rng') ->
    0 <= target -> len text = target.
Proof.
  induction fuel as [|fuel IH]; intros target words rng rng' text;
    [discriminate|].
  rewrite generate_loop_step. intros Hrun Ht.
  apply bind_ret_inv in Hrun as ([w rng1] & _ & Hrun).
  destruct (Z.leb_spec target (len (join " " (words ++ [w])))).
  - injection Hrun as <- _. apply len_slice_to. lia.
  - eapply IH; eassumption.
Qed.

Lemma generate_all_len (fuel : nat) (chars : Z) (k : nat) :
  0 <= chars ->
  forall (rng rng' : S) (texts : list string),
    generate_all fuel (repeat chars k) rng = Ret (texts, rng') ->
    Forall (fun t => len t = chars) texts.
Proof.
  intros Hchars. induction k as [|k IH]; intros rng rng' texts;
    cbn [repeat generate_all].
  - intros [= <- _]. constructor.
  - intros Hrun.
    apply bind_ret_inv in Hrun as ([x rng1] & Hx & Hrun).
    apply bind_ret_inv in Hrun as ([xs rng2] & Hxs & Hrun).
    injection Hrun as <- _. constructor.
    + eapply generate_loop_len; eassumption.
    + eapply IH; eassumption.
Qed.

Lemma openai_rows_returns (sl : string) (chars : Z) (texts : list string)
    (models : list string) :
  tokenizer_ready ->
  Forall (fun t => len t < 2 ^ 52) texts ->
  texts <> [] -> llen texts < 2 ^ 48 -> 1 <= chars < 2 ^ 53 ->
  forall results,
    exists results', openai_rows sl chars texts models results = Ret results'.
Proof.
  intros Hready Htexts Hne Hlen Hchars.
  induction models as [|m ms IH]; intros results; cbn [openai_rows];
    [eauto|].
  destruct (count_all_openai_returns m Hready Htexts)
    as (counts & Hcounts & Hall).
  rewrite Hcounts. cbn [bind].
  pose proof (count_all_openai_length _ _ Hcounts) as Hl.
  assert (Hne' : counts <> []).
  { destruct counts; [|discriminate]. destruct texts; [congruence|].
    discriminate. }
  assert (Hlen' : llen counts < 2 ^ 48) by (unfold llen in *; lia).
  destruct (summarize_counts_spec sl "openai" m Hne' Hlen' Hall Hchars)
    as (? & ? & ? & ? & ? & ? & ? & ? & _ & _ & _ & _ & _ & _ & _ & _ & _
        & _ & _ & ->).
  cbn [bind]. apply IH.
Qed.

Lemma anthropic_rows_returns (c : counter) (sl : string) (chars : Z)
    (texts : list string) (models : list string) :
  tokenizer_ready -> service_sane ->
  Forall (fun t => len t < 2 ^ 52) texts ->
  texts <> [] -> llen texts < 2 ^ 48 -> 1 <= chars < 2 ^ 53 ->
  forall net results,
    exists results' net',
      anthropic_rows c sl chars texts models net results
      = Ret (results', net').
Proof.
  intros Hready Hsane Htexts Hne Hlen Hchars.
  induction models as [|m ms IH]; intros net results; cbn [anthropic_rows];
    [eauto|].
  pose proof (call_all_length c m texts net) as Hl.
  pose proof (call_all_bounds c m Hready Hsane Htexts net) as Hall.
  destruct (call_all c m texts net) as [counts net1]. cbn [fst] in *.
  assert (Hne' : counts <> []).
  { destruct counts; [|discriminate]. destruct texts; [congruence|].
    discriminate. }
  assert (Hlen' : llen counts < 2 ^ 48) by (unfold llen in *; lia).
  destruct (summarize_counts_spec sl "anthropic" m Hne' Hlen' Hall Hchars)
    as (? & ? & ? & ? & ? & ? & ? & ? & _ & _ & _ & _ & _ & _ & _ & _ & _
        & _ & _ & ->).
  cbn [bind]. apply IH.
Qed.

Lemma sizes_loop_returns (fuel : nat) (c : counter) (trials : Z)
    (oms ams : list string) (sizes : list Z) :
  tokenizer_ready -> service_sane ->
  1 <= trials < 2 ^ 48 ->
  Forall (fun chars => 1 <= chars < 2 ^ 52 /\ (Z.to_nat chars <= fuel)%nat)
         sizes ->
  forall rng net results,
    exists results' net',
      sizes_loop fuel c trials oms ams sizes rng net results
      = Ret (results', net').
Proof.
  intros Hready Hsane Htrials Hsizes.
  induction Hsizes as [|chars sizes [Hchars Hfuel] _ IH];
    intros rng net results; cbn [sizes_loop]; [eauto|].
  destruct (@generate_all_returns fuel (repeat chars (Z.to_nat trials)))
    with (rng := rng) as (texts & rng1 & Htexts).
  { apply Forall_forall. intros t Ht. apply repeat_spec in Ht. subst t. lia. }
  rewrite Htexts. cbn [bind].
  pose proof (generate_all_length _ _ _ Htexts) as Hl.
  rewrite repeat_length in Hl.
  assert (Hne : texts <> []) by (destruct texts; [simpl in Hl; lia|discriminate]).
  assert (Hlen : llen texts < 2 ^ 48) by (unfold llen; lia).
  assert (Hlens : Forall (fun t => len t < 2 ^ 52) texts).
  { eapply Forall_impl;
      [|eapply (@generate_all_len fuel chars); [|eassumption]; lia].
    cbv beta. intros t Ht. lia. }
  assert (Hchars' : 1 <= chars < 2 ^ 53)
    by (change (2 ^ 53) with (2 * 2 ^ 52); lia).
  destruct (openai_rows_returns (size_label_of chars) oms Hready Hlens Hne
              Hlen Hchars' results) as (results1 & ->).
  cbn [bind].
  destruct (anthropic_rows_returns c (size_label_of chars) ams Hready Hsane
              Hlens Hne Hlen Hchars' net results1) as (results2 & net2 & ->).
  cbn [bind]. apply IH.
Qed.

Lemma get_anthropic_counter_returns (env : Environment)
    (api_key : option string) :
  tokenizer_ready -> exists c, get_anthropic_counter env api_key = Ret c.
Proof.
  intros [[enc Hbase] _].
  unfold get_anthropic_counter, get_encoding_or_raise. rewrite Hbase.
  destruct (anthropic_sdk env && _); [|cbn [bind]; eauto].
  destruct (py_or api_key (ANTHROPIC_API_KEY env)); cbn [bind]; eauto.
Qed.

Lemma run_benchmark_returns (fuel : nat) (env : Environment) (net : Net)
    (sizes : list Z) (trials : Z) (oms ams : list string) (seed : Z)
    (api_key : option string) :
  tokenizer_ready -> service_sane ->
  1 <= trials < 2 ^ 48 ->
  Forall (fun chars => 1 <= chars < 2 ^ 52 /\ (Z.to_nat chars <= fuel)%nat)
         sizes ->
  exists results net',
    run_benchmark (S := S) fuel env net sizes trials oms ams seed api_key
    = Ret (results, net').
Proof.
  intros Hready Hsane Htrials Hsizes. unfold run_benchmark.
  destruct (get_anthropic_counter_returns env api_key Hready) as (c & ->).
  cbn [bind]. now apply sizes_loop_returns.
Qed.

End RunnerFacts.

(** ** Nothing but the generator loops *)

Section Halting.
Import Py Text Float Stats Counter Runner.
Open Scope Z_scope.

Lemma bind_halts {A B : Type} (m : run A) (k : A -> run B) :
  halts m -> (forall a, halts (k a)) -> halts (x <- m ;; k x).
Proof.
  unfold halts. intros Hm Hk. destruct m; simpl; [apply Hk| |]; congruence.
Qed.

Lemma halts_cases {A : Type} (m : run A) :
  halts m -> returns m \/ raises m.
Proof.
  unfold halts, returns, raises. destruct m; eauto. congruence.
Qed.

Lemma of_int_halts (z : Z) : halts (of_int z).
Proof.
  unfold halts, of_int. destruct (binary_normalize _ _ _ _ _); discriminate.
Qed.

Lemma div_halts (x y : float) : halts (div x y).
Proof. unfold halts, div. destruct (is_zero y); discriminate. Qed.

Lemma ceil_halts (x : float) : halts (ceil x).
Proof. unfold halts, ceil. destruct x; discriminate. Qed.

Lemma getitem_halts (l : list Z) (i : Z) : halts (getitem l i).
Proof.
  unfold halts, getitem. destruct (_ <? 0); [discriminate|].
  destruct (nth_error _ _); discriminate.
Qed.

Lemma true_div_halts (a b : Z) : halts (true_div a b).
Proof.
  unfold halts, true_div. destruct (b =? 0); [discriminate|].
  destruct (a =? 0); [discriminate|].
  destruct (SFdiv_core_binary _ _ _ _ _ _) as [[mz ez] lz].
  destruct (binary_round_aux _ _ _ _ _ _); discriminate.
Qed.

Lemma floats_of_ints_halts (data : list Z) : halts (floats_of_ints data).
Proof.
  induction data as [|z l IH]; cbn [floats_of_ints]; [discriminate|].
  apply bind_halts; [apply of_int_halts|intros x].
  apply bind_halts; [assumption|discriminate].
Qed.

Lemma fmean_halts (data : list Z) : halts (fmean data).
Proof.
  unfold fmean. apply bind_halts.
  - unfold fsum. apply bind_halts; [apply floats_of_ints_halts|].
    intros xs. apply of_int_halts.
  - intros total. destruct (llen data =? 0); [discriminate|].
    apply bind_halts; [apply of_int_halts|intros; apply div_halts].
Qed.

Lemma pstdev_halts (data : list Z) : halts (pstdev data).
Proof.
  unfold pstdev. destruct (llen data <? 1); [discriminate|].
  destruct (pvariance_frac data) as [num den].
  unfold float_sqrt_of_frac. destruct (0 <=? _); apply true_div_halts.
Qed.

Lemma summarize_counts_halts (sl pv md : string) (counts : list Z)
    (chars : Z) :
  halts (summarize_counts sl pv md counts chars).
Proof.
  unfold summarize_counts.
  apply bind_halts; [apply fmean_halts|intros mean].
  apply bind_halts; [apply getitem_halts|intros x50].
  apply bind_halts; [apply of_int_halts|intros n_f].
  apply bind_halts; [apply ceil_halts|intros c].
  apply bind_halts; [apply getitem_halts|intros x95].
  apply bind_halts;
    [destruct (1 <? llen counts); [apply pstdev_halts|discriminate]
    |intros sd].
  apply bind_halts; [apply of_int_halts|intros chars_f].
  apply bind_halts; [apply div_halts|intros per_1k].
  apply bind_halts; [apply div_halts|intros per].
  apply bind_halts; [apply of_int_halts|intros f50].
  apply bind_halts; [apply of_int_halts|intros f95].
  discriminate.
Qed.

(** With no count at all the mean cannot be taken. *)
Lemma summarize_counts_empty (sl pv md : string) (chars : Z) :
  summarize_counts sl pv md [] chars = Raise StatisticsError.
Proof. reflexivity. Qed.

(** With a size of zero the division by [chars / 1000.0] cannot be
    made. *)
Lemma summarize_counts_zero_size (sl pv md : string) (counts : list Z) :
  raises (summarize_counts sl pv md counts 0).
Proof.
  destruct (halts_cases (summarize_counts_halts sl pv md counts 0))
    as [[r Hr]|Hraise]; [exfalso|assumption].
  destruct (summarize_counts_inv _ _ _ _ _ Hr)
    as (mean & x50 & n_f & c & x95 & sd & chars_f & per_1k & per & f50 & f95
        & _ & _ & _ & _ & _ & _ & Hcf & Hk & Hper & _).
  rewrite of_int_0 in Hcf. injection Hcf as <-.
  injection Hk as <-. discriminate Hper.
Qed.

Section HaltingRunner.
Context {S : Type} `{RandomSource S}.
Context {Enc : Type} `{Tiktoken Enc}.
Context {Net : Type} `{CountTokensAPI Net}.

Lemma count_all_openai_halts (model : string) (texts : list string) :
  halts (count_all_openai model texts).
Proof.
  induction texts as [|t ts IH]; cbn [count_all_openai]; [discriminate|].
  apply bind_halts.
  - unfold count_tokens_openai. apply bind_halts; [|discriminate].
    unfold halts, get_openai_encoder_for_model, get_encoding_or_raise.
    destruct (encoding_for_model model); [discriminate|].
    destruct (get_encoding "o200k_base"%string); [discriminate|].
    destruct (get_encoding "cl100k_base"%string); discriminate.
  - intros n. apply bind_halts; [assumption|discriminate].
Qed.

Lemma openai_rows_halts (sl : string) (chars : Z) (texts : list string)
    (models : list string) :
  forall results, halts (openai_rows sl chars texts models results).
Proof.
  induction models as [|m ms IH]; intros results; cbn [openai_rows];
    [discriminate|].
  apply bind_halts; [apply count_all_openai_halts|intros counts].
  apply bind_halts; [apply summarize_counts_halts|intros row]. apply IH.
Qed.

Lemma anthropic_rows_halts (c : counter) (sl : string) (chars : Z)
    (texts : list string) (models : list string) :
  forall net results,
    halts (anthropic_rows c sl chars texts models net results).
Proof.
  induction models as [|m ms IH]; intros net results; cbn [anthropic_rows];
    [discriminate|].
  destruct (call_all c m texts net) as [counts net1].
  apply bind_halts; [apply summarize_counts_halts|intros row]. apply IH.
Qed.

Lemma sizes_loop_halts (fuel : nat) (c : counter) (trials : Z)
    (oms ams : list string) (sizes : list Z) :
  Forall (fun chars => trials <= 0
                       \/ (Z.to_nat (Z.max 1 chars) <= fuel)%nat) sizes ->
  forall (rng : S) net results,
    halts (sizes_loop fuel c trials oms ams sizes rng net results).
Proof.
  induction 1 as [|chars sizes Hfuel _ IH]; intros rng net results;
    cbn [sizes_loop]; [discriminate|].
  destruct (@generate_all_returns _ _ fuel (repeat chars (Z.to_nat trials)))
    with (rng := rng) as (texts & rng1 & ->).
  { destruct Hfuel as [Hle|Hfuel].
    - replace (Z.to_nat trials) with 0%nat by lia. constructor.
    - apply Forall_forall. intros t Ht. apply repeat_spec in Ht.
      now subst t. }
  cbn [bind].
  apply bind_halts; [apply openai_rows_halts|intros results1].
  apply bind_halts; [apply anthropic_rows_halts|intros [results2 net2]].
  apply IH.
Qed.

End HaltingRunner.
End Halting.

(** ** The runner as a whole *)

Section RunnerProperties.
Import Py Text Float Stats Counter Runner.
Open Scope Z_scope.
Context {S : Type} `{RandomSource S}.
Context {Enc : Type} `{Tiktoken Enc}.
Context {Net : Type} `{CountTokensAPI Net}.

(** A run that returns has summarized, for each of its sizes, as many
    counts as there are trials. *)
Lemma sizes_loop_summarized (fuel : nat) (c : counter) (trials : Z)
    (oms ams : list string) (sizes : list Z) (chars : Z) :
  In chars sizes -> oms <> [] \/ ams <> [] ->
  forall (rng : S) net results results' net',
    sizes_loop fuel c trials oms ams sizes rng net results
      = Ret (results', net') ->
    exists pv md counts r,
      summarize_counts (size_label_of chars) pv md counts chars = Ret r
      /\ llen counts = Z.max 0 trials.
Proof.
  intros Hin Hmodels.
  induction sizes as [|chars0 sizes IH]; [destruct Hin|].
  intros rng net results results' net'. cbn [sizes_loop]. intros Hrun.
  apply bind_ret_inv in Hrun as ([texts rng1] & Htexts & Hrun).
  apply bind_ret_inv in Hrun as (results1 & Ho & Hrun).
  apply bind_ret_inv in Hrun as ([results2 net2] & Ha & Hrun).
  destruct Hin as [->|Hin]; [|eapply IH; eassumption].
  assert (Hlen : llen texts = Z.max 0 trials).
  { unfold llen. rewrite (generate_all_length _ _ _ Htexts), repeat_length.
    lia. }
  destruct oms as [|m ms].
  - destruct ams as [|m ms]; [destruct Hmodels; congruence|].
    cbn [anthropic_rows] in Ha.
    pose proof (call_all_length c m texts net) as Hl.
    destruct (call_all c m texts net) as [counts net1]. cbn [fst] in Hl.
    apply bind_ret_inv in Ha as (row & Hrow & _).
    exists "anthropic"%string, m, counts, row. split; [assumption|].
    unfold llen in *. lia.
  - cbn [openai_rows] in Ho.
    apply bind_ret_inv in Ho as (counts & Hcounts & Ho).
    apply bind_ret_inv in Ho as (row & Hrow & _).
    exists "openai"%string, m, counts, row. split; [assumption|].
    pose proof (count_all_openai_length _ _ Hcounts). unfold llen in *. lia.
Qed.

Lemma get_anthropic_counter_halts (env : Environment)
    (api_key : option string) :
  halts (get_anthropic_counter env api_key).
Proof.
  unfold halts, get_anthropic_counter, get_encoding_or_raise.
  destruct (anthropic_sdk env && _);
    [destruct (py_or api_key (ANTHROPIC_API_KEY env))|];
    destruct (get_encoding "cl100k_base"%string); discriminate.
Qed.

(** C5, as the code has it: [summarize_counts] on an empty list of
    counts raises [StatisticsError], and on a size of zero it raises
    too, whatever the counts; a run with a non-positive number of
    trials, or with a zero among its sizes, and at least one size and
    one model, ends by an exception and returns no record.  A negative
    size is not among the cases: the code does not reject it. *)
Theorem precondition_violations_abort :
  (forall sl pv md chars,
     summarize_counts sl pv md [] chars = Raise StatisticsError)
  /\ (forall sl pv md counts, raises (summarize_counts sl pv md counts 0))
  /\ (forall fuel env (net : Net) sizes trials oms ams seed api_key,
        trials <= 0 -> sizes <> [] -> oms <> [] \/ ams <> [] ->
        raises (run_benchmark (S := S) fuel env net sizes trials oms ams
                  seed api_key))
  /\ (forall fuel env (net : Net) sizes trials oms ams seed api_key,
        In 0 sizes -> oms <> [] \/ ams <> [] ->
        Forall (fun chars => (Z.to_nat (Z.max 1 chars) <= fuel)%nat) sizes ->
        raises (run_benchmark (S := S) fuel env net sizes trials oms ams
                  seed api_key)).
Proof.
  split; [exact summarize_counts_empty|].
  split; [exact summarize_counts_zero_size|].
  assert (Hrun : forall fuel env (net : Net) sizes trials oms ams seed
                        api_key chars,
             In chars sizes -> oms <> [] \/ ams <> [] ->
             Forall (fun chars => trials <= 0
                        \/ (Z.to_nat (Z.max 1 chars) <= fuel)%nat) sizes ->
             (forall pv md counts r,
                summarize_counts (size_label_of chars) pv md counts chars
                  = Ret r -> llen counts = Z.max 0 trials -> False) ->
             raises (run_benchmark (S := S) fuel env net sizes trials oms ams
                       seed api_key)).
  { intros fuel env net sizes trials oms ams seed api_key chars Hin Hmodels
           Hfuel Hbad.
    unfold run_benchmark.
    destruct (halts_cases (get_anthropic_counter_halts env api_key))
      as [[c ->]|[e ->]]; [cbn [bind]|exists e; reflexivity].
    destruct (halts_cases
                (sizes_loop_halts c oms ams Hfuel (from_seed seed) net []))
      as [[[results net'] Hr]|Hraise]; [exfalso|assumption].
    destruct (@sizes_loop_summarized fuel c trials oms ams sizes chars Hin
                Hmodels _ _ _ _ _ Hr)
      as (pv & md & counts & r & Hsum & Hlen).
    eapply Hbad; eassumption. }
  split.
  - intros fuel env net sizes trials oms ams seed api_key Htrials Hne Hmodels.
    destruct sizes as [|chars sizes]; [congruence|].
    apply (Hrun _ _ _ _ _ _ _ _ _ chars); [left; reflexivity|assumption| |].
    + apply Forall_forall. intros; left; assumption.
    + intros pv md counts r Hsum Hlen.
      destruct counts as [|x l]; [discriminate Hsum|].
      unfold llen in Hlen. simpl in Hlen. lia.
  - intros fuel env net sizes trials oms ams seed api_key Hin Hmodels Hfuel.
    apply (Hrun _ _ _ _ _ _ _ _ _ 0); [assumption|assumption| |].
    + eapply Forall_impl; [|exact Hfuel]. intros; right; assumption.
    + intros pv md counts r Hsum _.
      destruct (summarize_counts_zero_size (size_label_of 0) pv md counts)
        as [e He]. congruence.
Qed.

(** C8: a run that returns has one row for every requested
    combination of size, provider and model, in the order of the
    input: size by size, the OpenAI models before the Anthropic ones,
    each row summarizing [trials] counts; and a run on valid input
    (positive sizes and trial count, within what a machine holds)
    returns, whatever the counters went through. *)
Theorem run_benchmark_rows (fuel : nat) (env : Environment) (net : Net)
    (sizes : list Z) (trials : Z) (oms ams : list string) (seed : Z)
    (api_key : option string) :
  (forall results net',
     run_benchmark (S := S) fuel env net sizes trials oms ams seed api_key
       = Ret (results, net') ->
     map row_key results = requested sizes oms ams
     /\ Forall (fun r => num_trials r = Z.max 0 trials) results)
  /\ (tokenizer_ready -> service_sane ->
      1 <= trials < 2 ^ 48 ->
      Forall (fun chars => 1 <= chars < 2 ^ 52
                           /\ (Z.to_nat chars <= fuel)%nat) sizes ->
      exists results net',
        run_benchmark (S := S) fuel env net sizes trials oms ams seed
          api_key = Ret (results, net')).
Proof.
  split.
  - intros results net' Hrun. unfold run_benchmark in Hrun.
    apply bind_ret_inv in Hrun as (c & _ & Hrun).
    apply sizes_loop_keys in Hrun as (rows & -> & Hkeys & Hall).
    auto.
  - intros. now apply run_benchmark_returns.
Qed.


(** ** A service that is down *)

(** Every live attempt fails. *)
Lemma value_of_bind {A B St St' : Type} (m : run (A * St))
    (m' : run (A * St')) (k : A * St -> run B) (k' : A * St' -> run B) :
  value_of m = value_of m' ->
  (forall a s s', k (a, s) = k' (a, s')) ->
  (x <- m ;; k x) = (x <- m' ;; k' x).
Proof.
  intros Hm Hk.
  destruct m as [[a s]| |], m' as [[a' s']| |]; simpl in *;
    try discriminate; try congruence.
  injection Hm as <-. apply Hk.
Qed.

Lemma anthropic_rows_down (key : string) (enc : Enc) (sl : string)
    (chars : Z) (texts : list string) (models : list string) :
  service_down ->
  forall net net' results,
    value_of (anthropic_rows (count_live key enc) sl chars texts models
                net results)
    = value_of (anthropic_rows (count_approx enc) sl chars texts models
                  net' results).
Proof.
  intros Hdown. induction models as [|m ms IH]; intros net net' results;
    cbn [anthropic_rows]; [reflexivity|].
  pose proof (call_all_live_down key enc m texts Hdown net) as Hlive.
  rewrite call_all_approx.
  destruct (call_all (count_live key enc) m texts net) as [counts net1].
  cbn [fst] in Hlive. subst counts.
  destruct (summarize_counts sl "anthropic" m _ chars); cbn [bind];
    [apply IH|reflexivity|reflexivity].
Qed.

Lemma sizes_loop_down (fuel : nat) (key : string) (enc : Enc) (trials : Z)
    (oms ams : list string) (sizes : list Z) :
  service_down ->
  forall (rng : S) net net' results,
    value_of (sizes_loop fuel (count_live key enc) trials oms ams sizes rng
                net results)
    = value_of (sizes_loop fuel (count_approx enc) trials oms ams sizes rng
                  net' results).
Proof.
  intros Hdown. induction sizes as [|chars sizes IH];
    intros rng net net' results; cbn [sizes_loop]; [reflexivity|].
  destruct (generate_all fuel (repeat chars (Z.to_nat trials)) rng)
    as [[texts rng1]| |]; cbn [bind]; try reflexivity.
  destruct (openai_rows (size_label_of chars) chars texts oms results)
    as [results1| |]; cbn [bind]; try reflexivity.
  pose proof (anthropic_rows_down key enc (size_label_of chars) chars texts
                ams Hdown net net' results1) as Ha.
  destruct (anthropic_rows (count_live key enc) _ _ _ _ net results1)
    as [[r2 n2]| |],
    (anthropic_rows (count_approx enc) _ _ _ _ net' results1)
    as [[r2' n2']| |]; cbn [value_of bind] in *; try discriminate;
    try reflexivity; [|assumption].
  injection Ha as <-. apply IH.
Qed.

(** C6: when [get_anthropic_counter] returns, it has the encoding
    [cl100k_base] at hand.  Without the SDK or without a credential it
    binds the approximate counter, for all the calls of the run; a
    call of the counter it binds never raises, and counts either what
    the service answered or, when the live attempt failed, the tokens
    of the same text in [cl100k_base]; when every live attempt fails,
    every count is the approximate one, the rows of the run are those
    of a run bound to the approximate counter, and the run returns on
    valid input. *)
Theorem anthropic_counter_degrades (env : Environment)
    (api_key : option string) :
  (forall c, get_anthropic_counter env api_key = Ret c ->
     exists approx_enc,
       get_encoding "cl100k_base"%string = Some approx_enc
       /\ (anthropic_sdk env = false
           \/ truthy (effective_key env api_key) = false ->
           c = count_approx approx_enc
           /\ forall model texts (net : Net),
                call_all c model texts net
                = (map (fun t => Z.of_nat (List.length (encode approx_enc t)))
                       texts, net))
       /\ (forall model text (net : Net),
             fst (call c model text net)
               = Z.of_nat (List.length (encode approx_enc text))
             \/ exists key,
                  c = count_live key approx_enc
                  /\ count_tokens key model text net
                     = (Counted (fst (call c model text net)),
                        snd (call c model text net)))
       /\ (forall key model text (net : Net),
             c = count_live key approx_enc ->
             fst (count_tokens key model text net) = Failed ->
             call c model text net
             = (Z.of_nat (List.length (encode approx_enc text)),
                snd (count_tokens key model text net)))
       /\ (service_down ->
           forall model texts (net : Net),
             fst (call_all c model texts net)
             = map (fun t => Z.of_nat (List.length (encode approx_enc t)))
                   texts))
  /\ (service_down ->
      forall fuel (net : Net) sizes trials oms ams seed,
        value_of (run_benchmark (S := S) fuel env net sizes trials oms ams
                    seed api_key)
        = value_of (run_benchmark (S := S) fuel
                      {| anthropic_sdk := false;
                         ANTHROPIC_API_KEY := ANTHROPIC_API_KEY env |}
                      net sizes trials oms ams seed api_key)
        /\ (tokenizer_ready -> 1 <= trials < 2 ^ 48 ->
            Forall (fun chars => 1 <= chars < 2 ^ 52
                                 /\ (Z.to_nat chars <= fuel)%nat) sizes ->
            exists results net',
              run_benchmark (S := S) fuel env net sizes trials oms ams seed
                api_key = Ret (results, net'))).
Proof.
  split.
  - intros c Hc.
    destruct (get_anthropic_counter_spec _ _ Hc)
      as (enc & Henc & Hcase).
    exists enc. split; [assumption|]. split; [|split; [|split]].
    + intros Hoff.
      destruct Hcase as [(key & Hsdk & Ht & _)|[_ ->]].
      * destruct Hoff; congruence.
      * split; [reflexivity|]. intros. apply call_all_approx.
    + intros model text net.
      destruct Hcase as [(key & _ & _ & _ & ->)|[_ ->]]; [|left; reflexivity].
      cbn [call].
      destruct (count_tokens key model text net) as [[n|] net1] eqn:Hct;
        cbn [fst snd]; [right|left; reflexivity].
      exists key. split; [reflexivity|exact Hct].
    + intros key model text net -> Hfail. cbn [call].
      destruct (count_tokens key model text net) as [[n|] net1];
        cbn [fst snd] in *; [discriminate|reflexivity].
    + intros Hdown model texts net.
      destruct Hcase as [(key & _ & _ & _ & ->)|[_ ->]].
      * now apply call_all_live_down.
      * now rewrite call_all_approx.
  - intros Hdown fuel net sizes trials oms ams seed. split.
    + unfold run_benchmark.
      destruct (get_anthropic_counter env api_key) as [c| |] eqn:Hc.
      * destruct (get_anthropic_counter_spec _ _ Hc)
          as (enc & Henc & Hcase).
        assert (Hoff : get_anthropic_counter
                         {| anthropic_sdk := false;
                            ANTHROPIC_API_KEY := ANTHROPIC_API_KEY env |}
                         api_key = Ret (count_approx enc)).
        { unfold get_anthropic_counter, get_encoding_or_raise.
          cbn [anthropic_sdk andb]. now rewrite Henc. }
        rewrite Hoff. cbn [bind].
        destruct Hcase as [(key & _ & _ & _ & ->)|[_ ->]];
          [now apply sizes_loop_down|reflexivity].
      * assert (Hoff : get_anthropic_counter
                         {| anthropic_sdk := false;
                            ANTHROPIC_API_KEY := ANTHROPIC_API_KEY env |}
                         api_key = Raise e).
        { revert Hc. unfold get_anthropic_counter, get_encoding_or_raise.
          cbn [anthropic_sdk andb ANTHROPIC_API_KEY].
          destruct (anthropic_sdk env && _);
            [destruct (py_or api_key (ANTHROPIC_API_KEY env))|];
            destruct (get_encoding "cl100k_base"%string); cbn [bind];
            congruence. }
        rewrite Hoff. reflexivity.
      * destruct (get_anthropic_counter_halts env api_key Hc).
    + intros Hready Htrials Hsizes.
      apply run_benchmark_returns; try assumption.
      intros key model text net0 n _ Hn. rewrite Hdown in Hn. discriminate.
Qed.

End RunnerProperties.

(* ================================================================== *)
(** * The model at work: concrete runs                                 *)
(* ================================================================== *)

Section Instances.
Import Py Text Float Stats Counter Runner.
Open Scope Z_scope.

Lemma length_list_ascii_of_string (s : string) :
  List.length (list_ascii_of_string s) = String.length s.
Proof. induction s; simpl; congruence. Qed.

Lemma char_tokenizer_ready : tokenizer_ready (Enc := unit).
Proof.
  split; [exists tt; reflexivity|].
  intros enc text Hlen. cbn [encode char_tokenizer].
  rewrite length_map, length_list_ascii_of_string.
  unfold len in Hlen. change (2 ^ 53) with (2 * 2 ^ 52). lia.
Qed.

Lemma api_down_is_down : @service_down nat api_down.
Proof. intros key model text net. reflexivity. Qed.

Lemma api_down_sane : @service_sane nat api_down.
Proof. intros key model text net n _ Hn. discriminate Hn. Qed.

Lemma api_up_sane : @service_sane nat api_up.
Proof.
  intros key model text net n Hlen Hn. cbn in Hn. injection Hn as <-.
  pose proof (len_nonneg text). change (2 ^ 53) with (2 * 2 ^ 52).
  assert (7 < 2 ^ 52) by reflexivity. lia.
Qed.

End Instances.

Section Runs.
Import Py Text Float Stats Counter Runner.
Open Scope Z_scope.

(** The environment of a process that has the SDK and a key. *)
Let env_live : Environment :=
  {| anthropic_sdk := true; ANTHROPIC_API_KEY := Some "sk-test"%string |}.

(** The environment of a process that has neither. *)
Let env_bare : Environment :=
  {| anthropic_sdk := false; ANTHROPIC_API_KEY := None |}.

(** A text of three characters is cut from the first word drawn. *)
Lemma generate_length_exact_witness :
  1 <= 3
  /\ exists text rng',
       generate_lorem_text_by_chars (S := Z) 3 3 17 = Ret (text, rng')
       /\ len text = 3.
Proof.
  split; [lia|].
  destruct (generate_length_exact (S := Z) (target := 3) 17 ltac:(lia))
    as (text & rng' & Hrun & Hlen & _).
  exists text, rng'. split; [apply Hrun; lia|exact Hlen].
Defined.

(** A negative target is served by the first iteration. *)
Lemma generate_terminates_witness :
  -5 <= 0
  /\ exists r, generate_lorem_text_by_chars (S := Z) 1 (-5) 17 = Ret r.
Proof.
  split; [lia|].
  destruct (generate_terminates (S := Z) (-5) 17) as (_ & _ & _ & Hone).
  destruct (Hone ltac:(lia)) as [_ Hr]. exact Hr.
Defined.

(** Two copies of one seeded state generate the same texts. *)
Lemma generate_deterministic_witness :
  same_draws (S1 := Z) (S2 := Z) eq
  /\ same_outcome eq (generate_all (S := Z) 20 ([5; 12] ++ [8]) 17)
                     (generate_all (S := Z) 20 ([5; 12] ++ [8]) 17).
Proof.
  assert (Hsame : same_draws (S1 := Z) (S2 := Z) eq).
  { intros n s1 s2 ->. split; reflexivity. }
  split; [exact Hsame|].
  apply (@generate_deterministic Z Z lcg lcg eq Hsame 20%nat [5; 12] 8 17 17
           eq_refl).
  lia.
Defined.

Lemma percentiles_by_index_witness :
  exists r,
    summarize_counts "100 chars" "openai" "gpt-4o" [10; 20; 30; 40] 100
      = Ret r
    /\ of_int 30 = Ret (p50_tokens r) /\ of_int 40 = Ret (p95_tokens r).
Proof.
  eexists. split; [vm_compute; reflexivity|].
  eapply (@percentiles_by_index "100 chars" "openai" "gpt-4o"
            [10; 20; 30; 40] 100);
    [discriminate|vm_compute; reflexivity|vm_compute; reflexivity
    |reflexivity].
Defined.

Lemma stdev_is_population_stdev_witness :
  exists r,
    summarize_counts "100 chars" "openai" "gpt-4o" [10; 20; 30; 40] 100
      = Ret r
    /\ pstdev [10; 20; 30; 40] = Ret (stdev_tokens r)
    /\ SFleb zero (stdev_tokens r) = true
    /\ (population_variance [10; 20; 30; 40]%Z == 125)%Q
    /\ exists mant e,
         stdev_tokens r = S754_finite false mant e
         /\ (((inject_Z (Z.pos mant) - (1 # 2)) * Qpower 2 e) ^ 2 <= 125)%Q
         /\ (125 <= ((inject_Z (Z.pos mant) + (1 # 2)) * Qpower 2 e) ^ 2)%Q.
Proof.
  assert (HV : (population_variance [10; 20; 30; 40]%Z == 125)%Q)
    by reflexivity.
  destruct (@stdev_is_population_stdev "100 chars" "openai" "gpt-4o"
              [10; 20; 30; 40] 100)
    as (r & Hrun & Hsd & _ & _ & Hnn & _ & _ & _ & _ & Hnear).
  - discriminate.
  - vm_compute; reflexivity.
  - repeat (constructor; [lia|]). constructor.
  - lia.
  - destruct Hnear as (mant & e & Hs & _ & Hlo & Hhi);
      [rewrite HV; reflexivity|].
    rewrite HV in Hlo, Hhi.
    exists r. repeat split; try assumption. exists mant, e. auto.
Defined.


(** With no key in the argument nor in the environment, the
    approximate counter is bound. *)
Lemma credential_precedence_witness :
  truthy None = false
  /\ truthy (ANTHROPIC_API_KEY env_bare) = false
  /\ exists approx_enc,
       @get_anthropic_counter unit char_tokenizer env_bare None
       = Ret (count_approx approx_enc).
Proof.
  split; [reflexivity|]. split; [reflexivity|].
  destruct (@credential_precedence unit char_tokenizer nat api_down
              env_bare None) as (_ & _ & _ & Hnone).
  destruct (Hnone eq_refl eq_refl (count_approx tt) eq_refl)
    as [(enc & Henc) _].
  exists enc. rewrite <- Henc. reflexivity.
Defined.

(** A run whose size is zero ends by an exception. *)
Lemma precondition_violations_abort_witness :
  In 0 [0]
  /\ raises (@run_benchmark Z lcg unit char_tokenizer nat api_down
               1 env_bare 0%nat [0] 1 ["gpt-4o"%string] [] 17 None).
Proof.
  split; [left; reflexivity|].
  destruct (@precondition_violations_abort Z lcg unit char_tokenizer nat
              api_down) as (_ & _ & _ & Hzero).
  apply Hzero.
  - left; reflexivity.
  - left; discriminate.
  - repeat constructor.
Defined.

(** A run on two sizes and three models returns its six rows. *)
Lemma run_benchmark_rows_witness :
  exists results net',
    @run_benchmark Z lcg unit char_tokenizer nat api_up
      12 env_live 0%nat [5; 12] 3 ["gpt-4o"; "gpt-5"]%string
      ["claude-sonnet-4-20250514"%string] 17 None = Ret (results, net')
    /\ map row_key results
       = requested [5; 12] ["gpt-4o"; "gpt-5"]%string
                   ["claude-sonnet-4-20250514"%string].
Proof.
  destruct (@run_benchmark_rows Z lcg unit char_tokenizer nat api_up
              12 env_live 0%nat [5; 12] 3 ["gpt-4o"; "gpt-5"]%string
              ["claude-sonnet-4-20250514"%string] 17 None)
    as [Hkeys Hret].
  destruct Hret as (results & net' & Hrun).
  - exact char_tokenizer_ready.
  - exact api_up_sane.
  - lia.
  - repeat (constructor; [split; [lia|vm_compute; lia]|]). constructor.
  - exists results, net'. split; [exact Hrun|]. apply (Hkeys _ _ Hrun).
Defined.

(** A run whose service is down returns the rows of the approximate
    counter. *)
Lemma anthropic_counter_degrades_witness :
  @service_down nat api_down
  /\ exists results net',
       @run_benchmark Z lcg unit char_tokenizer nat api_down
         12 env_live 0%nat [5; 12] 3 [] ["claude-sonnet-4-20250514"%string]
         17 None = Ret (results, net')
       /\ value_of
            (@run_benchmark Z lcg unit char_tokenizer nat api_down
               12 env_bare 0%nat [5; 12] 3 []
               ["claude-sonnet-4-20250514"%string] 17 None)
          = Ret results.
Proof.
  split; [exact api_down_is_down|].
  destruct (@anthropic_counter_degrades Z lcg unit char_tokenizer nat
              api_down env_live None) as [_ Hdown].
  destruct (Hdown api_down_is_down 12%nat 0%nat [5; 12] 3 []
              ["claude-sonnet-4-20250514"%string] 17) as [Hsame Hret].
  destruct Hret as (results & net' & Hrun).
  - exact char_tokenizer_ready.
  - lia.
  - repeat (constructor; [split; [lia|vm_compute; lia]|]). constructor.
  - exists results, net'. split; [exact Hrun|].
    change env_bare with {| anthropic_sdk := false;
                            ANTHROPIC_API_KEY := None |}.
    rewrite Hrun in Hsame. cbn [value_of] in Hsame.
    etransitivity; [|symmetry; exact Hsame]. reflexivity.
Defined.

(** A negative size is not rejected: the run returns a row for it,
    whose text is not of that length and whose count per thousand
    characters is negative. *)
Lemma negative_size_is_summarized :
  exists r,
    @run_benchmark Z lcg unit char_tokenizer nat api_down
      1 env_bare 0%nat [-5] 1 ["gpt-4o"%string] [] 17 None
    = Ret ([r], 0%nat)
    /\ size_label r = "-5 chars"%string
    /\ num_trials r = 1
    /\ SFltb (mean_tokens_per_1k_chars r) zero = true.
Proof.
  eexists. split; [vm_compute; reflexivity|].
  repeat split.
Qed.

End Runs.
(* ================================================================== *)
(** * More on the text generator                                       *)
(* ================================================================== *)

Section MoreStringFacts.
Import Py.
Open Scope string_scope.

Lemma substring_0_app (m : nat) (s t : string) :
  (m <= String.length s)%nat -> substring 0 m (s ++ t) = substring 0 m s.
Proof.
  revert m; induction s as [|c s IH]; intros [|m] Hm; simpl in *;
    try lia; auto.
  - destruct t; reflexivity.
  - f_equal. apply IH. lia.
Qed.

Lemma substring_0_twice (m n : nat) (s : string) :
  (m <= n)%nat -> substring 0 m (substring 0 n s) = substring 0 m s.
Proof.
  revert m n; induction s as [|c s IH]; intros [|m] [|n] Hmn; simpl;
    try lia; auto.
  f_equal. apply IH. lia.
Qed.

Lemma join_cons2 (sep a b : string) (ws : list string) :
  join sep (a :: b :: ws) = a ++ sep ++ join sep (b :: ws).
Proof. reflexivity. Qed.

(** The joined text of a list is the beginning of the joined text of
    any longer list. *)
Lemma join_app (sep : string) (us vs : list string) :
  us <> [] -> vs <> [] ->
  join sep (us ++ vs) = join sep us ++ sep ++ join sep vs.
Proof.
  intros Hus Hvs. induction us as [|a us IH]; [congruence|].
  destruct us as [|b us].
  - destruct vs as [|v vs]; [congruence|]. reflexivity.
  - change (((a :: b :: us) ++ vs)%list) with (a :: b :: (us ++ vs))%list.
    rewrite !join_cons2.
    change (b :: (us ++ vs))%list with ((b :: us) ++ vs)%list.
    rewrite IH by discriminate.
    now rewrite !str_app_assoc.
Qed.

End MoreStringFacts.

Section GeneratorShape.
Import Py Text Observe.
Open Scope Z_scope.
Context {S : Type} `{RandomSource S}.

Lemma choice_advance (rng : S) :
  exists w, choice LOREM_WORDS rng = Ret (w, advance 1 rng)
            /\ In w LOREM_WORDS.
Proof. exact (choice_corpus rng). Qed.

Lemma drawn_S (k : nat) (rng : S) (w : string) (rng' : S) :
  choice LOREM_WORDS rng = Ret (w, rng') ->
  drawn (Datatypes.S k) rng = w :: drawn k rng'.
Proof. intros Hc. cbn [drawn]. now rewrite Hc. Qed.

Lemma advance_S (k : nat) (rng : S) :
  advance (Datatypes.S k) rng = advance k (advance 1 rng).
Proof. reflexivity. Qed.

Lemma drawn_length (k : nat) : forall rng : S, List.length (drawn k rng) = k.
Proof.
  induction k as [|k IH]; intros rng; [reflexivity|].
  destruct (choice_advance rng) as (w & Hc & _).
  rewrite (@drawn_S k _ _ _ Hc). simpl. now rewrite IH.
Qed.

Lemma drawn_corpus (k : nat) :
  forall rng : S, Forall (fun w => In w LOREM_WORDS) (drawn k rng).
Proof.
  induction k as [|k IH]; intros rng; [constructor|].
  destruct (choice_advance rng) as (w & Hc & Hin).
  rewrite (@drawn_S k _ _ _ Hc). constructor; auto.
Qed.

Lemma drawn_app (j k : nat) :
  forall rng : S,
    drawn (j + k) rng = (drawn j rng ++ drawn k (advance j rng))%list.
Proof.
  induction j as [|j IH]; intros rng; [reflexivity|].
  destruct (choice_advance rng) as (w & Hc & _).
  change (Datatypes.S j + k)%nat with (Datatypes.S (j + k)).
  rewrite (@drawn_S (j + k) _ _ _ Hc), (@drawn_S j _ _ _ Hc), advance_S, IH.
  reflexivity.
Qed.

(** A corpus word has between 2 and 13 letters, and nothing else. *)
Lemma corpus_words_letters (w : string) :
  In w LOREM_WORDS ->
  2 <= len w <= 13
  /\ forallb (fun c => lower_or_space c && negb (is_space c))
             (list_ascii_of_string w) = true.
Proof.
  assert (Hall : forallb
            (fun w => (2 <=? len w) && (len w <=? 13)
                      && forallb (fun c => lower_or_space c
                                           && negb (is_space c))
                                 (list_ascii_of_string w))
            LOREM_WORDS = true) by (vm_compute; reflexivity).
  rewrite forallb_forall in Hall. intros Hin.
  specialize (Hall _ Hin).
  apply andb_prop in Hall as [Hb Hl]. apply andb_prop in Hb as [H2 H13].
  split; [lia|assumption].
Qed.

(** The length of [k] joined corpus words. *)
Lemma len_join_corpus (ws : list string) :
  Forall (fun w => In w LOREM_WORDS) ws -> ws <> [] ->
  3 * Z.of_nat (List.length ws) - 1 <= len (join " " ws)
  <= 14 * Z.of_nat (List.length ws) - 1.
Proof.
  induction 1 as [|a ws Ha Hws IH]; [congruence|intros _].
  destruct (corpus_words_letters Ha) as [Hla _].
  destruct ws as [|b ws].
  - rewrite join_single. simpl List.length. lia.
  - specialize (IH ltac:(discriminate)).
    rewrite join_cons2. remember (join " " (b :: ws)) as J.
    unfold len in *. rewrite !length_app.
    change (String.length " ") with 1%nat.
    change (List.length (a :: b :: ws))
      with (Datatypes.S (List.length (b :: ws))). lia.
Qed.

(** What a call that returns went through: [k] draws, the last of
    which made the joined text reach the target, and none before. *)
Lemma generate_loop_trace (fuel : nat) :
  forall (target : Z) (words : list string) (rng rng' : S) (text : string),
    generate_loop fuel target words rng = Ret (text, rng') ->
    exists k,
      (1 <= k <= fuel)%nat
      /\ text = slice_to (join " " (words ++ drawn k rng)) target
      /\ rng' = advance k rng
      /\ target <= len (join " " (words ++ drawn k rng))
      /\ (forall j, (1 <= j < k)%nat ->
            len (join " " (words ++ drawn j rng)) < target)
      /\ generate_loop k target words rng = Ret (text, rng').
Proof.
  induction fuel as [|fuel IH]; intros target words rng rng' text Hrun;
    [discriminate|].
  rewrite generate_loop_step in Hrun.
  destruct (choice_advance rng) as (w & Hc & Hin).
  rewrite Hc in Hrun. cbn [bind] in Hrun.
  destruct (Z.leb_spec target (len (join " " (words ++ [w])))) as [Hle|Hgt].
  - injection Hrun as <- <-. exists 1%nat.
    rewrite (@drawn_S 0 _ _ _ Hc). cbn [drawn].
    repeat split; try lia; auto.
    rewrite generate_loop_step, Hc. cbn [bind].
    destruct (Z.leb_spec target (len (join " " (words ++ [w]))));
      [reflexivity|lia].
  - apply IH in Hrun as (k & Hk & Ht & Hr & Hreach & Hmin & Hk_run).
    exists (Datatypes.S k). rewrite (@drawn_S k _ _ _ Hc), advance_S.
    rewrite <- app_assoc in Ht, Hreach. simpl app in Ht, Hreach.
    repeat split; try lia; auto.
    + intros [|[|j]] Hj; try lia.
      * rewrite (@drawn_S 0 _ _ _ Hc). exact Hgt.
      * rewrite (@drawn_S (Datatypes.S j) _ _ _ Hc).
        specialize (Hmin (Datatypes.S j) ltac:(lia)).
        rewrite <- app_assoc in Hmin. exact Hmin.
    + rewrite generate_loop_step, Hc. cbn [bind].
      destruct (Z.leb_spec target (len (join " " (words ++ [w]))));
        [lia|exact Hk_run].
Qed.

(** The loop never raises: it returns or runs out of fuel. *)
Lemma generate_loop_never_raises (fuel : nat) :
  forall (target : Z) (words : list string) (rng : S) e,
    generate_loop fuel target words rng <> Raise e.
Proof.
  induction fuel as [|fuel IH]; intros target words rng e; [discriminate|].
  rewrite generate_loop_step.
  destruct (choice_advance rng) as (w & -> & _). cbn [bind].
  destruct (target <=? len (join " " (words ++ [w]))); [discriminate|].
  apply IH.
Qed.

(** The number of draws of a call for a positive target. *)
Lemma generate_draws (target : Z) (rng : S) :
  1 <= target ->
  exists k,
    (1 <= k)%nat
    /\ (forall fuel, (k <= fuel)%nat ->
          generate_lorem_text_by_chars fuel target rng
          = Ret (substring 0 (Z.to_nat target) (join " " (drawn k rng)),
                 advance k rng))
    /\ (forall fuel, (fuel < k)%nat ->
          generate_lorem_text_by_chars fuel target rng = Timeout)
    /\ target <= len (join " " (drawn k rng))
    /\ (forall j, (j < k)%nat -> len (join " " (drawn j rng)) < target).
Proof.
  intros Hpos.
  destruct (@generate_loop_returns _ _ (Z.to_nat target) target [] rng)
    as (ws & rng' & Hrun & _ & _).
  { lia. }
  { change (len (join " " [])) with 0. lia. }
  destruct (generate_loop_trace _ _ _ _ Hrun)
    as (k & Hk & Ht & Hr & Hreach & Hmin & Hk_run).
  simpl app in Ht, Hreach, Hmin, Hk_run.
  rewrite Ht, Hr in Hk_run. clear Hrun Ht Hr.
  assert (Hmin' : forall j, (j < k)%nat ->
                            len (join " " (drawn j rng)) < target).
  { intros [|j] Hj; [change (len (join " " (drawn 0 rng))) with 0; lia|].
    apply Hmin. lia. }
  exists k. split; [lia|]. split; [|split; [|split]]; auto.
  - intros fuel Hf. unfold generate_lorem_text_by_chars.
    rewrite <- slice_to_prefix by lia.
    eapply generate_loop_fuel_mono; eassumption.
  - intros fuel Hf. unfold generate_lorem_text_by_chars.
    destruct (generate_loop fuel target [] rng) as [[t r]| |] eqn:Hf_run;
      [| exfalso; eapply generate_loop_never_raises; eassumption
       | reflexivity].
    exfalso.
    destruct (generate_loop_trace _ _ _ _ Hf_run)
      as (k' & Hk' & _ & _ & Hreach' & _).
    simpl app in Hreach'. specialize (Hmin' k' ltac:(lia)). lia.
Qed.

End GeneratorShape.

Section GeneratorAlphabet.
Import Py Text Observe.
Open Scope Z_scope.

Lemma chars_app (s t : string) :
  list_ascii_of_string (s ++ t)
  = (list_ascii_of_string s ++ list_ascii_of_string t)%list.
Proof. induction s as [|c s IH]; simpl; [reflexivity|now rewrite IH]. Qed.

Lemma chars_substring_0 (P : ascii -> bool) (m : nat) (s : string) :
  forallb P (list_ascii_of_string s) = true ->
  forallb P (list_ascii_of_string (substring 0 m s)) = true.
Proof.
  revert m; induction s as [|c s IH]; intros [|m]; simpl; auto.
  intros Hs. apply andb_prop in Hs as [-> Hs]. simpl. now apply IH.
Qed.

Lemma single_spaced_cons2 (a b : ascii) (s : string) :
  single_spaced (String a (String b s))
  = negb (is_space a && is_space b) && single_spaced (String b s).
Proof. reflexivity. Qed.

Lemma single_spaced_substring_0 (m : nat) (s : string) :
  single_spaced s = true -> single_spaced (substring 0 m s) = true.
Proof.
  revert m; induction s as [|a s IH]; intros [|m]; auto.
  intros Hs.
  destruct s as [|b s]; [destruct m; reflexivity|].
  rewrite single_spaced_cons2 in Hs. apply andb_prop in Hs as [Hab Hs].
  specialize (IH m Hs).
  destruct m as [|m]; [reflexivity|].
  change (substring 0 (Datatypes.S (Datatypes.S m)) (String a (String b s)))
    with (String a (String b (substring 0 m s))).
  change (substring 0 (Datatypes.S m) (String b s))
    with (String b (substring 0 m s)) in IH.
  now rewrite single_spaced_cons2, Hab, IH.
Qed.

Lemma starts_unspaced_substring_0 (m : nat) (s : string) :
  starts_unspaced s = true -> starts_unspaced (substring 0 m s) = true.
Proof. destruct s, m; simpl; auto. Qed.

(** A word without a space in front of a single-spaced text. *)
Lemma single_spaced_word_app (w s : string) :
  forallb (fun c => lower_or_space c && negb (is_space c))
          (list_ascii_of_string w) = true ->
  single_spaced s = true ->
  single_spaced (w ++ s) = true.
Proof.
  intros Hw Hs. induction w as [|a w IH]; [exact Hs|].
  simpl in Hw. apply andb_prop in Hw as [Ha Hw].
  apply andb_prop in Ha as [_ Ha].
  specialize (IH Hw).
  change ((String a w ++ s)%string) with (String a (w ++ s)).
  destruct (w ++ s)%string as [|b u] eqn:E; [reflexivity|].
  rewrite single_spaced_cons2, IH.
  destruct (is_space a); [discriminate|reflexivity].
Qed.

Lemma join_corpus_tidy (ws : list string) :
  Forall (fun w => In w LOREM_WORDS) ws ->
  forallb lower_or_space (list_ascii_of_string (join " " ws)) = true
  /\ single_spaced (join " " ws) = true
  /\ starts_unspaced (join " " ws) = true.
Proof.
  induction 1 as [|a ws Ha Hws (IHc & IHs & IHu)]; [repeat split|].
  destruct (corpus_words_letters Ha) as [Hla Hca].
  assert (Hca' : forallb lower_or_space (list_ascii_of_string a) = true).
  { rewrite forallb_forall in Hca |- *. intros c Hc.
    specialize (Hca c Hc). now apply andb_prop in Hca as [-> _]. }
  assert (Hua : forall s, starts_unspaced (a ++ s) = true).
  { intros s. destruct a as [|c a]; [unfold len in Hla; simpl in Hla; lia|].
    simpl in Hca. apply andb_prop in Hca as [Hc _].
    apply andb_prop in Hc as [_ Hc]. exact Hc. }
  destruct ws as [|b ws].
  - rewrite join_single. repeat split; auto.
    + rewrite <- (single_spaced_word_app a EmptyString Hca eq_refl).
      f_equal. clear. induction a; simpl; congruence.
    + specialize (Hua EmptyString).
      replace (a ++ EmptyString)%string with a in Hua; [exact Hua|].
      clear. induction a; simpl; congruence.
  - rewrite join_cons2. repeat split.
    + rewrite !chars_app, !forallb_app, Hca', IHc. reflexivity.
    + apply single_spaced_word_app; [exact Hca|].
      change (" " ++ join " " (b :: ws))%string
        with (String " " (join " " (b :: ws))).
      destruct (join " " (b :: ws)) as [|c u] eqn:E; [reflexivity|].
      rewrite single_spaced_cons2, IHs.
      cbn [starts_unspaced] in IHu.
      destruct (is_space c); [discriminate|].
      now rewrite andb_false_r.
    + apply Hua.
Qed.

End GeneratorAlphabet.

Section GeneratorContents.
Import Py Text Observe.
Open Scope Z_scope.
Context {S : Type} `{RandomSource S}.

(** X1: the text for a positive target is cut from the words the
    source hands out, in their order: the call makes [k] draws, where
    [k] is the first number of words whose joined text (single spaces
    between them) has [target_chars] characters or more; it returns
    the first [target_chars] characters of that joined text, leaves
    the source [k] draws further, and takes exactly [k] iterations. *)
Theorem generated_text_from_stream (target : Z) (rng : S) :
  1 <= target ->
  exists k,
    (1 <= k)%nat
    /\ List.length (drawn k rng) = k
    /\ Forall (fun w => In w LOREM_WORDS) (drawn k rng)
    /\ target <= len (join " " (drawn k rng))
    /\ (forall j, (j < k)%nat -> len (join " " (drawn j rng)) < target)
    /\ (forall fuel, (k <= fuel)%nat ->
          generate_lorem_text_by_chars fuel target rng
          = Ret (substring 0 (Z.to_nat target) (join " " (drawn k rng)),
                 advance k rng))
    /\ (forall fuel, (fuel < k)%nat ->
          generate_lorem_text_by_chars fuel target rng = Timeout).
Proof.
  intros Hpos.
  destruct (generate_draws rng Hpos) as (k & Hk & Hrun & Hout & Hreach & Hmin).
  exists k. repeat split; auto using drawn_length, drawn_corpus.
Qed.

(** X2: the loop of the generator takes at least [(target_chars + 1)
    / 14] and at most [(target_chars + 3) / 3] iterations (a word has
    2 to 13 letters): with the latter fuel the call returns, and with
    fewer than the former it cannot. *)
Theorem generate_iterations_bounds (target : Z) (rng : S) (fuel : nat) :
  1 <= target ->
  ((Z.to_nat ((target + 3) / 3) <= fuel)%nat ->
     returns (generate_lorem_text_by_chars fuel target rng))
  /\ (14 * Z.of_nat fuel < target + 1 ->
        generate_lorem_text_by_chars fuel target rng = Timeout).
Proof.
  intros Hpos.
  destruct (generate_draws rng Hpos) as (k & Hk & Hrun & Hout & Hreach & Hmin).
  pose proof (drawn_corpus k rng) as Hck.
  assert (Hnek : drawn k rng <> []).
  { intros E. pose proof (drawn_length k rng) as Hl. rewrite E in Hl.
    simpl in Hl. lia. }
  pose proof (len_join_corpus Hck Hnek) as Hbk.
  rewrite drawn_length in Hbk.
  assert (Hup : 3 * Z.of_nat k <= target + 3).
  { destruct k as [|[|j]]; [lia|lia|].
    specialize (Hmin (Datatypes.S j) ltac:(lia)).
    pose proof (drawn_corpus (Datatypes.S j) rng) as Hcj.
    assert (Hnej : drawn (Datatypes.S j) rng <> []).
    { intros E. pose proof (drawn_length (Datatypes.S j) rng) as Hl.
      rewrite E in Hl. simpl in Hl. lia. }
    pose proof (len_join_corpus Hcj Hnej) as Hbj.
    rewrite drawn_length in Hbj. lia. }
  split.
  - intros Hf. eexists. apply Hrun.
    assert (Z.of_nat k <= (target + 3) / 3)
      by (apply Z.div_le_lower_bound; lia).
    lia.
  - intros Hf. apply Hout. lia.
Qed.

(** X3: whatever the target, a generated text is made of lower-case
    letters and spaces only, has no two spaces in a row and does not
    begin with a space (it may end with one, or with a cut word). *)
Theorem generated_text_alphabet (fuel : nat) (target : Z) (rng rng' : S)
    (text : string) :
  generate_lorem_text_by_chars fuel target rng = Ret (text, rng') ->
  forallb lower_or_space (list_ascii_of_string text) = true
  /\ single_spaced text = true
  /\ starts_unspaced text = true.
Proof.
  intros Hrun. unfold generate_lorem_text_by_chars in Hrun.
  destruct (generate_loop_trace _ _ _ _ Hrun) as (k & _ & -> & _).
  simpl app.
  destruct (join_corpus_tidy (drawn_corpus k rng)) as (Hc & Hs & Hu).
  unfold slice_to.
  repeat split.
  - now apply chars_substring_0.
  - now apply single_spaced_substring_0.
  - now apply starts_unspaced_substring_0.
Qed.

(** X4: from one state of the source, the text for a smaller target
    is the beginning of the text for a larger one. *)
Theorem generate_prefix_consistent (fuel1 fuel2 : nat) (t1 t2 : Z)
    (rng r1 r2 : S) (x1 x2 : string) :
  1 <= t1 <= t2 ->
  generate_lorem_text_by_chars fuel1 t1 rng = Ret (x1, r1) ->
  generate_lorem_text_by_chars fuel2 t2 rng = Ret (x2, r2) ->
  x1 = substring 0 (Z.to_nat t1) x2 /\ prefix x1 x2 = true.
Proof.
  intros Ht Hrun1 Hrun2. unfold generate_lorem_text_by_chars in *.
  destruct (generate_loop_trace _ _ _ _ Hrun1)
    as (k1 & Hk1 & -> & _ & Hreach1 & Hmin1 & _).
  destruct (generate_loop_trace _ _ _ _ Hrun2)
    as (k2 & Hk2 & -> & _ & Hreach2 & _ & _).
  simpl app in *.
  assert (Hle : (k1 <= k2)%nat).
  { destruct (Nat.le_gt_cases k1 k2) as [|Hlt]; [assumption|].
    specialize (Hmin1 k2 ltac:(lia)). lia. }
  assert (Hcut : substring 0 (Z.to_nat t1) (join " " (drawn k2 rng))
                 = substring 0 (Z.to_nat t1) (join " " (drawn k1 rng))).
  { replace k2 with (k1 + (k2 - k1))%nat by lia.
    rewrite drawn_app.
    destruct (drawn (k2 - k1) (advance k1 rng)) as [|v vs] eqn:Hrest.
    - now rewrite app_nil_r.
    - rewrite join_app; [|intros E|discriminate].
      + apply substring_0_app. unfold len in Hreach1. lia.
      + pose proof (drawn_length k1 rng) as Hl. rewrite E in Hl.
        simpl in Hl. lia. }
  assert (Heq : slice_to (join " " (drawn k1 rng)) t1
                = substring 0 (Z.to_nat t1)
                    (slice_to (join " " (drawn k2 rng)) t2)).
  { rewrite !slice_to_prefix by lia.
    rewrite substring_0_twice by lia. now rewrite Hcut. }
  split; [exact Heq|]. rewrite Heq. apply substring_0_prefix.
Qed.

(** X5: a target of zero or below is not refused: the call draws one
    word and returns [word[:target_chars]], that is the empty string
    for 0 and the word without its last [-target_chars] characters for
    a negative target, so a text that is not of the length asked for. *)
Theorem generate_nonpositive_target (fuel : nat) (target : Z) (rng : S) :
  target <= 0 -> (1 <= fuel)%nat ->
  exists w,
    In w LOREM_WORDS
    /\ choice LOREM_WORDS rng = Ret (w, advance 1 rng)
    /\ generate_lorem_text_by_chars fuel target rng
       = Ret (slice_to w target, advance 1 rng)
    /\ prefix (slice_to w target) w = true
    /\ len (slice_to w target)
       = (if target =? 0 then 0 else Z.max 0 (len w + target))
    /\ (target = -1 -> 1 <= len (slice_to w target)).
Proof.
  intros Ht Hf.
  destruct (choice_advance rng) as (w & Hc & Hin).
  destruct (corpus_words_letters Hin) as [Hlw _].
  exists w. split; [exact Hin|]. split; [exact Hc|].
  assert (Hlen : len (slice_to w target)
                 = (if target =? 0 then 0 else Z.max 0 (len w + target))).
  { unfold slice_to.
    destruct (Z.ltb_spec target 0); destruct (Z.eqb_spec target 0); try lia.
    - unfold len. rewrite length_substring_0. unfold len in *. lia.
    - unfold len. rewrite length_substring_0. unfold len in *. lia. }
  split; [|split; [|split]].
  - unfold generate_lorem_text_by_chars.
    destruct fuel as [|fuel]; [lia|].
    rewrite generate_loop_step, Hc. cbn [bind app].
    rewrite join_single.
    destruct (Z.leb_spec target (len w)); [reflexivity|lia].
  - unfold slice_to. apply substring_0_prefix.
  - exact Hlen.
  - intros ->. rewrite Hlen. simpl. lia.
Qed.

End GeneratorContents.

(* ================================================================== *)
(** * More on the statistics summarizer                                *)
(* ================================================================== *)

Section OrderOfCounts.
Import Py Float Stats Observe.
Open Scope Z_scope.

Lemma insert_comm (x y : Z) (l : list Z) :
  insert x (insert y l) = insert y (insert x l).
Proof.
  induction l as [|z l IH]; simpl.
  - destruct (Z.leb_spec x y), (Z.leb_spec y x); try reflexivity; try lia.
    now replace y with x by lia.
  - destruct (Z.leb_spec y z) as [Hyz|Hyz], (Z.leb_spec x z) as [Hxz|Hxz];
      simpl.
    + destruct (Z.leb_spec x y), (Z.leb_spec y x); try lia;
        destruct (Z.leb_spec x z), (Z.leb_spec y z); try lia;
        try reflexivity.
      now replace y with x by lia.
    + destruct (Z.leb_spec x y); [lia|].
      destruct (Z.leb_spec x z), (Z.leb_spec y z); try lia. reflexivity.
    + destruct (Z.leb_spec y x); [lia|].
      destruct (Z.leb_spec x z), (Z.leb_spec y z); try lia. reflexivity.
    + destruct (Z.leb_spec x z), (Z.leb_spec y z); try lia.
      now rewrite IH.
Qed.

(** [sorted] does not depend on the order of its argument. *)
Lemma sorted_perm_eq (l l' : list Z) :
  Permutation l l' -> sorted l = sorted l'.
Proof.
  induction 1 as [|x l l' _ IH|x y l|l l' l'' _ IH1 _ IH2]; simpl.
  - reflexivity.
  - now rewrite IH.
  - apply insert_comm.
  - congruence.
Qed.

Lemma sum_perm (l l' : list Z) : Permutation l l' -> sum l = sum l'.
Proof.
  unfold sum.
  induction 1 as [|x l l' _ IH|x y l|l l' l'' _ IH1 _ IH2]; simpl; lia.
Qed.

Lemma sumsq_perm (l l' : list Z) : Permutation l l' -> sumsq l = sumsq l'.
Proof. intros Hp. unfold sumsq. apply sum_perm. now apply Permutation_map. Qed.

Lemma llen_perm {A : Type} (l l' : list A) :
  Permutation l l' -> llen l = llen l'.
Proof. intros Hp. unfold llen. now rewrite (Permutation_length Hp). Qed.

(** The conversion of the items one by one: the list of the floats,
    or [OverflowError] when an item is beyond the doubles. *)
Lemma floats_of_ints_cases (data : list Z) :
  (exists xs, floats_of_ints data = Ret xs
              /\ Forall2 (fun z x => of_int z = Ret x) data xs)
  \/ (floats_of_ints data = Raise OverflowError
      /\ Exists (fun z => of_int z = Raise OverflowError) data).
Proof.
  induction data as [|z data IH]; [left; exists []; split; constructor|].
  cbn [floats_of_ints].
  destruct (of_int z) as [x|e|] eqn:Hz.
  - cbn [bind].
    destruct IH as [(xs & -> & Hall)|[-> Hex]]; cbn [bind].
    + left. exists (x :: xs). split; [reflexivity|]. now constructor.
    + right. split; [reflexivity|]. now apply Exists_cons_tl.
  - assert (e = OverflowError) as ->.
    { unfold of_int in Hz.
      destruct (binary_normalize prec emax z 0 false); congruence. }
    right. split; [reflexivity|]. now apply Exists_cons_hd.
  - exfalso. unfold of_int in Hz.
    destruct (binary_normalize prec emax z 0 false); discriminate.
Qed.

Lemma of_int_fun (z : Z) (x y : float) :
  of_int z = Ret x -> of_int z = Ret y -> x = y.
Proof. congruence. Qed.

Lemma fsum_perm (l l' : list Z) : Permutation l l' -> fsum l = fsum l'.
Proof.
  intros Hp. unfold fsum.
  destruct (floats_of_ints_cases l) as [(xs & Hl & Hall)|[Hl Hex]];
    destruct (floats_of_ints_cases l') as [(xs' & Hl' & Hall')|[Hl' Hex']];
    rewrite Hl, Hl'; cbn [bind].
  - f_equal.
    assert (Hsum : forall d ys, Forall2 (fun z x => of_int z = Ret x) d ys ->
              fold_right Z.add 0 (map to_int_floor ys)
              = sum (map (fun z => match of_int z with
                                   | Ret x => to_int_floor x
                                   | _ => 0
                                   end) d)).
    { induction 1 as [|z x d ys Hz _ IH]; [reflexivity|].
      simpl. rewrite Hz. unfold sum in IH. now rewrite IH. }
    rewrite (Hsum _ _ Hall), (Hsum _ _ Hall').
    apply sum_perm. now apply Permutation_map.
  - exfalso. apply Exists_exists in Hex' as (z & Hin & Hz).
    apply (Permutation_in _ (Permutation_sym Hp)) in Hin.
    clear - Hall Hin Hz.
    induction Hall as [|a x d ys Ha _ IH]; [contradiction|].
    destruct Hin as [->|Hin]; [congruence|auto].
  - exfalso. apply Exists_exists in Hex as (z & Hin & Hz).
    apply (Permutation_in _ Hp) in Hin.
    clear - Hall' Hin Hz.
    induction Hall' as [|a x d ys Ha _ IH]; [contradiction|].
    destruct Hin as [->|Hin]; [congruence|auto].
  - reflexivity.
Qed.

Lemma fmean_perm (l l' : list Z) : Permutation l l' -> fmean l = fmean l'.
Proof.
  intros Hp. unfold fmean. now rewrite (fsum_perm Hp), (llen_perm Hp).
Qed.

Lemma pstdev_perm (l l' : list Z) : Permutation l l' -> pstdev l = pstdev l'.
Proof.
  intros Hp. unfold pstdev, pvariance_frac.
  now rewrite (llen_perm Hp), (sum_perm Hp), (sumsq_perm Hp).
Qed.

(** X6: on token counts (not negative, each below [2^53], fewer than
    [2^48] of them, so that no partial sum of [math.fsum] overflows)
    the record does not depend on the order of the counts: two lists
    with the same items, in any order, are summarized alike (the same
    record, or the same exception, as on an empty list or a size of
    zero). *)
Theorem summarize_counts_order_free (sl pv md : string)
    (counts counts' : list Z) (chars : Z) :
  llen counts < 2 ^ 48 ->
  Forall (fun x => 0 <= x < 2 ^ 53) counts ->
  Permutation counts counts' ->
  summarize_counts sl pv md counts chars
  = summarize_counts sl pv md counts' chars.
Proof.
  intros _ _ Hp. unfold summarize_counts.
  now rewrite (fmean_perm Hp), (sorted_perm_eq Hp), (pstdev_perm Hp),
    (llen_perm Hp).
Qed.

End OrderOfCounts.

Section Ranks.
Import Py Float Stats Observe.
Open Scope Z_scope.

Lemma filter_perm {A : Type} (f : A -> bool) (l l' : list A) :
  Permutation l l' -> Permutation (filter f l) (filter f l').
Proof.
  induction 1 as [|x l l' _ IH|x y l|l l' l'' _ IH1 _ IH2]; simpl.
  - constructor.
  - destruct (f x); [now constructor|assumption].
  - destruct (f x), (f y); try reflexivity. apply perm_swap.
  - now transitivity (filter f l').
Qed.

Lemma count_le_perm (x : Z) (l l' : list Z) :
  Permutation l l' -> count_le x l = count_le x l'.
Proof. intros Hp. unfold count_le. apply llen_perm. now apply filter_perm. Qed.

Lemma count_lt_perm (x : Z) (l l' : list Z) :
  Permutation l l' -> count_lt x l = count_lt x l'.
Proof. intros Hp. unfold count_lt. apply llen_perm. now apply filter_perm. Qed.

Lemma sorted_strongly (l : list Z) : StronglySorted Z.le (sorted l).
Proof.
  apply Sorted_StronglySorted; [|apply sorted_Sorted].
  intros x y z. apply Z.le_trans.
Qed.

(** In an ascending list the item of index [i] has [i] items before
    it, none of them larger, and none smaller after it. *)
Lemma strongly_sorted_rank (l : list Z) :
  StronglySorted Z.le l ->
  forall i x, nth_error l i = Some x ->
    Z.of_nat i + 1 <= count_le x l /\ count_lt x l <= Z.of_nat i.
Proof.
  unfold count_le, count_lt, llen.
  induction 1 as [|y l Hs IH Hall]; intros i x Hi; [destruct i; discriminate|].
  destruct i as [|i]; simpl in Hi.
  - injection Hi as <-. cbn [filter].
    rewrite Z.leb_refl, Z.ltb_irrefl. cbn [List.length].
    assert (Hnone : filter (fun z => z <? y) l = []).
    { clear - Hall. induction Hall as [|z l Hz _ IH]; [reflexivity|].
      simpl. destruct (Z.ltb_spec z y); [lia|exact IH]. }
    rewrite Hnone. simpl. lia.
  - destruct (IH _ _ Hi) as [Hle Hlt].
    assert (Hyx : y <= x).
    { rewrite Forall_forall in Hall. apply Hall.
      eapply nth_error_In; eassumption. }
    cbn [filter].
    destruct (Z.leb_spec y x); [|lia].
    destruct (y <? x); cbn [List.length]; lia.
Qed.

Lemma strongly_sorted_nth_le (l : list Z) :
  StronglySorted Z.le l ->
  forall i j a b, (i <= j)%nat ->
    nth_error l i = Some a -> nth_error l j = Some b -> a <= b.
Proof.
  induction 1 as [|y l Hs IH Hall]; intros i j a b Hij Ha Hb;
    [destruct i; discriminate|].
  destruct i as [|i], j as [|j]; simpl in Ha, Hb; try lia.
  - injection Ha as <-. injection Hb as <-. lia.
  - injection Ha as <-. rewrite Forall_forall in Hall. apply Hall.
    eapply nth_error_In; eassumption.
  - eapply IH; [|eassumption|eassumption]. lia.
Qed.

Lemma getitem_nth (l : list Z) (i x : Z) :
  getitem l i = Ret x -> 0 <= i -> nth_error l (Z.to_nat i) = Some x.
Proof.
  unfold getitem. intros Hg Hi.
  destruct (Z.ltb_spec i 0); [lia|].
  destruct (Z.ltb_spec i 0); [lia|].
  destruct (nth_error l (Z.to_nat i)); congruence.
Qed.

(** What the two percentile picks of a call that returns are. *)
Lemma summarize_counts_picks (sl pv md : string) (counts : list Z)
    (chars : Z) (r : SampleStats) :
  llen counts < 2 ^ 48 ->
  summarize_counts sl pv md counts chars = Ret r ->
  1 <= llen counts
  /\ exists a b,
       nth_error (sorted counts) (Z.to_nat (llen counts / 2)) = Some a
       /\ nth_error (sorted counts)
            (Z.to_nat ((19 * llen counts + 19) / 20 - 1)) = Some b
       /\ of_int a = Ret (p50_tokens r)
       /\ of_int b = Ret (p95_tokens r).
Proof.
  intros Hlen Hrun.
  assert (Hn : 1 <= llen counts).
  { destruct counts; [rewrite summarize_counts_empty in Hrun; discriminate|].
    unfold llen. simpl List.length. lia. }
  split; [exact Hn|].
  destruct (summarize_counts_inv _ _ _ _ _ Hrun)
    as (mean & x50 & n_f & c & x95 & sd & chars_f & per_1k & per & f50 & f95
        & _ & Hx50 & Hnf & Hc & Hx95 & _ & _ & _ & _ & Hf50 & Hf95 & ->).
  rewrite llen_sorted in Hx50, Hnf.
  destruct (@ceil_095_exact (llen counts) ltac:(lia)) as (n_f' & Hnf' & Hceil).
  assert (n_f' = n_f) as -> by congruence.
  assert (c = (19 * llen counts + 19) / 20) as -> by congruence.
  pose proof (Z.div_mod (19 * llen counts + 19) 20 ltac:(lia)).
  pose proof (Z.mod_pos_bound (19 * llen counts + 19) 20 ltac:(lia)).
  rewrite Z.max_r in Hx95 by lia.
  exists x50, x95. cbn [p50_tokens p95_tokens].
  repeat split; auto.
  - apply getitem_nth; [exact Hx50|]. apply Z.div_pos; lia.
  - apply getitem_nth; [exact Hx95|]. lia.
Qed.

(** X7: the two percentiles are order statistics of the counts, by
    nearest rank: [p50_tokens] and [p95_tokens] are the floats of two
    of the counts [a <= b]; more than half of the counts are at most
    [a] and at most half are below it; at least 95% of the counts are
    at most [b] and fewer than 95% are below it. *)
Theorem percentiles_are_nearest_rank (sl pv md : string) (counts : list Z)
    (chars : Z) (r : SampleStats) :
  llen counts < 2 ^ 48 ->
  summarize_counts sl pv md counts chars = Ret r ->
  exists a b,
    In a counts /\ In b counts /\ a <= b
    /\ of_int a = Ret (p50_tokens r)
    /\ of_int b = Ret (p95_tokens r)
    /\ llen counts < 2 * count_le a counts
    /\ 2 * count_lt a counts <= llen counts
    /\ 19 * llen counts <= 20 * count_le b counts
    /\ 20 * count_lt b counts < 19 * llen counts.
Proof.
  intros Hlen Hrun.
  destruct (summarize_counts_picks _ _ _ _ _ Hlen Hrun)
    as (Hn & a & b & Ha & Hb & Hfa & Hfb).
  pose proof (sorted_strongly counts) as Hs.
  pose proof (sorted_perm counts) as Hp.
  destruct (strongly_sorted_rank Hs _ Ha) as [Hale Halt].
  destruct (strongly_sorted_rank Hs _ Hb) as [Hble Hblt].
  rewrite <- (count_le_perm a Hp) in Hale.
  rewrite <- (count_le_perm b Hp) in Hble.
  rewrite <- (count_lt_perm a Hp) in Halt.
  rewrite <- (count_lt_perm b Hp) in Hblt.
  pose proof (Z.div_mod (llen counts) 2 ltac:(lia)).
  pose proof (Z.mod_pos_bound (llen counts) 2 ltac:(lia)).
  pose proof (Z.div_mod (19 * llen counts + 19) 20 ltac:(lia)).
  pose proof (Z.mod_pos_bound (19 * llen counts + 19) 20 ltac:(lia)).
  exists a, b.
  split; [apply In_sorted; eapply nth_error_In; eassumption|].
  split; [apply In_sorted; eapply nth_error_In; eassumption|].
  split; [eapply (strongly_sorted_nth_le Hs); [|exact Ha|exact Hb]; lia|].
  repeat split; auto; lia.
Qed.

Lemma maximum_spec (l : list Z) :
  l <> [] -> In (maximum l) l /\ forall y, In y l -> y <= maximum l.
Proof.
  destruct l as [|x l]; [congruence|intros _].
  unfold maximum. induction l as [|z l [IHin IHmax]]; simpl.
  - split; [auto|]. intros y [->|[]]. lia.
  - split.
    + destruct (Z.max_spec z (fold_right Z.max x l)) as [[_ ->]|[_ ->]];
        [|auto].
      destruct IHin as [E|Hin]; [left; exact E|right; right; exact Hin].
    + intros y [->|[->|Hy]].
      * specialize (IHmax y (or_introl eq_refl)). lia.
      * lia.
      * specialize (IHmax y (or_intror Hy)). lia.
Qed.

(** X8: with fewer than 20 counts (the default is 5 trials) the 95th
    percentile is the largest count. *)
Theorem p95_is_maximum_under_20 (sl pv md : string) (counts : list Z)
    (chars : Z) (r : SampleStats) :
  llen counts < 20 ->
  summarize_counts sl pv md counts chars = Ret r ->
  of_int (maximum counts) = Ret (p95_tokens r).
Proof.
  intros Hlen Hrun.
  assert (Hlen' : llen counts < 2 ^ 48) by lia.
  destruct (summarize_counts_picks _ _ _ _ _ Hlen' Hrun)
    as (Hn & a & b & _ & Hb & _ & Hfb).
  assert (Hne : counts <> []) by (intros ->; unfold llen in Hn; simpl in Hn; lia).
  destruct (maximum_spec Hne) as [Hin Hmax].
  replace (maximum counts) with b; [exact Hfb|].
  assert (Hidx : (19 * llen counts + 19) / 20 - 1 = llen counts - 1).
  { pose proof (Z.div_mod (19 * llen counts + 19) 20 ltac:(lia)).
    pose proof (Z.mod_pos_bound (19 * llen counts + 19) 20 ltac:(lia)). lia. }
  rewrite Hidx in Hb.
  pose proof (sorted_strongly counts) as Hs.
  pose proof (sorted_perm counts) as Hp.
  assert (Hbin : In b counts)
    by (apply In_sorted; eapply nth_error_In; eassumption).
  apply Z.le_antisymm; [now apply Hmax|].
  apply (Permutation_in _ Hp) in Hin.
  apply In_nth_error in Hin as (i & Hi).
  eapply (strongly_sorted_nth_le Hs); [|exact Hi|exact Hb].
  assert (i < List.length (sorted counts))%nat
    by (apply nth_error_Some; congruence).
  pose proof (llen_sorted counts) as Hl. unfold llen in *. lia.
Qed.

End Ranks.

(* ================================================================== *)
(** * Division rounds to nearest                                       *)
(* ================================================================== *)

Section NearestDivision.
Import Py Float.
Open Scope Z_scope.

(** The quotient [M / d] with the position of the remainder, shifted
    by no bit or by one and rounded: a nearest multiple of [2^k] to
    the exact quotient. *)
Lemma round_shift_quotient (M d k : Z) :
  0 <= M -> 0 < d -> k = 0 \/ k = 1 ->
  let n := round_shift (M / d) (new_location d (M mod d)) k in
  - (2 ^ k * d) <= 2 * (n * 2 ^ k * d - M) <= 2 ^ k * d.
Proof.
  intros HM Hd Hk.
  pose proof (Z.div_mod M d ltac:(lia)) as Hdm.
  pose proof (Z.mod_pos_bound M d Hd) as Hr.
  assert (Hq : 0 <= M / d) by (apply Z.div_pos; lia).
  set (q := M / d) in *. set (r := M mod d) in *.
  assert (Hloc : (r = 0 /\ new_location d r = loc_Exact)
                 \/ (0 < r /\ 2 * r < d /\ new_location d r = loc_Inexact Lt)
                 \/ (0 < r /\ 2 * r = d /\ new_location d r = loc_Inexact Eq)
                 \/ (0 < r /\ d < 2 * r /\ new_location d r = loc_Inexact Gt)).
  { unfold new_location, new_location_even, new_location_odd.
    destruct (Z.eqb_spec r 0) as [->|Hr0].
    - left. split; [reflexivity|]. destruct (Z.even d); reflexivity.
    - right.
      assert (Hz : (r =? 0) = false) by (apply Z.eqb_neq; exact Hr0).
      destruct (Z.even d) eqn:Hev; cbv beta; rewrite !Hz.
      + destruct (Z.compare_spec (2 * r) d) as [E|L|G].
        * right. left. repeat split; auto; lia.
        * left. repeat split; auto; lia.
        * right. right. repeat split; auto; lia.
      + assert (Hodd : 2 * r <> d).
        { intros E. rewrite <- E in Hev. rewrite Z.even_mul in Hev.
          discriminate. }
        destruct (Z.compare_spec (2 * r + 1) d) as [E|L|G].
        * left. repeat split; auto; lia.
        * left. repeat split; auto; lia.
        * right. right. repeat split; auto; lia. }
  cbv zeta. destruct Hk as [->| ->].
  - change (2 ^ 0) with 1.
    assert (Hrs : forall l, round_shift q l 0 = round_nearest_even q l)
      by (intros [|[| |]]; reflexivity).
    rewrite Hrs.
    destruct Hloc as [[H0 ->]|[(Hp & Hc & ->)|[(Hp & Hc & ->)|(Hp & Hc & ->)]]];
      cbn [round_nearest_even]; try nia.
    destruct (Z.even q); nia.
  - change (2 ^ 1) with 2.
    assert (Hrs : forall l,
              round_shift q l 1
              = round_nearest_even (q / 2)
                  (loc_of_shr_record
                     {| shr_m := q / 2; shr_r := Z.odd q;
                        shr_s := match l with loc_Exact => false | _ => true end |})).
    { intros l. unfold round_shift, shr, fst. cbn [SpecFloat.iter_pos].
      destruct l as [|[| |]]; cbn [shr_record_of_loc];
        rewrite shr_1_nonneg by assumption; reflexivity. }
    rewrite Hrs.
    pose proof (Z.div_mod q 2 ltac:(lia)) as Hq2.
    pose proof (Z.mod_pos_bound q 2 ltac:(lia)) as Hb.
    rewrite Zodd_mod.
    destruct Hloc as [[H0 ->]|[(Hp & Hc & ->)|[(Hp & Hc & ->)|(Hp & Hc & ->)]]];
      destruct (Z.eqb_spec (q mod 2) 1) as [Hb1|Hb1];
      cbn [loc_of_shr_record round_nearest_even];
      try (destruct (Z.even (q / 2))); nia.
Qed.

(** The quotient of two positive normal floats: the mantissa [n] on
    the grid of the quotient, its distance to the exact quotient, and
    the float in normal form. *)
Lemma div_normal_nearest (m1 m2 : positive) (e1 e2 : Z) :
  Zdigits2 (Z.pos m1) = 53 -> Zdigits2 (Z.pos m2) = 53 ->
  -1021 <= e1 - e2 <= 1000 ->
  exists n k,
    (k = 0 \/ k = 1)
    /\ 2 ^ 52 <= n <= 2 ^ 53
    /\ - (2 ^ k * Z.pos m2)
       <= 2 * (n * 2 ^ k * Z.pos m2 - Z.pos m1 * 2 ^ 53)
       <= 2 ^ k * Z.pos m2
    /\ SFdiv prec emax (S754_finite false m1 e1) (S754_finite false m2 e2)
       = (if n <? 2 ^ 53
          then S754_finite false (Z.to_pos n) (e1 - e2 - 53 + k)
          else S754_finite false (Z.to_pos (2 ^ 52)) (e1 - e2 - 52 + k)).
Proof.
  intros Hd1 Hd2 He. unfold SFdiv.
  rewrite SFdiv_core_normal by (assumption || lia). cbn [xorb].
  pose proof (quotient_digits (normal_mantissa Hd1) (normal_mantissa Hd2))
    as Hq.
  set (M := Z.pos m1 * 2 ^ 53) in *.
  set (q := M / Z.pos m2) in *.
  set (l := new_location (Z.pos m2) (M mod Z.pos m2)).
  assert (Hdq : Zdigits2 q = 53 \/ Zdigits2 q = 54).
  { pose proof (@Zdigits2_gt_of_ge_pow q 52 ltac:(lia) ltac:(lia)).
    assert (Zdigits2 q <= 54) by (apply Zdigits2_le_of_lt_pow; lia). lia. }
  rewrite bra_normal by lia. cbv zeta.
  set (k := Z.max 0 (Zdigits2 q - 53)).
  assert (Hk : k = 0 \/ k = 1) by (unfold k; lia).
  pose proof (@round_shift_quotient M (Z.pos m2) k ltac:(unfold M; lia)
                ltac:(lia) Hk) as Hnear.
  cbv zeta in Hnear. fold q l in Hnear.
  pose proof (@round_shift_crude q l k ltac:(lia) ltac:(lia)) as Hcr.
  set (n := round_shift q l k) in *.
  assert (Hqk : 2 ^ 52 <= q / 2 ^ k < 2 ^ 53).
  { pose proof (@Zdigits2_bounds q ltac:(lia)) as Hb.
    destruct Hdq as [E|E]; rewrite E in Hb; unfold k; rewrite E.
    - change (Z.max 0 (53 - 53)) with 0. rewrite Z.div_1_r.
      change (53 - 1) with 52 in Hb. lia.
    - change (Z.max 0 (54 - 53)) with 1. change (2 ^ 1) with 2.
      change (54 - 1) with 53 in Hb.
      split; [apply Z.div_le_lower_bound; lia
             |apply Z.div_lt_upper_bound; lia]. }
  assert (Hn : 2 ^ 52 <= n <= 2 ^ 53) by lia.
  exists n, k. split; [exact Hk|]. split; [exact Hn|]. split; [exact Hnear|].
  destruct (Z.ltb_spec n (2 ^ 53)) as [Hlt|Hge].
  - assert (Hdn : Zdigits2 n = 53)
      by (apply Zdigits2_unique; [change (53 - 1) with 52; lia|lia]).
    rewrite Hdn. change (53 <=? 53) with true. cbv iota.
    apply pack_pos; lia.
  - assert (E : n = 2 ^ 53) by lia. rewrite E.
    change (Zdigits2 (2 ^ 53) <=? 53) with false. cbv iota.
    change (2 ^ 53 / 2) with (2 ^ 52).
    rewrite pack_pos by lia. f_equal. lia.
Qed.

End NearestDivision.

(* ================================================================== *)
(** * The accuracy of the mean *)
(* ================================================================== *)

Section MeanAccuracy.
Import Py Float Stats Observe.
Open Scope Z_scope.

Lemma Zdigits2_shift (c t : Z) :
  0 < c -> 0 <= t -> Zdigits2 (c * 2 ^ t) = Zdigits2 c + t.
Proof.
  intros Hc Ht.
  pose proof (Zdigits2_bounds Hc) as Hb.
  pose proof (Zdigits2_pos Hc) as Hd.
  assert (0 < 2 ^ t) by (apply Z.pow_pos_nonneg; lia).
  apply Zdigits2_unique; [|lia].
  replace (Zdigits2 c + t - 1) with (Zdigits2 c - 1 + t) by lia.
  rewrite !Z.pow_add_r by lia. nia.
Qed.

(** The quotient of two positive ints below [2^53], as float division
    rounds it after their exact conversion: [n / 2^t], with [n] of 53
    bits and at most half a unit away from the exact [a * 2^t / b]. *)
Lemma div_ints_nearest (a b : Z) (x y : float) :
  0 < a < 2 ^ 53 -> 0 < b < 2 ^ 53 ->
  of_int a = Ret x -> of_int b = Ret y ->
  exists n t,
    0 <= t <= 105
    /\ 2 ^ 52 <= n <= 2 ^ 53
    /\ - b <= 2 * (n * b - a * 2 ^ t) <= b
    /\ SFdiv prec emax x y
       = (if n <? 2 ^ 53
          then S754_finite false (Z.to_pos n) (- t)
          else S754_finite false (Z.to_pos (2 ^ 52)) (1 - t)).
Proof.
  intros Ha Hb Hx Hy.
  assert (Hda : 1 <= Zdigits2 a <= 53).
  { pose proof (@Zdigits2_pos a ltac:(lia)).
    assert (Zdigits2 a <= 53) by (apply Zdigits2_le_of_lt_pow; lia). lia. }
  assert (Hdb : 1 <= Zdigits2 b <= 53).
  { pose proof (@Zdigits2_pos b ltac:(lia)).
    assert (Zdigits2 b <= 53) by (apply Zdigits2_le_of_lt_pow; lia). lia. }
  destruct (@of_int_pos a) as (m1 & e1 & Hx' & Hd1 & _ & Hex1); try lia.
  destruct (@of_int_pos b) as (m2 & e2 & Hy' & Hd2 & _ & Hex2); try lia.
  destruct (Hex1 ltac:(lia)) as [He1 Hm1].
  destruct (Hex2 ltac:(lia)) as [He2 Hm2].
  assert (x = S754_finite false m1 e1) as -> by congruence.
  assert (y = S754_finite false m2 e2) as -> by congruence.
  destruct (@div_normal_nearest m1 m2 e1 e2 Hd1 Hd2 ltac:(lia))
    as (n & k & Hk & Hn & Hnear & Hdiv).
  set (da := Zdigits2 a) in *. set (db := Zdigits2 b) in *.
  exists n, (53 + db - da - k).
  split; [lia|]. split; [exact Hn|].
  split.
  - rewrite Hm1, Hm2 in Hnear.
    assert (HA : 2 ^ (53 - da) * 2 ^ 53
                 = 2 ^ (53 + db - da - k) * (2 ^ k * 2 ^ (53 - db))).
    { rewrite <- !Z.pow_add_r by lia. f_equal. lia. }
    set (T := 2 ^ (53 + db - da - k)) in *.
    assert (HP : 0 < 2 ^ k * 2 ^ (53 - db)).
    { apply Z.mul_pos_pos; apply Z.pow_pos_nonneg; lia. }
    set (P := 2 ^ k * 2 ^ (53 - db)) in *.
    assert (E1 : n * 2 ^ k * (b * 2 ^ (53 - db)) = P * (n * b))
      by (unfold P; ring).
    assert (E2 : a * 2 ^ (53 - da) * 2 ^ 53 = P * (a * T)).
    { replace (a * 2 ^ (53 - da) * 2 ^ 53)
        with (a * (2 ^ (53 - da) * 2 ^ 53)) by ring.
      rewrite HA. ring. }
    assert (E3 : 2 ^ k * (b * 2 ^ (53 - db)) = P * b) by (unfold P; ring).
    rewrite E1, E2, E3 in Hnear. nia.
  - rewrite Hdiv.
    replace (e1 - e2 - 53 + k) with (- (53 + db - da - k)) by lia.
    replace (e1 - e2 - 52 + k) with (1 - (53 + db - da - k)) by lia.
    reflexivity.
Qed.

(** The value of a float on the grid [2^(-t)]. *)
Lemma to_Q_grid (n t : Z) :
  0 < n -> 0 <= t ->
  (to_Q (S754_finite false (Z.to_pos n) (- t)) * inject_Z (2 ^ t)
   == inject_Z n)%Q.
Proof.
  intros Hn Ht. unfold to_Q. cbn [cond_Zopp].
  rewrite Z2Pos.id by lia.
  rewrite Zpower_Qpower by lia.
  rewrite <- Qmult_assoc, <- Qpower_plus by discriminate.
  replace (- t + t) with 0 by lia. change (Qpower (inject_Z 2) 0) with 1%Q.
  ring.
Qed.

Lemma to_Q_grid_top (t : Z) :
  0 <= t ->
  (to_Q (S754_finite false (Z.to_pos (2 ^ 52)) (1 - t)) * inject_Z (2 ^ t)
   == inject_Z (2 ^ 53))%Q.
Proof.
  intros Ht. unfold to_Q. cbn [cond_Zopp].
  rewrite Zpower_Qpower by lia.
  rewrite <- Qmult_assoc, <- Qpower_plus by discriminate.
  replace (1 - t + t) with 1 by lia. reflexivity.
Qed.

Lemma Ret_inj {A : Type} (a b : A) : Ret a = Ret b -> a = b.
Proof. now intros [= ->]. Qed.

Lemma item_le_sum (data : list Z) (x : Z) :
  Forall (fun y => 0 <= y) data -> In x data -> 0 <= x <= sum data.
Proof.
  unfold sum. induction 1 as [|y data Hy Hall IH]; [contradiction|].
  assert (0 <= fold_right Z.add 0 data).
  { clear - Hall. induction Hall; simpl; lia. }
  intros [->|Hin]; simpl; [lia|]. specialize (IH Hin). lia.
Qed.

(** [fmean] on counts whose sum is below [2^53]: the exact mean,
    rounded once to a nearest double. *)
Lemma fmean_nearest (data : list Z) :
  data <> [] -> llen data < 2 ^ 48 ->
  Forall (fun x => 0 <= x) data -> 0 < sum data < 2 ^ 53 ->
  exists n t,
    0 <= t <= 105
    /\ 2 ^ 52 <= n <= 2 ^ 53
    /\ - llen data <= 2 * (n * llen data - sum data * 2 ^ t) <= llen data
    /\ fmean data
       = Ret (if n <? 2 ^ 53
              then S754_finite false (Z.to_pos n) (- t)
              else S754_finite false (Z.to_pos (2 ^ 52)) (1 - t)).
Proof.
  intros Hne Hlen Hpos Hsum.
  assert (Hall : Forall (fun x => 0 <= x < 2 ^ 53) data).
  { apply Forall_forall. intros x Hx.
    pose proof (item_le_sum x Hpos Hx). lia. }
  destruct (fmean_returns Hne Hlen Hall)
    as (total & n_f & Htotal & Hnf & _ & Hmean & _).
  pose proof (llen_pos Hne) as Hn.
  destruct (@div_ints_nearest (sum data) (llen data) total n_f)
    as (n & t & Ht & Hn' & Hnear & Hdiv); try assumption; try lia.
  exists n, t. repeat (split; [assumption|]).
  now rewrite Hmean, Hdiv.
Qed.

Lemma fmean_zero (data : list Z) :
  data <> [] -> llen data < 2 ^ 48 ->
  Forall (fun x => 0 <= x) data -> sum data = 0 ->
  fmean data = Ret zero.
Proof.
  intros Hne Hlen Hpos Hsum.
  assert (Hall : Forall (fun x => 0 <= x < 2 ^ 53) data).
  { apply Forall_forall. intros x Hx.
    pose proof (item_le_sum x Hpos Hx). lia. }
  destruct (fmean_returns Hne Hlen Hall)
    as (total & n_f & Htotal & Hnf & (m & e & -> & _) & Hmean & Hcase).
  rewrite Hmean.
  destruct Hcase as [[_ ->]|[Hs _]]; [reflexivity|lia].
Qed.

(** X14: [mean_tokens] is the exact mean of the counts rounded once:
    the exact mean lies within a factor [1 - 2^-53] to [1 + 2^-53] of
    it, and it lies between any two bounds of the counts (so between
    the smallest and the largest). *)
Theorem mean_tokens_accuracy (sl pv md : string) (counts : list Z)
    (chars : Z) (r : SampleStats) :
  llen counts < 2 ^ 48 ->
  Forall (fun x => 0 <= x) counts -> sum counts < 2 ^ 53 ->
  summarize_counts sl pv md counts chars = Ret r ->
  (to_Q (mean_tokens r) * (1 - (1 # 9007199254740992))
   <= mean_exact counts)%Q
  /\ (mean_exact counts
      <= to_Q (mean_tokens r) * (1 + (1 # 9007199254740992)))%Q
  /\ forall lo hi, Forall (fun x => lo <= x <= hi) counts ->
       (inject_Z lo <= to_Q (mean_tokens r) <= inject_Z hi)%Q.
Proof.
  intros Hlen Hpos Hsum Hrun.
  assert (Hne : counts <> []).
  { intros ->. rewrite summarize_counts_empty in Hrun. discriminate. }
  pose proof (llen_pos Hne) as Hn.
  destruct (summarize_counts_inv _ _ _ _ _ Hrun)
    as (mean & x50 & n_f & c & x95 & sd & chars_f & per_1k & per & f50 & f95
        & Hm & _ & _ & _ & _ & _ & _ & _ & _ & _ & _ & ->).
  cbn [mean_tokens]. unfold mean_exact.
  assert (Hrange : forall lo hi, Forall (fun x => lo <= x <= hi) counts ->
            lo * llen counts <= sum counts <= hi * llen counts).
  { intros lo hi Hb. unfold sum, llen. clear - Hb.
    induction Hb as [|x l Hx _ IH]; simpl List.length; simpl fold_right;
      [lia|]. rewrite Nat2Z.inj_succ. nia. }
  assert (Hs0 : 0 <= sum counts).
  { destruct counts as [|x l]; [congruence|].
    pose proof (item_le_sum x Hpos (or_introl eq_refl)). lia. }
  destruct (Z.eq_dec (sum counts) 0) as [Hz|Hnz].
  - rewrite (fmean_zero Hne Hlen Hpos Hz) in Hm. injection Hm as <-.
    rewrite Hz. cbn [to_Q zero].
    split; [|split].
    + unfold Qdiv. rewrite !Qmult_0_l. apply Qle_refl.
    + unfold Qdiv. rewrite !Qmult_0_l. apply Qle_refl.
    + intros lo hi Hb. specialize (Hrange lo hi Hb). rewrite Hz in Hrange.
      change 0%Q with (inject_Z 0). rewrite <- !Zle_Qle. nia.
  - destruct (fmean_nearest Hne Hlen Hpos ltac:(lia))
      as (n & t & Ht & Hn' & Hnear & Hmean).
    rewrite Hmean in Hm. apply Ret_inj in Hm. rewrite <- Hm. clear Hm.
    set (N := llen counts) in *. set (a := sum counts) in *.
    assert (HT : 0 < 2 ^ t) by (apply Z.pow_pos_nonneg; lia).
    set (X := to_Q _).
    assert (HX : (X * inject_Z (2 ^ t) == inject_Z n)%Q).
    { unfold X. destruct (Z.ltb_spec n (2 ^ 53)).
      - apply to_Q_grid; lia.
      - replace n with (2 ^ 53) by lia. apply to_Q_grid_top; lia. }
    assert (HTQ : (0 < inject_Z (2 ^ t))%Q)
      by (change 0%Q with (inject_Z 0); rewrite <- Zlt_Qlt; lia).
    assert (HNQ : (0 < inject_Z N)%Q)
      by (change 0%Q with (inject_Z 0); rewrite <- Zlt_Qlt; lia).
    assert (HNne : ~ (inject_Z N == 0)%Q)
      by (intros E; rewrite E in HNQ; discriminate).
    assert (Hbig : (0 < inject_Z (2 ^ t) * inject_Z N * inject_Z (2 ^ 53))%Q).
    { rewrite <- !inject_Z_mult. change 0%Q with (inject_Z 0).
      rewrite <- Zlt_Qlt. nia. }
    split; [|split].
    + apply (Qmult_le_r _ _ _ Hbig).
      setoid_replace (X * (1 - (1 # 9007199254740992))
                      * (inject_Z (2 ^ t) * inject_Z N * inject_Z (2 ^ 53)))%Q
        with ((X * inject_Z (2 ^ t)) * inject_Z N * inject_Z (2 ^ 53 - 1))%Q
        by (change (inject_Z (2 ^ 53)) with (9007199254740992 # 1)%Q;
            change (inject_Z (2 ^ 53 - 1)) with (9007199254740991 # 1)%Q;
            field).
      setoid_replace (inject_Z a / inject_Z N
                      * (inject_Z (2 ^ t) * inject_Z N * inject_Z (2 ^ 53)))%Q
        with (inject_Z a * inject_Z (2 ^ t) * inject_Z (2 ^ 53))%Q
        by (field; exact HNne).
      rewrite HX, <- !inject_Z_mult, <- Zle_Qle.
      change (2 ^ 53 - 1) with 9007199254740991.
      change (2 ^ 53) with 9007199254740992 in *.
      change (2 ^ 52) with 4503599627370496 in *. nia.
    + apply (Qmult_le_r _ _ _ Hbig).
      setoid_replace (X * (1 + (1 # 9007199254740992))
                      * (inject_Z (2 ^ t) * inject_Z N * inject_Z (2 ^ 53)))%Q
        with ((X * inject_Z (2 ^ t)) * inject_Z N * inject_Z (2 ^ 53 + 1))%Q
        by (change (inject_Z (2 ^ 53)) with (9007199254740992 # 1)%Q;
            change (inject_Z (2 ^ 53 + 1)) with (9007199254740993 # 1)%Q;
            field).
      setoid_replace (inject_Z a / inject_Z N
                      * (inject_Z (2 ^ t) * inject_Z N * inject_Z (2 ^ 53)))%Q
        with (inject_Z a * inject_Z (2 ^ t) * inject_Z (2 ^ 53))%Q
        by (field; exact HNne).
      rewrite HX, <- !inject_Z_mult, <- Zle_Qle.
      change (2 ^ 53 + 1) with 9007199254740993.
      change (2 ^ 53) with 9007199254740992 in *.
      change (2 ^ 52) with 4503599627370496 in *. nia.
    + intros lo hi Hb. specialize (Hrange lo hi Hb).
      split; apply (Qmult_le_r _ _ _ HTQ); rewrite HX, <- inject_Z_mult,
        <- Zle_Qle; nia.
Qed.

End MeanAccuracy.

(* ================================================================== *)
(** * The values of a record *)
(* ================================================================== *)

Section SummaryValues.
Import Py Float Stats Observe.
Open Scope Z_scope.

Lemma pos_normal_finite (lo hi : Z) (x : float) :
  pos_normal lo hi x -> is_finite x = true /\ SFleb zero x = true.
Proof. intros (m & e & -> & _). split; reflexivity. Qed.

Lemma div_zero_pos_normal (lo hi : Z) (y : float) :
  pos_normal lo hi y -> SFdiv prec emax zero y = zero.
Proof. intros (m & e & -> & _). reflexivity. Qed.

Lemma getitem_In (l : list Z) (i x : Z) : getitem l i = Ret x -> In x l.
Proof.
  unfold getitem.
  destruct ((if i <? 0 then i + llen l else i) <? 0); [discriminate|].
  destruct (nth_error l _) as [y|] eqn:E; [|discriminate].
  intros Hx. apply Ret_inj in Hx. subst y.
  eapply nth_error_In; eassumption.
Qed.

(** X15: on counts that are all equal to [c] the mean and the two
    percentiles are the float of [c], exactly, and the standard
    deviation is [0.0]. *)
Theorem constant_counts_summary (sl pv md : string) (counts : list Z)
    (chars c : Z) (r : SampleStats) :
  Forall (fun x => x = c) counts ->
  0 <= c -> llen counts * c < 2 ^ 53 -> llen counts < 2 ^ 48 ->
  summarize_counts sl pv md counts chars = Ret r ->
  of_int c = Ret (mean_tokens r)
  /\ p50_tokens r = mean_tokens r
  /\ p95_tokens r = mean_tokens r
  /\ stdev_tokens r = zero.
Proof.
  intros Hall Hc Hprod Hlen Hrun.
  assert (Hne : counts <> []).
  { intros ->. rewrite summarize_counts_empty in Hrun. discriminate. }
  pose proof (llen_pos Hne) as Hn.
  destruct (all_equal_sums Hall) as [Hsum _].
  assert (Hpos : Forall (fun x => 0 <= x) counts).
  { eapply Forall_impl; [|exact Hall]. intros x ->. exact Hc. }
  destruct (summarize_counts_picks _ _ _ _ _ Hlen Hrun)
    as (_ & a & b & Ha & Hb & Hfa & Hfb).
  rewrite Forall_forall in Hall.
  assert (a = c) as ->
    by (apply Hall, In_sorted; eapply nth_error_In; eassumption).
  assert (b = c) as ->
    by (apply Hall, In_sorted; eapply nth_error_In; eassumption).
  destruct (summarize_counts_inv _ _ _ _ _ Hrun)
    as (mean & x50 & n_f & c' & x95 & sd & chars_f & per_1k & per & f50 & f95
        & Hm & _ & _ & _ & _ & Hsd & _ & _ & _ & _ & _ & Er).
  assert (Hmean : of_int c = Ret mean).
  { destruct (Z.eq_dec c 0) as [->|Hc0].
    - rewrite (fmean_zero Hne Hlen Hpos) in Hm by lia.
      rewrite of_int_0. exact Hm.
    - destruct (@fmean_nearest counts Hne Hlen Hpos ltac:(nia))
        as (n & t & Ht & Hn' & Hnear & Hmean).
      rewrite Hmean in Hm. apply Ret_inj in Hm. rewrite <- Hm. clear Hm Hmean.
      rewrite Hsum in Hnear.
      assert (HT : 0 < 2 ^ t) by (apply Z.pow_pos_nonneg; lia).
      assert (En : n = c * 2 ^ t) by nia.
      assert (Hdc : 1 <= Zdigits2 c <= 53).
      { pose proof (@Zdigits2_pos c ltac:(lia)).
        assert (Zdigits2 c <= 53)
          by (apply Zdigits2_le_of_lt_pow; [lia|nia]). lia. }
      destruct (@of_int_pos c) as (m & e & Hof & Hd & _ & Hex); try lia.
      destruct (Hex ltac:(nia)) as [He Hmc].
      rewrite Hof. f_equal.
      pose proof (@Zdigits2_shift c t ltac:(lia) ltac:(lia)) as Hdn.
      rewrite <- En in Hdn.
      destruct (Z.ltb_spec n (2 ^ 53)) as [Hlt|Hge].
      + assert (Zdigits2 n = 53)
          by (apply Zdigits2_unique; [change (53 - 1) with 52; lia|lia]).
        assert (Et : t = 53 - Zdigits2 c) by lia.
        assert (Em : m = Z.to_pos n)
          by (rewrite En, Et, <- Hmc; reflexivity).
        assert (Ee : e = - t) by lia.
        now rewrite Em, Ee.
      + assert (E53 : n = 2 ^ 53) by lia.
        assert (Zdigits2 n = 54) by (rewrite E53; reflexivity).
        assert (Et : t = 54 - Zdigits2 c) by lia.
        assert (Hp : 2 ^ t = 2 ^ (53 - Zdigits2 c) * 2 ^ 1).
        { rewrite Et, <- Z.pow_add_r by lia. f_equal. lia. }
        change (2 ^ 1) with 2 in Hp.
        assert (Em : Z.pos m = 2 ^ 52).
        { rewrite Hmc. rewrite Hp in En.
          change (2 ^ 53) with (2 ^ 52 * 2) in E53. lia. }
        assert (Em' : m = Z.to_pos (2 ^ 52)) by (now apply Pos2Z.inj).
        assert (Ee : e = 1 - t) by lia.
        now rewrite Em', Ee. }
  rewrite Er. cbn [mean_tokens p50_tokens p95_tokens stdev_tokens].
  rewrite Er in Hfa, Hfb. cbn [p50_tokens p95_tokens] in Hfa, Hfb.
  split; [exact Hmean|].
  split; [congruence|]. split; [congruence|].
  destruct (1 <? llen counts).
  - rewrite (@pstdev_all_equal c counts Hne) in Hsd
      by (apply Forall_forall; exact Hall).
    now apply Ret_inj in Hsd.
  - now apply Ret_inj in Hsd.
Qed.

(** X16: on counts in [0, 2^53), fewer than [2^48] of them, and a
    size in [1, 2^53), every number of the record is a finite float
    that is not negative: no NaN, no infinity. *)
Theorem summary_fields_finite (sl pv md : string) (counts : list Z)
    (chars : Z) (r : SampleStats) :
  llen counts < 2 ^ 48 ->
  Forall (fun x => 0 <= x < 2 ^ 53) counts ->
  1 <= chars < 2 ^ 53 ->
  summarize_counts sl pv md counts chars = Ret r ->
  Forall (fun x => is_finite x = true /\ SFleb zero x = true)
         [mean_tokens r; p50_tokens r; p95_tokens r; stdev_tokens r;
          mean_tokens_per_1k_chars r].
Proof.
  intros Hlen Hall Hchars Hrun.
  assert (Hne : counts <> []).
  { intros ->. rewrite summarize_counts_empty in Hrun. discriminate. }
  destruct (summarize_counts_spec sl pv md Hne Hlen Hall Hchars)
    as (total & n_f & x50 & x95 & f50 & f95 & sd & chars_f
        & Htotal & Hnf & Hnorm & Hcase & Hx50 & Hx95 & Hf50 & Hf95 & Hsd
        & Hcf & Hk & Hspec).
  rewrite Hspec in Hrun. apply Ret_inj in Hrun. subst r.
  cbn [mean_tokens p50_tokens p95_tokens stdev_tokens
       mean_tokens_per_1k_chars].
  assert (Hmean : SFdiv prec emax total n_f = zero
                  \/ pos_normal (-101) 50 (SFdiv prec emax total n_f)).
  { destruct Hcase as [[_ ->]|[_ Ht]].
    - left. eapply div_zero_pos_normal; eassumption.
    - right.
      pose proof (div_pos_normal Ht Hnorm ltac:(lia) ltac:(lia)) as Hd.
      eapply pos_normal_weaken; [exact Hd|lia|lia]. }
  assert (Hitem : forall x f, In x (sorted counts) -> of_int x = Ret f ->
                    is_finite f = true /\ SFleb zero f = true).
  { intros x f Hin Hf. apply In_sorted in Hin.
    rewrite Forall_forall in Hall. specialize (Hall x Hin).
    destruct (@of_int_nonneg x 53 Hall ltac:(lia)) as (f' & Hf' & Hcase').
    assert (f = f') as -> by congruence.
    destruct Hcase' as [[_ ->]|[_ Hp]].
    - split; reflexivity.
    - eapply pos_normal_finite; eassumption. }
  pose proof (getitem_In _ _ Hx50) as Hin50.
  pose proof (getitem_In _ _ Hx95) as Hin95.
  repeat constructor.
  - destruct Hmean as [->|Hp]; [reflexivity|]. now destruct (pos_normal_finite Hp).
  - destruct Hmean as [->|Hp]; [reflexivity|]. now destruct (pos_normal_finite Hp).
  - now destruct (Hitem _ _ Hin50 Hf50).
  - now destruct (Hitem _ _ Hin50 Hf50).
  - now destruct (Hitem _ _ Hin95 Hf95).
  - now destruct (Hitem _ _ Hin95 Hf95).
  - destruct (1 <? llen counts).
    + now destruct (pstdev_nonneg Hne Hsd).
    + apply Ret_inj in Hsd. now subst.
  - destruct (1 <? llen counts).
    + now destruct (pstdev_nonneg Hne Hsd).
    + apply Ret_inj in Hsd. now subst.
  - destruct Hmean as [->|Hp].
    + now rewrite (div_zero_pos_normal Hk).
    + pose proof (div_pos_normal Hp Hk ltac:(lia) ltac:(lia)) as Hd.
      now destruct (pos_normal_finite Hd).
  - destruct Hmean as [->|Hp].
    + now rewrite (div_zero_pos_normal Hk).
    + pose proof (div_pos_normal Hp Hk ltac:(lia) ltac:(lia)) as Hd.
      now destruct (pos_normal_finite Hd).
Qed.

End SummaryValues.

(* ================================================================== *)
(** * More on the counters and the runner                              *)
(* ================================================================== *)

Section Frames.
Import Py Text Float Stats Counter Runner Observe.
Open Scope Z_scope.
Open Scope string_scope.
Context {S : Type} `{RandomSource S}.
Context {Enc : Type} `{Tiktoken Enc}.
Context {Net : Type} `{CountTokensAPI Net}.

(** The numbers of a record depend on the counts and on the size
    only. *)
Lemma summarize_counts_numbers (sl pv md sl' pv' md' : string)
    (counts : list Z) (chars : Z) (r r' : SampleStats) :
  summarize_counts sl pv md counts chars = Ret r ->
  summarize_counts sl' pv' md' counts chars = Ret r' ->
  numbers r = numbers r'.
Proof.
  intros Hr Hr'.
  destruct (summarize_counts_inv _ _ _ _ _ Hr)
    as (mean & x50 & n_f & c & x95 & sd & chars_f & per_1k & per & f50 & f95
        & Hm & Hx50 & Hnf & Hc & Hx95 & Hsd & Hcf & Hk & Hper & Hf50 & Hf95
        & ->).
  destruct (summarize_counts_inv _ _ _ _ _ Hr')
    as (mean' & x50' & n_f' & c' & x95' & sd' & chars_f' & per_1k' & per'
        & f50' & f95'
        & Hm' & Hx50' & Hnf' & Hc' & Hx95' & Hsd' & Hcf' & Hk' & Hper'
        & Hf50' & Hf95' & ->).
  unfold numbers. cbn.
  assert (mean' = mean) as -> by congruence.
  assert (x50' = x50) as -> by congruence.
  assert (n_f' = n_f) as -> by congruence.
  assert (c' = c) as -> by congruence.
  assert (x95' = x95) as -> by congruence.
  assert (sd' = sd) as -> by congruence.
  assert (chars_f' = chars_f) as -> by congruence.
  assert (per_1k' = per_1k) as -> by congruence.
  assert (per' = per) as -> by congruence.
  assert (f50' = f50) as -> by congruence.
  assert (f95' = f95) as -> by congruence.
  reflexivity.
Qed.

(** The rows a loop appends do not depend on the rows that were
    there. *)
Lemma openai_rows_frame (sl : string) (chars : Z) (texts : list string)
    (models : list string) :
  forall results,
    openai_rows sl chars texts models results
    = (rows <- openai_rows sl chars texts models [] ;;
       Ret (results ++ rows)%list).
Proof.
  induction models as [|m ms IH]; intros results; cbn [openai_rows].
  - cbn [bind]. now rewrite app_nil_r.
  - destruct (count_all_openai m texts) as [counts| |]; cbn [bind]; auto.
    destruct (summarize_counts sl "openai" m counts chars) as [row| |];
      cbn [bind]; auto.
    rewrite (IH (results ++ [row])%list), (IH ([] ++ [row])%list).
    destruct (openai_rows sl chars texts ms []) as [rows| |]; cbn [bind];
      auto.
    now rewrite <- !app_assoc.
Qed.

Lemma anthropic_rows_frame (c : counter) (sl : string) (chars : Z)
    (texts : list string) (models : list string) :
  forall net results,
    anthropic_rows c sl chars texts models net results
    = ('(rows, net') <- anthropic_rows c sl chars texts models net [] ;;
       Ret ((results ++ rows)%list, net')).
Proof.
  induction models as [|m ms IH]; intros net results; cbn [anthropic_rows].
  - cbn [bind]. now rewrite app_nil_r.
  - destruct (call_all c m texts net) as [counts net1].
    destruct (summarize_counts sl "anthropic" m counts chars) as [row| |];
      cbn [bind]; auto.
    rewrite (IH net1 (results ++ [row])%list), (IH net1 ([] ++ [row])%list).
    destruct (anthropic_rows c sl chars texts ms net1 []) as [[rows n]| |];
      cbn [bind]; auto.
    now rewrite <- !app_assoc.
Qed.

(** The rows of the two loops, model by model. *)
Lemma openai_rows_spec (sl : string) (chars : Z) (texts : list string)
    (models : list string) (rows : list SampleStats) :
  openai_rows sl chars texts models [] = Ret rows ->
  Forall2 (fun m r =>
             exists counts,
               count_all_openai m texts = Ret counts
               /\ summarize_counts sl "openai" m counts chars = Ret r)
          models rows.
Proof.
  revert rows. induction models as [|m ms IH]; intros rows;
    cbn [openai_rows].
  - intros [= <-]. constructor.
  - intros Hrun.
    apply bind_ret_inv in Hrun as (counts & Hcounts & Hrun).
    apply bind_ret_inv in Hrun as (row & Hrow & Hrun).
    rewrite openai_rows_frame in Hrun.
    apply bind_ret_inv in Hrun as (rest & Hrest & Hrun).
    injection Hrun as <-. cbn [app].
    constructor; [exists counts; auto|]. now apply IH.
Qed.

Lemma anthropic_rows_spec (c : counter) (sl : string) (chars : Z)
    (texts : list string) (models : list string) :
  forall net rows net',
    anthropic_rows c sl chars texts models net [] = Ret (rows, net') ->
    Forall2 (fun m r =>
               exists net0,
                 summarize_counts sl "anthropic" m
                   (fst (call_all c m texts net0)) chars = Ret r)
            models rows.
Proof.
  induction models as [|m ms IH]; intros net rows net';
    cbn [anthropic_rows].
  - intros [= <- _]. constructor.
  - destruct (call_all c m texts net) as [counts net1] eqn:Hcall.
    intros Hrun.
    apply bind_ret_inv in Hrun as (row & Hrow & Hrun).
    rewrite anthropic_rows_frame in Hrun.
    apply bind_ret_inv in Hrun as ([rest n] & Hrest & Hrun).
    injection Hrun as <- _. cbn [app].
    constructor; [exists net; now rewrite Hcall|].
    eapply IH; eassumption.
Qed.

Lemma by_provider_app (pv : string) (l l' : list SampleStats) :
  by_provider pv (l ++ l') = (by_provider pv l ++ by_provider pv l')%list.
Proof. apply filter_app. Qed.

Lemma by_provider_all (pv : string) (rows : list SampleStats) :
  Forall (fun r => provider r = pv) rows -> by_provider pv rows = rows.
Proof.
  induction 1 as [|r rows Hr _ IH]; [reflexivity|].
  unfold by_provider in *. simpl. rewrite Hr, String.eqb_refl.
  now rewrite IH.
Qed.

Lemma by_provider_none (pv pv' : string) (rows : list SampleStats) :
  pv <> pv' ->
  Forall (fun r => provider r = pv') rows -> by_provider pv rows = [].
Proof.
  intros Hne. induction 1 as [|r rows Hr _ IH]; [reflexivity|].
  unfold by_provider in *. simpl. rewrite Hr.
  destruct (String.eqb_spec pv' pv); [congruence|exact IH].
Qed.

Lemma keys_provider (sl pv : string) (models : list string)
    (rows : list SampleStats) :
  map row_key rows = map (fun m => (sl, pv, m)) models ->
  Forall (fun r => provider r = pv /\ size_label r = sl) rows.
Proof.
  revert models. induction rows as [|r rows IH]; intros [|m ms] Hk;
    try discriminate; constructor.
  - unfold row_key in Hk. simpl in Hk. injection Hk as Ek1 Ek2 Ek3 _. auto.
  - simpl in Hk. injection Hk as _ Hk. eapply IH; eassumption.
Qed.

End Frames.

Section TwoServices.
Import Py Text Float Stats Counter Runner Observe.
Open Scope Z_scope.
Open Scope string_scope.
Context {S : Type} `{RandomSource S}.
Context {Enc : Type} `{Tiktoken Enc}.
Variables (Net1 Net2 : Type).
Variables (api1 : CountTokensAPI Net1) (api2 : CountTokensAPI Net2).

Lemma sizes_loop_openai_part (fuel : nat) (trials : Z) (oms : list string)
    (sizes : list Z) :
  forall (c1 c2 : counter) (ams1 ams2 : list string) (rng : S)
         (net1 : Net1) (net2 : Net2) (res1 res2 res1' res2' : list SampleStats)
         (n1 : Net1) (n2 : Net2),
    sizes_loop (H1 := api1) fuel c1 trials oms ams1 sizes rng net1 res1
      = Ret (res1', n1) ->
    sizes_loop (H1 := api2) fuel c2 trials oms ams2 sizes rng net2 res2
      = Ret (res2', n2) ->
    by_provider "openai" res1 = by_provider "openai" res2 ->
    by_provider "openai" res1' = by_provider "openai" res2'.
Proof.
  induction sizes as [|chars sizes IH];
    intros c1 c2 ams1 ams2 rng net1 net2 res1 res2 res1' res2' n1 n2;
    cbn [sizes_loop].
  - intros [= <- _] [= <- _]. auto.
  - intros Hrun1 Hrun2 Hres.
    apply bind_ret_inv in Hrun1 as ([texts rng1] & Htexts & Hrun1).
    apply bind_ret_inv in Hrun2 as ([texts' rng1'] & Htexts' & Hrun2).
    rewrite Htexts in Htexts'. injection Htexts' as <- <-.
    apply bind_ret_inv in Hrun1 as (r1 & Ho1 & Hrun1).
    apply bind_ret_inv in Hrun2 as (r2 & Ho2 & Hrun2).
    apply bind_ret_inv in Hrun1 as ([r1' m1] & Ha1 & Hrun1).
    apply bind_ret_inv in Hrun2 as ([r2' m2] & Ha2 & Hrun2).
    rewrite openai_rows_frame in Ho1, Ho2.
    apply bind_ret_inv in Ho1 as (orows & Ho & Ho1).
    apply bind_ret_inv in Ho2 as (orows' & Ho' & Ho2).
    rewrite Ho in Ho'. injection Ho' as <-.
    injection Ho1 as <-. injection Ho2 as <-.
    destruct (anthropic_rows_keys _ _ _ _ _ _ _ Ha1) as (a1 & -> & Hk1 & _).
    destruct (anthropic_rows_keys _ _ _ _ _ _ _ Ha2) as (a2 & -> & Hk2 & _).
    eapply IH; [exact Hrun1|exact Hrun2|].
    rewrite !by_provider_app, Hres. f_equal.
    rewrite (@by_provider_none "openai" "anthropic" a1);
      [|discriminate|].
    + rewrite (@by_provider_none "openai" "anthropic" a2);
        [reflexivity|discriminate|].
      eapply Forall_impl; [|exact (keys_provider _ _ _ _ Hk2)]. now intros r [? _].
    + eapply Forall_impl; [|exact (keys_provider _ _ _ _ Hk1)]. now intros r [? _].
Qed.

(** X9: the rows of the OpenAI models do not depend on the Anthropic
    side of a run: two runs with the same sizes, trials, OpenAI models
    and seed have the same OpenAI rows, whatever their Anthropic
    models, keys, environments and services (the texts come from the
    seed alone, and a service call never reaches the source). *)
Theorem openai_rows_ignore_anthropic_side (fuel : nat) (sizes : list Z)
    (trials : Z) (oms : list string) (seed : Z)
    (env1 env2 : Environment) (net1 : Net1) (net2 : Net2)
    (ams1 ams2 : list string) (key1 key2 : option string)
    (rows1 rows2 : list SampleStats) (n1 : Net1) (n2 : Net2) :
  run_benchmark (S := S) (H1 := api1) fuel env1 net1 sizes trials oms ams1
    seed key1 = Ret (rows1, n1) ->
  run_benchmark (S := S) (H1 := api2) fuel env2 net2 sizes trials oms ams2
    seed key2 = Ret (rows2, n2) ->
  by_provider "openai" rows1 = by_provider "openai" rows2.
Proof.
  unfold run_benchmark. intros Hrun1 Hrun2.
  apply bind_ret_inv in Hrun1 as (c1 & _ & Hrun1).
  apply bind_ret_inv in Hrun2 as (c2 & _ & Hrun2).
  eapply sizes_loop_openai_part; [exact Hrun1|exact Hrun2|reflexivity].
Qed.

End TwoServices.

Section BySize.
Import Py Text Float Stats Counter Runner Observe.
Open Scope Z_scope.
Open Scope string_scope.
Context {S : Type} `{RandomSource S}.
Context {Enc : Type} `{Tiktoken Enc}.
Context {Net : Type} `{CountTokensAPI Net}.

Lemma sizes_loop_frame (fuel : nat) (c : counter) (trials : Z)
    (oms ams : list string) (sizes : list Z) :
  forall (rng : S) net results,
    sizes_loop fuel c trials oms ams sizes rng net results
    = ('(rows, net') <-
         sizes_loop fuel c trials oms ams sizes rng net [] ;;
       Ret ((results ++ rows)%list, net')).
Proof.
  induction sizes as [|chars sizes IH]; intros rng net results;
    cbn [sizes_loop].
  - cbn [bind]. now rewrite app_nil_r.
  - destruct (generate_all fuel (repeat chars (Z.to_nat trials)) rng)
      as [[texts rng1]| |]; cbn [bind]; auto.
    rewrite (openai_rows_frame _ _ _ _ results).
    destruct (openai_rows (size_label_of chars) chars texts oms [])
      as [orows| |]; cbn [bind]; auto.
    rewrite (anthropic_rows_frame _ _ _ _ _ _ (results ++ orows)%list).
    rewrite (anthropic_rows_frame _ _ _ _ _ _ ([] ++ orows)%list).
    destruct (anthropic_rows c (size_label_of chars) chars texts ams net [])
      as [[arows net1]| |]; cbn [bind]; auto.
    rewrite (IH rng1 net1 ((results ++ orows) ++ arows)%list).
    rewrite (IH rng1 net1 (([] ++ orows) ++ arows)%list).
    destruct (sizes_loop fuel c trials oms ams sizes rng1 net1 [])
      as [[rest net2]| |]; cbn [bind]; auto.
    now rewrite <- !app_assoc.
Qed.

(** The rows of a run, size by size: for each size the rows of the
    OpenAI models, then those of the Anthropic models, all counted on
    the texts generated for that size. *)
Lemma sizes_loop_by_size (fuel : nat) (c : counter) (trials : Z)
    (oms ams : list string) (sizes : list Z) :
  forall (rng : S) net rows net',
    sizes_loop fuel c trials oms ams sizes rng net [] = Ret (rows, net') ->
    exists textss rowss,
      trial_texts fuel trials sizes rng = Ret textss
      /\ rows = List.concat rowss
      /\ List.length textss = List.length sizes
      /\ Forall2
           (fun (st : Z * list string) rows_i =>
              exists orows arows net_i net_i',
                rows_i = (orows ++ arows)%list
                /\ openai_rows (size_label_of (fst st)) (fst st) (snd st)
                     oms [] = Ret orows
                /\ anthropic_rows c (size_label_of (fst st)) (fst st)
                     (snd st) ams net_i [] = Ret (arows, net_i'))
           (combine sizes textss) rowss.
Proof.
  induction sizes as [|chars sizes IH]; intros rng net rows net';
    cbn [sizes_loop trial_texts].
  - intros [= <- _]. exists [], []. repeat split; constructor.
  - intros Hrun.
    apply bind_ret_inv in Hrun as ([texts rng1] & Htexts & Hrun).
    apply bind_ret_inv in Hrun as (orows & Ho & Hrun).
    apply bind_ret_inv in Hrun as ([r2 net1] & Ha & Hrun).
    rewrite anthropic_rows_frame in Ha.
    apply bind_ret_inv in Ha as ([arows net1'] & Ha & Ha').
    injection Ha' as <- <-.
    rewrite sizes_loop_frame in Hrun.
    apply bind_ret_inv in Hrun as ([rest net2] & Hrest & Hrun).
    injection Hrun as <- _.
    destruct (IH _ _ _ _ Hrest) as (textss & rowss & Ht & -> & Hl & Hall).
    exists (texts :: textss), ((orows ++ arows)%list :: rowss).
    rewrite Htexts. cbn [bind]. rewrite Ht. cbn [bind].
    repeat split.
    + simpl. now rewrite Hl.
    + cbn [combine]. constructor; [|exact Hall].
      exists orows, arows, net, net1'. cbn [fst snd]. auto.
Qed.

Lemma count_all_openai_with (enc : Enc) (model : string)
    (texts : list string) :
  get_openai_encoder_for_model model = Ret enc ->
  count_all_openai model texts
  = Ret (map (fun t => Z.of_nat (List.length (encode enc t))) texts).
Proof.
  intros Henc. induction texts as [|t ts IH]; [reflexivity|].
  cbn [count_all_openai]. unfold count_tokens_openai at 1.
  rewrite Henc. cbn [bind]. rewrite IH. reflexivity.
Qed.

Lemma Forall2_In_r {A B : Type} (P : A -> B -> Prop) (l : list A)
    (l' : list B) (b : B) :
  Forall2 P l l' -> In b l' -> exists a, In a l /\ P a b.
Proof.
  induction 1 as [|x y l l' Hxy _ IH]; [contradiction|].
  intros [->|Hin]; [exists x; split; [left|]; auto|].
  destruct (IH Hin) as (a & Ha & HP). exists a. split; [right|]; auto.
Qed.

(** X10: when the counter is bound to the approximation (no SDK, or no
    key), the Anthropic rows of one size all carry the same numbers,
    whatever the model, and they are the numbers of every OpenAI row
    of that size whose model resolves to [cl100k_base]. *)
Theorem approximate_rows_ignore_model (fuel : nat) (env : Environment)
    (net : Net) (sizes : list Z) (trials : Z) (oms ams : list string)
    (seed : Z) (api_key : option string) (rows : list SampleStats)
    (net' : Net) :
  anthropic_sdk env = false \/ truthy (effective_key env api_key) = false ->
  run_benchmark (S := S) fuel env net sizes trials oms ams seed api_key
    = Ret (rows, net') ->
  exists rowss,
    rows = List.concat rowss
    /\ Forall2
         (fun chars rows_i =>
            Forall (fun r => size_label r = size_label_of chars) rows_i
            /\ forall r1 r2,
                 In r1 rows_i -> In r2 rows_i ->
                 provider r1 = "anthropic" ->
                 provider r2 = "anthropic"
                 \/ get_openai_encoder_for_model (model r2)
                    = get_encoding_or_raise "cl100k_base" ->
                 numbers r1 = numbers r2)
         sizes rowss.
Proof.
  intros Hbound Hrun. unfold run_benchmark in Hrun.
  apply bind_ret_inv in Hrun as (c & Hc & Hrun).
  destruct (get_anthropic_counter_spec _ _ Hc)
    as (enc & Henc & [(key & Hsdk & Htr & _)|[_ ->]]).
  { exfalso. destruct Hbound; congruence. }
  destruct (sizes_loop_by_size _ _ _ _ _ _ _ _ Hrun)
    as (textss & rowss & _ & -> & Hl & Hall).
  exists rowss. split; [reflexivity|].
  clear Hrun Hc. revert textss rowss Hl Hall.
  induction sizes as [|chars sizes' IH]; intros [|texts textss] rowss Hl Hall;
    try discriminate; cbn [combine] in Hall.
  { inversion Hall. constructor. }
  inversion Hall as [|st rows_i sts rowss' Hhead Htail]; subst.
  constructor.
  - destruct Hhead as (orows & arows & net_i & net_i' & -> & Ho & Ha).
    cbn [fst snd] in Ho, Ha.
    destruct (openai_rows_keys _ _ _ _ _ Ho) as (o' & Eo & Hko & _).
    destruct (anthropic_rows_keys _ _ _ _ _ _ _ Ha) as (a' & Ea & Hka & _).
    cbn [app] in Eo, Ea. subst o' a'.
    pose proof (keys_provider _ _ _ _ Hko) as Hpo.
    pose proof (keys_provider _ _ _ _ Hka) as Hpa.
    rewrite Forall_forall in Hpo, Hpa.
    pose proof (openai_rows_spec _ _ _ _ Ho) as Hso.
    pose proof (anthropic_rows_spec _ _ _ _ _ _ Ha) as Hsa.
    assert (Hnum_a : forall r, In r arows ->
              exists m, summarize_counts (size_label_of chars) "anthropic" m
                (map (fun t => Z.of_nat (List.length (encode enc t))) texts)
                chars = Ret r).
    { intros r Hr. destruct (@Forall2_In_r _ _ _ _ _ _ Hsa Hr) as (m & _ & net0 & Hs).
      rewrite call_all_approx in Hs. cbn [fst] in Hs. eauto. }
    split.
    + apply Forall_forall. intros r Hr. apply in_app_or in Hr as [Hr|Hr].
      * now destruct (Hpo r Hr).
      * now destruct (Hpa r Hr).
    + intros r1 r2 Hin1 Hin2 Hp1 Hp2.
      apply in_app_or in Hin1 as [Hin1|Hin1];
        [destruct (Hpo r1 Hin1); congruence|].
      destruct (Hnum_a r1 Hin1) as (m1 & Hs1).
      apply in_app_or in Hin2 as [Hin2|Hin2].
      * destruct (Hpo r2 Hin2) as [Hpv _].
        destruct Hp2 as [Hp2|Hp2]; [congruence|].
        destruct (@Forall2_In_r _ _ _ _ _ _ Hso Hin2) as (m2 & _ & counts & Hcounts & Hs2).
        destruct (summarize_counts_key _ _ _ _ _ Hs2) as [Hkey _].
        assert (Hm2 : model r2 = m2)
          by (unfold row_key in Hkey; congruence).
        rewrite Hm2 in Hp2. unfold get_encoding_or_raise in Hp2.
        rewrite Henc in Hp2.
        rewrite (@count_all_openai_with enc m2 texts Hp2) in Hcounts.
        injection Hcounts as <-.
        eapply summarize_counts_numbers; eassumption.
      * destruct (Hnum_a r2 Hin2) as (m2 & Hs2).
        eapply summarize_counts_numbers; eassumption.
  - eapply IH; [|eassumption]. simpl in Hl. congruence.
Qed.

End BySize.

Section Requests.
Import Py Text Float Stats Counter Runner Observe.
Open Scope Z_scope.
Open Scope string_scope.
Context {S : Type} `{RandomSource S}.
Context {Enc : Type} `{Tiktoken Enc}.
Variable Net : Type.
Variable api : CountTokensAPI Net.

Lemma sent_cons (c : counter (Enc := Enc)) (model t : string) (ts : list string) :
  sent c model (t :: ts) = (sent c model [t] ++ sent c model ts)%list.
Proof. destruct c; reflexivity. Qed.

(** A recorded call answers as the plain call does, and logs the
    request of a live counter. *)
Lemma call_recording (c : counter (Enc := Enc)) (model text : string)
    (log : list request) (net : Net) :
  call (H0 := recording api) c model text (log, net)
  = (fst (call (H0 := api) c model text net),
     ((log ++ sent c model [text])%list,
      snd (call (H0 := api) c model text net))).
Proof.
  destruct c as [key enc|enc]; cbn [call sent map].
  - cbn [count_tokens recording fst snd].
    destruct (@count_tokens Net api key model text net) as [[n|] net'];
      reflexivity.
  - now rewrite app_nil_r.
Qed.

Lemma call_all_recording (c : counter (Enc := Enc)) (model : string)
    (texts : list string) :
  forall (log : list request) (net : Net),
    call_all (H0 := recording api) c model texts (log, net)
    = (fst (call_all (H0 := api) c model texts net),
       ((log ++ sent c model texts)%list,
        snd (call_all (H0 := api) c model texts net))).
Proof.
  induction texts as [|t ts IH]; intros log net.
  - cbn [call_all fst snd]. destruct c; cbn [sent map]; now rewrite app_nil_r.
  - cbn [call_all]. rewrite call_recording.
    destruct (call (H0 := api) c model t net) as [n net1]. cbn [fst snd].
    rewrite IH.
    destruct (call_all (H0 := api) c model ts net1) as [ns net2].
    cbn [fst snd]. rewrite (sent_cons c model t ts).
    now rewrite app_assoc.
Qed.

Lemma anthropic_rows_recording (c : counter (Enc := Enc)) (sl : string) (chars : Z)
    (texts : list string) (models : list string) :
  forall (log : list request) (net : Net) results results' net',
    anthropic_rows (H1 := api) c sl chars texts models net results
      = Ret (results', net') ->
    anthropic_rows (H1 := recording api) c sl chars texts models (log, net)
      results
    = Ret (results',
           ((log ++ flat_map (fun m => sent c m texts) models)%list, net')).
Proof.
  induction models as [|m ms IH]; intros log net results results' net';
    cbn [anthropic_rows flat_map].
  - intros [= <- <-]. now rewrite app_nil_r.
  - rewrite call_all_recording.
    destruct (call_all (H0 := api) c m texts net) as [counts net1].
    cbn [fst snd]. intros Hrun.
    apply bind_ret_inv in Hrun as (row & Hrow & Hrun).
    rewrite Hrow. cbn [bind].
    rewrite (IH _ _ _ _ _ Hrun). now rewrite app_assoc.
Qed.

Lemma sizes_loop_recording (fuel : nat) (c : counter (Enc := Enc)) (trials : Z)
    (oms ams : list string) (sizes : list Z) :
  forall (rng : S) (log : list request) (net : Net) results results' net',
    sizes_loop (H1 := api) fuel c trials oms ams sizes rng net results
      = Ret (results', net') ->
    exists textss,
      trial_texts fuel trials sizes rng = Ret textss
      /\ List.length textss = List.length sizes
      /\ Forall (fun texts => llen texts = Z.max 0 trials) textss
      /\ sizes_loop (H1 := recording api) fuel c trials oms ams sizes rng
           (log, net) results
         = Ret (results',
                ((log ++ flat_map
                           (fun texts => flat_map (fun m => sent c m texts) ams)
                           textss)%list, net')).
Proof.
  induction sizes as [|chars sizes IH];
    intros rng log net results results' net'; cbn [sizes_loop trial_texts].
  - intros [= <- <-]. exists []. cbn [flat_map]. rewrite app_nil_r.
    repeat split; constructor.
  - intros Hrun.
    apply bind_ret_inv in Hrun as ([texts rng1] & Htexts & Hrun).
    apply bind_ret_inv in Hrun as (results1 & Ho & Hrun).
    apply bind_ret_inv in Hrun as ([results2 net1] & Ha & Hrun).
    destruct (IH rng1
                (log ++ flat_map (fun m => sent c m texts) ams)%list
                _ _ _ _ Hrun)
      as (textss & Ht & Hl & Hn & Hrec).
    exists (texts :: textss).
    rewrite Htexts. cbn [bind]. rewrite Ht. cbn [bind].
    split; [reflexivity|]. split; [simpl; now rewrite Hl|].
    split.
    + constructor; [|exact Hn].
      unfold llen. rewrite (generate_all_length _ _ _ Htexts), repeat_length.
      lia.
    + rewrite Ho. cbn [bind].
      rewrite (anthropic_rows_recording _ _ _ _ _ log _ _ Ha). cbn [bind].
      rewrite Hrec. cbn [flat_map]. now rewrite app_assoc.
Qed.

Lemma flat_map_nil {A B : Type} (l : list A) :
  flat_map (fun _ : A => @nil B) l = [].
Proof. induction l; simpl; auto. Qed.

(** X11: the requests of a run, in their order.  A run bound to the
    live counter sends one request per Anthropic model and text, with
    the effective key: size by size, for each size model by model,
    and for each model the texts of that size in the order of their
    generation, the same texts for every model; a run bound to the
    approximation sends none.  (The requests are observed by a
    service that logs them and otherwise answers as the given one:
    the rows and the final state of the service are the same.) *)
Theorem live_requests_in_order (fuel : nat) (env : Environment) (net : Net)
    (sizes : list Z) (trials : Z) (oms ams : list string) (seed : Z)
    (api_key : option string) (rows : list SampleStats) (net' : Net) :
  run_benchmark (S := S) (H1 := api) fuel env net sizes trials oms ams seed
    api_key = Ret (rows, net') ->
  exists textss,
    trial_texts fuel trials sizes (from_seed seed : S) = Ret textss
    /\ List.length textss = List.length sizes
    /\ Forall (fun texts => llen texts = Z.max 0 trials) textss
    /\ run_benchmark (S := S) (H1 := recording api) fuel env ([], net) sizes
         trials oms ams seed api_key
       = Ret (rows,
              (match effective_key env api_key with
               | Some key =>
                 if anthropic_sdk env && truthy (Some key)
                 then requests_for key ams textss
                 else []
               | None => []
               end, net')).
Proof.
  unfold run_benchmark. intros Hrun.
  apply bind_ret_inv in Hrun as (c & Hc & Hrun).
  destruct (sizes_loop_recording _ _ _ _ _ _ _ [] _ _ Hrun)
    as (textss & Ht & Hl & Hn & Hrec).
  exists textss. repeat (split; [assumption|]).
  rewrite Hc. cbn [bind]. rewrite Hrec. cbn [app]. do 2 f_equal.
  f_equal.
  destruct (get_anthropic_counter_spec _ _ Hc)
    as (enc & Henc & [(key & Hsdk & Htr & Hkey & ->)|[Hno ->]]).
  - rewrite Hkey. rewrite Hkey in Htr. rewrite Hsdk, Htr. reflexivity.
  - cbn [sent].
    assert (Hnil : flat_map
              (fun texts : list string =>
                 flat_map (fun _ : string => @nil request) ams) textss = []).
    { clear. induction textss as [|t ts IH]; [reflexivity|].
      cbn [flat_map]. now rewrite IH, flat_map_nil. }
    rewrite Hnil.
    destruct (effective_key env api_key) as [key|]; [|reflexivity].
    destruct Hno as [->| ->]; [reflexivity|].
    now rewrite andb_false_r.
Qed.

End Requests.

Section Encodings.
Import Py Text Float Stats Counter Runner Observe.
Open Scope Z_scope.
Open Scope string_scope.
Context {S : Type} `{RandomSource S}.
Context {Enc : Type} `{Tiktoken Enc}.
Context {Net : Type} `{CountTokensAPI Net}.

Lemma Forall2_combine_l {A B C : Type} (P : A * B -> C -> Prop)
    (Q : A -> C -> Prop) :
  (forall a b c, P (a, b) c -> Q a c) ->
  forall (la : list A) (lb : list B) (lc : list C),
    List.length lb = List.length la ->
    Forall2 P (combine la lb) lc -> Forall2 Q la lc.
Proof.
  intros HPQ. induction la as [|a la IH]; intros [|b lb] lc Hl Hall;
    try discriminate; cbn [combine] in Hall.
  - inversion Hall. constructor.
  - inversion Hall as [|x c xs lc' Hhead Htail]; subst.
    constructor; [eapply HPQ; eassumption|].
    eapply IH; [|eassumption]. simpl in Hl. congruence.
Qed.

Lemma count_all_openai_same_encoder (m1 m2 : string) (texts : list string) :
  get_openai_encoder_for_model m1 = get_openai_encoder_for_model m2 ->
  count_all_openai m1 texts = count_all_openai m2 texts.
Proof.
  intros Heq. induction texts as [|t ts IH]; [reflexivity|].
  cbn [count_all_openai]. unfold count_tokens_openai.
  now rewrite Heq, IH.
Qed.

(** X12: the OpenAI rows of one size whose models resolve to the same
    encoding carry the same numbers; all the models that [tiktoken]
    does not know resolve to the same encoding (or fail alike), so
    they are counted alike. *)
Theorem unknown_models_counted_alike (fuel : nat) (env : Environment)
    (net : Net) (sizes : list Z) (trials : Z) (oms ams : list string)
    (seed : Z) (api_key : option string) (rows : list SampleStats)
    (net' : Net) :
  run_benchmark (S := S) fuel env net sizes trials oms ams seed api_key
    = Ret (rows, net') ->
  (forall m1 m2,
     encoding_for_model m1 = None -> encoding_for_model m2 = None ->
     get_openai_encoder_for_model m1 = get_openai_encoder_for_model m2)
  /\ exists rowss,
       rows = List.concat rowss
       /\ Forall2
            (fun (chars : Z) rows_i =>
               forall r1 r2,
                 In r1 rows_i -> In r2 rows_i ->
                 provider r1 = "openai" -> provider r2 = "openai" ->
                 get_openai_encoder_for_model (model r1)
                 = get_openai_encoder_for_model (model r2) ->
                 numbers r1 = numbers r2)
            sizes rowss.
Proof.
  intros Hrun. split.
  { intros m1 m2 Hm1 Hm2. unfold get_openai_encoder_for_model.
    now rewrite Hm1, Hm2. }
  unfold run_benchmark in Hrun.
  apply bind_ret_inv in Hrun as (c & _ & Hrun).
  destruct (sizes_loop_by_size _ _ _ _ _ _ _ _ Hrun)
    as (textss & rowss & _ & -> & Hl & Hall).
  exists rowss. split; [reflexivity|].
  eapply Forall2_combine_l; [|exact Hl|exact Hall].
  intros chars texts rows_i
    (orows & arows & net_i & net_i' & -> & Ho & Ha).
  cbn [fst snd] in Ho, Ha.
  destruct (anthropic_rows_keys _ _ _ _ _ _ _ Ha) as (a' & Ea & Hka & _).
  cbn [app] in Ea. subst a'.
  pose proof (keys_provider _ _ _ _ Hka) as Hpa.
  rewrite Forall_forall in Hpa.
  pose proof (openai_rows_spec _ _ _ _ Ho) as Hso.
  assert (Hrow : forall r, In r (orows ++ arows) -> provider r = "openai" ->
            exists counts,
              count_all_openai (model r) texts = Ret counts
              /\ summarize_counts (size_label_of chars) "openai" (model r)
                   counts chars = Ret r).
  { intros r Hr Hp. apply in_app_or in Hr as [Hr|Hr];
      [|destruct (Hpa r Hr); congruence].
    destruct (@Forall2_In_r _ _ _ _ _ _ Hso Hr) as (m & _ & counts & Hc & Hs).
    destruct (summarize_counts_key _ _ _ _ _ Hs) as [Hkey _].
    assert (Hm : model r = m) by (unfold row_key in Hkey; congruence).
    rewrite Hm. eauto. }
  intros r1 r2 Hin1 Hin2 Hp1 Hp2 Henc.
  destruct (Hrow r1 Hin1 Hp1) as (counts1 & Hc1 & Hs1).
  destruct (Hrow r2 Hin2 Hp2) as (counts2 & Hc2 & Hs2).
  rewrite (@count_all_openai_same_encoder (model r1) (model r2) texts Henc) in Hc1.
  assert (counts2 = counts1) as -> by congruence.
  eapply summarize_counts_numbers; eassumption.
Qed.

(** X13: a run needs the [cl100k_base] encoding whatever it is asked
    for: the Anthropic counter is bound before anything is generated,
    and binding it loads that encoding in both branches, so without
    it the run raises at once, even with no Anthropic model and with
    OpenAI models that have an encoding of their own. *)
Theorem run_needs_cl100k_base (fuel : nat) (env : Environment) (net : Net)
    (sizes : list Z) (trials : Z) (oms ams : list string) (seed : Z)
    (api_key : option string) :
  get_encoding "cl100k_base" = None ->
  run_benchmark (S := S) fuel env net sizes trials oms ams seed api_key
  = Raise EncodingError.
Proof.
  intros Hnone. unfold run_benchmark, get_anthropic_counter.
  destruct (anthropic_sdk env && truthy (py_or api_key (ANTHROPIC_API_KEY env)));
    destruct (py_or api_key (ANTHROPIC_API_KEY env));
    unfold get_encoding_or_raise; rewrite Hnone; reflexivity.
Qed.

End Encodings.

(* ================================================================== *)
(** * Properties of the reports                                        *)
(* ================================================================== *)

Section Layout.
Import Py Stats Format Report.
Open Scope string_scope.

Lemma length_times (s : string) (n : nat) :
  String.length (times s n) = (n * String.length s)%nat.
Proof.
  induction n as [|n IH]; [reflexivity|].
  cbn [times]. rewrite length_app, IH. simpl. lia.
Qed.

Lemma length_align_right (w : nat) (s : string) :
  String.length (align_right w s) = Nat.max w (String.length s).
Proof.
  unfold align_right. rewrite length_app, length_times. simpl. lia.
Qed.

Lemma length_align_left (w : nat) (s : string) :
  String.length (align_left w s) = Nat.max w (String.length s).
Proof.
  unfold align_left. rewrite length_app, length_times. simpl. lia.
Qed.

Lemma fold_print (f : SampleStats -> string) (results : list SampleStats) :
  forall out,
    fold_left (fun out r => print out (f r)) results out
    = out ++ String.concat EmptyString
               (map (fun r => f r ++ str_of_char LF) results).
Proof.
  induction results as [|r rs IH]; intros out; cbn [fold_left map].
  - cbn [String.concat]. clear. induction out; simpl; congruence.
  - rewrite IH. unfold print. rewrite str_app_assoc. f_equal.
    destruct rs as [|r' rs]; [cbn; clear|reflexivity].
    now rewrite str_app_assoc.
Qed.

(** X17: the table is the standard output followed by an empty line,
    the nine column names separated by single spaces (67 characters),
    a rule of 108 dashes, and one line per record in the order of the
    records; a line of a record has 114 characters when every field
    fits its column and more otherwise, so it is always wider than
    the rule. *)
Theorem table_layout (results : list SampleStats) (out : string) :
  print_results_table results out
  = out ++ str_of_char LF ++ join " " header ++ str_of_char LF
    ++ times "-" 108 ++ str_of_char LF
    ++ String.concat EmptyString (map (fun r => row_line r ++ str_of_char LF) results)
  /\ String.length (join " " header) = 67%nat
  /\ String.length (times "-" 108) = 108%nat
  /\ forall r,
       String.length (row_line r)
       = (16 + Nat.max 10 (String.length (size_label r))
          + Nat.max 9 (String.length (provider r))
          + Nat.max 30 (String.length (model r))
          + Nat.max 6 (String.length (str_of_int (num_trials r)))
          + Nat.max 10 (String.length (format_f 1 (mean_tokens r)))
          + Nat.max 6 (String.length (format_f 0 (p50_tokens r)))
          + Nat.max 6 (String.length (format_f 0 (p95_tokens r)))
          + Nat.max 7 (String.length (format_f 1 (stdev_tokens r)))
          + Nat.max 14
              (String.length (format_f 1 (mean_tokens_per_1k_chars r))))%nat
       /\ (114 <= String.length (row_line r))%nat.
Proof.
  split; [|split; [reflexivity|split; [reflexivity|]]].
  - unfold print_results_table. rewrite fold_print. unfold print.
    now rewrite !str_app_assoc.
  - intros r.
    assert (E : String.length (row_line r)
       = (16 + Nat.max 10 (String.length (size_label r))
          + Nat.max 9 (String.length (provider r))
          + Nat.max 30 (String.length (model r))
          + Nat.max 6 (String.length (str_of_int (num_trials r)))
          + Nat.max 10 (String.length (format_f 1 (mean_tokens r)))
          + Nat.max 6 (String.length (format_f 0 (p50_tokens r)))
          + Nat.max 6 (String.length (format_f 0 (p95_tokens r)))
          + Nat.max 7 (String.length (format_f 1 (stdev_tokens r)))
          + Nat.max 14
              (String.length (format_f 1 (mean_tokens_per_1k_chars r))))%nat).
    { unfold row_line.
      rewrite !length_app, !length_align_right, length_align_left.
      change (String.length "  ") with 2%nat. lia. }
    split; [exact E|]. rewrite E. lia.
Qed.

End Layout.

Section CsvShape.
Import Py Stats Format Report.
Open Scope string_scope.

Lemma plain_app (s t : string) : plain (s ++ t) = plain s && plain t.
Proof.
  unfold plain. rewrite chars_app, existsb_app.
  now destruct (existsb special (list_ascii_of_string s)).
Qed.

Lemma plain_cons (c : ascii) (s : string) :
  plain (String c s) = negb (special c) && plain s.
Proof. unfold plain. simpl. now destruct (special c). Qed.

Lemma plain_substring (n m : nat) (s : string) :
  plain s = true -> plain (substring n m s) = true.
Proof.
  revert n m. induction s as [|c s IH]; intros [|n] [|m] Hs;
    try reflexivity; cbn [substring].
  - rewrite plain_cons in *. apply andb_prop in Hs as [-> Hs]. simpl.
    now apply IH.
  - rewrite plain_cons in Hs. apply andb_prop in Hs as [_ Hs]. now apply IH.
  - rewrite plain_cons in Hs. apply andb_prop in Hs as [_ Hs]. now apply IH.
Qed.

Lemma plain_times (s : string) (n : nat) :
  plain s = true -> plain (times s n) = true.
Proof.
  intros Hs. induction n as [|n IH]; [reflexivity|].
  cbn [times]. now rewrite plain_app, Hs, IH.
Qed.

Lemma plain_uint (d : Decimal.uint) :
  plain (NilEmpty.string_of_uint d) = true.
Proof.
  induction d; cbn [NilEmpty.string_of_uint]; try reflexivity;
    rewrite plain_cons, IHd; reflexivity.
Qed.

Lemma plain_str_of_int (z : Z) : plain (str_of_int z) = true.
Proof.
  unfold str_of_int, NilZero.string_of_int, NilZero.string_of_uint.
  destruct (Z.to_int z) as [d|d]; destruct d; try reflexivity;
    try apply plain_uint; rewrite plain_cons; try apply plain_uint;
    cbn [negb special andb]; apply plain_uint.
Qed.

Lemma plain_fixed (p : nat) (n : Z) : plain (fixed p n) = true.
Proof.
  unfold fixed.
  assert (Hds : plain (times "0" (Datatypes.S p
                                  - String.length (str_of_int n))
                       ++ str_of_int n) = true).
  { rewrite plain_app, plain_str_of_int, plain_times; reflexivity. }
  destruct p as [|p]; [exact Hds|].
  rewrite !plain_app, !plain_substring by exact Hds. reflexivity.
Qed.

Lemma plain_format_f (p : nat) (x : float) : plain (format_f p x) = true.
Proof.
  destruct x as [s|s| |s m e]; cbn [format_f].
  - rewrite plain_app, plain_fixed. now destruct s.
  - now destruct s.
  - reflexivity.
  - rewrite plain_app, plain_fixed. now destruct s.
Qed.

Lemma csv_field_plain (s : string) : plain s = true -> csv_field s = s.
Proof.
  unfold plain, csv_field.
  now destruct (existsb special (list_ascii_of_string s)).
Qed.

Lemma occurrences_app (c : ascii) (s t : string) :
  occurrences c (s ++ t) = (occurrences c s + occurrences c t)%nat.
Proof.
  unfold occurrences. now rewrite chars_app, filter_app, List.length_app.
Qed.

Lemma occurrences_plain (c : ascii) (s : string) :
  special c = true -> plain s = true -> occurrences c s = 0%nat.
Proof.
  intros Hc. unfold occurrences.
  induction s as [|a s IH]; [reflexivity|].
  rewrite plain_cons. intros Hs. apply andb_prop in Hs as [Ha Hs].
  cbn [list_ascii_of_string filter].
  destruct (Ascii.eqb_spec c a) as [->|_]; [|now apply IH].
  rewrite Hc in Ha. discriminate.
Qed.

(** The record of a row whose labels hold no comma, no quote and no
    line break: the nine fields as they are, separated by commas. *)
Lemma writerow_plain (r : SampleStats) :
  plain (size_label r) = true -> plain (provider r) = true ->
  plain (model r) = true ->
  writerow (csv_row r) = join (str_of_char COMMA) (csv_row r) ++ CRLF
  /\ plain (String.concat EmptyString (csv_row r)) = true.
Proof.
  intros Hl Hp Hm. unfold writerow, csv_row.
  cbn [map].
  rewrite !csv_field_plain
    by (assumption || apply plain_str_of_int || apply plain_format_f).
  split.
  - destruct (size_label r); reflexivity.
  - cbn [String.concat].
    rewrite !plain_app, Hl, Hp, Hm, plain_str_of_int, !plain_format_f.
    reflexivity.
Qed.

End CsvShape.

Section CsvOfARun.
Import Py Text Stats Counter Runner Format Report.
Open Scope string_scope.
Context {S : Type} `{RandomSource S}.
Context {Enc : Type} `{Tiktoken Enc}.
Context {Net : Type} `{CountTokensAPI Net}.

Lemma fold_writerow (results : list SampleStats) :
  forall text,
    fold_left (fun text r => text ++ writerow (csv_row r)) results text
    = text ++ String.concat EmptyString (map (fun r => writerow (csv_row r)) results).
Proof.
  induction results as [|r rs IH]; intros text; cbn [fold_left map].
  - cbn [String.concat]. clear. induction text; simpl; congruence.
  - rewrite IH, str_app_assoc. f_equal.
    destruct rs as [|r' rs]; [cbn [map String.concat]|reflexivity].
    clear. induction (writerow (csv_row r)); simpl; congruence.
Qed.

Lemma occurrences_joined (c : ascii) (fields : list string) :
  special c = true ->
  Forall (fun f => plain f = true) fields ->
  occurrences c (join (str_of_char COMMA) fields)
  = if Ascii.eqb c COMMA then Nat.pred (List.length fields) else 0%nat.
Proof.
  intros Hc. unfold join.
  induction 1 as [|a l Ha Hl IH]; [now destruct (Ascii.eqb c COMMA)|].
  destruct l as [|b l].
  - cbn [String.concat List.length Nat.pred].
    rewrite (@occurrences_plain c a Hc Ha). now destruct (Ascii.eqb c COMMA).
  - change (String.concat (str_of_char COMMA) (a :: b :: l))
      with (a ++ str_of_char COMMA
              ++ String.concat (str_of_char COMMA) (b :: l)).
    rewrite !occurrences_app, IH, (@occurrences_plain c a Hc Ha).
    unfold occurrences at 1. cbn [str_of_char list_ascii_of_string filter].
    destruct (Ascii.eqb c COMMA); reflexivity.
Qed.

Lemma record_counts (r : SampleStats) :
  plain (size_label r) = true -> plain (provider r) = true ->
  plain (model r) = true ->
  occurrences COMMA (writerow (csv_row r)) = 8%nat
  /\ occurrences LF (writerow (csv_row r)) = 1%nat
  /\ occurrences QUOTE (writerow (csv_row r)) = 0%nat.
Proof.
  intros Hl Hp Hm.
  destruct (writerow_plain r Hl Hp Hm) as [-> _].
  assert (Hall : Forall (fun f => plain f = true) (csv_row r)).
  { unfold csv_row.
    repeat (constructor;
            [assumption || apply plain_str_of_int || apply plain_format_f|]).
    constructor. }
  rewrite !occurrences_app, !occurrences_joined by (reflexivity || exact Hall).
  repeat split.
Qed.

Lemma concat_counts (c : ascii) (k : nat) (rows : list SampleStats) :
  Forall (fun r => occurrences c (writerow (csv_row r)) = k) rows ->
  occurrences c
    (String.concat EmptyString (map (fun r => writerow (csv_row r)) rows))
  = (k * List.length rows)%nat.
Proof.
  induction 1 as [|r rs Hr _ IH];
    [cbn [map List.length]; now rewrite Nat.mul_0_r|].
  cbn [map List.length].
  assert (E : String.concat EmptyString
                (writerow (csv_row r)
                 :: map (fun r => writerow (csv_row r)) rs)
              = writerow (csv_row r)
                ++ String.concat EmptyString (map (fun r => writerow (csv_row r)) rs)).
  { destruct rs as [|r' rs]; [|reflexivity].
    cbn [map String.concat]. clear.
    induction (writerow (csv_row r)); simpl; congruence. }
  rewrite E, occurrences_app, Hr, IH. lia.
Qed.

Lemma plain_size_label_of (chars : Z) : plain (size_label_of chars) = true.
Proof.
  unfold size_label_of. rewrite plain_app.
  change (NilZero.string_of_int (Z.to_int chars)) with (str_of_int chars).
  now rewrite plain_str_of_int.
Qed.

Lemma requested_plain (sizes : list Z) (oms ams : list string)
    (rows : list SampleStats) :
  Forall (fun m => plain m = true) oms ->
  Forall (fun m => plain m = true) ams ->
  map row_key rows = requested sizes oms ams ->
  Forall (fun r => plain (size_label r) = true
                   /\ plain (provider r) = true
                   /\ plain (model r) = true) rows.
Proof.
  intros Ho Ha Hk. apply Forall_forall. intros r Hr.
  assert (Hin : In (row_key r) (requested sizes oms ams)).
  { rewrite <- Hk. now apply in_map. }
  unfold requested in Hin. apply in_flat_map in Hin as (chars & _ & Hin).
  rewrite Forall_forall in Ho, Ha.
  apply in_app_or in Hin as [Hin|Hin];
    apply in_map_iff in Hin as (m & Hkey & Hm);
    unfold row_key in Hkey; injection Hkey as E1 E2 E3;
    rewrite <- E1, <- E2, <- E3.
  - repeat split; [apply plain_size_label_of|apply Ho, Hm].
  - repeat split; [apply plain_size_label_of|apply Ha, Hm].
Qed.

Lemma requested_length (sizes : list Z) (oms ams : list string) :
  List.length (requested sizes oms ams)
  = (List.length sizes * (List.length oms + List.length ams))%nat.
Proof.
  unfold requested. induction sizes as [|chars sizes IH]; [reflexivity|].
  cbn [flat_map List.length].
  rewrite !List.length_app, !length_map, IH. lia.
Qed.

(** X18: the export of a run whose model names hold no comma, no
    quote and no line break is a plain comma-separated text: the
    header and one record per requested combination, in the order of
    the rows, each of nine fields that are written as they are, so
    that every record has exactly 8 commas and the text has no quote
    character. *)
Theorem csv_of_a_run (fuel : nat) (env : Environment) (net : Net)
    (sizes : list Z) (trials : Z) (oms ams : list string) (seed : Z)
    (api_key : option string) (rows : list SampleStats) (net' : Net) :
  Forall (fun m => plain m = true) oms ->
  Forall (fun m => plain m = true) ams ->
  run_benchmark (S := S) fuel env net sizes trials oms ams seed api_key
    = Ret (rows, net') ->
  csv_text rows
  = writerow csv_header
    ++ String.concat EmptyString
         (map (fun r => join (str_of_char COMMA) (csv_row r) ++ CRLF) rows)
  /\ List.length rows
     = (List.length sizes * (List.length oms + List.length ams))%nat
  /\ occurrences LF (csv_text rows) = Datatypes.S (List.length rows)
  /\ occurrences COMMA (csv_text rows)
     = (8 * Datatypes.S (List.length rows))%nat
  /\ occurrences QUOTE (csv_text rows) = 0%nat.
Proof.
  intros Ho Ha Hrun. unfold run_benchmark in Hrun.
  apply bind_ret_inv in Hrun as (c & _ & Hrun).
  destruct (sizes_loop_keys _ _ _ _ _ _ _ _ _ Hrun)
    as (rows' & E & Hk & _).
  cbn [app] in E. subst rows'.
  pose proof (@requested_plain sizes oms ams rows Ho Ha Hk) as Hplain.
  assert (Hlen : List.length rows
                 = (List.length sizes
                    * (List.length oms + List.length ams))%nat).
  { rewrite <- requested_length, <- Hk. now rewrite length_map. }
  assert (Hc : Forall (fun r =>
                 occurrences COMMA (writerow (csv_row r)) = 8%nat) rows
               /\ Forall (fun r =>
                 occurrences LF (writerow (csv_row r)) = 1%nat) rows
               /\ Forall (fun r =>
                 occurrences QUOTE (writerow (csv_row r)) = 0%nat) rows).
  { repeat split; eapply Forall_impl; try exact Hplain;
      intros r (Hl & Hp & Hm);
      destruct (record_counts r Hl Hp Hm) as (? & ? & ?); assumption. }
  destruct Hc as (Hcomma & Hlf & Hq).
  unfold csv_text. rewrite fold_writerow.
  split; [|split; [exact Hlen|]].
  - f_equal. f_equal. apply map_ext_in. intros r Hr.
    rewrite Forall_forall in Hplain.
    destruct (Hplain r Hr) as (Hl & Hp & Hm).
    now destruct (writerow_plain r Hl Hp Hm).
  - rewrite !occurrences_app.
    rewrite (concat_counts _ Hcomma), (concat_counts _ Hlf),
      (concat_counts _ Hq).
    repeat split; cbn; lia.
Qed.

End CsvOfARun.

(* ================================================================== *)
(** * Properties of the command line                                   *)
(* ================================================================== *)

Section MainFacts.
Import Py Text Stats Counter Runner Format Report Cli.
Open Scope string_scope.
Context {S : Type} `{RandomSource S}.
Context {Enc : Type} `{Tiktoken Enc}.
Context {Net : Type} `{CountTokensAPI Net}.
Context `{ArgumentParser}.

Lemma truthy_some (s : string) :
  truthy (Some s) = true <-> s <> EmptyString.
Proof.
  unfold truthy. destruct (String.eqb_spec s EmptyString) as [->|Hne];
    simpl; split; congruence.
Qed.

(** X19: when [main] returns, it returns 0, the benchmark has run to
    its end and its table has been printed after what the standard
    output held; either no export was asked for ([--csv] absent or
    empty) and no file has changed, or the file at the given path
    holds exactly the export of the rows that were printed, the other
    files are as they were, and a last line names the path. *)
Theorem main_returns (fuel : nat) (env : Environment)
    (argv : option (list string)) (net net' : Net) (proc proc' : Process)
    (code : Z) :
  main (S := S) fuel env argv net proc = (Returned code net', proc') ->
  code = 0%Z
  /\ exists args rows,
       parse_args argv = Parsed args
       /\ run_benchmark (S := S) fuel env net (sizes args) (trials args)
            (openai_models args) (anthropic_models args) (seed args)
            (anthropic_api_key args) = Ret (rows, net')
       /\ ((truthy (csv args) = false
            /\ stdout proc' = print_results_table rows (stdout proc)
            /\ files proc' = files proc)
           \/ exists path,
                csv args = Some path /\ path <> EmptyString
                /\ refused (files proc) path = false
                /\ stdout proc'
                   = print (print_results_table rows (stdout proc))
                       (str_of_char LF ++ "Wrote CSV to " ++ path)
                /\ contents (files proc') path = Some (csv_text rows)
                /\ forall p, p <> path ->
                     contents (files proc') p = contents (files proc) p).
Proof.
  unfold main. intros Hmain.
  destruct (parse_args argv) as [args|c printed]; [|discriminate].
  destruct (run_benchmark fuel env net (sizes args) (trials args)
              (openai_models args) (anthropic_models args) (seed args)
              (anthropic_api_key args)) as [[rows n]| |] eqn:Hrun;
    try discriminate.
  cbv zeta in Hmain.
  destruct (csv args) as [path|] eqn:Hcsv.
  - destruct (truthy (Some path)) eqn:Htr.
    + unfold write_results_csv in Hmain.
      destruct (refused (files proc) path) eqn:Href; [discriminate|].
      injection Hmain as <- <- <-.
      split; [reflexivity|]. exists args, rows.
      split; [reflexivity|]. split; [exact Hrun|].
      right. exists path. rewrite Hcsv.
      split; [reflexivity|]. split; [now apply truthy_some|].
      split; [exact Href|]. split; [reflexivity|].
      cbn [files contents store]. split.
      * now rewrite String.eqb_refl.
      * intros p Hp. now destruct (String.eqb_spec p path).
    + injection Hmain as <- <- <-.
      split; [reflexivity|]. exists args, rows.
      split; [reflexivity|]. split; [exact Hrun|].
      left. rewrite Hcsv. auto.
  - injection Hmain as <- <- <-.
    split; [reflexivity|]. exists args, rows.
    split; [reflexivity|]. split; [exact Hrun|].
    left. rewrite Hcsv. auto.
Qed.

(** X20: when [main] does not return, no file has changed.  If the
    arguments were refused nothing ran; if the benchmark raised (or
    the generator ran short of fuel) nothing was printed; if the file
    of the export could not be opened, the table had been printed
    already, and [main] ends by [OSError] all the same, without the
    line that names the path. *)
Theorem main_fails (fuel : nat) (env : Environment)
    (argv : option (list string)) (net : Net) (proc proc' : Process)
    (o : outcome) :
  main (S := S) fuel env argv net proc = (o, proc') ->
  (forall code net', o <> Returned code net') ->
  files proc' = files proc
  /\ match o with
     | Raised (SystemExit code) =>
         exists printed,
           parse_args argv = Exited code printed
           /\ stdout proc' = stdout proc ++ printed
     | Raised (Benchmark e) =>
         exists args,
           parse_args argv = Parsed args
           /\ run_benchmark (S := S) fuel env net (sizes args) (trials args)
                (openai_models args) (anthropic_models args) (seed args)
                (anthropic_api_key args) = Raise e
           /\ proc' = proc
     | Raised OSError =>
         exists args rows net' path,
           parse_args argv = Parsed args
           /\ run_benchmark (S := S) fuel env net (sizes args) (trials args)
                (openai_models args) (anthropic_models args) (seed args)
                (anthropic_api_key args) = Ret (rows, net')
           /\ csv args = Some path /\ refused (files proc) path = true
           /\ stdout proc' = print_results_table rows (stdout proc)
     | OutOfFuel => proc' = proc
     | Returned _ _ => False
     end.
Proof.
  unfold main. intros Hmain Hnot.
  destruct (parse_args argv) as [args|c printed].
  - destruct (run_benchmark fuel env net (sizes args) (trials args)
                (openai_models args) (anthropic_models args) (seed args)
                (anthropic_api_key args)) as [[rows n]|e|] eqn:Hrun.
    + cbv zeta in Hmain.
      destruct (csv args) as [path|] eqn:Hcsv.
      * destruct (truthy (Some path)) eqn:Htr.
        -- unfold write_results_csv in Hmain.
           destruct (refused (files proc) path) eqn:Href.
           ++ injection Hmain as <- <-. split; [reflexivity|].
              exists args, rows, n, path. rewrite Hcsv. auto.
           ++ injection Hmain as <- _. exfalso. eapply Hnot. reflexivity.
        -- injection Hmain as <- _. exfalso. eapply Hnot. reflexivity.
      * injection Hmain as <- _. exfalso. eapply Hnot. reflexivity.
    + injection Hmain as <- <-. split; [reflexivity|].
      exists args. auto.
    + injection Hmain as <- <-. split; reflexivity.
  - injection Hmain as <- <-. split; [reflexivity|].
    exists printed. auto.
Qed.

(** X23: on a command line that is accepted, with sizes and a number
    of trials that are positive, a tokenizer that has its base
    encoding and a path that can be opened, [main] returns 0 whatever
    the service answers (or fails to answer): the table is printed,
    the file holds the export, a last line names the path, and the
    rows are those of the requested combinations, in their order, each
    over the number of trials asked for. *)
Theorem main_exports_on_valid_input (fuel : nat) (env : Environment)
    (argv : option (list string)) (net : Net) (proc : Process)
    (args : Namespace) (path : string) :
  tokenizer_ready -> service_sane ->
  parse_args argv = Parsed args ->
  (1 <= trials args < 2 ^ 48)%Z ->
  Forall (fun chars => (1 <= chars < 2 ^ 52)%Z
                       /\ (Z.to_nat chars <= fuel)%nat) (sizes args) ->
  csv args = Some path -> path <> EmptyString ->
  refused (files proc) path = false ->
  exists rows net',
    main (S := S) fuel env argv net proc
    = (Returned 0 net',
       {| stdout := print (print_results_table rows (stdout proc))
                      (str_of_char LF ++ "Wrote CSV to " ++ path);
          files := store path (csv_text rows) (files proc) |})
    /\ map row_key rows
       = requested (sizes args) (openai_models args) (anthropic_models args)
    /\ Forall (fun r => num_trials r = trials args) rows.
Proof.
  intros Hready Hsane Hparse Htrials Hsizes Hcsv Hpath Href.
  destruct (run_benchmark_returns (S := S) env net (openai_models args)
              (anthropic_models args) (seed args) (anthropic_api_key args)
              Hready Hsane Htrials Hsizes) as (rows & net' & Hrun).
  exists rows, net'. split.
  - unfold main. rewrite Hparse, Hrun. cbv zeta. rewrite Hcsv.
    apply truthy_some in Hpath. rewrite Hpath.
    unfold write_results_csv. rewrite Href. reflexivity.
  - unfold run_benchmark in Hrun.
    apply bind_ret_inv in Hrun as (c & _ & Hrun).
    destruct (sizes_loop_keys _ _ _ _ _ _ _ _ _ Hrun)
      as (rows' & E & Hk & Hn).
    cbn [app] in E. subst rows'. split; [exact Hk|].
    eapply Forall_impl; [|exact Hn].
    intros r Hr. cbv beta in Hr. rewrite Hr. lia.
Qed.

End MainFacts.

(* ================================================================== *)
(** * Properties of the number formats                                 *)
(* ================================================================== *)

Section Numerals.
Import Py Float Stats Format Report.
Open Scope string_scope.

Lemma str_app_nil_r (s : string) : s ++ EmptyString = s.
Proof. induction s; simpl; congruence. Qed.

Lemma string_of_revapp (l acc : Decimal.uint) :
  NilEmpty.string_of_uint (Decimal.revapp l acc)
  = NilEmpty.string_of_uint (Decimal.rev l) ++ NilEmpty.string_of_uint acc.
Proof.
  unfold Decimal.rev. revert acc.
  induction l as [|l IH|l IH|l IH|l IH|l IH|l IH|l IH|l IH|l IH|l IH];
    intros acc; cbn [Decimal.revapp];
    [reflexivity | rewrite IH, (IH (_ Decimal.Nil)), str_app_assoc;
                   reflexivity ..].
Qed.

(** The decimal numeral of ten times a positive number: the numeral
    of the number, and a zero. *)
Lemma numeral_tenfold (q : positive) :
  NilEmpty.string_of_uint (Pos.to_uint (10 * q))
  = NilEmpty.string_of_uint (Pos.to_uint q) ++ "0".
Proof.
  unfold Pos.to_uint.
  pose proof (DecimalPos.Unsigned.to_ldec_tenfold q) as Ht.
  change (10 * N.pos q)%N with (N.pos (10 * q)) in Ht.
  cbn [DecimalPos.Unsigned.to_lu] in Ht. rewrite Ht.
  unfold Decimal.rev at 1. cbn [Decimal.revapp].
  now rewrite string_of_revapp.
Qed.

Lemma str_of_int_pos (q : positive) :
  str_of_int (Z.pos q) = NilEmpty.string_of_uint (Pos.to_uint q).
Proof.
  unfold str_of_int. cbn [Z.to_int NilZero.string_of_int].
  unfold NilZero.string_of_uint.
  pose proof (DecimalPos.Unsigned.to_uint_nonnil q).
  destruct (Pos.to_uint q); congruence.
Qed.

Lemma times_snoc (s : string) (n : nat) : times s n ++ s = s ++ times s n.
Proof.
  induction n as [|n IH]; cbn [times]; [now rewrite str_app_nil_r|].
  now rewrite str_app_assoc, IH.
Qed.

Lemma str_of_int_shift (z : Z) (p : nat) :
  (0 < z)%Z ->
  str_of_int (z * 10 ^ Z.of_nat p) = str_of_int z ++ times "0" p.
Proof.
  intros Hz. induction p as [|p IH].
  - change (10 ^ Z.of_nat 0)%Z with 1%Z. rewrite Z.mul_1_r.
    now rewrite str_app_nil_r.
  - rewrite Nat2Z.inj_succ, Z.pow_succ_r by lia.
    replace (z * (10 * 10 ^ Z.of_nat p))%Z
      with (10 * (z * 10 ^ Z.of_nat p))%Z by ring.
    assert (Hpos : (0 < z * 10 ^ Z.of_nat p)%Z)
      by (apply Z.mul_pos_pos; [lia|apply Z.pow_pos_nonneg; lia]).
    destruct (z * 10 ^ Z.of_nat p)%Z as [|q|q] eqn:E; try lia.
    change (10 * Z.pos q)%Z with (Z.pos (10 * q)).
    rewrite str_of_int_pos, numeral_tenfold, <- str_of_int_pos, IH.
    cbn [times]. now rewrite str_app_assoc, times_snoc.
Qed.

Lemma substring_0_length (s t : string) :
  substring 0 (String.length s) (s ++ t) = s.
Proof.
  induction s as [|c s IH]; cbn [String.length append substring].
  - destruct t; reflexivity.
  - now rewrite IH.
Qed.

Lemma substring_skip_length (s t : string) :
  substring (String.length s) (String.length t) (s ++ t) = t.
Proof.
  induction s as [|c s IH]; cbn [String.length append substring].
  - rewrite <- (str_app_nil_r t) at 2. apply substring_0_length.
  - exact IH.
Qed.

Lemma str_of_int_nonempty (z : Z) : (1 <= String.length (str_of_int z))%nat.
Proof.
  unfold str_of_int, NilZero.string_of_int, NilZero.string_of_uint.
  destruct (Z.to_int z) as [d|d]; destruct d; simpl; lia.
Qed.

(** The digits of a whole number of units: the numeral, a point and
    [p] zeros. *)
Lemma fixed_whole (p : nat) (z : Z) :
  (0 <= z)%Z ->
  fixed p (z * 10 ^ Z.of_nat p)
  = str_of_int z ++ match p with
                    | O => EmptyString
                    | _ => "." ++ times "0" p
                    end.
Proof.
  intros Hz. unfold fixed.
  assert (Hds : times "0" (Datatypes.S p
                   - String.length (str_of_int (z * 10 ^ Z.of_nat p)))
                ++ str_of_int (z * 10 ^ Z.of_nat p)
                = str_of_int z ++ times "0" p).
  { destruct (Z.eq_dec z 0) as [->|Hnz].
    - rewrite Z.mul_0_l. change (str_of_int 0) with "0".
      change (String.length "0") with 1%nat.
      replace (Datatypes.S p - 1)%nat with p by lia. apply times_snoc.
    - rewrite str_of_int_shift by lia.
      rewrite length_app, length_times.
      pose proof (str_of_int_nonempty z).
      change (String.length "0") with 1%nat.
      replace (Datatypes.S p - (String.length (str_of_int z) + p * 1))%nat
        with 0%nat by lia.
      reflexivity. }
  rewrite Hds.
  destruct p as [|p]; [reflexivity|].
  rewrite length_app, length_times. change (String.length "0") with 1%nat.
  replace (String.length (str_of_int z) + Datatypes.S p * 1
           - Datatypes.S p)%nat
    with (String.length (str_of_int z)) by lia.
  rewrite substring_0_length.
  pose proof (substring_skip_length (str_of_int z) (times "0" (Datatypes.S p)))
    as Hs.
  rewrite length_times in Hs. change (String.length "0") with 1%nat in Hs.
  replace (Datatypes.S p * 1)%nat with (Datatypes.S p) in Hs by lia.
  now rewrite Hs.
Qed.

(** The float of a count below [2^53] is written as the count. *)
Lemma format_f_of_int (p : nat) (z : Z) (f : float) :
  (0 <= z < 2 ^ 53)%Z -> of_int z = Ret f ->
  format_f p f
  = str_of_int z ++ match p with
                    | O => EmptyString
                    | _ => "." ++ times "0" p
                    end.
Proof.
  intros Hz Hf.
  destruct (Z.eq_dec z 0) as [->|Hnz].
  - rewrite of_int_0 in Hf. apply Ret_inj in Hf. subst f.
    change (format_f p zero) with (fixed p 0).
    pose proof (fixed_whole p (Z.le_refl 0)) as E.
    rewrite Z.mul_0_l in E. exact E.
  - assert (Hd : (1 <= Zdigits2 z <= 53)%Z).
    { pose proof (@Zdigits2_pos z ltac:(lia)).
      assert (Zdigits2 z <= 53)%Z by (apply Zdigits2_le_of_lt_pow; lia).
      lia. }
    destruct (@of_int_pos z) as (m & e & Hof & _ & _ & Hex); try lia.
    destruct (Hex ltac:(lia)) as [He Hm].
    assert (f = S754_finite false m e) as -> by congruence.
    change (format_f p (S754_finite false m e))
      with (fixed p (scaled p (S754_finite false m e))).
    rewrite <- (@fixed_whole p z ltac:(lia)). f_equal.
    cbn [scaled]. rewrite Hm.
    assert (Hb : (0 < 2 ^ (53 - Zdigits2 z))%Z)
      by (apply Z.pow_pos_nonneg; lia).
    destruct (Z.leb_spec 0 e).
    + replace e with 0%Z by lia.
      replace (53 - Zdigits2 z)%Z with 0%Z by lia.
      change (2 ^ 0)%Z with 1%Z. ring.
    + replace (- e)%Z with (53 - Zdigits2 z)%Z by lia.
      unfold div_half_even.
      replace (z * 2 ^ (53 - Zdigits2 z) * 10 ^ Z.of_nat p)%Z
        with (z * 10 ^ Z.of_nat p * 2 ^ (53 - Zdigits2 z))%Z by ring.
      rewrite Z.mod_mul, Z.div_mul by lia.
      destruct (Z.ltb_spec (2 * 0) (2 ^ (53 - Zdigits2 z))); [reflexivity|lia].
Qed.

(** X21: the two percentiles are written as the counts they are: in
    the table ([.0f]) as the count itself, in the export ([.4f]) as
    the count followed by [.0000]. *)
Theorem percentiles_print_exactly (sl pv md : string) (counts : list Z)
    (chars : Z) (r : SampleStats) :
  (llen counts < 2 ^ 48)%Z ->
  Forall (fun x => 0 <= x < 2 ^ 53)%Z counts ->
  summarize_counts sl pv md counts chars = Ret r ->
  exists a b,
    In a counts /\ In b counts
    /\ format_f 0 (p50_tokens r) = str_of_int a
    /\ format_f 4 (p50_tokens r) = str_of_int a ++ ".0000"
    /\ format_f 0 (p95_tokens r) = str_of_int b
    /\ format_f 4 (p95_tokens r) = str_of_int b ++ ".0000".
Proof.
  intros Hlen Hall Hrun.
  destruct (summarize_counts_picks _ _ _ _ _ Hlen Hrun)
    as (_ & a & b & Ha & Hb & Hfa & Hfb).
  assert (Hina : In a counts)
    by (apply In_sorted; eapply nth_error_In; eassumption).
  assert (Hinb : In b counts)
    by (apply In_sorted; eapply nth_error_In; eassumption).
  rewrite Forall_forall in Hall.
  exists a, b. split; [exact Hina|]. split; [exact Hinb|].
  rewrite !(format_f_of_int _ (Hall a Hina) Hfa),
          !(format_f_of_int _ (Hall b Hinb) Hfb).
  cbn [times]. rewrite !str_app_nil_r. repeat split.
Qed.

End Numerals.

(* ================================================================== *)
(** * Fixed-point texts read back *)
(* ================================================================== *)

Section FixedPoint.
Import Py Float Stats Format Report.
Open Scope string_scope.

Lemma length_substring (n m : nat) (s : string) :
  String.length (substring n m s) = Nat.min m (String.length s - n).
Proof.
  revert n m; induction s as [|c s IH]; intros [|n] [|m]; simpl; auto.
  now rewrite IH, Nat.sub_0_r.
Qed.

Lemma substring_skip (s t : string) (m : nat) :
  substring (String.length s) m (s ++ t) = substring 0 m t.
Proof. induction s as [|c s IH]; simpl; auto. Qed.

Lemma substring_0_all (s : string) : substring 0 (String.length s) s = s.
Proof. induction s as [|c s IH]; simpl; congruence. Qed.

Lemma substring_none (n : nat) (s : string) : substring n 0 s = EmptyString.
Proof. revert n; induction s as [|c s IH]; intros [|n]; simpl; auto. Qed.

Lemma substring_split (k : nat) (s : string) :
  (k <= String.length s)%nat ->
  substring 0 k s ++ substring k (String.length s - k) s = s.
Proof.
  revert k; induction s as [|c s IH]; intros [|k] Hk; simpl in *;
    try lia; auto.
  - now rewrite substring_0_all.
  - rewrite IH by lia. reflexivity.
Qed.

Lemma uint_of_zeros (j : nat) (s : string) (d : Decimal.uint) :
  NilEmpty.uint_of_string s = Some d ->
  exists d', NilEmpty.uint_of_string (times "0" j ++ s) = Some d'
             /\ Z.of_uint d' = Z.of_uint d.
Proof.
  intros Hs. induction j as [|j (d' & Hd' & Hv)]; [exists d; auto|].
  exists (Decimal.D0 d'). cbn [times append NilEmpty.uint_of_string].
  rewrite Hd'. split; [reflexivity|exact Hv].
Qed.

(** The digits of a count, with zeros in front, read back as the
    count. *)
Lemma uint_of_digits (j : nat) (n : Z) :
  (0 <= n)%Z ->
  exists d, NilEmpty.uint_of_string (times "0" j ++ str_of_int n) = Some d
            /\ Z.of_uint d = n.
Proof.
  intros Hn.
  assert (Hs : exists d, NilEmpty.uint_of_string (str_of_int n) = Some d
                         /\ Z.of_uint d = n).
  { destruct n as [|q|q]; try lia.
    - exists (Decimal.D0 Decimal.Nil). split; reflexivity.
    - exists (Pos.to_uint q). rewrite str_of_int_pos, NilEmpty.usu.
      split; [reflexivity|]. unfold Z.of_uint.
      now rewrite DecimalPos.Unsigned.of_to. }
  destruct Hs as (d & Hd & Hv).
  destruct (uint_of_zeros j _ Hd) as (d' & Hd' & Hv').
  exists d'. split; [exact Hd'|congruence].
Qed.

Lemma digits_no_minus (c : ascii) (s t : string) (d : Decimal.uint) :
  NilEmpty.uint_of_string (String c s) = Some d ->
  prefix "-" (String c t) = false.
Proof.
  cbn [NilEmpty.uint_of_string prefix]. intros Hd.
  destruct (ascii_dec "-" c) as [<-|_]; [|reflexivity].
  destruct (NilEmpty.uint_of_string s); discriminate.
Qed.

(** Reading what [fixed] writes, with or without a minus sign. *)
Lemma read_fixed_fixed (p : nat) (n : Z) (negative : bool) :
  (0 <= n)%Z ->
  read_fixed p ((if negative then "-" else EmptyString) ++ fixed p n)
  = Some (Qmake ((if negative then -1 else 1) * n)
                (Z.to_pos (10 ^ Z.of_nat p))).
Proof.
  intros Hn.
  set (j := (Datatypes.S p - String.length (str_of_int n))%nat).
  destruct (uint_of_digits j Hn) as (d & Hd & Hv).
  set (ds := times "0" j ++ str_of_int n) in *.
  assert (Hlen : (p + 1 <= String.length ds)%nat).
  { unfold ds, j. rewrite length_app, length_times.
    change (String.length "0") with 1%nat. lia. }
  set (k := (String.length ds - p)%nat).
  assert (Hfix : fixed p n
                 = match p with
                   | O => ds
                   | _ => substring 0 k ds ++ "." ++ substring k p ds
                   end) by reflexivity.
  set (body := fixed p n) in *.
  assert (Hminus : prefix "-" body = false).
  { rewrite Hfix. destruct ds as [|c rest] eqn:Eds; [simpl in Hlen; lia|].
    destruct p as [|p'].
    - eapply digits_no_minus; exact Hd.
    - assert (Hk : (1 <= k)%nat) by (unfold k; simpl in *; lia).
      destruct k as [|k']; [lia|].
      cbn [substring append]. eapply digits_no_minus; exact Hd. }
  assert (Hbody : forall s,
            (s = body \/ s = String "-" body) ->
            (if prefix "-" s
             then substring 1 (String.length s - 1) s else s) = body).
  { intros s [->| ->].
    - now rewrite Hminus.
    - cbn [prefix]. destruct (ascii_dec "-" "-") as [_|Hne]; [|congruence].
      assert (Hp : prefix EmptyString body = true) by (destruct body; reflexivity).
      rewrite Hp. cbn [String.length].
      replace (Datatypes.S (String.length body) - 1)%nat
        with (String.length body) by lia.
      cbn [substring]. apply substring_0_all. }
  assert (Hneg : prefix "-" ((if negative then "-" else EmptyString) ++ body)
                 = negative).
  { destruct negative; cbn [append]; [|exact Hminus].
    cbn [prefix]. destruct (ascii_dec "-" "-") as [_|Hne]; [|congruence].
    destruct body; reflexivity. }
  pose proof (Hbody ((if negative then "-" else EmptyString) ++ body)
                (ltac:(destruct negative; [right|left]; reflexivity)))
    as Hb.
  unfold read_fixed. cbv zeta. rewrite Hb, Hneg.
  assert (Hparse :
    (match p with
     | O => true
     | _ => (substring (String.length body - p
                        - match p with O => 0 | _ => 1 end) 1 body =? ".")
     end = true)
    /\ substring 0 (String.length body - p
                    - match p with O => 0 | _ => 1 end) body
       ++ substring (String.length body - p) p body = ds).
  { rewrite Hfix. destruct p as [|p'].
    - split; [reflexivity|].
      rewrite !Nat.sub_0_r, substring_0_all, substring_none.
      apply str_app_nil_r.
    - set (I := substring 0 k ds). set (F := substring k (Datatypes.S p') ds).
      assert (HI : String.length I = k).
      { unfold I. rewrite length_substring_0. unfold k. lia. }
      assert (HF : String.length F = Datatypes.S p').
      { unfold F. rewrite length_substring. unfold k. lia. }
      assert (HIF : I ++ F = ds).
      { unfold I, F.
        replace (Datatypes.S p') with (String.length ds - k)%nat
          by (unfold k; lia).
        apply substring_split. unfold k. lia. }
      rewrite !length_app, HI, HF. change (String.length ".") with 1%nat.
      replace (k + (1 + Datatypes.S p') - Datatypes.S p' - 1)%nat
        with k by lia.
      replace (k + (1 + Datatypes.S p') - Datatypes.S p')%nat
        with (k + 1)%nat by lia.
      split.
      + rewrite <- HI at 1. rewrite substring_skip.
        cbn [append substring]. now rewrite substring_none.
      + rewrite <- HI at 1. rewrite substring_0_length.
        replace (k + 1)%nat with (String.length (I ++ ".")) 
          by (rewrite length_app, HI; reflexivity).
        rewrite <- HF at 1.
        rewrite <- (str_app_assoc I "." F), substring_skip_length.
        exact HIF. }
  destruct Hparse as [Hpoint Hdigits].
  rewrite Hpoint, Hdigits, Hd, Hv. reflexivity.
Qed.

Open Scope Z_scope.

Lemma div_half_even_spec (a b : Z) :
  0 <= a -> 0 < b ->
  0 <= div_half_even a b
  /\ - b <= 2 * (div_half_even a b * b - a) <= b.
Proof.
  intros Ha Hb. unfold div_half_even.
  pose proof (Z.div_mod a b ltac:(lia)) as Hdm.
  pose proof (Z.mod_pos_bound a b Hb) as Hr.
  assert (Hq : 0 <= a / b) by (apply Z.div_pos; lia).
  destruct (Z.ltb_spec (2 * (a mod b)) b);
    [|destruct (Z.ltb_spec b (2 * (a mod b)));
      [|destruct (Z.even (a / b))]]; nia.
Qed.

(** What [scaled] rounds: the magnitude [M / b] of the float, in units
    of [10^-p]. *)
Lemma scaled_near (p : nat) (x : float) :
  is_finite x = true ->
  exists M b,
    0 <= scaled p x /\ 0 < b /\ 0 <= M
    /\ (to_Q x * inject_Z b == inject_Z (if sign_of x then - M else M))%Q
    /\ - b <= 2 * (scaled p x * b - M * 10 ^ Z.of_nat p) <= b.
Proof.
  assert (HD : 0 < 10 ^ Z.of_nat p) by (apply Z.pow_pos_nonneg; lia).
  destruct x as [s|s| |s m e]; try discriminate; intros _.
  - exists 0, 1. cbn [scaled to_Q sign_of].
    repeat split; try lia. destruct s; reflexivity.
  - cbn [scaled sign_of].
    destruct (Z.leb_spec 0 e) as [He|He].
    + exists (Z.pos m * 2 ^ e), 1.
      assert (0 < 2 ^ e) by (apply Z.pow_pos_nonneg; lia).
      split; [nia|]. split; [lia|]. split; [nia|]. split; [|nia].
      unfold to_Q. rewrite Qmult_1_r.
      rewrite <- (Zpower_Qpower 2 e) by lia.
      rewrite <- inject_Z_mult. destruct s; cbn [cond_Zopp]; f_equiv; ring.
    + exists (Z.pos m), (2 ^ (- e)).
      assert (Hb : 0 < 2 ^ (- e)) by (apply Z.pow_pos_nonneg; lia).
      destruct (@div_half_even_spec (Z.pos m * 10 ^ Z.of_nat p) (2 ^ (- e)))
        as [Hn Hnear]; [nia|lia|].
      split; [exact Hn|]. split; [exact Hb|]. split; [lia|].
      split; [|exact Hnear].
      unfold to_Q. rewrite Zpower_Qpower by lia.
      rewrite <- Qmult_assoc, <- Qpower_plus by discriminate.
      replace (e + - e) with 0 by lia.
      change (Qpower (inject_Z 2) 0) with 1%Q. rewrite Qmult_1_r.
      destruct s; reflexivity.
Qed.

(** The text of a finite float in fixed-point notation reads back as
    a number within half a unit of its last place of the float. *)
Lemma read_fixed_format_f (p : nat) (x : float) :
  is_finite x = true ->
  exists q,
    read_fixed p (format_f p x) = Some q
    /\ (q - (1 # Z.to_pos (2 * 10 ^ Z.of_nat p)) <= to_Q x)%Q
    /\ (to_Q x <= q + (1 # Z.to_pos (2 * 10 ^ Z.of_nat p)))%Q.
Proof.
  intros Hfin.
  destruct (scaled_near p x Hfin) as (M & b & Hn & Hb & HM & HX & Hnear).
  assert (HD : 0 < 10 ^ Z.of_nat p) by (apply Z.pow_pos_nonneg; lia).
  set (D := 10 ^ Z.of_nat p) in *. set (N := scaled p x) in *.
  assert (Hfmt : format_f p x
                 = ((if sign_of x then "-" else EmptyString)
                    ++ fixed p N)%string).
  { destruct x; try discriminate; reflexivity. }
  exists (Qmake ((if sign_of x then -1 else 1) * N) (Z.to_pos D)).
  split; [rewrite Hfmt; now apply read_fixed_fixed|].
  assert (Hq : (Qmake ((if sign_of x then -1 else 1) * N) (Z.to_pos D)
                == inject_Z ((if sign_of x then -1 else 1) * N)
                   / inject_Z D)%Q)
    by (rewrite Qmake_Qdiv, Z2Pos.id by lia; reflexivity).
  assert (Hh : ((1 # Z.to_pos (2 * D)) == 1 / inject_Z (2 * D))%Q)
    by (rewrite Qmake_Qdiv, Z2Pos.id by lia; reflexivity).
  assert (HDne : ~ (inject_Z D == 0)%Q).
  { change 0%Q with (inject_Z 0). rewrite inject_Z_injective. lia. }
  assert (Hbig : (0 < inject_Z (2 * D) * inject_Z b)%Q).
  { rewrite <- inject_Z_mult. change 0%Q with (inject_Z 0).
    rewrite <- Zlt_Qlt. nia. }
  rewrite Hq, Hh.
  set (sN := (if sign_of x then -1 else 1) * N) in *.
  set (sM := if sign_of x then - M else M) in *.
  assert (HR : (to_Q x * (inject_Z (2 * D) * inject_Z b)
                == inject_Z (sM * (2 * D)))%Q).
  { rewrite (inject_Z_mult sM (2 * D)), <- HX. ring. }
  split; apply (Qmult_le_r _ _ _ Hbig); rewrite HR.
  - setoid_replace ((inject_Z sN / inject_Z D - 1 / inject_Z (2 * D))
                    * (inject_Z (2 * D) * inject_Z b))%Q
      with (inject_Z (2 * sN * b + - b))%Q
      by (rewrite inject_Z_plus, inject_Z_opp, !inject_Z_mult;
          change (inject_Z 2) with 2%Q;
          field; exact HDne).
    rewrite <- Zle_Qle. unfold sN, sM. destruct (sign_of x); nia.
  - setoid_replace ((inject_Z sN / inject_Z D + 1 / inject_Z (2 * D))
                    * (inject_Z (2 * D) * inject_Z b))%Q
      with (inject_Z (2 * sN * b + b))%Q
      by (rewrite inject_Z_plus, !inject_Z_mult;
          change (inject_Z 2) with 2%Q;
          field; exact HDne).
    rewrite <- Zle_Qle. unfold sN, sM. destruct (sign_of x); nia.
Qed.

(** X22: the numbers of an exported record, read back from its text,
    are within 0.00005 of the numbers of the row: each of the five
    numeric fields is the float rounded to four decimals. *)
Theorem csv_numbers_accuracy (r : SampleStats) :
  Forall (fun x => is_finite x = true)
         [mean_tokens r; p50_tokens r; p95_tokens r; stdev_tokens r;
          mean_tokens_per_1k_chars r] ->
  Forall2 (fun text x =>
             exists q,
               read_fixed 4 text = Some q
               /\ (q - (1 # 20000) <= to_Q x <= q + (1 # 20000))%Q)
          (skipn 4 (csv_row r))
          [mean_tokens r; p50_tokens r; p95_tokens r; stdev_tokens r;
           mean_tokens_per_1k_chars r].
Proof.
  intros Hfin. cbn [csv_row skipn].
  repeat match goal with
         | H : Forall _ (_ :: _) |- _ => inversion H; subst; clear H
         end.
  repeat constructor;
    match goal with
    | |- exists q, read_fixed 4 (format_f 4 ?x) = _ /\ _ =>
      destruct (@read_fixed_format_f 4 x ltac:(assumption))
        as (q & Hq & Hlo & Hhi);
      exists q; repeat split; assumption
    end.
Qed.

End FixedPoint.

(* ================================================================== *)
(** * The model at work: more concrete runs                            *)
(* ================================================================== *)

Section MoreRuns.
Import Py Text Float Stats Counter Runner Observe Format Report Cli.
Open Scope Z_scope.
Open Scope string_scope.

(** The environment of a process that has the SDK and a key. *)
Let env_live : Environment :=
  {| anthropic_sdk := true; ANTHROPIC_API_KEY := Some "sk-test" |}.

(** The environment of a process that has neither. *)
Let env_bare : Environment :=
  {| anthropic_sdk := false; ANTHROPIC_API_KEY := None |}.

(** The command line of a small run that exports its rows. *)
Let args_of (path : string) : Namespace :=
  {| sizes := [5; 12]; trials := 3; seed := 17;
     openai_models := ["gpt-4o"];
     anthropic_models := ["claude-sonnet-4-20250514"];
     anthropic_api_key := None;
     csv := Some path |}.

(** A process that has printed one line, and cannot open one path. *)
Let proc0 : Process :=
  {| stdout := "ready"; files := empty_but "/locked/out.csv" |}.

(** A text of twenty characters is cut from the words of the source. *)
Lemma generated_text_from_stream_witness :
  1 <= 20
  /\ exists k,
       (1 <= k)%nat
       /\ 20 <= len (join " " (drawn (S := Z) k 17))
       /\ generate_lorem_text_by_chars (S := Z) k 20 17
          = Ret (substring 0 20 (join " " (drawn (S := Z) k 17)),
                 advance (S := Z) k 17).
Proof.
  split; [lia|].
  destruct (@generated_text_from_stream Z lcg 20 17 ltac:(lia))
    as (k & Hk & _ & _ & Hlen & _ & Hrun & _).
  exists k. split; [exact Hk|]. split; [exact Hlen|]. apply Hrun. lia.
Defined.

(** Twenty characters take between two and seven iterations. *)
Lemma generate_iterations_bounds_witness :
  1 <= 20
  /\ (Z.to_nat ((20 + 3) / 3) <= 7)%nat
  /\ 14 * Z.of_nat 1 < 20 + 1
  /\ returns (generate_lorem_text_by_chars (S := Z) 7 20 17)
  /\ generate_lorem_text_by_chars (S := Z) 1 20 17 = Timeout.
Proof.
  split; [lia|]. split; [vm_compute; lia|]. split; [lia|]. split.
  - apply (@generate_iterations_bounds Z lcg 20 17 7); [lia|vm_compute; lia].
  - apply (@generate_iterations_bounds Z lcg 20 17 1); lia.
Defined.

(** A text of forty characters holds letters and single spaces. *)
Lemma generated_text_alphabet_witness :
  exists text rng',
    generate_lorem_text_by_chars (S := Z) 20 40 17 = Ret (text, rng')
    /\ forallb lower_or_space (list_ascii_of_string text) = true
    /\ single_spaced text = true
    /\ starts_unspaced text = true.
Proof.
  eexists. eexists. split; [vm_compute; reflexivity|].
  eapply (@generated_text_alphabet Z lcg 20 40 17).
  vm_compute. reflexivity.
Defined.

(** The text for 5 characters begins the text for 20. *)
Lemma generate_prefix_consistent_witness :
  1 <= 5 <= 20
  /\ exists x1 r1 x2 r2,
       generate_lorem_text_by_chars (S := Z) 5 5 17 = Ret (x1, r1)
       /\ generate_lorem_text_by_chars (S := Z) 20 20 17 = Ret (x2, r2)
       /\ x1 = substring 0 5 x2
       /\ prefix x1 x2 = true.
Proof.
  split; [lia|].
  eexists. eexists. eexists. eexists.
  split; [vm_compute; reflexivity|]. split; [vm_compute; reflexivity|].
  eapply (@generate_prefix_consistent Z lcg 5 20 5 20 17);
    [lia|vm_compute; reflexivity|vm_compute; reflexivity].
Defined.

(** A target of -2 gives a word without its last two characters. *)
Lemma generate_nonpositive_target_witness :
  -2 <= 0
  /\ (1 <= 1)%nat
  /\ exists w,
       In w LOREM_WORDS
       /\ generate_lorem_text_by_chars (S := Z) 1 (-2) 17
          = Ret (slice_to w (-2), advance (S := Z) 1 17)
       /\ len (slice_to w (-2)) = Z.max 0 (len w + -2).
Proof.
  split; [lia|]. split; [lia|].
  destruct (@generate_nonpositive_target Z lcg 1 (-2) 17 ltac:(lia)
              ltac:(lia)) as (w & Hin & _ & Hrun & _ & Hlen & _).
  exists w. split; [exact Hin|]. split; [exact Hrun|exact Hlen].
Defined.

(** Two orders of three counts. *)
Lemma summarize_counts_order_free_witness :
  llen [30; 10; 20] < 2 ^ 48
  /\ Forall (fun x => 0 <= x < 2 ^ 53) [30; 10; 20]
  /\ Permutation [30; 10; 20] [10; 30; 20]
  /\ summarize_counts "100 chars" "openai" "gpt-4o" [30; 10; 20] 100
     = summarize_counts "100 chars" "openai" "gpt-4o" [10; 30; 20] 100.
Proof.
  split; [reflexivity|].
  split; [repeat constructor; discriminate|].
  split; [constructor|].
  apply summarize_counts_order_free;
    [reflexivity|repeat constructor; discriminate|constructor].
Defined.

(** The percentiles of four counts. *)
Lemma percentiles_are_nearest_rank_witness :
  llen [40; 10; 30; 20] < 2 ^ 48
  /\ exists r,
       summarize_counts "100 chars" "openai" "gpt-4o" [40; 10; 30; 20] 100
       = Ret r
       /\ exists a b,
            In a [40; 10; 30; 20] /\ In b [40; 10; 30; 20] /\ a <= b
            /\ of_int a = Ret (p50_tokens r)
            /\ of_int b = Ret (p95_tokens r).
Proof.
  split; [reflexivity|].
  eexists. split; [vm_compute; reflexivity|].
  destruct (@percentiles_are_nearest_rank "100 chars" "openai" "gpt-4o"
              [40; 10; 30; 20] 100 _ ltac:(reflexivity)
              ltac:(vm_compute; reflexivity))
    as (a & b & Ha & Hb & Hab & Ea & Eb & _).
  exists a, b. repeat split; assumption.
Defined.

(** The 95th percentile of four counts is the largest. *)
Lemma p95_is_maximum_under_20_witness :
  llen [10; 40; 30; 20] < 20
  /\ exists r,
       summarize_counts "100 chars" "openai" "gpt-4o" [10; 40; 30; 20] 100
       = Ret r
       /\ of_int (maximum [10; 40; 30; 20]) = Ret (p95_tokens r).
Proof.
  split; [reflexivity|].
  eexists. split; [vm_compute; reflexivity|].
  apply (@p95_is_maximum_under_20 "100 chars" "openai" "gpt-4o"
           [10; 40; 30; 20] 100); [reflexivity|vm_compute; reflexivity].
Defined.

(** A live run and a bare run have the same OpenAI rows. *)
Lemma openai_rows_ignore_anthropic_side_witness :
  exists rows1 n1 rows2 n2,
    @run_benchmark Z lcg unit char_tokenizer nat api_up
      12 env_live 0%nat [5; 12] 3 ["gpt-4o"; "gpt-5"]
      ["claude-sonnet-4-20250514"] 17 None = Ret (rows1, n1)
    /\ @run_benchmark Z lcg unit char_tokenizer nat api_down
         12 env_bare 5%nat [5; 12] 3 ["gpt-4o"; "gpt-5"] [] 17
         (Some "sk-other") = Ret (rows2, n2)
    /\ by_provider "openai" rows1 = by_provider "openai" rows2.
Proof.
  eexists. eexists. eexists. eexists.
  split; [vm_compute; reflexivity|]. split; [vm_compute; reflexivity|].
  eapply (@openai_rows_ignore_anthropic_side Z lcg unit char_tokenizer
            nat nat api_up api_down 12 [5; 12] 3 ["gpt-4o"; "gpt-5"] 17
            env_live env_bare 0%nat 5%nat ["claude-sonnet-4-20250514"] []
            None (Some "sk-other"));
    vm_compute; reflexivity.
Defined.

(** Without the SDK two Anthropic models get the same numbers. *)
Lemma approximate_rows_ignore_model_witness :
  (anthropic_sdk env_bare = false
   \/ truthy (effective_key env_bare None) = false)
  /\ exists rows net',
       @run_benchmark Z lcg unit char_tokenizer nat api_up
         12 env_bare 0%nat [5; 12] 3 ["gpt-5"]
         ["claude-sonnet-4-20250514"; "claude-3-5-haiku-latest"] 17 None
       = Ret (rows, net')
       /\ exists rowss,
            rows = List.concat rowss
            /\ List.length rowss = 2%nat.
Proof.
  split; [left; reflexivity|].
  eexists. eexists. split; [vm_compute; reflexivity|].
  destruct (@approximate_rows_ignore_model Z lcg unit char_tokenizer nat
              api_up 12 env_bare 0%nat [5; 12] 3 ["gpt-5"]
              ["claude-sonnet-4-20250514"; "claude-3-5-haiku-latest"] 17
              None _ _ ltac:(left; reflexivity)
              ltac:(vm_compute; reflexivity))
    as (rowss & Hrows & Hall).
  exists rowss. split; [exact Hrows|].
  symmetry. exact (Forall2_length Hall).
Defined.

(** The requests of a live run on two sizes and one model. *)
Lemma live_requests_in_order_witness :
  exists rows net' textss,
    @run_benchmark Z lcg unit char_tokenizer nat api_up
      12 env_live 0%nat [5; 12] 3 ["gpt-4o"]
      ["claude-sonnet-4-20250514"] 17 None = Ret (rows, net')
    /\ trial_texts (S := Z) 12 3 [5; 12] 17 = Ret textss
    /\ @run_benchmark Z lcg unit char_tokenizer (list request * nat)
         (recording api_up) 12 env_live ([], 0%nat) [5; 12] 3 ["gpt-4o"]
         ["claude-sonnet-4-20250514"] 17 None
       = Ret (rows,
              (requests_for "sk-test" ["claude-sonnet-4-20250514"] textss,
               net')).
Proof.
  eexists. eexists.
  destruct (@live_requests_in_order Z lcg unit char_tokenizer nat api_up
              12 env_live 0%nat [5; 12] 3 ["gpt-4o"]
              ["claude-sonnet-4-20250514"] 17 None _ _
              ltac:(vm_compute; reflexivity))
    as (textss & Htexts & _ & _ & Hlog).
  exists textss. split; [vm_compute; reflexivity|].
  split; [exact Htexts|exact Hlog].
Defined.

(** Two models that the tokenizer does not know, in one run. *)
Lemma unknown_models_counted_alike_witness :
  exists rows net',
    @run_benchmark Z lcg unit char_tokenizer nat api_up
      12 env_live 0%nat [5; 12] 3 ["gpt-5"; "o3"] [] 17 None
    = Ret (rows, net')
    /\ get_openai_encoder_for_model (Enc := unit) "gpt-5"
       = get_openai_encoder_for_model (Enc := unit) "o3"
    /\ exists rowss,
         rows = List.concat rowss /\ List.length rowss = 2%nat.
Proof.
  eexists. eexists. split; [vm_compute; reflexivity|].
  destruct (@unknown_models_counted_alike Z lcg unit char_tokenizer nat
              api_up 12 env_live 0%nat [5; 12] 3 ["gpt-5"; "o3"] [] 17
              None _ _ ltac:(vm_compute; reflexivity))
    as (Hsame & rowss & Hrows & Hall).
  split; [apply Hsame; reflexivity|].
  exists rowss. split; [exact Hrows|].
  symmetry. exact (Forall2_length Hall).
Defined.

(** A run without the base encoding raises, with no Anthropic model. *)
Lemma run_needs_cl100k_base_witness :
  @get_encoding unit models_only "cl100k_base" = None
  /\ @run_benchmark Z lcg unit models_only nat api_up
       12 env_live 0%nat [5; 12] 3 ["gpt-4o"] [] 17 None
     = Raise EncodingError.
Proof.
  split; [reflexivity|].
  apply (@run_needs_cl100k_base Z lcg unit models_only nat api_up).
  reflexivity.
Defined.

(** The mean of four counts. *)
Lemma mean_tokens_accuracy_witness :
  llen [10; 20; 30; 41] < 2 ^ 48
  /\ Forall (fun x => 0 <= x) [10; 20; 30; 41]
  /\ sum [10; 20; 30; 41] < 2 ^ 53
  /\ exists r,
       summarize_counts "100 chars" "openai" "gpt-4o" [10; 20; 30; 41] 100
       = Ret r
       /\ (inject_Z 10 <= to_Q (mean_tokens r) <= inject_Z 41)%Q.
Proof.
  split; [reflexivity|].
  split; [repeat constructor; discriminate|].
  split; [reflexivity|].
  eexists. split; [vm_compute; reflexivity|].
  apply (@mean_tokens_accuracy "100 chars" "openai" "gpt-4o"
           [10; 20; 30; 41] 100);
    [reflexivity|repeat constructor; discriminate|reflexivity
    |vm_compute; reflexivity|].
  repeat constructor; discriminate.
Defined.

(** Three counts of 7. *)
Lemma constant_counts_summary_witness :
  Forall (fun x => x = 7) [7; 7; 7]
  /\ 0 <= 7
  /\ llen [7; 7; 7] * 7 < 2 ^ 53
  /\ llen [7; 7; 7] < 2 ^ 48
  /\ exists r,
       summarize_counts "100 chars" "openai" "gpt-4o" [7; 7; 7] 100 = Ret r
       /\ of_int 7 = Ret (mean_tokens r)
       /\ p50_tokens r = mean_tokens r
       /\ p95_tokens r = mean_tokens r
       /\ stdev_tokens r = zero.
Proof.
  split; [repeat constructor|]. split; [lia|].
  split; [reflexivity|]. split; [reflexivity|].
  eexists. split; [vm_compute; reflexivity|].
  apply (@constant_counts_summary "100 chars" "openai" "gpt-4o"
           [7; 7; 7] 100 7);
    [repeat constructor|lia|reflexivity|reflexivity
    |vm_compute; reflexivity].
Defined.

(** The numbers of a record of four counts are finite. *)
Lemma summary_fields_finite_witness :
  llen [10; 20; 30; 41] < 2 ^ 48
  /\ Forall (fun x => 0 <= x < 2 ^ 53) [10; 20; 30; 41]
  /\ 1 <= 100 < 2 ^ 53
  /\ exists r,
       summarize_counts "100 chars" "openai" "gpt-4o" [10; 20; 30; 41] 100
       = Ret r
       /\ Forall (fun x => is_finite x = true /\ SFleb zero x = true)
            [mean_tokens r; p50_tokens r; p95_tokens r; stdev_tokens r;
             mean_tokens_per_1k_chars r].
Proof.
  split; [reflexivity|].
  split; [repeat constructor; discriminate|].
  split; [split; [lia|reflexivity]|].
  eexists. split; [vm_compute; reflexivity|].
  apply (@summary_fields_finite "100 chars" "openai" "gpt-4o"
           [10; 20; 30; 41] 100);
    [reflexivity|repeat constructor; discriminate
    |split; [lia|reflexivity]|vm_compute; reflexivity].
Defined.

(** The export of a run on two sizes and three models. *)
Lemma csv_of_a_run_witness :
  Forall (fun m => plain m = true) ["gpt-4o"; "gpt-5"]
  /\ Forall (fun m => plain m = true) ["claude-sonnet-4-20250514"]
  /\ exists rows net',
       @run_benchmark Z lcg unit char_tokenizer nat api_up
         12 env_live 0%nat [5; 12] 3 ["gpt-4o"; "gpt-5"]
         ["claude-sonnet-4-20250514"] 17 None = Ret (rows, net')
       /\ List.length rows = 6%nat
       /\ occurrences LF (csv_text rows) = 7%nat
       /\ occurrences COMMA (csv_text rows) = 56%nat
       /\ occurrences QUOTE (csv_text rows) = 0%nat.
Proof.
  split; [repeat constructor|]. split; [repeat constructor|].
  eexists. eexists. split; [vm_compute; reflexivity|].
  destruct (@csv_of_a_run Z lcg unit char_tokenizer nat api_up
              12 env_live 0%nat [5; 12] 3 ["gpt-4o"; "gpt-5"]
              ["claude-sonnet-4-20250514"] 17 None _ _
              ltac:(repeat constructor) ltac:(repeat constructor)
              ltac:(vm_compute; reflexivity))
    as (_ & Hlen & Hlf & Hcomma & Hquote).
  split; [exact Hlen|]. split; [rewrite Hlf, Hlen; reflexivity|].
  split; [rewrite Hcomma, Hlen; reflexivity|exact Hquote].
Defined.

(** A call of [main] that exports its rows returns 0. *)
Lemma main_returns_witness :
  exists code net' proc',
    @main Z lcg unit char_tokenizer nat api_up (parser_of (args_of "out.csv"))
      12 env_live None 0%nat proc0 = (Returned code net', proc')
    /\ code = 0.
Proof.
  eexists. eexists. eexists. split; [vm_compute; reflexivity|].
  eapply (@main_returns Z lcg unit char_tokenizer nat api_up
            (parser_of (args_of "out.csv")) 12 env_live None 0%nat _ proc0).
  vm_compute. reflexivity.
Defined.

(** A call of [main] whose export cannot be opened changes no file. *)
Lemma main_fails_witness :
  exists proc',
    @main Z lcg unit char_tokenizer nat api_up
      (parser_of (args_of "/locked/out.csv")) 12 env_live None 0%nat proc0
    = (Raised OSError, proc')
    /\ (forall code net', @Raised nat OSError <> Returned code net')
    /\ files proc' = files proc0.
Proof.
  eexists. split; [vm_compute; reflexivity|].
  split; [intros code net'; discriminate|].
  eapply (@main_fails Z lcg unit char_tokenizer nat api_up
            (parser_of (args_of "/locked/out.csv")) 12 env_live None 0%nat
            proc0 _ (Raised OSError));
    [vm_compute; reflexivity|intros code net'; discriminate].
Defined.

(** The percentiles of four counts, as they are written. *)
Lemma percentiles_print_exactly_witness :
  llen [10; 20; 30; 41] < 2 ^ 48
  /\ Forall (fun x => 0 <= x < 2 ^ 53) [10; 20; 30; 41]
  /\ exists r,
       summarize_counts "100 chars" "openai" "gpt-4o" [10; 20; 30; 41] 100
       = Ret r
       /\ exists a b,
            In a [10; 20; 30; 41] /\ In b [10; 20; 30; 41]
            /\ format_f 0 (p50_tokens r) = str_of_int a
            /\ format_f 4 (p95_tokens r) = str_of_int b ++ ".0000".
Proof.
  split; [reflexivity|].
  split; [repeat constructor; discriminate|].
  eexists. split; [vm_compute; reflexivity|].
  destruct (@percentiles_print_exactly "100 chars" "openai" "gpt-4o"
              [10; 20; 30; 41] 100 _ ltac:(reflexivity)
              ltac:(repeat constructor; discriminate)
              ltac:(vm_compute; reflexivity))
    as (a & b & Ha & Hb & E1 & _ & _ & E4).
  exists a, b. repeat split; assumption.
Defined.

(** The numbers of an exported record of four counts. *)
Lemma csv_numbers_accuracy_witness :
  exists r,
    summarize_counts "100 chars" "openai" "gpt-4o" [10; 20; 30; 41] 100
    = Ret r
    /\ Forall (fun x => is_finite x = true)
         [mean_tokens r; p50_tokens r; p95_tokens r; stdev_tokens r;
          mean_tokens_per_1k_chars r]
    /\ Forall2 (fun text x =>
                  exists q,
                    read_fixed 4 text = Some q
                    /\ (q - (1 # 20000) <= to_Q x <= q + (1 # 20000))%Q)
         (skipn 4 (csv_row r))
         [mean_tokens r; p50_tokens r; p95_tokens r; stdev_tokens r;
          mean_tokens_per_1k_chars r].
Proof.
  eexists. split; [vm_compute; reflexivity|].
  split; [repeat constructor|].
  apply csv_numbers_accuracy. repeat constructor.
Defined.

(** A call of [main] on a small command line exports six rows. *)
Lemma main_exports_on_valid_input_witness :
  exists rows net',
    @main Z lcg unit char_tokenizer nat api_up
      (parser_of (args_of "out.csv")) 12 env_live None 0%nat proc0
    = (Returned 0 net',
       {| stdout := print (print_results_table rows (stdout proc0))
                      (str_of_char LF ++ "Wrote CSV to out.csv");
          files := store "out.csv" (csv_text rows) (files proc0) |})
    /\ map row_key rows
       = requested [5; 12] ["gpt-4o"] ["claude-sonnet-4-20250514"]
    /\ Forall (fun r => num_trials r = 3) rows.
Proof.
  apply (@main_exports_on_valid_input Z lcg unit char_tokenizer nat api_up
           (parser_of (args_of "out.csv")) 12 env_live None 0%nat proc0
           (args_of "out.csv") "out.csv").
  - exact char_tokenizer_ready.
  - exact api_up_sane.
  - reflexivity.
  - split; [vm_compute; discriminate|reflexivity].
  - repeat (constructor; [split; [split; [lia|reflexivity]|vm_compute; lia]|]).
    constructor.
  - reflexivity.
  - discriminate.
  - reflexivity.
Defined.

End MoreRuns.
